(* ===== verification/_CoqProject ===== *)
-Q . S2P
Prelude.v
GoLib.v
Numerals.v
Path.v
FixedWindow.v
RateLimit.v
Tiers.v
Sql.v
Queue.v
Hub.v
HubInv.v
HubProps.v
Store.v
StoreInv.v
World.v
Auth.v
Conversations.v
Routing.v
Protocol.v
Messages.v
Reactions.v
E2E.v
Push.v
Attachments.v
Middleware.v
Admits.v
System.v
Runs.v
Interleave.v
Effects.v
Demo.v
MessageProps.v
ReactionProps.v
AccountProps.v
ConnectProps.v
RoutingProps.v
SysInv.v
LimiterPair.v
RouteProps.v
DurableProps.v
DeliveryProps.v
RecordProps.v
InterleaveProps.v
AttachProps.v
Ddl.v
Migrate.v
Schema.v
MigrateProps.v
SchemaProps.v
StubProps.v
PgSchema.v
Admin.v
AdminProps.v
Duration.v
Size.v
SizeProps.v
Flag.v
Startup.v
StartupProps.v
Profile.v
ProfileProps.v
Logger.v
Metrics.v
MetricsProps.v
Lifecycle.v
LifecycleProps.v
Main.v
MainProps.v
Commands.v
Tracing.v
Pumps.v
