(* ===== verification/Prelude.v ===== *)
(** * Agent Messenger: a verification development of the Go server

    Agent Messenger connects users and AI agents: both keep a WebSocket to one Go
    process (src/server), which routes chat messages between them, stores them in
    an SQL database, queues what it cannot deliver and offers an HTTP interface
    to the same data.  Two small programs, am-migrate and am-admin, work on the
    same database.  This library models these three programs as executable
    functions and proves what makes them correct.

    ** The parts and how they interact

    A request passes its middlewares (Middleware: request id, CSRF, CORS, rate
    limits, authentication), then a handler, which reads and writes the database
    (Store) and may send to connections (Hub).  A frame of a WebSocket goes to
    [routeMessage] (Routing), which asks the limiters (RateLimit), stores the
    message (Conversations), and hands it to the hub or to the offline queue
    (Queue); push notifications (Push) and the replay of queued messages run as
    goroutines of their own.  System puts them together: the route table and
    the events of the running process; Interleave runs the same handlers step by
    step, overtaking each other; Main is the way from the command line to the
    listening server and back.

    ** Files, and the code they model (paths under src/server)

    - Prelude, GoLib: results, the state monad with [wp], integers of 64 bits,
      strings, JSON, HTTP values; Numerals, Duration, Size, Flag, Path: decimal
      numbers, [time.ParseDuration], [strconv.ParseFloat] with [parseSize] of
      main.go, package flag, [filepath.Clean] and its kin.
    - FixedWindow, RateLimit, Tiers, LimiterPair: the rate limiters of
      middleware.go, auth.go and rate_limit_tiers.go behind the class
      [WindowLimiter].
    - Hub, HubInv, HubProps: the registry of connections of hub.go, its invariant
      and its refinement of a directory; Lifecycle, LifecycleProps: the
      goroutines of hub.go, their channels and [Stop]; Pumps: the two pumps of a
      connection with pings, pongs and deadlines.
    - Queue: queue.go, a refinement of a mailbox.
    - Sql, Store, StoreInv: the tables of dbdriver.go with one function per
      statement the handlers run, and the constraints of the schema as an
      invariant.
    - World: the whole state, [M] (the monad of the handlers), files, sending.
    - Auth (auth.go and the account handlers of handlers.go), Conversations
      (conversations.go), Messages (the message handlers of handlers.go and
      messages_edit_delete.go), Routing (routing.go, queue_persist.go), Protocol
      (protocol.go, presence.go, the two upgrade handlers), Reactions
      (reactions.go, tags.go), E2E (e2e.go), Push (push.go, notif_prefs.go),
      Attachments (attachments.go), Middleware (middleware.go and the tier
      handlers of rate_limit_tiers.go), System (main.go: routes and start).
    - Admits, Runs, Effects: interfaces [Quiet], [Delivers], [Admits], [Runs]
      between the handlers and the properties.  A [Family] of computations that
      has the primitive steps and is closed under the monad has every handler and
      every run.  The families are the relations on states that the steps keep
      (invariants, frame conditions), and the computations made of atomic steps.
    - Interleave, InterleaveProps: that second family gives the program of every
      event, cut where another goroutine can come between; pools of programs.
    - Startup, StartupProps (the environment in main.go, dbdriver.go, push.go,
      tracing.go), Main, MainProps ([main]), Commands (the command lines of
      am-migrate and am-admin), Tracing (tracing.go), Profile, ProfileProps
      (profile.go, profile_handler.go), Logger (logger.go), Metrics, MetricsProps
      (metrics.go, metrics_handler.go, [handleHealth]).
    - Ddl, Migrate, Schema, with MigrateProps, SchemaProps, StubProps:
      cmd/am-migrate and [initSchema] of main.go, their SQL run from its text;
      PgSchema: the schema text for PostgreSQL and its agreement with SQLite's;
      Admin, AdminProps: cmd/am-admin.
    - Demo: a concrete configuration and database, on which witnesses evaluate.

    A function of the model has the name of the Go function; a struct is a record
    with its fields; a map is a [gmap]; connections are references into a heap.

    ** What the theorems show

    - The running server (SysInv, InterleaveProps, MainProps, RouteProps): the
      invariant of the whole state, between any two steps of any interleaving,
      from any start that [main] lets through; that the events one after another
      are such interleavings and every one of them can be finished; which
      requests interfere; what a request without credentials, a cross-site form
      post and a GET request cannot do.
    - Messages (RoutingProps, MessageProps, RecordProps): a frame adds at most one
      message, under the sender's own name; a stored message reaches a device or
      the queue; every branch of creation, editing, deletion, paging, search.
    - Offline delivery (Queue, DurableProps, DeliveryProps): the queue is a mailbox
      read through a window, survives a restart, and is replayed in order into
      the channel of the recipient's next connection.
    - Connections (HubProps, ConnectProps, LifecycleProps, Pumps): who gets one,
      the directory they form, no channel closed twice in any schedule, when
      [Stop] can return and when it hangs; what a send channel accepts is written
      in order, and a peer that answers pings is never timed out.
    - Records (AccountProps, ReactionProps, RecordProps, AttachProps): accounts,
      reactions, one-time keys, preferences, tiers and files.
    - Limits (FixedWindow, RateLimit, Tiers, LimiterPair): bounds for any history.
    - Operation (MigrateProps, SchemaProps, StubProps, PgSchema, AdminProps,
      StartupProps, SizeProps, ProfileProps, MetricsProps): interrupted migrations
      can be resumed, roll back and return, the schema is current after the start
      and the same on both databases, administration is all or nothing, the
      configuration is well formed.

    ** Inputs, bounds and fuel

    Time is an input: each reading of the clock advances it by the head of
    [ticks], an arbitrary list.  Failures are an input: one flag of [faults] per
    statement and file operation.  The order of rows a query leaves open, JWT,
    bcrypt, content sniffing, time formats and the WebSocket handshake are fields
    of [Env], about which a theorem assumes only what it names.  am-migrate and
    am-admin have inputs of their own ([io], [admin_faults], [stdin]).  Theorems
    quantify over all of them.  The theorems about one handler are about a
    handler that is not overtaken; Interleave has the others, with a transaction
    as one step, as on SQLite's single connection.  Lifecycle interleaves the
    hub's goroutines, Pumps those of a connection.  Loops are structural, except
    two: [TrimSpace] and [ParseDuration] take the length of the string as fuel;
    every round consumes a byte ([elements_fuel]).  64-bit arithmetic wraps where
    the code can overflow (the request counter, [itoa], durations,
    [freed_bytes]).

    ** Not modelled

    The behaviour of PostgreSQL (most statements fail on it for their
    placeholders), the sockets under the pumps, log lines, the places where spans
    are opened and the metrics counters counted up (nothing else reads them), the
    wait of [srv.Shutdown], the static files under /chat/, the JSON form of
    fractions, what only tests call ([marshalOutgoingMessage],
    profile_test_helper.go) or nothing reads ([responseWriterWrapper],
    [tierOrder]), and the clients, SDKs and plugins in other languages. *)

From stdpp Require Export base tactics list gmap strings sorting.
From Stdlib Require Export ZArith Lia.

#[global] Set Default Goal Selector "!".
#[global] Open Scope Z_scope.

(** ** Results: Go's [(value, error)] pairs *)

(** The errors the server distinguishes: [sql.ErrNoRows], the constraint
    violations the database driver reports, an I/O failure of the database, and
    the errors the program makes itself with [fmt.Errorf] or [errors.New]. *)
Inductive error :=
  | ErrNoRows
  | ErrUnique
  | ErrForeignKey
  | ErrIO
  | ErrText (msg : string).

Inductive Result (A : Type) :=
  | Ok (a : A)
  | Err (e : error).
Arguments Ok {A} a.
Arguments Err {A} e.

#[global] Instance error_eq_dec : EqDecision error.
Proof. solve_decision. Defined.

(** [err.Error() == s]: only the program's own errors carry such a text. *)
Definition err_is (e : error) (s : string) : bool :=
  match e with ErrText t => bool_decide (t = s) | _ => false end.

(** ** State-passing computations *)

(** [St S A]: a computation over the state [S] with a result in [A].  The
    [mret] and [mbind] instances give the [x ← m ; k] notation. *)
Definition St (S A : Type) : Type := S → A * S.

#[global] Instance St_ret {S} : MRet (St S) := λ A a s, (a, s).
#[global] Instance St_fmap {S} : FMap (St S) := λ A B f m s, (f (m s).1, (m s).2).
#[global] Instance St_bind {S} : MBind (St S) := λ A B k m s, k (m s).1 (m s).2.

(** [wp m Q s]: running [m] from [s] ends in a result and state in [Q]. *)
Definition wp {S A} (m : St S A) (Q : A → S → Prop) (s : S) : Prop :=
  Q (m s).1 (m s).2.

Section wp.
Context {S : Type}.

Lemma wp_ret {A} (a : A) (Q : A → S → Prop) s : Q a s → wp (mret a) Q s.
Proof. done. Qed.

Lemma wp_bind {A B} (m : St S A) (k : A → St S B) Q s :
  wp m (λ a s', wp (k a) Q s') s → wp (m ≫= k) Q s.
Proof. done. Qed.

Lemma wp_mono {A} (m : St S A) (Q Q' : A → S → Prop) s :
  wp m Q s → (∀ a s', Q a s' → Q' a s') → wp m Q' s.
Proof. unfold wp. auto. Qed.

Lemma wp_conj {A} (m : St S A) (Q Q' : A → S → Prop) s :
  wp m Q s → wp m Q' s → wp m (λ a s', Q a s' ∧ Q' a s') s.
Proof. done. Qed.
End wp.

(** ** Lists *)

Lemma filter_true {A} (P : A → Prop) `{∀ x, Decision (P x)} (l : list A) :
  (∀ x, x ∈ l → P x) → filter P l = l.
Proof.
  intros HP. induction l as [|x l IH]; [done|]. rewrite filter_cons_True by (apply HP; left).
  f_equal. apply IH. intros y Hy. apply HP. by right.
Qed.

Lemma filter_false {A} (P : A → Prop) `{∀ x, Decision (P x)} (l : list A) :
  (∀ x, x ∈ l → ¬ P x) → filter P l = [].
Proof.
  intros HP. induction l as [|x l IH]; [done|]. rewrite filter_cons_False by (apply HP; left).
  apply IH. intros y Hy. apply HP. by right.
Qed.
