(* ===== verification/GoLib.v ===== *)
(** * The parts of Go and its standard library the server uses

    Machine integers, the [strings] and [strconv] functions the server calls,
    JSON documents with the struct decoding of [encoding/json], and the
    request and response values of [net/http].  A Go string is a byte string,
    so it is a Rocq [string] (a list of 8-bit characters) and [len] is
    [String.length].  Text that is not ASCII is treated as the bytes it is made
    of, except in [TrimSpace], which knows the encodings of the Unicode spaces. *)

From S2P Require Import Prelude.
From Stdlib Require Import Ascii DecimalString.

(** ** 64-bit integers *)

Definition min_int64 : Z := - 2 ^ 63.
Definition max_int64 : Z := 2 ^ 63 - 1.

(** Two's complement wrap-around of a result to 64 bits. *)
Definition wrap64 (z : Z) : Z := (z + 2 ^ 63) `mod` 2 ^ 64 - 2 ^ 63.

Definition int64_range (z : Z) : Prop := min_int64 ≤ z ≤ max_int64.

Lemma wrap64_id z : int64_range z → wrap64 z = z.
Proof.
  unfold int64_range, wrap64, min_int64, max_int64; intros.
  rewrite Z.mod_small; lia.
Qed.

Lemma wrap64_range z : int64_range (wrap64 z).
Proof.
  unfold int64_range, wrap64, min_int64, max_int64.
  pose proof (Z.mod_pos_bound (z + 2 ^ 63) (2 ^ 64)); lia.
Qed.

(** ** [strings] *)

Definition len (s : string) : Z := Z.of_nat (String.length s).

Definition str_empty (s : string) : bool :=
  match s with EmptyString => true | _ => false end.

Lemma str_empty_true s : str_empty s = true ↔ s = EmptyString.
Proof. by destruct s. Qed.

Lemma str_empty_false s : str_empty s = false ↔ s ≠ EmptyString.
Proof. by destruct s. Qed.

(** [s[n:]] for [n ≤ len s]. *)
Fixpoint drop_str (n : nat) (s : string) : string :=
  match n, s with
  | O, _ => s
  | S n, String _ s => drop_str n s
  | S _, EmptyString => EmptyString
  end.

(** [s[:n]] for [n ≤ len s]. *)
Fixpoint take_str (n : nat) (s : string) : string :=
  match n, s with
  | O, _ => EmptyString
  | S n, String c s => String c (take_str n s)
  | S _, EmptyString => EmptyString
  end.

Definition HasPrefix (s pre : string) : bool := String.prefix pre s.

Definition TrimPrefix (s pre : string) : string :=
  if HasPrefix s pre then drop_str (String.length pre) s else s.

Lemma str_app_nil s : EmptyString +:+ s = s.
Proof. done. Qed.

Lemma str_app_cons c s t : String c s +:+ t = String c (s +:+ t).
Proof. done. Qed.

(** [simpl] does not unfold [+:+]; [go_string] pushes it through constructors. *)
Create Rewrite HintDb go_string.
#[export] Hint Rewrite str_app_nil str_app_cons : go_string.
Ltac simpl_str := repeat (simpl; autorewrite with go_string).

Lemma str_app_assoc (s t u : string) : s +:+ (t +:+ u) = (s +:+ t) +:+ u.
Proof. induction s as [|c s IH]; simpl_str; [done|]. by rewrite IH. Qed.

Lemma take_str_length n s : (String.length (take_str n s) = n `min` String.length s)%nat.
Proof.
  revert s; induction n as [|n IH]; intros s; [done|].
  destruct s; simpl; [done|]. by rewrite IH.
Qed.

Lemma take_drop_str n s : take_str n s +:+ drop_str n s = s.
Proof.
  revert s; induction n as [|n IH]; intros s; [done|].
  destruct s as [|c s]; simpl_str; [done|]. by rewrite IH.
Qed.

Lemma drop_str_app s t : drop_str (String.length s) (s +:+ t) = t.
Proof. induction s; by simpl_str. Qed.

Lemma take_str_app s t : take_str (String.length s) (s +:+ t) = s.
Proof. induction s as [|c s IH]; simpl_str; [by destruct t|]. by rewrite IH. Qed.

Lemma str_app_length s t :
  String.length (s +:+ t) = (String.length s + String.length t)%nat.
Proof. induction s; simpl_str; congruence. Qed.

Lemma HasPrefix_app pre s : HasPrefix (pre +:+ s) pre = true.
Proof.
  unfold HasPrefix. induction pre as [|c pre IH]; simpl_str; [by destruct s|].
  by destruct (ascii_dec c c).
Qed.

Lemma HasPrefix_inv s pre :
  HasPrefix s pre = true → s = pre +:+ drop_str (String.length pre) s.
Proof.
  unfold HasPrefix. revert s; induction pre as [|c pre IH]; intros s H.
  { by destruct s. }
  destruct s as [|d s]; simpl in H; [done|].
  destruct (ascii_dec c d) as [->|]; [|done].
  simpl_str. f_equal. by apply IH.
Qed.

Lemma TrimPrefix_app pre s : TrimPrefix (pre +:+ s) pre = s.
Proof. unfold TrimPrefix. by rewrite HasPrefix_app, drop_str_app. Qed.

(** [strings.Index] and [strings.LastIndex] for a one-byte separator. *)
Fixpoint Index (s : string) (c : ascii) : option nat :=
  match s with
  | EmptyString => None
  | String d s => if decide (c = d) then Some O else S <$> Index s c
  end.

Fixpoint LastIndex (s : string) (c : ascii) : option nat :=
  match s with
  | EmptyString => None
  | String d s =>
      match LastIndex s c with
      | Some i => Some (S i)
      | None => if decide (c = d) then Some O else None
      end
  end.

(** [strings.Split] for a one-byte separator. *)
Fixpoint Split (s : string) (c : ascii) : list string :=
  match s with
  | EmptyString => [EmptyString]
  | String d s =>
      if decide (c = d) then EmptyString :: Split s c
      else match Split s c with
           | [] => [String d EmptyString]
           | x :: xs => String d x :: xs
           end
  end.

Definition comma : ascii := ascii_of_nat 44.

Lemma Split_not_nil s c : Split s c ≠ [].
Proof. destruct s; simpl; [done|]. repeat case_match; done. Qed.

(** The bytes of a string. *)
Definition chars (s : string) : list ascii := String.list_ascii_of_string s.

Lemma chars_app s t : chars (s +:+ t) = chars s ++ chars t.
Proof. unfold chars. induction s as [|c s IH]; simpl_str; [done|]. by rewrite IH. Qed.

Definition HasSuffix (s suf : string) : bool :=
  bool_decide (drop_str (String.length s - String.length suf) s = suf).

Lemma HasSuffix_last s suf c :
  HasSuffix s (suf +:+ String c EmptyString) = true → last (chars s) = Some c.
Proof.
  intros Hs%bool_decide_eq_true. rewrite <-(take_drop_str (String.length s - String.length (suf +:+ String c EmptyString)) s), Hs.
  rewrite !chars_app, app_assoc. apply last_snoc.
Qed.

Lemma Split_absent s c : c ∉ chars s → Split s c = [s].
Proof.
  unfold chars. induction s as [|d s IH]; simpl; [done|]. rewrite not_elem_of_cons. intros [Hd Hs].
  case_decide; [done|]. by rewrite IH.
Qed.

Lemma Split_line a b c :
  c ∉ chars a → Split (a +:+ String c b) c = a :: Split b c.
Proof.
  unfold chars. induction a as [|d a IH]; simpl_str.
  - intros _. by rewrite decide_True by done.
  - rewrite not_elem_of_cons. intros [Hd Ha]. rewrite decide_False by done. by rewrite (IH Ha).
Qed.

Definition slash : ascii := ascii_of_nat 47.
Definition dot : ascii := ascii_of_nat 46.

(** [filepath.Ext]: from the last dot of the last element of the path. *)
Fixpoint Ext (s : string) : string :=
  match s with
  | EmptyString => EmptyString
  | String c s' =>
      if negb (str_empty (Ext s')) then Ext s'
      else if bool_decide (c = dot ∧ slash ∉ chars s') then s else EmptyString
  end.

Lemma Ext_no_slash s : slash ∉ chars (Ext s).
Proof.
  induction s as [|c s IH]; simpl; [by apply not_elem_of_nil|].
  destruct (negb _); [done|]. case_bool_decide as Hd; [|by apply not_elem_of_nil].
  destruct Hd as [-> Hs]. unfold chars in *. simpl. apply not_elem_of_cons. split; [by vm_compute|done].
Qed.

(** [strings.TrimSpace]: the UTF-8 encodings of the characters
    [unicode.IsSpace] accepts, cut off at both ends. *)
Definition space_encodings : list (list nat) :=
  [[9]; [10]; [11]; [12]; [13]; [32]; [194; 133]; [194; 160];
   [225; 154; 128]; [226; 128; 128]; [226; 128; 129]; [226; 128; 130];
   [226; 128; 131]; [226; 128; 132]; [226; 128; 133]; [226; 128; 134];
   [226; 128; 135]; [226; 128; 136]; [226; 128; 137]; [226; 128; 138];
   [226; 128; 168]; [226; 128; 169]; [226; 128; 175]; [226; 129; 159];
   [227; 128; 128]]%nat.

Fixpoint strip_prefix (p l : list nat) : option (list nat) :=
  match p, l with
  | [], _ => Some l
  | x :: p, y :: l => if decide (x = y) then strip_prefix p l else None
  | _ :: _, [] => None
  end.

Fixpoint trim_with (seqs : list (list nat)) (fuel : nat) (l : list nat) : list nat :=
  match fuel with
  | O => l
  | S fuel =>
      match head (omap (λ p, strip_prefix p l) seqs) with
      | Some l' => trim_with seqs fuel l'
      | None => l
      end
  end.

Definition TrimSpace (s : string) : string :=
  let l := nat_of_ascii <$> String.list_ascii_of_string s in
  let l := trim_with space_encodings (length l) l in
  let r := trim_with (reverse <$> space_encodings) (length l) (reverse l) in
  String.string_of_list_ascii (ascii_of_nat <$> reverse r).

Example TrimSpace_ex : TrimSpace "  a b	 " = "a b".
Proof. reflexivity. Qed.

(** [strings.ToLower] on ASCII letters. *)
Definition lower_ascii (c : ascii) : ascii :=
  let n := nat_of_ascii c in
  if decide (65 ≤ n ∧ n ≤ 90)%nat then ascii_of_nat (n + 32) else c.

Fixpoint ToLower (s : string) : string :=
  match s with
  | EmptyString => EmptyString
  | String c s => String (lower_ascii c) (ToLower s)
  end.

(** ** [strconv] *)

(** [fmt.Sprintf("%d", z)]. *)
Definition FormatInt (z : Z) : string := NilZero.string_of_int (Z.to_int z).

(** Digits and the sign. *)
Definition number_char (c : ascii) : Prop :=
  c = ascii_of_nat 45 ∨ (48 ≤ nat_of_ascii c ≤ 57)%nat.

Lemma FormatInt_chars z c : c ∈ chars (FormatInt z) → number_char c.
Proof.
  assert (∀ d, c ∈ chars (NilEmpty.string_of_uint d) → number_char c) as Hu.
  { unfold chars. induction d; simpl; rewrite ?elem_of_cons; [by intros ?%not_elem_of_nil|..];
      (intros [->|Hc]; [right; vm_compute; lia|auto]). }
  assert (∀ d, c ∈ chars (NilZero.string_of_uint d) → number_char c) as Hz.
  { intros []; try apply Hu. unfold chars. simpl. rewrite list_elem_of_singleton. intros ->.
    right. vm_compute. lia. }
  unfold FormatInt. destruct (Z.to_int z) as [d|d]; simpl; [apply Hz|].
  unfold chars. simpl. rewrite elem_of_cons. intros [->|Hc]; [by left|by apply Hz in Hc].
Qed.

(** [fmt.Sprintf("%0wd", z)] for a number that is not negative. *)
Definition FormatPadded (w : nat) (z : Z) : string :=
  let s := FormatInt z in
  String.string_of_list_ascii (replicate (w - String.length s) (ascii_of_nat 48)) +:+ s.

Definition digit_of (c : ascii) : option Z :=
  let n := nat_of_ascii c in
  if decide (48 ≤ n ∧ n ≤ 57)%nat then Some (Z.of_nat n - 48) else None.

(** The value of a digit string read from the left after [acc]. *)
Fixpoint digits_val (s : string) (acc : Z) : option Z :=
  match s with
  | EmptyString => Some acc
  | String c s => d ← digit_of c; digits_val s (10 * acc + d)
  end.

(** [strconv.ParseInt(s, 10, 64)] (and [strconv.Atoi], where [int] has 64
    bits): an optional sign, at least one digit, nothing else, and a value in
    range.  The errors carry no information the server looks at. *)
Definition ParseInt (s : string) : Result Z :=
  let '(neg, ds) :=
    match s with
    | String "+" t => (false, t)
    | String "-" t => (true, t)
    | _ => (false, s)
    end%char in
  if str_empty ds then Err (ErrText "invalid syntax") else
  match digits_val ds 0 with
  | None => Err (ErrText "invalid syntax")
  | Some v =>
      let z := if neg : bool then - v else v in
      if decide (min_int64 ≤ z ≤ max_int64) then Ok z
      else Err (ErrText "value out of range")
  end.

Definition Atoi : string → Result Z := ParseInt.

(** [fmt.Sscanf(s, "%d", &v)] on one integer: leading blanks are skipped, and
    what follows the digits is left unread.  [None] is an error, and leaves [v]. *)
Fixpoint leading_digits (s : string) : string :=
  match s with
  | String c t => match digit_of c with Some _ => String c (leading_digits t) | None => EmptyString end
  | EmptyString => EmptyString
  end.

Fixpoint skip_blanks (s : string) : string :=
  match s with
  | String c t => if decide (nat_of_ascii c ∈ [9; 13; 32]%nat) then skip_blanks t else s
  | EmptyString => EmptyString
  end.

Definition Sscanf_d (s : string) : option Z :=
  let s := skip_blanks s in
  let tok :=
    match s with
    | String "+" t => String "+" (leading_digits t)
    | String "-" t => String "-" (leading_digits t)
    | _ => leading_digits s
    end%char in
  match ParseInt tok with Ok z => Some z | Err _ => None end.

Example Sscanf_d_ex : Sscanf_d " -12abc" = Some (-12) ∧ Sscanf_d "x1" = None.
Proof. split; reflexivity. Qed.

(** ** [time] *)

(** Instants and durations are counted in nanoseconds. *)
Definition Nanosecond : Z := 1.
Definition Second : Z := 10 ^ 9 * Nanosecond.
Definition Minute : Z := 60 * Second.
Definition Hour : Z := 60 * Minute.

(** [int(d.Seconds())]: truncation towards zero. *)
Definition Seconds_int (d : Z) : Z := Z.quot d Second.

(** ** [encoding/json] *)

(** A JSON document.  A number is kept as its literal text.  Where Go handles
    the bytes of a document it made itself, the model handles the document. *)
#[warnings="-register-all"]
Inductive json :=
  | JNull
  | JBool (b : bool)
  | JNum (literal : string)
  | JStr (s : string)
  | JArr (l : list json)
  | JObj (members : list (string * json)).

Definition JInt (z : Z) : json := JNum (FormatInt z).

(** [json.Marshal] of a document, compact and with HTML escaping; characters
    beyond ASCII are copied. *)
Definition hex_digit (n : nat) : ascii :=
  if decide (n < 10)%nat then ascii_of_nat (48 + n) else ascii_of_nat (87 + n).

Definition escape_ascii (c : ascii) : string :=
  let n := nat_of_ascii c in
  match n with
  | 34 => String "\" (String (ascii_of_nat 34) EmptyString)
  | 92 => "\\"
  | 8 => "\b" | 9 => "\t" | 10 => "\n" | 12 => "\f" | 13 => "\r"
  | _ =>
      if decide (n < 32 ∨ n = 38 ∨ n = 60 ∨ n = 62)%nat then
        "\u00" +:+ String (hex_digit (n / 16)) (String (hex_digit (n `mod` 16)) EmptyString)
      else String c EmptyString
  end%nat.

Fixpoint escape (s : string) : string :=
  match s with
  | EmptyString => EmptyString
  | String c s => escape_ascii c +:+ escape s
  end.

Definition quote (s : string) : string :=
  let q := String (ascii_of_nat 34) EmptyString in q +:+ escape s +:+ q.

Fixpoint Marshal (j : json) : string :=
  match j with
  | JNull => "null"
  | JBool b => if b then "true" else "false"
  | JNum lit => lit
  | JStr s => quote s
  | JArr l => "[" +:+ String.concat "," (Marshal <$> l) +:+ "]"
  | JObj ms =>
      "{" +:+ String.concat "," ((λ '(k, v), quote k +:+ ":" +:+ Marshal v) <$> ms) +:+ "}"
  end.

Definition json_type_error : error := ErrText "json: cannot unmarshal".

(** [json.Unmarshal] matches the keys of an object to the fields of a struct
    without regard to the case of ASCII letters. *)
Definition key_matches (field key : string) : bool :=
  bool_decide (ToLower field = ToLower key).

(** Decoding one value into a Go variable that holds [cur]: [null] leaves it. *)
Definition decode_string (cur : string) (j : json) : Result string :=
  match j with
  | JStr s => Ok s
  | JNull => Ok cur
  | _ => Err json_type_error
  end.

Definition decode_int (cur : Z) (j : json) : Result Z :=
  match j with
  | JNum lit => match ParseInt lit with Ok z => Ok z | Err _ => Err json_type_error end
  | JNull => Ok cur
  | _ => Err json_type_error
  end.

Definition decode_strings (cur : list string) (j : json) : Result (list string) :=
  match j with
  | JNull => Ok []
  | JArr l =>
      foldr (λ x acc,
        match decode_string EmptyString x, acc with
        | Ok s, Ok ss => Ok (s :: ss)
        | _, _ => Err json_type_error
        end) (Ok []) l
  | _ => Err json_type_error
  end.

(** Decoding the members named [field] one after the other: the last one wins,
    and a value of the wrong type makes [Unmarshal] fail. *)
Definition decode_field {A} (dec : A → json → Result A) (field : string)
    (zero : A) (ms : list (string * json)) : Result A :=
  foldl (λ acc '(k, v),
    match acc with
    | Err e => Err e
    | Ok cur => if key_matches field k then dec cur v else Ok cur
    end) (Ok zero) ms.

(** The members [Unmarshal] looks at when the target is a struct: [null]
    changes nothing, and only an object is accepted. *)
Definition struct_members (j : json) : Result (list (string * json)) :=
  match j with
  | JObj ms => Ok ms
  | JNull => Ok []
  | _ => Err json_type_error
  end.

#[global] Instance Result_ret : MRet Result := @Ok.
#[global] Instance Result_bind : MBind Result :=
  λ A B k m, match m with Ok a => k a | Err e => Err e end.

#[global] Instance Result_fmap : FMap Result :=
  λ A B f m, match m with Ok a => Ok (f a) | Err e => Err e end.

Lemma fmap_Ok {A B} (f : A → B) (m : Result A) y : f <$> m = Ok y → ∃ x, m = Ok x ∧ f x = y.
Proof. destruct m; simpl; intros; simplify_eq/=; eauto. Qed.

(** ** [net/http] *)

Definition StatusOK : Z := 200.
Definition StatusNoContent : Z := 204.
Definition StatusBadRequest : Z := 400.
Definition StatusUnauthorized : Z := 401.
Definition StatusForbidden : Z := 403.
Definition StatusNotFound : Z := 404.
Definition StatusMethodNotAllowed : Z := 405.
Definition StatusConflict : Z := 409.
Definition StatusTooManyRequests : Z := 429.
Definition StatusInternalServerError : Z := 500.
Definition StatusServiceUnavailable : Z := 503.

(** [http.StatusText] on the codes the server uses. *)
Definition StatusText (code : Z) : string :=
  match code with
  | 200 => "OK" | 204 => "No Content" | 400 => "Bad Request"
  | 401 => "Unauthorized" | 403 => "Forbidden" | 404 => "Not Found"
  | 405 => "Method Not Allowed" | 409 => "Conflict"
  | 429 => "Too Many Requests" | 500 => "Internal Server Error"
  | 503 => "Service Unavailable" | _ => EmptyString
  end.

(** The file of a multipart form: its name without directories, the content type
    its part declares, and its bytes. *)
Record FileHeader := mkFileHeader {
  Filename : string; PartContentType : string; Content_ : string }.

(** A request as the handlers read it: headers and parameters by their
    canonical names, the body decoded as JSON and as a multipart form (with the
    field [file], if there is one), and its size. *)
Record Request := mkRequest {
  Method : string;
  URLPath : string;
  RemoteAddr : string;
  Headers : gmap string string;
  Query : gmap string string;
  PostForm : gmap string string;
  Body : Result json;
  Multipart : Result (option FileHeader);
  BodySize : Z;
  UserIDCtx : option string   (* the value under contextKeyUserID *)
}.

Definition get_str (m : gmap string string) (k : string) : string :=
  default EmptyString (m !! k).

(** [http.CanonicalHeaderKey]: header maps are keyed by this form. *)
Definition upper_ascii (c : ascii) : ascii :=
  let n := nat_of_ascii c in
  if decide (97 ≤ n ∧ n ≤ 122)%nat then ascii_of_nat (n - 32) else c.

Fixpoint canonical_from (upper : bool) (s : string) : string :=
  match s with
  | EmptyString => EmptyString
  | String c s =>
      String (if upper then upper_ascii c else lower_ascii c)
        (canonical_from (bool_decide (nat_of_ascii c = 45%nat)) s)
  end.

Definition CanonicalHeaderKey : string → string := canonical_from true.

Example CanonicalHeaderKey_ex : CanonicalHeaderKey "X-CSRF-token" = "X-Csrf-Token".
Proof. reflexivity. Qed.

(** [r.Header.Get], [r.URL.Query().Get] and [r.FormValue]; the last one prefers
    the body's form over the query for the methods that carry a form. *)
Definition HeaderGet (r : Request) (k : string) : string :=
  get_str (Headers r) (CanonicalHeaderKey k).
Definition QueryGet (r : Request) : string → string := get_str (Query r).
Definition FormValue (r : Request) (k : string) : string :=
  if bool_decide (Method r ∈ ["POST"; "PUT"; "PATCH"]) then
    match PostForm r !! k with Some v => v | None => QueryGet r k end
  else QueryGet r k.

Inductive ResponseBody :=
  | NoBody
  | JSONBody (j : json)
  | TextBody (s : string)
  | FileBody (content : string).

Record Response := mkResponse {
  StatusCode : Z;
  ResHeaders : gmap string string;
  ResBody : ResponseBody
}.

Definition MethodGet : string := "GET".
Definition MethodPost : string := "POST".
Definition MethodDelete : string := "DELETE".
Definition MethodOptions : string := "OPTIONS".
