(* ===== verification/Numerals.v ===== *)
(** * Decimal numerals: printing and reading back *)

From S2P Require Import Prelude GoLib.
From Stdlib Require Import Ascii DecimalPos DecimalString.

Lemma digits_val_acc d acc :
  digits_val (NilEmpty.string_of_uint d) (Z.pos acc) = Some (Z.pos (Pos.of_uint_acc d acc)).
Proof.
  revert acc. induction d; intros acc; simpl; [done|..];
    (rewrite <-IHd; f_equal;
     match goal with |- context [Z.of_nat ?n] =>
       let v := eval vm_compute in (Z.of_nat n) in change (Z.of_nat n) with v end; lia).
Qed.

Lemma digits_val_uint d : digits_val (NilEmpty.string_of_uint d) 0 = Some (Z.of_N (Pos.of_uint d)).
Proof. induction d; simpl; [done|exact IHd|..]; by rewrite <-digits_val_acc. Qed.

(** Strings of digits, which [ParseInt] reads without a sign. *)
Definition digits (s : string) : Prop := Forall (λ c, 48 ≤ nat_of_ascii c ≤ 57)%nat (chars s).

Definition is_digit (c : ascii) : Prop := (48 ≤ nat_of_ascii c ≤ 57)%nat.

(** A string that starts with a digit has no sign. *)
Lemma ParseInt_unsigned c s :
  is_digit c →
  ParseInt (String c s) =
    match digits_val (String c s) 0 with
    | None => Err (ErrText "invalid syntax")
    | Some v => if decide (min_int64 ≤ v ≤ max_int64) then Ok v
                else Err (ErrText "value out of range")
    end.
Proof.
  intros Hc. unfold ParseInt.
  destruct c as [[] [] [] [] [] [] [] []]; try reflexivity; vm_compute in Hc; lia.
Qed.

Lemma digits_ParseInt s v :
  digits s → s ≠ EmptyString → digits_val s 0 = Some v → 0 ≤ v ≤ max_int64 → ParseInt s = Ok v.
Proof.
  intros Hd Hne Hv Hr. destruct s as [|c s]; [done|]. apply Forall_cons in Hd as [Hc _].
  rewrite ParseInt_unsigned by done. rewrite Hv, decide_True; [done|].
  unfold min_int64, max_int64 in *. lia.
Qed.

Lemma digits_val_bad s c t acc : digit_of c = None → digits_val (s +:+ String c t) acc = None.
Proof.
  intros Hc. revert acc. induction s as [|d s IH]; intros acc; simpl_str; simpl.
  - by rewrite Hc.
  - destruct (digit_of d); [apply IH|done].
Qed.

Lemma uint_digits d : digits (NilEmpty.string_of_uint d).
Proof. unfold digits, chars. induction d; simpl; constructor; try done; vm_compute; lia. Qed.

Lemma FormatInt_digits z :
  0 ≤ z → digits (FormatInt z) ∧ digits_val (FormatInt z) 0 = Some z.
Proof.
  intros Hz. unfold FormatInt. destruct z as [|p|p]; [split; [vm_compute|done]| |lia].
  - repeat constructor; lia.
  - simpl. pose proof (Unsigned.of_to p) as Hof.
    assert (NilZero.string_of_uint (Pos.to_uint p) = NilEmpty.string_of_uint (Pos.to_uint p)) as ->.
    { destruct (Pos.to_uint p) eqn:Hd; try done. }
    split; [apply uint_digits|]. by rewrite digits_val_uint, Hof.
Qed.

Lemma digits_val_zeros n s :
  digits_val (String.string_of_list_ascii (replicate n (ascii_of_nat 48)) +:+ s) 0 = digits_val s 0.
Proof. induction n as [|n IH]; [done|]. exact IH. Qed.

Lemma chars_of_list l : chars (String.string_of_list_ascii l) = l.
Proof. apply String.list_ascii_of_string_of_list_ascii. Qed.

(** [Atoi] reads back what [%03d] prints. *)
Lemma Atoi_FormatPadded w v :
  0 ≤ v ≤ max_int64 → Atoi (FormatPadded w v) = Ok v ∧ digits (FormatPadded w v).
Proof.
  intros Hv. destruct (FormatInt_digits v ltac:(lia)) as [Hd Hval].
  assert (digits (FormatPadded w v)) as Hdigits.
  { unfold digits, FormatPadded. rewrite chars_app, chars_of_list. apply Forall_app. split; [|exact Hd].
    apply Forall_replicate. vm_compute. lia. }
  split; [|exact Hdigits]. apply digits_ParseInt; [exact Hdigits| |by unfold FormatPadded; rewrite digits_val_zeros|exact Hv].
  unfold FormatPadded. intros Hnil. apply (f_equal chars) in Hnil. rewrite chars_app in Hnil.
  apply app_eq_nil in Hnil as [_ Hnil]. destruct (FormatInt v) as [|c t] eqn:Hf; [|done].
  simpl in Hval. injection Hval as <-. vm_compute in Hf. discriminate.
Qed.
