(* ===== verification/Path.v ===== *)
(** * [path/filepath] on Unix: [Clean], [Join] and [Dir]

    The lexical processing of paths: the database's directory, the uploads next to
    it, the web client's directory.  A path is cut at its slashes; the components
    are put on a stack. *)

From S2P Require Import Prelude GoLib.
From Stdlib Require Import Ascii.

Module Path.

(** The loop of [Clean]: empty components and "." are dropped, ".." takes back the
    component before it, if there is one that is not "..", and is dropped at the
    root.  The stack is kept upside down. *)
Fixpoint clean_loop (rooted : bool) (stack cs : list string) : list string :=
  match cs with
  | [] => reverse stack
  | c :: cs =>
      if decide (c = EmptyString ∨ c = ".") then clean_loop rooted stack cs
      else if decide (c = "..") then
        match stack with
        | top :: below =>
            if decide (top = "..") then clean_loop rooted (".." :: stack) cs
            else clean_loop rooted below cs
        | [] => if rooted then clean_loop rooted [] cs else clean_loop rooted [".."] cs
        end
      else clean_loop rooted (c :: stack) cs
  end.

Definition rooted (s : string) : bool := HasPrefix s "/".

Definition render (r : bool) (cs : list string) : string :=
  let body := String.concat "/" cs in
  if r then "/" +:+ body else if str_empty body then "." else body.

Definition Clean (s : string) : string :=
  render (rooted s) (clean_loop (rooted s) [] (Split s slash)).

(** Leading empty elements are skipped, and nothing but those is the empty path. *)
Fixpoint drop_empty (elems : list string) : list string :=
  match elems with
  | e :: es => if str_empty e then drop_empty es else elems
  | [] => []
  end.

Definition Join (elems : list string) : string :=
  match drop_empty elems with
  | [] => EmptyString
  | es => Clean (String.concat "/" es)
  end.

(** Everything up to the last slash. *)
Definition Dir (s : string) : string :=
  Clean (match LastIndex s slash with Some i => take_str (S i) s | None => EmptyString end).

Example Clean_ex :
  Clean EmptyString = "." ∧ Clean "a//b/./c/.." = "a/b" ∧ Clean "/../a" = "/a" ∧
  Clean "../../a" = "../../a" ∧ Clean "a/../.." = ".." ∧ Clean "/" = "/" ∧ Clean "./data/" = "data" ∧
  Dir "./data/agent-messenger.db" = "data" ∧ Dir "x.db" = "." ∧ Dir "/x.db" = "/" ∧
  Join ["data"; "uploads"] = "data/uploads" ∧ Join ["."; "uploads"] = "uploads" ∧
  Join [EmptyString; EmptyString] = EmptyString ∧
  Join ["/srv/data"; ".."; "webchat"; "build"] = "/srv/webchat/build".
Proof. split_and!; reflexivity. Qed.

(** ** Normal forms *)

Definition name (c : string) : Prop :=
  c ≠ EmptyString ∧ c ≠ "." ∧ c ≠ ".." ∧ slash ∉ chars c.

(** A stack the loop can have: names above, at a relative path a row of ".."
    below. *)
Inductive stack_ok (r : bool) : list string → Prop :=
  | stack_nil : stack_ok r []
  | stack_name c st : name c → stack_ok r st → stack_ok r (c :: st)
  | stack_up st : r = false → stack_ok r st → (∀ x, head st = Some x → x = "..") →
      stack_ok r (".." :: st).
#[local] Hint Constructors stack_ok : core.

Lemma stack_tail r c st : stack_ok r (c :: st) → stack_ok r st.
Proof. by inversion 1. Qed.

Lemma clean_loop_ok r st cs :
  stack_ok r st → Forall (λ c, slash ∉ chars c) cs →
  ∃ st', clean_loop r st cs = reverse st' ∧ stack_ok r st'.
Proof.
  intros Hst Hcs. revert st Hst. induction Hcs as [|c cs Hc _ IH]; intros st Hst; simpl; [eauto|].
  destruct (decide (c = EmptyString ∨ c = ".")) as [|Hn]; [by apply IH|].
  destruct (decide (c = "..")) as [->|Hup].
  - destruct st as [|top st].
    + destruct r; apply IH; [done|]. constructor; done.
    + destruct (decide (top = "..")) as [->|Ht]; [|apply IH; by apply stack_tail in Hst].
      apply IH. inversion Hst as [|? ? (_ & _ & Hne & _)|? Hr]; subst; [done|].
      constructor; [done..|]. by intros x [= <-].
  - apply IH. constructor; [|done]. unfold name. tauto.
Qed.

Lemma clean_loop_fixed r st cs :
  stack_ok r st → clean_loop r [] (reverse st ++ cs) = clean_loop r st cs.
Proof.
  intros Hst. revert cs. induction Hst as [|c st (H1 & H2 & H3 & _) _ IH|st Hr _ IH Hup];
    intros cs; [done|..]; rewrite reverse_cons, <- app_assoc, IH; simpl.
  - by rewrite decide_False by tauto; rewrite decide_False.
  - rewrite Hr. destruct st as [|x st]; [done|]. by rewrite (Hup x eq_refl).
Qed.

Lemma Split_concat cs :
  Forall (λ c, slash ∉ chars c) cs → cs ≠ [] → Split (String.concat "/" cs) slash = cs.
Proof.
  intros Hcs Hne. induction Hcs as [|c cs Hc Hcs IH]; [done|].
  destruct cs as [|d cs]; [by apply Split_absent|].
  change (String.concat "/" (c :: d :: cs)) with (c +:+ String slash (String.concat "/" (d :: cs))).
  rewrite Split_line by done. by rewrite IH.
Qed.

Lemma Split_components s : Forall (λ c, slash ∉ chars c) (Split s slash).
Proof.
  induction s as [|d s IH]; simpl; [repeat constructor; apply not_elem_of_nil|].
  case_decide as Hd; [constructor; [apply not_elem_of_nil|done]|].
  destruct (Split s slash) as [|x xs].
  - constructor; [|done]. unfold chars. simpl. by rewrite list_elem_of_singleton.
  - apply Forall_cons in IH as [Hx Hxs]. constructor; [|done]. unfold chars in *. simpl.
    rewrite elem_of_cons. tauto.
Qed.

Lemma stack_components r st :
  stack_ok r st → Forall (λ c, slash ∉ chars c ∧ c ≠ EmptyString ∧ c ≠ ".") st.
Proof.
  induction 1 as [|c st (H1 & H2 & _ & H3) _ IH|st _ _ IH _]; constructor; try done.
  split; [|done]. apply (bool_decide_unpack _). vm_compute. exact I.
Qed.

Lemma concat_head c cs : c ≠ EmptyString → ∃ d t, String.concat "/" (c :: cs) = String d t ∧ head (chars c) = Some d.
Proof.
  intros Hc. destruct c as [|d t]; [done|]. exists d. destruct cs; simpl; eauto.
Qed.

(** What a normal form is cut into. *)
Lemma render_split r st :
  stack_ok r st →
  rooted (render r (reverse st)) = r ∧
  clean_loop r [] (Split (render r (reverse st)) slash) = reverse st.
Proof.
  intros Hst. pose proof (stack_components _ _ Hst) as Hc.
  assert (Forall (λ c, slash ∉ chars c) (reverse st)) as Hs
    by (apply Forall_reverse; eapply Forall_impl; [exact Hc|]; simpl; tauto).
  assert (clean_loop r [] (reverse st) = reverse st) as Hfix.
  { rewrite <- (app_nil_r (reverse st)) at 1. by rewrite clean_loop_fixed. }
  destruct (reverse st) as [|c cs] eqn:Hrev; [by destruct r|].
  assert (c ≠ EmptyString ∧ slash ∉ chars c) as [Hne Hsl].
  { apply Forall_reverse in Hc. rewrite Hrev in Hc. apply Forall_cons in Hc as [(? & ? & _) _].
    done. }
  destruct (concat_head c cs Hne) as (d & t & Hcat & Hd).
  assert (Split (String.concat "/" (c :: cs)) slash = c :: cs) as Hsp by by apply Split_concat.
  unfold render. destruct r.
  - split; [apply HasPrefix_app|]. rewrite <- Hsp in Hfix at 1.
    change (Split ("/" +:+ String.concat "/" (c :: cs)) slash)
      with (EmptyString :: Split (String.concat "/" (c :: cs)) slash). exact Hfix.
  - rewrite (proj2 (str_empty_false _)) by (rewrite Hcat; done). rewrite Hsp.
    split; [|exact Hfix]. rewrite Hcat. unfold rooted, HasPrefix. cbn [String.prefix].
    destruct (ascii_dec _ d) as [Heq|]; [|done]. exfalso. apply Hsl.
    destruct (chars c) as [|x l]; [done|]. injection Hd as ->. rewrite <- Heq. left.
Qed.

(** [Clean] is idempotent, and the clean form of a rooted path is
    the root with names below it: no "..", no ".", nothing empty. *)
Theorem Clean_normal s :
  Clean (Clean s) = Clean s ∧
  (rooted s = true → ∃ cs, Clean s = "/" +:+ String.concat "/" cs ∧ Forall name cs).
Proof.
  destruct (clean_loop_ok (rooted s) [] (Split s slash)) as (st & Hst & Hok);
    [constructor|apply Split_components|].
  assert (Clean s = render (rooted s) (reverse st)) as -> by (unfold Clean; by rewrite Hst).
  destruct (render_split _ _ Hok) as [Hr Hsp].
  split; [unfold Clean; by rewrite Hr, Hsp|]. intros Hroot. rewrite Hroot in *.
  exists (reverse st). split; [done|]. apply Forall_reverse. clear -Hok.
  remember true as r eqn:Hr. induction Hok; constructor; congruence || auto.
Qed.

Theorem Clean_normal_witness :
  ∃ cs, Clean "/srv/../etc/./x" = "/" +:+ String.concat "/" cs ∧ Forall name cs.
Proof. apply (Clean_normal "/srv/../etc/./x"). reflexivity. Defined.

(** ** Joining *)

Lemma concat_cons c cs : cs ≠ [] → String.concat "/" (c :: cs) = c +:+ "/" +:+ String.concat "/" cs.
Proof. by destruct cs. Qed.

Lemma concat_app a b :
  a ≠ [] → b ≠ [] →
  String.concat "/" (a ++ b) = String.concat "/" a +:+ "/" +:+ String.concat "/" b.
Proof.
  intros Ha Hb. induction a as [|c a IH]; [done|]. destruct a as [|d a].
  - by apply concat_cons.
  - rewrite concat_cons by done. change ((c :: d :: a) ++ b) with (c :: ((d :: a) ++ b)).
    rewrite concat_cons by done. rewrite IH by done. by rewrite !str_app_assoc.
Qed.

Lemma Clean_render r st : stack_ok r st → Clean (render r (reverse st)) = render r (reverse st).
Proof. intros Hok. destruct (render_split _ _ Hok) as [Hr Hsp]. unfold Clean. by rewrite Hr, Hsp. Qed.

(** A clean path that ends in a name, extended by names. *)
Definition directory (d : string) : Prop :=
  ∃ r c st, stack_ok r (c :: st) ∧ d = render r (reverse (c :: st)).

Lemma render_app r c st cs :
  stack_ok r (c :: st) → cs ≠ [] →
  render r (reverse (c :: st) ++ cs) =
    render r (reverse (c :: st)) +:+ "/" +:+ String.concat "/" cs.
Proof.
  intros Hok Hcs. pose proof (stack_components _ _ Hok) as Hc.
  assert (reverse (c :: st) ≠ []) as Hne by (rewrite reverse_cons; by destruct (reverse st)).
  assert (∀ x, x ∈ reverse (c :: st) → x ≠ EmptyString) as Hx.
  { intros x. rewrite elem_of_reverse. by apply (proj1 (Forall_forall _ _) Hc). }
  unfold render. rewrite concat_app by done. destruct r; [by rewrite !str_app_assoc|].
  destruct (reverse (c :: st)) as [|d ds]; [done|].
  destruct (concat_head d ds) as (e & t & -> & _); [apply Hx; left|]. done.
Qed.

Lemma Join_directory d cs :
  directory d → cs ≠ [] → Forall name cs →
  Join (d :: cs) = String.concat "/" (d :: cs) ∧ directory (Join (d :: cs)).
Proof.
  intros (r & c & st & Hok & ->) Hne Hcs.
  assert (stack_ok r (reverse cs ++ c :: st)) as Hok'.
  { clear Hne. apply Forall_reverse in Hcs. induction Hcs; [done|]. by constructor. }
  assert (reverse (c :: st) ++ cs = reverse (reverse cs ++ c :: st)) as Hrev
    by by rewrite reverse_app, reverse_involutive.
  assert (Join (render r (reverse (c :: st)) :: cs) = render r (reverse (reverse cs ++ c :: st))) as ->.
  { unfold Join. cbn [drop_empty].
    destruct (str_empty (render r (reverse (c :: st)))) eqn:He.
    { exfalso. apply str_empty_true in He. unfold render in He. destruct r; [done|].
      destruct (str_empty _) eqn:He'; [done|]. by rewrite He in He'. }
    rewrite concat_cons, <- render_app, Hrev by done. by apply Clean_render. }
  split.
  - by rewrite concat_cons, <- render_app, Hrev by done.
  - destruct (reverse cs ++ c :: st) as [|c' st'] eqn:Hst.
    { by destruct (reverse cs). }
    by exists r, c', st'.
Qed.

Lemma name_directory n : name n → directory n.
Proof.
  intros Hn. exists false, n, []. split; [apply stack_name; [done|constructor]|]. unfold render. simpl.
  by rewrite (proj2 (str_empty_false n)) by apply Hn.
Qed.

Lemma directory_not_empty d : directory d → d ≠ EmptyString.
Proof.
  intros (r & c & st & _ & ->). unfold render. destruct r; [done|].
  destruct (str_empty _) eqn:He; [done|]. by apply str_empty_false.
Qed.

(** The directory of a file, extended by a name, is such a path. *)
Lemma Join_Dir s n : name n → directory (Join [Dir s; n]).
Proof.
  intros Hn. unfold Dir. set (p := match LastIndex s slash with Some i => _ | None => _ end).
  destruct (clean_loop_ok (rooted p) [] (Split p slash)) as (st & Hst & Hok);
    [constructor|apply Split_components|].
  assert (Clean p = render (rooted p) (reverse st)) as -> by (unfold Clean; by rewrite Hst).
  destruct st as [|c st].
  - exists (rooted p), n, []. split; [apply stack_name; [done|constructor]|].
    destruct Hn as (H1 & H2 & H3 & H4). pose proof (Split_absent n slash H4) as Hs.
    assert (∀ r, clean_loop r [] [n] = [n]) as Hl.
    { intros r. simpl. by rewrite !decide_False by tauto. }
    destruct (rooted p).
    + change (Join [render true (reverse []); n]) with (render true (clean_loop true [] (EmptyString :: EmptyString :: Split n slash))).
      rewrite Hs. simpl clean_loop. exact (f_equal (render true) (Hl true)).
    + change (Join [render false (reverse []); n]) with (render false (clean_loop false [] ("." :: Split n slash))).
      rewrite Hs. exact (f_equal (render false) (Hl false)).
  - apply Join_directory; [by exists (rooted p), c, st|done|]. by apply Forall_singleton.
Qed.
(** ** Joining twice

    The loop, one component at a time. *)
Definition push (r : bool) (st : list string) (c : string) : list string :=
  if decide (c = EmptyString ∨ c = ".") then st
  else if decide (c = "..") then
    match st with
    | top :: below => if decide (top = "..") then ".." :: st else below
    | [] => if r then [] else [".."]
    end
  else c :: st.

Lemma clean_loop_push r st cs : clean_loop r st cs = reverse (foldl (push r) st cs).
Proof.
  revert st. induction cs as [|c cs IH]; intros st; [done|]. simpl. unfold push at 2.
  repeat case_decide; try apply IH. destruct st as [|top below].
  - destruct r; apply IH.
  - case_decide; apply IH.
Qed.

Lemma push_ok cs :
  Forall (λ c, slash ∉ chars c) cs → stack_ok false (foldl (push false) [] cs).
Proof.
  intros Hcs. destruct (clean_loop_ok false [] cs) as (st' & Hst & Hok); [constructor|done|].
  rewrite clean_loop_push in Hst. apply (inj reverse) in Hst. by rewrite Hst.
Qed.

(** Cleaning a relative path first changes nothing. *)
Lemma push_cleaned r st cs :
  Forall (λ c, slash ∉ chars c) cs →
  foldl (push r) st (reverse (foldl (push false) [] cs)) = foldl (push r) st cs.
Proof.
  induction cs as [|c cs IH] using rev_ind; [done|]. intros [Hcs _]%Forall_app.
  specialize (IH Hcs). pose proof (push_ok cs Hcs) as Hok. rewrite !foldl_snoc, <-IH.
  set (k := foldl (push false) [] cs) in *. unfold push at 2 3.
  repeat case_decide; [done| |by rewrite reverse_cons, foldl_snoc; unfold push; rewrite !decide_False].
  destruct k as [|top below]; [by subst c; rewrite foldl_snoc || done|].
  case_decide as Ht.
  - subst. rewrite (reverse_cons (".." :: below)), foldl_snoc. done.
  - rewrite reverse_cons, foldl_snoc. inversion Hok as [|? ? (H1 & H2 & H3 & _)|]; subst; [|done].
    unfold push at 2. rewrite decide_False by tauto. rewrite decide_False by done.
    by rewrite decide_False.
Qed.

Lemma Split_app a b : Split (a +:+ String slash b) slash = Split a slash ++ Split b slash.
Proof.
  induction a as [|c a IH]; [done|]. simpl. rewrite IH. case_decide; [done|].
  pose proof (Split_not_nil a slash). by destruct (Split a slash).
Qed.

Lemma rooted_app a b : a ≠ EmptyString → rooted (a +:+ b) = rooted a.
Proof.
  destruct a as [|d a]; [done|]. intros _. unfold rooted, HasPrefix.
  change (String d a +:+ b) with (String d (a +:+ b)). cbn [String.prefix].
  destruct (ascii_dec _ d); [by destruct a, b|done].
Qed.

Lemma rooted_name n : name n → rooted n = false.
Proof.
  intros (Hne & _ & _ & Hs). destruct n as [|d n]; [done|]. unfold rooted, HasPrefix.
  cbn [String.prefix]. destruct (ascii_dec _ d) as [<-|]; [|done]. destruct Hs. left.
Qed.

Lemma Join_elems e es : e ≠ EmptyString → Join (e :: es) = Clean (String.concat "/" (e :: es)).
Proof. intros He. unfold Join. simpl. by rewrite (proj2 (str_empty_false e)). Qed.

(** [Join(a, Join(b, c)) = Join(a, b, c)], unless [b] starts at the root. *)
Lemma Join_assoc a b c :
  a ≠ EmptyString → b ≠ EmptyString → rooted b = false →
  Join [a; Join [b; c]] = Join [a; b; c].
Proof.
  intros Ha Hb Hr. rewrite !Join_elems by done. set (s := String.concat "/" [b; c]).
  change (Clean (a +:+ String slash (Clean s)) = Clean (a +:+ String slash s)).
  assert (rooted s = false) as Hs by (rewrite <-Hr; by apply rooted_app).
  unfold Clean at 1 3. rewrite !rooted_app, !Split_app by done. f_equal.
  rewrite !clean_loop_push, !foldl_app. f_equal.
  pose proof (Split_components s) as Hc. pose proof (push_ok _ Hc) as Hok.
  rewrite <-(push_cleaned _ _ _ Hc), <-(push_cleaned _ _ _ (Split_components (Clean s))).
  f_equal. rewrite <-clean_loop_push. unfold Clean. rewrite Hs, (clean_loop_push _ [] (Split s slash)).
  apply (render_split _ _ Hok).
Qed.

End Path.
