(* ===== verification/FixedWindow.v ===== *)
(** * Fixed-window rate limiting: the abstract contract

    The server has three rate limiters ([RateLimiter] in middleware.go,
    [rateLimiter] in auth.go and [TieredRateLimiter] in rate_limit_tiers.go).
    This file states what they promise: per identifier, a window opens with the
    first request after the previous one has closed, and at most [cap] requests
    are granted in it.  [WindowLimiter] is the interface; RateLimit.v and
    Tiers.v give its instances, and the bounds below hold for each of them. *)

From S2P Require Import Prelude GoLib.

(** ** The abstract machine *)

Record entry := mkEntry { granted : Z; deadline : Z }.

(** A request for [id] that reads the clock at [t] and, to open a window, again
    at [t']. *)
Definition fw_step (cap win t t' : Z) (id : string) (s : gmap string entry)
    : bool * gmap string entry :=
  match s !! id with
  | Some e =>
      if decide (t ≤ deadline e) then
        if decide (granted e < cap)
        then (true, <[id := mkEntry (granted e + 1) (deadline e)]> s)
        else (false, s)
      else (true, <[id := mkEntry 1 (t' + win)]> s)
  | None => (true, <[id := mkEntry 1 (t' + win)]> s)
  end.

Definition fw_wf (cap : string → Z) (s : gmap string entry) : Prop :=
  map_Forall (λ id e, 0 ≤ granted e ≤ cap id) s.

(** A request with its two clock readings. *)
Record call := mkCall { at1 : Z; at2 : Z; who : string }.

(** ** The interface *)

Class WindowLimiter (L : Type) := {
  wl_allow : Z → Z → string → L → bool * L;
  wl_cap : L → string → Z;
  wl_win : L → string → Z;
  wl_abs : L → gmap string entry;
  wl_inv : L → Prop;
  (** the pairs of readings one request makes: a limiter that reads the clock
      once has equal ones *)
  wl_reads : Z → Z → Prop;
  wl_inv_allow t t' id l : wl_inv l → wl_inv (wl_allow t t' id l).2;
  wl_cap_allow t t' id id' l :
    wl_inv l → wl_cap (wl_allow t t' id l).2 id' = wl_cap l id';
  wl_win_allow t t' id id' l :
    wl_inv l → wl_win (wl_allow t t' id l).2 id' = wl_win l id';
  wl_cap_pos l id : wl_inv l → 1 ≤ wl_cap l id;
  wl_abs_wf l : wl_inv l → fw_wf (wl_cap l) (wl_abs l);
  wl_refines t t' id l :
    wl_inv l → wl_reads t t' →
    fw_step (wl_cap l id) (wl_win l id) t t' id (wl_abs l) =
      ((wl_allow t t' id l).1, wl_abs (wl_allow t t' id l).2)
}.

(** A sequence of requests during which the clock, last read at [t0], does not
    go backwards. *)
Fixpoint timed (L : Type) `{WindowLimiter L} (t0 : Z) (cs : list call) : Prop :=
  match cs with
  | [] => True
  | c :: cs => t0 ≤ at1 c ≤ at2 c ∧ wl_reads (at1 c) (at2 c) ∧ timed L (at2 c) cs
  end.

(** The number of requests of [id] granted between [lo] and [hi] in a run. *)
Fixpoint grants {L} `{WindowLimiter L} (id : string) (lo hi : Z)
    (cs : list call) (l : L) : Z :=
  match cs with
  | [] => 0
  | c :: cs =>
      let '(ok, l') := wl_allow (at1 c) (at2 c) (who c) l in
      (if bool_decide (ok = true ∧ who c = id ∧ lo ≤ at1 c ≤ hi) then 1 else 0)
      + grants id lo hi cs l'
  end.

(** The limiter after a run. *)
Definition runs {L} `{WindowLimiter L} (cs : list call) (l : L) : L :=
  foldl (λ l c, (wl_allow (at1 c) (at2 c) (who c) l).2) l cs.

(** ** What the abstract machine guarantees *)

Lemma fw_step_other cap win t t' id id' s :
  id ≠ id' → (fw_step cap win t t' id s).2 !! id' = s !! id'.
Proof.
  intros Hne. unfold fw_step. repeat case_match; simpl;
    try done; by rewrite lookup_insert_ne.
Qed.

(** What a request does to the entry of [id]: nothing when it is for somebody
    else or rejected; otherwise it opens a window or takes one of the grants
    left in the open one. *)
Inductive entry_step (cap win t t' : Z) : bool → option entry → option entry → Prop :=
  | es_open oe :
      (∀ e, oe = Some e → deadline e < t) →
      entry_step cap win t t' true oe (Some (mkEntry 1 (t' + win)))
  | es_grant e :
      t ≤ deadline e → granted e < cap →
      entry_step cap win t t' true (Some e)
        (Some (mkEntry (granted e + 1) (deadline e)))
  | es_reject e :
      t ≤ deadline e → cap ≤ granted e →
      entry_step cap win t t' false (Some e) (Some e).

Lemma fw_step_entry cap win t t' id s :
  entry_step cap win t t' (fw_step cap win t t' id s).1
    (s !! id) ((fw_step cap win t t' id s).2 !! id).
Proof.
  unfold fw_step. destruct (s !! id) as [e|] eqn:He.
  - repeat case_decide; simpl; rewrite ?lookup_insert_eq, ?He; constructor; naive_solver lia.
  - simpl. rewrite lookup_insert_eq. by constructor.
Qed.

Section bounds.
Context {L : Type} `{!WindowLimiter L}.

Lemma allow_other c id (l : L) :
  wl_inv l → wl_reads (at1 c) (at2 c) → who c ≠ id →
  wl_abs (wl_allow (at1 c) (at2 c) (who c) l).2 !! id = wl_abs l !! id.
Proof.
  intros Hinv Hr Hne. pose proof (wl_refines (at1 c) (at2 c) (who c) l Hinv Hr) as Href.
  apply (f_equal snd) in Href; simpl in Href. rewrite <-Href. by apply fw_step_other.
Qed.

Lemma allow_entry c (l : L) :
  wl_inv l → wl_reads (at1 c) (at2 c) →
  entry_step (wl_cap l (who c)) (wl_win l (who c)) (at1 c) (at2 c)
    (wl_allow (at1 c) (at2 c) (who c) l).1 (wl_abs l !! who c)
    (wl_abs (wl_allow (at1 c) (at2 c) (who c) l).2 !! who c).
Proof.
  intros Hinv Hr. pose proof (wl_refines (at1 c) (at2 c) (who c) l Hinv Hr) as Href.
  pose proof (fw_step_entry (wl_cap l (who c)) (wl_win l (who c)) (at1 c) (at2 c)
    (who c) (wl_abs l)) as Hs. by rewrite Href in Hs.
Qed.

Lemma grants_cons id lo hi c cs (l : L) :
  grants id lo hi (c :: cs) l =
    (if bool_decide ((wl_allow (at1 c) (at2 c) (who c) l).1 = true ∧
                     who c = id ∧ lo ≤ at1 c ≤ hi) then 1 else 0)
    + grants id lo hi cs (wl_allow (at1 c) (at2 c) (who c) l).2.
Proof. simpl. by destruct (wl_allow _ _ _ _). Qed.

(** No request later than [hi] is counted. *)
Lemma grants_late id lo hi cs (l : L) t0 :
  hi < t0 → timed L t0 cs → grants id lo hi cs l = 0.
Proof.
  revert l t0. induction cs as [|c cs IH]; intros l t0 Ht Htimed; [done|].
  destruct Htimed as (? & _ & Htimed). rewrite grants_cons, (IH _ (at2 c)); [|lia|done].
  case_bool_decide; lia.
Qed.

Lemma granted_range l id e :
  wl_inv l → wl_abs l !! id = Some e → 0 ≤ granted e ≤ wl_cap l id.
Proof. intros Hinv He. apply (wl_abs_wf l Hinv id e He). Qed.

(** A bound on [grants] by the state of the window of [id] is proved by one
    step: the bound must hold after each thing a request can do to it. *)
Lemma grants_induct (id : string) (lo hi cap win : Z)
    (B : Z → option entry → Z) cs (l : L) t0 :
  wl_inv l → wl_cap l id = cap → wl_win l id = win → timed L t0 cs →
  (∀ t oe, (∀ e, oe = Some e → 0 ≤ granted e ≤ cap) → 0 ≤ B t oe) →
  (∀ t t1 oe, (∀ e, oe = Some e → 0 ≤ granted e ≤ cap) → t ≤ t1 → B t1 oe ≤ B t oe) →
  (∀ t t1 t2 ok oe oe', t ≤ t1 ≤ t2 → (∀ e, oe = Some e → 0 ≤ granted e ≤ cap) →
    entry_step cap win t1 t2 ok oe oe' →
    (if bool_decide (ok = true ∧ lo ≤ t1 ≤ hi) then 1 else 0) + B t2 oe' ≤ B t oe) →
  grants id lo hi cs l ≤ B t0 (wl_abs l !! id).
Proof.
  intros Hinv Hcap Hwin Htimed Hpos Hmono Hstep. revert l t0 Hinv Hcap Hwin Htimed.
  induction cs as [|c cs IH]; intros l t0 Hinv Hcap Hwin Htimed.
  { simpl. apply Hpos. intros e He. rewrite <-Hcap. by apply granted_range. }
  destruct Htimed as (Hc & Hreads & Htimed). rewrite grants_cons.
  assert (grants id lo hi cs (wl_allow (at1 c) (at2 c) (who c) l).2 ≤
    B (at2 c) (wl_abs (wl_allow (at1 c) (at2 c) (who c) l).2 !! id)) as Hrest.
  { apply IH; auto using wl_inv_allow.
    - by rewrite wl_cap_allow.
    - by rewrite wl_win_allow. }
  destruct (decide (who c = id)) as [<-|Hne].
  - pose proof (allow_entry c l Hinv Hreads) as Hentry. rewrite Hcap, Hwin in Hentry.
    apply (Hstep t0) in Hentry; [|lia|].
    + etrans; [|apply Hentry]. apply Z.add_le_mono; [|done].
      erewrite bool_decide_ext; [reflexivity|]. tauto.
    + intros e He. rewrite <-Hcap. by apply granted_range.
  - rewrite allow_other in Hrest by done. rewrite bool_decide_false by (intros (?&?&?); congruence).
    etrans; [|apply (Hmono t0 (at2 c)); [|lia]]; [lia|].
    intros e He. rewrite <-Hcap. by apply granted_range.
Qed.

(** What can still be granted between [lo] and [lo + win], by the last clock
    reading and the window of the identifier: before [lo] two full windows,
    afterwards the rest of the open window and, if that one closes before
    [lo + win], one more. *)
Definition budget (lo cap win t : Z) (oe : option entry) : Z :=
  if decide (lo + win < t) then 0 else
  if decide (t < lo) then 2 * cap else
  match oe with
  | None => cap
  | Some e => cap - granted e + if decide (deadline e < lo + win) then cap else 0
  end.

Lemma budget_step lo cap win t t1 t2 ok oe oe' :
  1 ≤ cap → t ≤ t1 ≤ t2 → (∀ e, oe = Some e → 0 ≤ granted e ≤ cap) →
  entry_step cap win t1 t2 ok oe oe' →
  (if bool_decide (ok = true ∧ lo ≤ t1 ≤ lo + win) then 1 else 0)
    + budget lo cap win t2 oe' ≤ budget lo cap win t oe.
Proof.
  intros Hcap Ht Hoe Hstep. unfold budget.
  destruct Hstep as [oe Hold|e ? ?|e ? ?].
  - destruct oe as [e|].
    + specialize (Hold e eq_refl). specialize (Hoe e eq_refl).
      case_bool_decide; repeat case_decide; simpl in *; lia.
    + case_bool_decide; repeat case_decide; simpl in *; lia.
  - specialize (Hoe e eq_refl).
    case_bool_decide; repeat case_decide; simpl in *; lia.
  - specialize (Hoe e eq_refl).
    rewrite bool_decide_false by (intros [? ?]; congruence). repeat case_decide; simpl in *; lia.
Qed.

Lemma grants_budget id lo cs (l : L) t0 :
  wl_inv l → timed L t0 cs →
  grants id lo (lo + wl_win l id) cs l ≤
    budget lo (wl_cap l id) (wl_win l id) t0 (wl_abs l !! id).
Proof.
  intros Hinv Htimed. pose proof (wl_cap_pos l id Hinv).
  apply (grants_induct id lo _ (wl_cap l id) (wl_win l id)
    (budget lo (wl_cap l id) (wl_win l id))); try done.
  - intros t [e|] He; unfold budget; [specialize (He e eq_refl)|];
      repeat case_decide; lia.
  - intros t t1 [e|] He Ht; unfold budget; [specialize (He e eq_refl)|];
      repeat case_decide; lia.
  - intros t t1 t2 ok oe oe' Ht Hoe Hs. by apply budget_step.
Qed.

Lemma grants_two_windows id lo cs (l : L) t0 :
  wl_inv l → timed L t0 cs →
  grants id lo (lo + wl_win l id) cs l ≤ 2 * wl_cap l id.
Proof.
  intros Hinv Htimed. etrans; [by eapply grants_budget|].
  pose proof (wl_cap_pos l id Hinv). unfold budget.
  destruct (wl_abs l !! id) as [e|] eqn:He; repeat case_decide; try lia;
    pose proof (granted_range l id e Hinv He); lia.
Qed.

(** Requests of others change nothing for [id]: a run without requests of
    [id] leaves its window as it is. *)
Lemma runs_other id cs (l : L) :
  wl_inv l → Forall (λ c, who c ≠ id ∧ wl_reads (at1 c) (at2 c)) cs →
  wl_abs (runs cs l) !! id = wl_abs l !! id.
Proof.
  intros Hinv Hcs. revert l Hinv. induction Hcs as [|c cs [Hc Hr] Hcs IH]; intros l Hinv; [done|].
  unfold runs in *; simpl. rewrite IH by auto using wl_inv_allow. by apply allow_other.
Qed.

Lemma runs_inv cs (l : L) : wl_inv l → wl_inv (runs cs l).
Proof.
  revert l; induction cs as [|c cs IH]; intros l Hinv; [done|]. apply IH. by apply wl_inv_allow.
Qed.
End bounds.
