(* ===== verification/RateLimit.v ===== *)
(** * The two fixed-limit rate limiters

    [RateLimiter] of middleware.go (WebSocket messages and HTTP requests per
    IP) and [rateLimiter] of auth.go (agent connection attempts).  Each is an
    instance of [WindowLimiter]; their cleanup loops are shown to be invisible
    to every later request. *)

From S2P Require Import Prelude GoLib FixedWindow.

(** ** middleware.go: RateLimiter *)

Module RateLimiter.

Record rateCounter := mkCounter { count : Z; expires : Z }.

Record RateLimiter := mkRateLimiter {
  counters : gmap string rateCounter;
  limit : Z;
  window : Z;
  stopCh_closed : bool
}.

Definition NewRateLimiter (limit window : Z) : RateLimiter :=
  mkRateLimiter ∅ limit window false.

Definition set_counters (f : gmap string rateCounter → gmap string rateCounter)
    (rl : RateLimiter) : RateLimiter :=
  mkRateLimiter (f (counters rl)) (limit rl) (window rl) (stopCh_closed rl).

(** [Stop] closes the channel once; the [select] makes a second call harmless. *)
Definition Stop (rl : RateLimiter) : RateLimiter :=
  if stopCh_closed rl then rl
  else mkRateLimiter (counters rl) (limit rl) (window rl) true.

Definition Allow (now : Z) (id : string) (rl : RateLimiter) : bool * RateLimiter :=
  match counters rl !! id with
  | Some counter =>
      if decide (expires counter < now) then
        (true, set_counters <[id := mkCounter 1 (now + window rl)]> rl)
      else
        let count' := count counter + 1 in
        (bool_decide (¬ limit rl < count'),
         set_counters <[id := mkCounter count' (expires counter)]> rl)
  | None => (true, set_counters <[id := mkCounter 1 (now + window rl)]> rl)
  end.

(** One tick of the background goroutine. *)
Definition cleanup (now : Z) (rl : RateLimiter) : RateLimiter :=
  set_counters (filter (λ '(_, counter), ¬ expires counter < now)) rl.

Definition Reset (rl : RateLimiter) : RateLimiter := set_counters (λ _, ∅) rl.

Definition Count (id : string) (rl : RateLimiter) : Z :=
  match counters rl !! id with Some c => count c | None => 0 end.

(** *** It is a fixed-window limiter *)

(** A limit below one still lets the first request of a window through. *)
Definition cap (rl : RateLimiter) : Z := Z.max 1 (limit rl).

Definition abs (rl : RateLimiter) : gmap string entry :=
  (λ c, mkEntry (Z.min (count c) (cap rl)) (expires c)) <$> counters rl.

Definition inv (rl : RateLimiter) : Prop :=
  map_Forall (λ _ c, 1 ≤ count c) (counters rl).

Lemma inv_new l w : inv (NewRateLimiter l w).
Proof. apply map_Forall_empty. Qed.

Lemma Allow_params now id rl :
  limit (Allow now id rl).2 = limit rl ∧ window (Allow now id rl).2 = window rl.
Proof. unfold Allow. repeat case_match; done. Qed.

Lemma Allow_cap now id rl : cap (Allow now id rl).2 = cap rl.
Proof. unfold cap. by rewrite (proj1 (Allow_params _ _ _)). Qed.

Lemma counters_inv_Allow now id rl : inv rl → inv (Allow now id rl).2.
Proof.
  unfold inv, Allow. intros Hinv.
  destruct (counters rl !! id) as [c|] eqn:Hc; [|by apply map_Forall_insert_2].
  specialize (Hinv _ _ Hc) as Hcount; simpl in Hcount.
  case_decide; simpl; apply map_Forall_insert_2; simpl; auto; lia.
Qed.

Lemma counters_Allow_refines now id rl :
  inv rl →
  fw_step (cap rl) (window rl) now now id (abs rl) =
    ((Allow now id rl).1, abs (Allow now id rl).2).
Proof.
  intros Hinv. unfold fw_step, Allow, abs. rewrite lookup_fmap.
  destruct (counters rl !! id) as [c|] eqn:Hc; simpl.
  - specialize (Hinv _ _ Hc) as Hcount; simpl in Hcount.
    destruct (decide (expires c < now)) as [Hexp|Hexp]; simpl.
    + rewrite decide_False by lia. f_equal. rewrite fmap_insert. do 2 f_equal.
      unfold cap; simpl. lia.
    + rewrite decide_True by lia. rewrite fmap_insert. simpl.
      destruct (decide (Z.min (count c) (cap rl) < cap rl)) as [Hlt|Hlt].
      * rewrite bool_decide_true by (unfold cap in *; lia). f_equal.
        f_equal. f_equal. unfold cap in *; simpl in *. lia.
      * rewrite bool_decide_false by (unfold cap in *; lia). f_equal.
        symmetry. apply insert_id. rewrite lookup_fmap, Hc. simpl. do 2 f_equal.
        unfold cap in *; simpl in *. lia.
  - f_equal. rewrite fmap_insert. do 2 f_equal. unfold cap; simpl. lia.
Qed.

#[export] Program Instance limiter : WindowLimiter RateLimiter := {|
  wl_allow t _ id rl := Allow t id rl;
  wl_cap rl _ := cap rl;
  wl_win rl _ := window rl;
  wl_abs := abs;
  wl_inv := inv;
  wl_reads t t' := t = t'
|}.
Next Obligation. intros. by apply counters_inv_Allow. Qed.
Next Obligation. intros. apply Allow_cap. Qed.
Next Obligation. intros. apply Allow_params. Qed.
Next Obligation. intros. unfold cap. lia. Qed.
Next Obligation.
  intros rl Hinv id e. simpl. unfold abs. rewrite lookup_fmap_Some.
  intros (c & <- & Hc). specialize (Hinv _ _ Hc); simpl in *. unfold cap. lia.
Qed.
Next Obligation. intros t t' id rl Hinv <-. by apply counters_Allow_refines. Qed.

(** Between any instant [lo] and the end of a window that would
    open there, one identifier is granted at most two windows' worth of
    requests, whatever the requests of the others are. *)
Theorem counters_two_windows (id : string) (lo lim win t0 : Z) (cs : list call) :
  timed RateLimiter t0 cs →
  grants id lo (lo + win) cs (NewRateLimiter lim win) ≤ 2 * Z.max 1 lim.
Proof.
  intros Htimed.
  exact (grants_two_windows id lo cs (NewRateLimiter lim win) t0 (inv_new _ _) Htimed).
Qed.

(** The bound is reached: a burst at the end of a window and one after it. *)
Definition edge_burst : list call :=
  [mkCall 0 0 "u"; mkCall 50 50 "u"; mkCall 99 99 "v"; mkCall 101 101 "u"; mkCall 102 102 "u"].

Example counters_two_windows_witness :
  grants "u" 50 150 edge_burst (NewRateLimiter 2 100) = 3 ∧
  grants "u" 50 150 edge_burst (NewRateLimiter 2 100) ≤ 4.
Proof.
  split; [vm_compute; reflexivity|].
  apply (counters_two_windows "u" 50 2 100 0 edge_burst). vm_compute. repeat split; discriminate.
Defined.

(** *** Expired counters are invisible

    Two limiters are equivalent at [t] when they have the same parameters and
    the same counters, those that expired before [t] not counting. *)
Definition live (t : Z) (rl : RateLimiter) (id : string) : option rateCounter :=
  match counters rl !! id with
  | Some c => if decide (expires c < t) then None else Some c
  | None => None
  end.

Record equiv_at (t : Z) (rl1 rl2 : RateLimiter) : Prop := {
  equiv_limit : limit rl1 = limit rl2;
  equiv_window : window rl1 = window rl2;
  equiv_live id : live t rl1 id = live t rl2 id
}.

#[export] Instance equiv_at_equivalence t : Equivalence (equiv_at t).
Proof.
  split.
  - done.
  - by intros ?? [].
  - intros ??? [? ? H1] [? ? H2]. split; [congruence..|]. intros. by rewrite H1, H2.
Qed.

Lemma live_mono t t' rl id :
  t ≤ t' →
  live t' rl id = match live t rl id with
                  | Some c => if decide (expires c < t') then None else Some c
                  | None => None
                  end.
Proof.
  unfold live. intros Ht. destruct (counters rl !! id) as [c|]; [|done].
  repeat case_decide; try done; lia.
Qed.

Lemma equiv_at_mono t t' rl1 rl2 : t ≤ t' → equiv_at t rl1 rl2 → equiv_at t' rl1 rl2.
Proof.
  intros Ht [? ? Hl]. split; [done..|]. intros id. by rewrite !(live_mono t t'), Hl.
Qed.

(** [Allow] sees its state only through the live counters. *)
Lemma counters_Allow_live t id rl :
  Allow t id rl =
    match live t rl id with
    | Some c => (bool_decide (¬ limit rl < count c + 1),
                 set_counters <[id := mkCounter (count c + 1) (expires c)]> rl)
    | None => (true, set_counters <[id := mkCounter 1 (t + window rl)]> rl)
    end.
Proof.
  unfold Allow, live. destruct (counters rl !! id) as [c|]; [|done]. by case_decide.
Qed.

Lemma live_insert t id id' c rl :
  live t (set_counters <[id := c]> rl) id' =
    if decide (id = id') then (if decide (expires c < t) then None else Some c)
    else live t rl id'.
Proof.
  unfold live; simpl. rewrite lookup_insert. by case_decide.
Qed.

#[export] Instance Allow_proper t :
  Proper ((=) ==> equiv_at t ==> prod_relation (=) (equiv_at t)) (Allow t).
Proof.
  intros id ? <- rl1 rl2 [Hlim Hwin Hl]. rewrite !counters_Allow_live, (Hl id), Hlim, Hwin.
  destruct (live t rl2 id) as [c|]; split; simpl; try done;
    (split; [done..|]; intros id'; rewrite !live_insert; by case_decide).
Qed.

(** The answers to a sequence of requests made at the given times. *)
Fixpoint answers (cs : list (Z * string)) (rl : RateLimiter) : list bool :=
  match cs with
  | [] => []
  | (t, id) :: cs => let '(ok, rl') := Allow t id rl in ok :: answers cs rl'
  end.

Fixpoint later_than (t0 : Z) (cs : list (Z * string)) : Prop :=
  match cs with
  | [] => True
  | (t, _) :: cs => t0 ≤ t ∧ later_than t cs
  end.

Lemma answers_proper t cs rl1 rl2 :
  later_than t cs → equiv_at t rl1 rl2 → answers cs rl1 = answers cs rl2.
Proof.
  revert t rl1 rl2. induction cs as [|[t' id] cs IH]; intros t rl1 rl2; [done|].
  intros [Ht Hcs] Heq. simpl. apply (equiv_at_mono _ _ _ _ Ht) in Heq.
  destruct (Allow_proper t' id id eq_refl rl1 rl2 Heq) as [Hok Hrl].
  destruct (Allow t' id rl1) as [ok1 rl1'], (Allow t' id rl2) as [ok2 rl2'].
  simpl in *. subst. f_equal. by apply (IH t').
Qed.

Lemma counters_inv_cleanup t rl : inv rl → inv (cleanup t rl).
Proof. intros Hinv id e [He _]%map_lookup_filter_Some. by apply (Hinv id). Qed.

Lemma cleanup_equiv t rl : equiv_at t (cleanup t rl) rl.
Proof.
  split; [done..|]. intros id. unfold live, cleanup; simpl.
  destruct (counters rl !! id) as [c|] eqn:Hc.
  - case_decide as Hexp.
    + destruct (filter _ _ !! id) eqn:Hf; [|done].
      apply map_lookup_filter_Some in Hf as [? ?]. naive_solver.
    + rewrite (map_lookup_filter_Some_2 _ _ id c); [|done|done]. by rewrite decide_False.
  - by rewrite map_lookup_filter_None_2 by naive_solver.
Qed.

(** Dropping the counters that expired before a tick changes no
    answer to any sequence of requests made at or after the tick. *)
Theorem cleanup_transparent t cs rl :
  later_than t cs → answers cs (cleanup t rl) = answers cs rl.
Proof. intros Hcs. by apply (answers_proper t), cleanup_equiv. Qed.

Example cleanup_transparent_witness :
  answers [(Minute + 5, "a"); (Minute + 6, "b")]
    (cleanup (Minute + 3) (Allow 1 "a" (NewRateLimiter 1 Minute)).2) = [true; true].
Proof.
  rewrite (cleanup_transparent (Minute + 3)); [vm_compute; reflexivity|].
  vm_compute; repeat split; discriminate.
Defined.

Lemma Stop_idempotent rl : Stop (Stop rl) = Stop rl.
Proof. unfold Stop. destruct (stopCh_closed rl) eqn:H; by rewrite ?H. Qed.

Lemma Reset_live t rl id : live t (Reset rl) id = None.
Proof. unfold live. simpl. by rewrite lookup_empty. Qed.

End RateLimiter.

(** ** auth.go: rateLimiter *)

Module AgentLimiter.

Record rateLimitEntry := mkAttempt { count : Z; firstSeen : Z }.

(** The struct has the map and a mutex; the limits are constants. *)
Record rateLimiter := mkAgentLimiter { attempts : gmap string rateLimitEntry }.

Definition maxAgentAttempts : Z := 10.
Definition agentRateWindow : Z := 1 * Minute.

Definition new : rateLimiter := mkAgentLimiter ∅.

(** [now] is the reading of [time.Since], [now'] the one stored as
    [firstSeen]. *)
Definition Allow (now now' : Z) (agentID : string) (r : rateLimiter)
    : bool * rateLimiter :=
  let fresh := (true, mkAgentLimiter (<[agentID := mkAttempt 1 now']> (attempts r))) in
  match attempts r !! agentID with
  | None => fresh
  | Some entry =>
      if decide (agentRateWindow < now - firstSeen entry) then fresh
      else if decide (maxAgentAttempts ≤ count entry) then (false, r)
      else (true, mkAgentLimiter
              (<[agentID := mkAttempt (count entry + 1) (firstSeen entry)]> (attempts r)))
  end.

(** [reading id] is the clock when [Clean] visits the entry of [id]. *)
Definition Clean (reading : string → Z) (r : rateLimiter) : rateLimiter :=
  mkAgentLimiter (filter (λ '(id, entry),
    ¬ agentRateWindow < reading id - firstSeen entry) (attempts r)).

Definition Reset (r : rateLimiter) : rateLimiter := mkAgentLimiter ∅.

Definition abs (r : rateLimiter) : gmap string entry :=
  (λ e, mkEntry (count e) (firstSeen e + agentRateWindow)) <$> attempts r.

Definition inv (r : rateLimiter) : Prop :=
  map_Forall (λ _ e, 1 ≤ count e ≤ maxAgentAttempts) (attempts r).

Lemma attempts_inv_Allow now now' id r : inv r → inv (Allow now now' id r).2.
Proof.
  unfold inv, Allow, maxAgentAttempts. intros Hinv.
  destruct (attempts r !! id) as [e|] eqn:He.
  - specialize (Hinv _ _ He) as Hcount; simpl in Hcount.
    repeat case_decide; simpl; try apply map_Forall_insert_2; simpl; auto; lia.
  - apply map_Forall_insert_2; simpl; [lia|done].
Qed.

Lemma attempts_Allow_refines now now' id r :
  inv r →
  fw_step maxAgentAttempts agentRateWindow now now' id (abs r) =
    ((Allow now now' id r).1, abs (Allow now now' id r).2).
Proof.
  intros Hinv. unfold fw_step, Allow, abs. rewrite lookup_fmap.
  destruct (attempts r !! id) as [e|] eqn:He; simpl.
  - repeat case_decide; simpl in *; rewrite ?fmap_insert; simpl; try done; lia.
  - by rewrite fmap_insert.
Qed.

#[export] Program Instance limiter : WindowLimiter rateLimiter := {|
  wl_allow := Allow;
  wl_cap _ _ := maxAgentAttempts;
  wl_win _ _ := agentRateWindow;
  wl_abs := abs;
  wl_inv := inv;
  wl_reads t t' := t ≤ t'
|}.
Next Obligation. intros. by apply attempts_inv_Allow. Qed.
Next Obligation. done. Qed.
Next Obligation. done. Qed.
Next Obligation. done. Qed.
Next Obligation.
  intros r Hinv id e. simpl. unfold abs. rewrite lookup_fmap_Some.
  intros (c & <- & Hc). specialize (Hinv _ _ Hc); simpl in *. lia.
Qed.
Next Obligation. intros t t' id r Hinv _. by apply attempts_Allow_refines. Qed.

(** An agent id gets at most twenty connection attempts past the
    limiter in any minute, ten per window, from every state the limiter can
    reach and with attempts of other agents in between. *)
Theorem attempts_two_windows (id : string) (lo t0 : Z) (r : rateLimiter) (cs : list call) :
  inv r → timed rateLimiter t0 cs →
  grants id lo (lo + Minute) cs r ≤ 20.
Proof. intros Hinv Htimed. exact (grants_two_windows id lo cs r t0 Hinv Htimed). Qed.

Example attempts_two_windows_witness :
  grants "bot" 0 Minute (replicate 12 (mkCall 5 6 "bot")) new = 10 ∧
  grants "bot" 0 Minute (replicate 12 (mkCall 6 6 "bot")) new ≤ 20.
Proof.
  split; [vm_compute; reflexivity|].
  apply (attempts_two_windows "bot" 0 0 new (replicate 12 (mkCall 6 6 "bot"))).
  - apply map_Forall_empty.
  - vm_compute. repeat split; discriminate.
Defined.

(** Cleaning up does not change what the limiter answers later. *)
Definition live (t : Z) (r : rateLimiter) (id : string) : option rateLimitEntry :=
  match attempts r !! id with
  | Some e => if decide (agentRateWindow < t - firstSeen e) then None else Some e
  | None => None
  end.

Lemma attempts_inv_Clean reading r : inv r → inv (Clean reading r).
Proof. intros Hinv id e [He _]%map_lookup_filter_Some. by apply (Hinv id). Qed.

Lemma Clean_live reading t r id :
  reading id ≤ t → live t (Clean reading r) id = live t r id.
Proof.
  intros Ht. unfold live, Clean; simpl.
  destruct (attempts r !! id) as [e|] eqn:He.
  - case_decide as Hexp.
    + destruct (filter _ _ !! id) eqn:Hf; [|done].
      apply map_lookup_filter_Some in Hf as [Hr ?]. rewrite He in Hr. injection Hr as <-.
      by rewrite decide_True.
    + rewrite (map_lookup_filter_Some_2 _ _ id e); [|done|lia]. by rewrite decide_False.
  - by rewrite map_lookup_filter_None_2 by naive_solver.
Qed.

Lemma attempts_Allow_live t t' id r :
  (Allow t t' id r).1 =
    match live t r id with
    | Some e => bool_decide (count e < maxAgentAttempts)
    | None => true
    end.
Proof.
  unfold Allow, live. destruct (attempts r !! id) as [e|]; [|done].
  repeat case_decide; try done; case_bool_decide; try done; lia.
Qed.

End AgentLimiter.
