(* ===== verification/Tiers.v ===== *)
(** * rate_limit_tiers.go: tiered rate limits

    The per-user limiter of the HTTP API with its free, pro and enterprise
    tiers, and [itoa], the decimal printer of the rate-limit headers. *)

From S2P Require Import Prelude GoLib FixedWindow.
From Stdlib Require Import Ascii.

(** ** itoa *)

(** The digits of [n] are written from the end of a 20-byte buffer; [acc] is
    what [buf[pos:]] holds.  [None] is an index out of range. *)
Fixpoint itoa_loop (pos : nat) (n : Z) (acc : string) : option (nat * string) :=
  if decide (0 < n) then
    match pos with
    | O => None
    | S pos =>
        itoa_loop pos (n `quot` 10)
          (String (ascii_of_nat (Z.to_nat (48 + n `rem` 10))) acc)
    end
  else Some (pos, acc).

Definition itoa (n : Z) : option string :=
  if decide (n = 0) then Some "0" else
  let neg := bool_decide (n < 0) in
  let n := if neg then wrap64 (- n) else n in
  match itoa_loop 20 n EmptyString with
  | None => None
  | Some (pos, acc) =>
      if neg then
        match pos with
        | O => None
        | S _ => Some (String "-" acc)
        end
      else Some acc
  end.

(** A decimal numeral without superfluous zeros. *)
Definition leading_digit (s : string) : Prop :=
  match s with
  | String c _ => ∃ d, digit_of c = Some d ∧ 1 ≤ d ≤ 9
  | EmptyString => False
  end.

Lemma digit_of_ascii d :
  0 ≤ d ≤ 9 → digit_of (ascii_of_nat (Z.to_nat (48 + d))) = Some d.
Proof.
  intros Hd. unfold digit_of. rewrite nat_ascii_embedding by lia.
  rewrite decide_True by lia. f_equal. lia.
Qed.

Lemma quot_rem_10 n :
  0 < n → 0 ≤ n `rem` 10 ≤ 9 ∧ 10 * (n `quot` 10) + n `rem` 10 = n ∧ 0 ≤ n `quot` 10.
Proof.
  intros Hn. pose proof (Z.rem_bound_pos n 10). pose proof (Z.quot_rem' n 10).
  pose proof (Z.quot_pos n 10). lia.
Qed.

Lemma itoa_loop_unfold pos n acc :
  itoa_loop pos n acc =
    if decide (0 < n) then
      match pos with
      | O => None
      | S pos =>
          itoa_loop pos (n `quot` 10)
            (String (ascii_of_nat (Z.to_nat (48 + n `rem` 10))) acc)
      end
    else Some (pos, acc).
Proof. by destruct pos. Qed.

(** With room for [k] digits and [n < 10^k], the loop ends with at most [k]
    bytes used, and the digits it wrote denote [n]. *)
Lemma itoa_loop_spec k pos n acc :
  (k ≤ pos)%nat → 0 ≤ n < 10 ^ Z.of_nat k →
  ∃ pos' s, itoa_loop pos n acc = Some (pos', s) ∧ (pos - k ≤ pos')%nat ∧
    digits_val s 0 = digits_val acc n ∧ (0 < n → leading_digit s).
Proof.
  revert pos n acc. induction k as [|k IH]; intros pos n acc Hpos Hn;
    rewrite itoa_loop_unfold.
  { exists pos, acc. rewrite decide_False by (simpl in Hn; lia).
    split_and!; [done|lia| |lia]. f_equal. simpl in Hn. lia. }
  destruct (decide (0 < n)) as [Hlt|Hle].
  2: { exists pos, acc. split_and!; [done|lia| |lia]. f_equal. lia. }
  destruct pos as [|pos]; [lia|].
  destruct (quot_rem_10 n Hlt) as (Hr & Hqr & Hq).
  destruct (IH pos (n `quot` 10)
    (String (ascii_of_nat (Z.to_nat (48 + n `rem` 10))) acc))
    as (pos' & s & Hs & Hp & Hv & Hlead); [lia| |].
  { rewrite Nat2Z.inj_succ, Z.pow_succ_r in Hn by lia. lia. }
  exists pos', s. split_and!; [done|lia| |].
  - rewrite Hv. simpl. rewrite digit_of_ascii by done. simpl. f_equal. lia.
  - intros _. destruct (decide (0 < n `quot` 10)) as [|Hz]; [auto|].
    rewrite itoa_loop_unfold, decide_False in Hs by done. simplify_eq. simpl.
    eexists. rewrite digit_of_ascii by done. split; [done|lia].
Qed.

Lemma leading_digit_not_sign s :
  leading_digit s →
  str_empty s = false ∧
  ∀ (A : Type) (p m : string → A) (d : A),
    match s with String "+" t => p t | String "-" t => m t | _ => d end%char = d.
Proof.
  destruct s as [|c s]; [done|]. intros (d & Hd & ?). split; [done|]. intros A p m e.
  destruct c as [[] [] [] [] [] [] [] []]; try done; vm_compute in Hd; discriminate.
Qed.

(** On every 64-bit integer but the smallest, [itoa] stays
    inside its 20-byte buffer and prints the canonical decimal numeral that
    [strconv.Atoi] reads back. *)
Theorem itoa_correct n :
  min_int64 < n ≤ max_int64 →
  ∃ s, itoa n = Some s ∧ Atoi s = Ok n ∧
    (s = "0" ∨ leading_digit s ∨ ∃ t, s = String "-" t ∧ leading_digit t).
Proof.
  intros Hn. unfold itoa. destruct (decide (n = 0)) as [->|Hnz].
  { exists "0". split_and!; [done|vm_compute; done|by left]. }
  set (a := if bool_decide (n < 0) then wrap64 (- n) else n).
  assert (a = Z.abs n ∧ 0 < a < 10 ^ 19) as [Ha Hr].
  { unfold a, min_int64, max_int64 in *. case_bool_decide; [rewrite wrap64_id|];
      unfold int64_range, min_int64, max_int64; lia. }
  destruct (itoa_loop_spec 19 20 a EmptyString) as (pos & s & -> & Hpos & Hv & Hlead);
    [lia|simpl; lia|].
  specialize (Hlead ltac:(lia)). simpl in Hv.
  destruct (leading_digit_not_sign s Hlead) as [Hne Hsign].
  case_bool_decide as Hneg.
  - destruct pos as [|pos]; [lia|]. eexists. split_and!; [done| |eauto].
    unfold Atoi, ParseInt. rewrite Hne, Hv. rewrite decide_True; [f_equal; lia|].
    unfold min_int64, max_int64 in *; lia.
  - exists s. split_and!; [done| |eauto]. unfold Atoi, ParseInt. rewrite Hsign, Hne, Hv.
    rewrite decide_True; [f_equal; lia|]. unfold min_int64, max_int64 in *; lia.
Qed.

Example itoa_correct_witness :
  itoa (-1500) = Some "-1500" ∧
  ∃ s, itoa (-1500) = Some s ∧ Atoi s = Ok (-1500) ∧
    (s = "0" ∨ leading_digit s ∨ ∃ t, s = String "-" t ∧ leading_digit t).
Proof.
  split; [vm_compute; reflexivity|]. apply (itoa_correct (-1500)).
  unfold min_int64, max_int64; lia.
Defined.

(** Negating the smallest integer overflows, the digit loop does
    not run, and [itoa] prints a bare minus sign. *)
Theorem itoa_min_int64 : itoa min_int64 = Some "-" ∧ ∃ e, Atoi "-" = Err e.
Proof. split; [vm_compute; reflexivity|]. eexists. vm_compute. reflexivity. Qed.

(** ** Tiers *)

Module Tiered.

(** [PerSecond] is a float in the source; its three values are whole. *)
Record RateLimitTier := mkTier {
  Name : string;
  Burst : Z;
  Window : Z;
  PerSecond : Z
}.

Definition TierFree : RateLimitTier := mkTier "free" 60 Minute 1.
Definition TierPro : RateLimitTier := mkTier "pro" 300 Minute 5.
Definition TierEnterprise : RateLimitTier := mkTier "enterprise" 1500 Minute 25.

#[export] Instance tier_eq_dec : EqDecision RateLimitTier.
Proof. solve_decision. Defined.

Record userRateLimitState := mkUserState {
  count : Z;
  windowEnd : Z;
  tier : RateLimitTier
}.

Record TieredRateLimiter := mkTiered {
  limits : gmap string userRateLimitState;
  stopCh_closed : bool
}.

Definition NewTieredRateLimiter : TieredRateLimiter := mkTiered ∅ false.

Definition set_limits (f : gmap string userRateLimitState → gmap string userRateLimitState)
    (trl : TieredRateLimiter) : TieredRateLimiter :=
  mkTiered (f (limits trl)) (stopCh_closed trl).

Definition Reset (trl : TieredRateLimiter) : TieredRateLimiter := set_limits (λ _, ∅) trl.

Definition Stop (trl : TieredRateLimiter) : TieredRateLimiter :=
  if stopCh_closed trl then trl else mkTiered (limits trl) true.

(** The entry of a user after the lookup and the window reset of [Allow]. *)
Definition current_entry (now : Z) (userID : string) (trl : TieredRateLimiter)
    : userRateLimitState :=
  let entry := match limits trl !! userID with
               | Some entry => entry
               | None => mkUserState 0 (now + Window TierFree) TierFree
               end in
  if decide (windowEnd entry < now) then
    mkUserState 0 (now + Window (tier entry)) (tier entry)
  else entry.

(** The answer is [(allowed, remaining, retryAfterSec)]. *)
Definition Allow (now : Z) (userID : string) (trl : TieredRateLimiter)
    : (bool * Z * Z) * TieredRateLimiter :=
  let entry := current_entry now userID trl in
  let entry := mkUserState (count entry + 1) (windowEnd entry) (tier entry) in
  let trl := set_limits <[userID := entry]> trl in
  let remaining := Burst (tier entry) - count entry in
  let remaining := if decide (remaining < 0) then 0 else remaining in
  if decide (Burst (tier entry) < count entry) then
    let retryAfter := Seconds_int (windowEnd entry - now) + 1 in
    let retryAfter := if decide (retryAfter < 1) then 1 else retryAfter in
    (false, 0, retryAfter, trl)
  else (true, remaining, 0, trl).

Definition SetTier (now : Z) (userID : string) (t : RateLimitTier)
    (trl : TieredRateLimiter) : TieredRateLimiter :=
  match limits trl !! userID with
  | Some _ => set_limits <[userID := mkUserState 0 (now + Window t) t]> trl
  | None => set_limits <[userID := mkUserState 0 (now + Window t) t]> trl
  end.

Definition GetTier (userID : string) (trl : TieredRateLimiter) : RateLimitTier :=
  match limits trl !! userID with
  | Some entry => tier entry
  | None => TierFree
  end.

Definition GetRemaining (now : Z) (userID : string) (trl : TieredRateLimiter) : Z :=
  match limits trl !! userID with
  | None => Burst TierFree
  | Some entry =>
      if decide (windowEnd entry < now) then Burst (tier entry)
      else let remaining := Burst (tier entry) - count entry in
           if decide (remaining < 0) then 0 else remaining
  end.

Definition cleanupOnce (now : Z) (trl : TieredRateLimiter) : TieredRateLimiter :=
  set_limits (filter (λ '(_, entry),
    ¬ (windowEnd entry < now ∧ 10 * Minute < now - windowEnd entry))) trl.

(** The goroutine of the limiter: a cleanup at every tick, until it is stopped. *)
Inductive LoopEvent := Tick (now : Z) | StopSignal.

Fixpoint cleanup (es : list LoopEvent) (trl : TieredRateLimiter) : TieredRateLimiter :=
  match es with
  | [] => trl
  | Tick now :: es => cleanup es (cleanupOnce now trl)
  | StopSignal :: _ => trl
  end.

(** ** Invariant and refinement *)

(** Windows have a length, bursts are positive, counters are not negative. *)
Definition wf_entry (e : userRateLimitState) : Prop :=
  0 ≤ count e ∧ 1 ≤ Burst (tier e) ∧ 0 ≤ Window (tier e).

Definition inv (trl : TieredRateLimiter) : Prop :=
  map_Forall (λ _ e, wf_entry e) (limits trl).

Lemma current_entry_wf now id trl : inv trl → wf_entry (current_entry now id trl).
Proof.
  intros Hinv. unfold current_entry.
  assert (wf_entry match limits trl !! id with
    | Some entry => entry | None => mkUserState 0 (now + Window TierFree) TierFree end) as Hwf.
  { destruct (limits trl !! id) eqn:He; [by apply (Hinv id)|]. by vm_compute. }
  case_decide; [|done]. destruct Hwf as (? & ? & ?). by repeat split.
Qed.

Lemma current_entry_tier now id trl : tier (current_entry now id trl) = GetTier id trl.
Proof.
  unfold current_entry, GetTier. destruct (limits trl !! id); simpl; by case_decide.
Qed.

Lemma Allow_state now id trl :
  (Allow now id trl).2 =
    let e := current_entry now id trl in
    set_limits <[id := mkUserState (count e + 1) (windowEnd e) (tier e)]> trl.
Proof. unfold Allow. simpl. by case_decide. Qed.

Lemma tiered_inv_Allow now id trl : inv trl → inv (Allow now id trl).2.
Proof.
  intros Hinv. rewrite Allow_state. apply map_Forall_insert_2; [|done].
  destruct (current_entry_wf now id trl Hinv) as (? & ? & ?).
  repeat split; simpl; try done; lia.
Qed.

Lemma inv_SetTier now id t trl :
  1 ≤ Burst t → 0 ≤ Window t → inv trl → inv (SetTier now id t trl).
Proof.
  intros ? ? Hinv. unfold SetTier.
  assert (inv (set_limits <[id:=mkUserState 0 (now + Window t) t]> trl)).
  { apply map_Forall_insert_2; [|done]. repeat split; simpl; lia. }
  by case_match.
Qed.

Lemma inv_cleanupOnce now trl : inv trl → inv (cleanupOnce now trl).
Proof. intros Hinv id e [He _]%map_lookup_filter_Some. by apply (Hinv id). Qed.

Lemma inv_cleanup es trl : inv trl → inv (cleanup es trl).
Proof.
  revert trl. induction es as [|[now|] es IH]; intros trl Hi; simpl; [done| |done].
  by apply IH, inv_cleanupOnce.
Qed.

Lemma GetTier_Allow now id id' trl : GetTier id' (Allow now id trl).2 = GetTier id' trl.
Proof.
  rewrite Allow_state. unfold GetTier at 1. simpl. rewrite lookup_insert.
  case_decide as Hid; [|done]. subst. simpl. apply current_entry_tier.
Qed.

Definition abs_entry (e : userRateLimitState) : entry :=
  mkEntry (Z.min (count e) (Burst (tier e))) (windowEnd e).

Definition abs (trl : TieredRateLimiter) : gmap string entry := abs_entry <$> limits trl.

Lemma Allow_granted now id trl :
  (Allow now id trl).1.1.1 =
    bool_decide (count (current_entry now id trl) < Burst (GetTier id trl)).
Proof.
  unfold Allow. simpl. rewrite current_entry_tier.
  case_decide; simpl; case_bool_decide; try done; lia.
Qed.

Lemma tiered_Allow_refines now id trl :
  inv trl →
  fw_step (Burst (GetTier id trl)) (Window (GetTier id trl)) now now id (abs trl) =
    ((Allow now id trl).1.1.1, abs (Allow now id trl).2).
Proof.
  intros Hinv. rewrite Allow_granted, Allow_state. unfold abs. simpl.
  rewrite fmap_insert. unfold fw_step, current_entry, GetTier. rewrite lookup_fmap.
  destruct (limits trl !! id) as [e|] eqn:He; simpl.
  - destruct (Hinv id e He) as (? & ? & ?).
    destruct (decide (windowEnd e < now)); simpl.
    + rewrite decide_False, bool_decide_true by lia. do 3 f_equal.
      unfold abs_entry; simpl. f_equal. lia.
    + rewrite decide_True by lia. unfold abs_entry; simpl.
      destruct (decide (Z.min (count e) (Burst (tier e)) < Burst (tier e))).
      * rewrite bool_decide_true by lia. do 3 f_equal. lia.
      * rewrite bool_decide_false by lia. f_equal. symmetry. apply insert_id.
        rewrite lookup_fmap, He. simpl. unfold abs_entry. do 2 f_equal. lia.
  - rewrite decide_False by (unfold Minute, Second, Nanosecond; lia). done.
Qed.

#[export] Program Instance limiter : WindowLimiter TieredRateLimiter := {|
  wl_allow t _ id trl := ((Allow t id trl).1.1.1, (Allow t id trl).2);
  wl_cap trl id := Burst (GetTier id trl);
  wl_win trl id := Window (GetTier id trl);
  wl_abs := abs;
  wl_inv := inv;
  wl_reads t t' := t = t'
|}.
Next Obligation. intros. by apply tiered_inv_Allow. Qed.
Next Obligation. intros; simpl. by rewrite GetTier_Allow. Qed.
Next Obligation. intros; simpl. by rewrite GetTier_Allow. Qed.
Next Obligation.
  intros trl id Hinv. simpl. unfold GetTier. destruct (limits trl !! id) eqn:He; [|done].
  by destruct (Hinv _ _ He) as (? & ? & ?).
Qed.
Next Obligation.
  intros trl Hinv id e. simpl. unfold abs. rewrite lookup_fmap_Some.
  intros (c & <- & Hc). unfold GetTier. rewrite Hc.
  destruct (Hinv _ _ Hc) as (? & ? & ?). simpl in *. lia.
Qed.
Next Obligation. intros t t' id trl Hinv <-. by apply tiered_Allow_refines. Qed.



(** ** The answer of Allow *)

(** The three results of [Allow] on every branch.  A granted
    request reports what is left of the burst and no retry delay; a rejected one
    reports nothing left and a delay of at least one second and at most one more
    than the seconds of the window.  In both cases [GetRemaining] afterwards
    gives the reported number. *)
Theorem Allow_answer now id trl :
  inv trl →
  (∀ e, limits trl !! id = Some e → windowEnd e ≤ now + Window (tier e)) →
  let '(ok, remaining, retryAfter, trl') := Allow now id trl in
  (ok = true ∧ retryAfter = 0 ∧ 0 ≤ remaining < Burst (GetTier id trl) ∨
   ok = false ∧ remaining = 0 ∧
     1 ≤ retryAfter ≤ Seconds_int (Window (GetTier id trl)) + 1) ∧
  GetRemaining now id trl' = remaining.
Proof.
  intros Hinv Hend.
  destruct (current_entry_wf now id trl Hinv) as (Hcount & Hburst & Hwin).
  assert (now ≤ windowEnd (current_entry now id trl) ≤ now + Window (GetTier id trl)) as Hwe.
  { unfold current_entry, GetTier in *. destruct (limits trl !! id) as [e|] eqn:He.
    - specialize (Hend e eq_refl). case_decide; simpl in *; lia.
    - rewrite decide_False; simpl; unfold Minute, Second, Nanosecond; lia. }
  rewrite current_entry_tier in *. set (e := current_entry now id trl) in *.
  assert (tier e = GetTier id trl) as Htier by apply current_entry_tier.
  unfold Allow. fold e. simpl. rewrite !Htier.
  assert (∀ n, GetRemaining now id (set_limits <[id := mkUserState n (windowEnd e) (GetTier id trl)]> trl) =
    if decide (Burst (GetTier id trl) - n < 0) then 0 else Burst (GetTier id trl) - n) as Hrem.
  { intros n. unfold GetRemaining. simpl. rewrite lookup_insert_eq. simpl.
    by rewrite decide_False by lia. }
  destruct (decide (Burst (GetTier id trl) < count e + 1)) as [Hover|Hunder].
  - split; [right|]; [split_and!; [done..| |]|].
    + case_decide; lia.
    + assert (Seconds_int (windowEnd e - now) ≤ Seconds_int (Window (GetTier id trl))).
      { apply Z.quot_le_mono; unfold Second, Nanosecond; lia. }
      assert (0 ≤ Seconds_int (windowEnd e - now)).
      { apply Z.quot_pos; unfold Second, Nanosecond; lia. }
      case_decide; lia.
    + rewrite Hrem, decide_True; lia.
  - split; [left|]; [split_and!; [done..| |]|].
    + case_decide; lia.
    + case_decide; lia.
    + by rewrite Hrem.
Qed.

Example Allow_answer_witness :
  let trl := (Allow 5 "u" NewTieredRateLimiter).2 in
  Allow 6 "u" trl = (true, 58, 0, (Allow 6 "u" trl).2) ∧
  let '(ok, remaining, retryAfter, trl') := Allow 6 "u" trl in
  (ok = true ∧ retryAfter = 0 ∧ 0 ≤ remaining < Burst (GetTier "u" trl) ∨
   ok = false ∧ remaining = 0 ∧
     1 ≤ retryAfter ≤ Seconds_int (Window (GetTier "u" trl)) + 1) ∧
  GetRemaining 6 "u" trl' = remaining.
Proof.
  split; [vm_compute; reflexivity|].
  apply (Allow_answer 6 "u").
  - apply tiered_inv_Allow, map_Forall_empty.
  - intros e He. vm_compute in He. injection He as <-. vm_compute. discriminate.
Defined.

(** The cleanup goroutine also forgets the tier: a user whose
    tier an administrator set and who stays idle until ten minutes after the
    window's end is a free user again, whatever the tier was. *)
Theorem cleanup_forgets_tier now now' id t trl :
  10 * Minute < now' - (now + Window t) →
  GetTier id (SetTier now id t trl) = t ∧
  GetTier id (cleanupOnce now' (SetTier now id t trl)) = TierFree.
Proof.
  intros Hidle.
  assert (SetTier now id t trl = set_limits <[id := mkUserState 0 (now + Window t) t]> trl)
    as -> by (unfold SetTier; by case_match).
  split; unfold GetTier, cleanupOnce; simpl.
  - by rewrite lookup_insert_eq.
  - rewrite map_lookup_filter_None_2; [done|]. right. intros e He.
    rewrite lookup_insert_eq in He. injection He as <-. simpl.
    unfold Minute, Second, Nanosecond in *. intros Hn. apply Hn. lia.
Qed.

Example cleanup_forgets_tier_witness :
  GetTier "vip" (SetTier 0 "vip" TierEnterprise NewTieredRateLimiter) = TierEnterprise ∧
  GetTier "vip" (cleanupOnce (11 * Minute + 1)
    (SetTier 0 "vip" TierEnterprise NewTieredRateLimiter)) = TierFree.
Proof. apply (cleanup_forgets_tier 0 (11 * Minute + 1)). vm_compute. reflexivity. Defined.

(** Cleaning up keeps the entries whose window ended at most ten minutes ago. *)
Lemma cleanupOnce_keeps now id e trl :
  limits trl !! id = Some e → now - windowEnd e ≤ 10 * Minute →
  limits (cleanupOnce now trl) !! id = Some e.
Proof.
  intros He Hend. unfold cleanupOnce; simpl. apply map_lookup_filter_Some. split; [done|]. lia.
Qed.

End Tiered.
