(* ===== verification/Sql.v ===== *)
(** * SQL over lists of rows

    The server's SQL statements are translated to operations on tables, a table
    being the list of its rows: [WHERE] filters, [ORDER BY] sorts, [LIMIT] takes
    a prefix, [UPDATE] maps, [DELETE] filters and [INSERT] appends.  How rows
    with equal sort keys are ordered is not specified by SQL, so sorting is an
    interface. *)

From S2P Require Import Prelude GoLib.

(** ** ORDER BY *)

Class OrderBy := {
  order_by {A} (R : relation A) `{!RelDecision R} : list A → list A;
  order_by_perm {A} (R : relation A) `{!RelDecision R} l : order_by R l ≡ₚ l;
  order_by_sorted {A} (R : relation A) `{!RelDecision R} l :
    Transitive R → Total R → StronglySorted R (order_by R l)
}.

(** Sorting by an integer key, ascending or descending. *)
Definition key_asc {A} (key : A → Z) : relation A := λ x y, key x ≤ key y.
Definition key_desc {A} (key : A → Z) : relation A := λ x y, key y ≤ key x.

#[export] Instance key_asc_dec {A} (key : A → Z) : RelDecision (key_asc key).
Proof. unfold key_asc, RelDecision. apply _. Defined.
#[export] Instance key_desc_dec {A} (key : A → Z) : RelDecision (key_desc key).
Proof. unfold key_desc, RelDecision. apply _. Defined.
#[export] Instance key_asc_trans {A} (key : A → Z) : Transitive (key_asc key).
Proof. unfold key_asc. intros ???. lia. Qed.
#[export] Instance key_desc_trans {A} (key : A → Z) : Transitive (key_desc key).
Proof. unfold key_desc. intros ???. lia. Qed.
#[export] Instance key_asc_total {A} (key : A → Z) : Total (key_asc key).
Proof. unfold key_asc. intros x y. lia. Qed.
#[export] Instance key_desc_total {A} (key : A → Z) : Total (key_desc key).
Proof. unfold key_desc. intros x y. lia. Qed.

(** Text compares byte by byte. *)
Definition text_asc {A} (key : A → string) : relation A :=
  λ x y, String.leb (key x) (key y) = true.
#[export] Instance text_asc_dec {A} (key : A → string) : RelDecision (text_asc key).
Proof. unfold text_asc, RelDecision. apply _. Defined.

(** A concrete sort, for running the model. *)
Section insertion_sort.
Context {A : Type} (R : relation A) `{!RelDecision R}.

Fixpoint insert_sorted (x : A) (l : list A) : list A :=
  match l with
  | [] => [x]
  | y :: l => if decide (R x y) then x :: y :: l else y :: insert_sorted x l
  end.

Definition insertion_sort (l : list A) : list A := foldr insert_sorted [] l.

Lemma insert_sorted_perm x l : insert_sorted x l ≡ₚ x :: l.
Proof.
  induction l as [|y l IH]; simpl; [done|]. case_decide; [done|].
  rewrite IH. constructor.
Qed.

Lemma insertion_sort_perm l : insertion_sort l ≡ₚ l.
Proof. induction l as [|x l IH]; simpl; [done|]. by rewrite insert_sorted_perm, IH. Qed.

Lemma insert_sorted_sorted x l :
  Transitive R → Total R → StronglySorted R l → StronglySorted R (insert_sorted x l).
Proof.
  intros Htrans Htot. induction 1 as [|y l Hl IH Hy]; simpl.
  { by repeat constructor. }
  case_decide as Hxy.
  - constructor; [by constructor|]. constructor; [done|].
    eapply Forall_impl; [exact Hy|]. intros z. by apply Htrans.
  - constructor; [done|]. rewrite insert_sorted_perm. constructor; [|done].
    by destruct (Htot x y).
Qed.

Lemma insertion_sort_sorted l :
  Transitive R → Total R → StronglySorted R (insertion_sort l).
Proof.
  intros. induction l as [|x l IH]; simpl; [constructor|]. by apply insert_sorted_sorted.
Qed.
End insertion_sort.

(** Stable insertion sort is one way to do it; not a default instance, so that
    no theorem depends on how ties are ordered. *)
Definition stable_order : OrderBy := {|
  order_by A R _ := insertion_sort R;
  order_by_perm A R _ := insertion_sort_perm R;
  order_by_sorted A R _ := insertion_sort_sorted R
|}.

Section order_by.
Context `{!OrderBy} {A : Type} (R : relation A) `{!RelDecision R}.

Lemma elem_of_order_by x l : x ∈ order_by R l ↔ x ∈ l.
Proof. by rewrite order_by_perm. Qed.

Lemma length_order_by l : length (order_by R l) = length l.
Proof. by rewrite order_by_perm. Qed.

(** A key that tells the rows apart determines the order. *)
Lemma sorted_unique l l' :
  (∀ x y, x ∈ l → y ∈ l → R x y → R y x → x = y) →
  StronglySorted R l → StronglySorted R l' → l' ≡ₚ l → l' = l.
Proof.
  intros Hanti Hl. revert l' Hanti. induction Hl as [|x l Hl IH Hx]; intros l' Hanti Hs Hp.
  { by apply Permutation_nil_r in Hp. }
  destruct l' as [|y l']; [by apply Permutation_nil_cons in Hp|].
  assert (x = y) as <-.
  { apply StronglySorted_inv in Hs as [Hs Hy].
    assert (y ∈ x :: l) as Hyin by (rewrite <-Hp; left).
    assert (x ∈ y :: l') as Hxin by (rewrite Hp; left).
    apply elem_of_cons in Hyin as [->|Hyin]; [done|].
    apply elem_of_cons in Hxin as [->|Hxin]; [done|].
    apply Hanti; [left|by right| |].
    - rewrite Forall_forall in Hx; auto.
    - rewrite Forall_forall in Hy; auto. }
  f_equal. apply IH.
  - intros a b ? ?. apply Hanti; by right.
  - by apply StronglySorted_inv in Hs as [].
  - by apply Permutation_cons_inv in Hp.
Qed.

Lemma order_by_unique l :
  Transitive R → Total R →
  (∀ x y, x ∈ l → y ∈ l → R x y → R y x → x = y) →
  StronglySorted R l → order_by R l = l.
Proof.
  intros Htrans Htot Hanti Hl. apply sorted_unique; [done|done| |apply order_by_perm].
  by apply order_by_sorted.
Qed.

(** A row with the greatest key of all comes last. *)
Lemma order_by_snoc l x :
  Transitive R → Total R →
  (∀ y z, y ∈ l → z ∈ l → R y z → R z y → y = z) →
  (∀ y, y ∈ l → R y x ∧ ¬ R x y) →
  order_by R (l ++ [x]) = order_by R l ++ [x].
Proof.
  intros Htrans Htot Hanti Hx. apply sorted_unique.
  - intros y z. rewrite !elem_of_app, !elem_of_order_by, !list_elem_of_singleton.
    intros [Hy| ->] [Hz| ->] Hyz Hzy; [by apply Hanti| | |done].
    + by destruct (Hx y Hy) as [_ []].
    + by destruct (Hx z Hz) as [_ []].
  - pose proof (order_by_sorted R l Htrans Htot) as Hs.
    assert (∀ y, y ∈ order_by R l → R y x) as Hle by (intros y; rewrite elem_of_order_by; apply Hx).
    revert Hs Hle. induction 1 as [|y l' Hs IH Hy]; intros Hle; simpl; [repeat constructor|].
    constructor; [apply IH; intros; apply Hle; by right|].
    apply Forall_app. split; [done|]. constructor; [|done]. apply Hle. by left.
  - by apply order_by_sorted.
  - by rewrite !order_by_perm.
Qed.
End order_by.

(** ** LIKE *)

(** The pattern language of [LIKE]: a percent sign for any text, an underscore
    for one character; ASCII letters match without regard to case. *)
Fixpoint like (p : string) : string → bool :=
  match p with
  | EmptyString => λ s, str_empty s
  | String c p' =>
      if decide (c = Ascii.ascii_of_nat 37) then
        fix any (s : string) : bool :=
          like p' s || match s with String _ s' => any s' | EmptyString => false end
      else λ s,
        match s with
        | String d s' =>
            (bool_decide (c = Ascii.ascii_of_nat 95) || bool_decide (lower_ascii c = lower_ascii d)) && like p' s'
        | EmptyString => false
        end
  end.

Example like_ex : like "%b_D%" "abcde" = true ∧ like "%b_D%" "abde" = false.
Proof. split; reflexivity. Qed.

(** ** SELECT of one row, LIMIT *)

(** [QueryRow(...).Scan]: the first row found, [ErrNoRows] when there is none. *)
Definition query_row {A} (P : A → Prop) `{∀ x, Decision (P x)} (t : list A) : Result A :=
  match filter P t with
  | x :: _ => Ok x
  | [] => Err ErrNoRows
  end.

Definition limit_rows {A} (n : Z) (t : list A) : list A := take (Z.to_nat n) t.

Section query_row.
Context {A : Type} (P : A → Prop) `{∀ x, Decision (P x)}.

Lemma query_row_Ok t x : query_row P t = Ok x → x ∈ t ∧ P x.
Proof.
  unfold query_row. destruct (filter P t) as [|y l] eqn:Hf; intros; simplify_eq.
  assert (x ∈ filter P t) as Hx by (rewrite Hf; left).
  by apply list_elem_of_filter in Hx as [].
Qed.

Lemma query_row_Err t e : query_row P t = Err e → e = ErrNoRows ∧ ∀ x, x ∈ t → ¬ P x.
Proof.
  unfold query_row. destruct (filter P t) as [|y l] eqn:Hf; intros; simplify_eq.
  split; [done|]. intros x Hx HP.
  assert (x ∈ filter P t) as Hin by by apply list_elem_of_filter.
  rewrite Hf in Hin. by apply not_elem_of_nil in Hin.
Qed.

(** A key condition finds the one row that satisfies it. *)
Lemma query_row_unique t x :
  x ∈ t → P x → (∀ y, y ∈ t → P y → y = x) → query_row P t = Ok x.
Proof.
  intros Hx HP Hu. destruct (query_row P t) as [y|e] eqn:Hq.
  - apply query_row_Ok in Hq as [Hy HPy]. by rewrite (Hu y).
  - apply query_row_Err in Hq as [_ Hq]. by destruct (Hq x).
Qed.

Lemma query_row_none t : (∀ x, x ∈ t → ¬ P x) → query_row P t = Err ErrNoRows.
Proof.
  intros Hn. destruct (query_row P t) as [y|e] eqn:Hq.
  - apply query_row_Ok in Hq as [Hy HPy]. by destruct (Hn y).
  - by apply query_row_Err in Hq as [-> _].
Qed.
End query_row.

(** [ORDER BY key DESC LIMIT 1] finds a row with the greatest key, and [ASC] one
    with the least. *)
Section first_row.
Context `{!OrderBy} {A : Type} (key : A → Z).

Lemma query_row_head (R : relation A) `{!RelDecision R} l x :
  Transitive R → Total R → query_row (λ _, True) (order_by R l) = Ok x →
  x ∈ l ∧ ∀ y, y ∈ l → x = y ∨ R x y.
Proof.
  intros ? ?. pose proof (order_by_sorted R l _ _) as Hs. pose proof (order_by_perm R l) as Hp.
  unfold query_row. destruct (order_by R l) as [|z l']; [done|]. simpl.
  intros [= ->]. split; [rewrite <-Hp; left|]. intros y Hy. rewrite <-Hp in Hy.
  apply elem_of_cons in Hy as [->|Hy]; [by left|right].
  apply StronglySorted_inv in Hs as [_ Hs]. rewrite Forall_forall in Hs. auto.
Qed.

Lemma query_row_newest l x :
  query_row (λ _, True) (order_by (key_desc key) l) = Ok x →
  x ∈ l ∧ ∀ y, y ∈ l → key y ≤ key x.
Proof.
  intros [Hx Hl]%query_row_head; [|exact _..]. split; [done|].
  intros y [->|Hy]%Hl; [lia|exact Hy].
Qed.

Lemma query_row_least l x :
  query_row (λ _, True) (order_by (key_asc key) l) = Ok x →
  x ∈ l ∧ ∀ y, y ∈ l → key x ≤ key y.
Proof.
  intros [Hx Hl]%query_row_head; [|exact _..]. split; [done|].
  intros y [->|Hy]%Hl; [lia|exact Hy].
Qed.

Lemma query_row_order_none (R : relation A) `{!RelDecision R} l e :
  query_row (λ _, True) (order_by R l) = Err e → e = ErrNoRows ∧ ∀ x, x ∉ l.
Proof.
  intros [-> Hn]%query_row_Err. split; [done|]. intros x Hx.
  apply (Hn x); [|done]. by rewrite order_by_perm.
Qed.
End first_row.
