(* ===== verification/Queue.v ===== *)
(** * The offline queue in memory (queue.go)

    [OfflineQueue] keeps, per recipient, the messages that could not be
    delivered.  Its operations are given as the code has them, with the clock
    reading each one makes as an argument, and are shown to implement an
    unbounded mailbox read through a window of the last [maxLen] messages. *)

From S2P Require Import Prelude GoLib.

Record queuedMessage := mkQueued {
  data : json;
  queuedAt : Z;
  sentCount : Z
}.

Record OfflineQueue := mkQueue {
  buffers : gmap string (list queuedMessage);
  maxLen : Z;
  ttl : Z
}.

Definition newOfflineQueue (maxLen ttl : Z) : OfflineQueue :=
  let maxLen := if decide (maxLen ≤ 0) then 100 else maxLen in
  let ttl := if decide (ttl ≤ 0) then 7 * 24 * Hour else ttl in
  mkQueue ∅ maxLen ttl.

Definition set_buffers (f : gmap string (list queuedMessage) → gmap string (list queuedMessage))
    (q : OfflineQueue) : OfflineQueue := mkQueue (f (buffers q)) (maxLen q) (ttl q).

(** [q.buffers[id]]: a missing key reads as the nil slice. *)
Definition buffer (id : string) (q : OfflineQueue) : list queuedMessage :=
  default [] (buffers q !! id).

Definition Enqueue (now : Z) (recipientID : string) (d : json) (q : OfflineQueue)
    : OfflineQueue :=
  let msg := mkQueued d now 0 in
  let buf := buffer recipientID q ++ [msg] in
  let buf :=
    if decide (maxLen q < Z.of_nat (length buf))
    then drop (length buf - Z.to_nat (maxLen q)) buf
    else buf in
  set_buffers <[recipientID := buf]> q.

(** The loop's [continue] on an expired message. *)
Definition expired (now : Z) (q : OfflineQueue) (msg : queuedMessage) : Prop :=
  ttl q < now - queuedAt msg.

#[global] Instance expired_dec now q msg : Decision (expired now q msg).
Proof. unfold expired. apply _. Defined.

(** The list [remaining] of the source is never appended to, so the buffer is
    deleted and stays deleted. *)
Definition Drain (now : Z) (recipientID : string) (q : OfflineQueue)
    : list json * OfflineQueue :=
  match buffers q !! recipientID with
  | None | Some [] => ([], q)
  | Some buf =>
      (data <$> filter (λ msg, ¬ expired now q msg) buf,
       set_buffers (delete recipientID) q)
  end.

Definition Purge (recipientID : string) (q : OfflineQueue) : OfflineQueue :=
  set_buffers (delete recipientID) q.

Definition QueueDepth (recipientID : string) (q : OfflineQueue) : Z :=
  Z.of_nat (length (buffer recipientID q)).

Definition TotalDepth (q : OfflineQueue) : Z :=
  map_fold (λ _ buf total, total + Z.of_nat (length buf)) 0 (buffers q).

(** ** The last [n] elements of a list *)

Definition last_n {A} (n : nat) (l : list A) : list A := drop (length l - n) l.

Lemma length_last_n {A} n (l : list A) : length (last_n n l) = (n `min` length l)%nat.
Proof. unfold last_n. rewrite length_drop. lia. Qed.

Lemma last_n_all {A} n (l : list A) : (length l ≤ n)%nat → last_n n l = l.
Proof. intros. unfold last_n. by replace (length l - n)%nat with O by lia. Qed.

Lemma last_n_suffix {A} n (l : list A) : last_n n l `suffix_of` l.
Proof. unfold last_n. eexists. symmetry. apply take_drop. Qed.

Lemma last_n_snoc {A} n (l : list A) x :
  (0 < n)%nat → last_n n (last_n n l ++ [x]) = last_n n (l ++ [x]).
Proof.
  intros Hn. destruct (decide (length l ≤ n)%nat) as [Hle|Hgt].
  { by rewrite (last_n_all n l). }
  unfold last_n. rewrite !length_app, !length_drop. simpl.
  rewrite !drop_app_le by (rewrite ?length_drop; lia). rewrite drop_drop.
  do 2 f_equal. lia.
Qed.

Lemma last_n_fmap {A B} (f : A → B) n l : last_n n (f <$> l) = f <$> last_n n l.
Proof. unfold last_n. by rewrite length_fmap, fmap_drop. Qed.

(** ** Invariant *)

(** The limits are positive, no buffer is empty or longer than [maxLen]. *)
Record wf (q : OfflineQueue) : Prop := {
  wf_maxLen : 0 < maxLen q;
  wf_ttl : 0 < ttl q;
  wf_buffers : map_Forall (λ _ buf, 0 < Z.of_nat (length buf) ≤ maxLen q) (buffers q)
}.

Lemma wf_new n t : wf (newOfflineQueue n t).
Proof.
  split; simpl.
  - case_decide; lia.
  - unfold Hour, Minute, Second, Nanosecond. case_decide; lia.
  - apply map_Forall_empty.
Qed.

Lemma buffer_Enqueue now r d q r' :
  0 < maxLen q →
  buffer r' (Enqueue now r d q) =
    if decide (r = r')
    then last_n (Z.to_nat (maxLen q)) (buffer r q ++ [mkQueued d now 0])
    else buffer r' q.
Proof.
  intros Hmax. unfold Enqueue. unfold buffer at 1. simpl. rewrite lookup_insert.
  case_decide; [|done]. simpl. case_decide; [done|]. symmetry. apply last_n_all. lia.
Qed.

Lemma buffer_Drain now r q r' :
  buffer r' (Drain now r q).2 = if decide (r = r') then [] else buffer r' q.
Proof.
  unfold Drain, buffer. destruct (buffers q !! r) as [[|m buf]|] eqn:Hr; simpl.
  - case_decide; [subst|done]. by rewrite Hr.
  - rewrite lookup_delete. by case_decide.
  - case_decide; [subst|done]. by rewrite Hr.
Qed.

Lemma Drain_result now r q :
  (Drain now r q).1 = data <$> filter (λ msg, ¬ expired now q msg) (buffer r q).
Proof. unfold Drain, buffer. by destruct (buffers q !! r) as [[|m buf]|]. Qed.

Lemma wf_Enqueue now r d q : wf q → wf (Enqueue now r d q).
Proof.
  intros [Hm Ht Hb]. split; simpl; [done..|]. apply map_Forall_insert_2; [|done].
  case_decide; [rewrite length_drop|]; rewrite ?length_app in *; simpl in *; lia.
Qed.

Lemma wf_Drain now r q : wf q → wf (Drain now r q).2.
Proof.
  intros [Hm Ht Hb]. unfold Drain. repeat case_match; split; simpl; try done.
  by apply map_Forall_delete.
Qed.

Lemma wf_Purge r q : wf q → wf (Purge r q).
Proof. intros [Hm Ht Hb]. split; simpl; try done. by apply map_Forall_delete. Qed.

(** ** The mailbox *)

(** What a client of the queue may rely on: every recipient has a log of all
    that was put for it since it was last emptied, and a drain returns what is
    not too old of the last [maxLen] entries. *)
Inductive queue_op :=
  | OpEnqueue (now : Z) (recipientID : string) (d : json)
  | OpDrain (now : Z) (recipientID : string)
  | OpPurge (recipientID : string).

Definition op_recipient (o : queue_op) : string :=
  match o with OpEnqueue _ r _ | OpDrain _ r | OpPurge r => r end.

Abbreviation mailbox := (gmap string (list (Z * json))).

Definition log (r : string) (b : mailbox) : list (Z * json) := default [] (b !! r).

Definition mailbox_step (n ttl : Z) (o : queue_op) (b : mailbox)
    : option (list json) * mailbox :=
  match o with
  | OpEnqueue now r d => (None, <[r := log r b ++ [(now, d)]]> b)
  | OpDrain now r =>
      (Some ((filter (λ e, now - e.1 ≤ ttl) (last_n (Z.to_nat n) (log r b))).*2),
       <[r := []]> b)
  | OpPurge r => (None, <[r := []]> b)
  end.

Definition queue_step (o : queue_op) (q : OfflineQueue) : option (list json) * OfflineQueue :=
  match o with
  | OpEnqueue now r d => (None, Enqueue now r d q)
  | OpDrain now r => let '(res, q') := Drain now r q in (Some res, q')
  | OpPurge r => (None, Purge r q)
  end.

(** The results of a sequence of operations, each with the recipient. *)
Fixpoint run {S} (step : queue_op → S → option (list json) * S) (ops : list queue_op) (s : S)
    : list (string * list json) * S :=
  match ops with
  | [] => ([], s)
  | o :: ops =>
      let '(res, s') := step o s in
      let '(out, s'') := run step ops s' in
      (match res with Some l => (op_recipient o, l) :: out | None => out end, s'')
  end.

Definition entry_of (m : queuedMessage) : Z * json := (queuedAt m, data m).

(** The simulation: the buffer is the window of the log. *)
Record sim (q : OfflineQueue) (b : mailbox) : Prop := {
  sim_wf : wf q;
  sim_log r : entry_of <$> buffer r q = last_n (Z.to_nat (maxLen q)) (log r b)
}.

Lemma log_insert r r' l b : log r' (<[r := l]> b) = if decide (r = r') then l else log r' b.
Proof. unfold log. rewrite lookup_insert. by case_decide. Qed.

Lemma step_params o q :
  maxLen (queue_step o q).2 = maxLen q ∧ ttl (queue_step o q).2 = ttl q.
Proof.
  destruct o as [now r d|now r|r]; simpl; try done.
  unfold Drain. repeat case_match; simplify_eq; done.
Qed.

Lemma sim_step o q b :
  sim q b →
  (queue_step o q).1 = (mailbox_step (maxLen q) (ttl q) o b).1 ∧
  sim (queue_step o q).2 (mailbox_step (maxLen q) (ttl q) o b).2.
Proof.
  intros [Hwf Hlog]. pose proof (wf_maxLen _ Hwf) as Hmax.
  destruct o as [now r d|now r|r]; simpl.
  - split; [done|]. split; [by apply wf_Enqueue|]. intros r'.
    rewrite buffer_Enqueue by done. rewrite log_insert. case_decide; [|apply Hlog].
    simpl. rewrite <-last_n_fmap, fmap_app, Hlog. simpl. apply last_n_snoc. lia.
  - destruct (Drain now r q) as [res q'] eqn:Hd.
    pose proof (wf_Drain now r q Hwf) as Hwf'.
    pose proof (buffer_Drain now r q) as Hbuf. pose proof (Drain_result now r q) as Hres.
    rewrite Hd in Hwf', Hbuf, Hres. simpl in *. split.
    + f_equal. rewrite Hres, <-Hlog. clear. induction (buffer r q) as [|m l IH]; [done|].
      simpl. rewrite !filter_cons.
      case_decide as H1; case_decide as H2; simpl; [by f_equal| | |done];
        exfalso; unfold expired in *; simpl in *; lia.
    + split; [done|]. intros r'. rewrite Hbuf, log_insert.
      pose proof (step_params (OpDrain now r) q) as [Hm _]. simpl in Hm.
      rewrite Hd in Hm. simpl in Hm. rewrite Hm. case_decide; [done|apply Hlog].
  - split; [done|]. split; [by apply wf_Purge|]. intros r'. rewrite log_insert.
    unfold buffer, Purge; simpl. rewrite lookup_delete. case_decide; [done|apply Hlog].
Qed.

Lemma sim_run ops q b :
  sim q b →
  (run queue_step ops q).1 = (run (mailbox_step (maxLen q) (ttl q)) ops b).1 ∧
  sim (run queue_step ops q).2 (run (mailbox_step (maxLen q) (ttl q)) ops b).2.
Proof.
  revert q b. induction ops as [|o ops IH]; intros q b Hsim; [done|]. simpl.
  destruct (sim_step o q b Hsim) as [Hres Hsim'].
  pose proof (step_params o q) as [Hm Ht].
  destruct (queue_step o q) as [res q'], (mailbox_step _ _ o b) as [res' b']; simpl in *.
  destruct (IH q' b' Hsim') as [Hout Hsim'']. rewrite Hm, Ht in Hout, Hsim''.
  destruct (run queue_step ops q') as [out q''], (run _ ops b') as [out' b'']; simpl in *.
  subst. by destruct res'.
Qed.

Lemma sim_new n t : sim (newOfflineQueue n t) ∅.
Proof.
  split; [apply wf_new|]. intros r. unfold buffer, log. by rewrite !lookup_empty.
Qed.

(** C13: under every sequence of enqueues, drains and purges, the
    queue that trims itself on each enqueue returns what an unbounded mailbox
    shows through its window of the last [maxLen] messages, oldest first,
    without those older than the time to live; [newOfflineQueue] replaces
    limits that are not positive by 100 messages and seven days. *)
Theorem queue_refines_mailbox n t ops :
  (run queue_step ops (newOfflineQueue n t)).1 =
  (run (mailbox_step (if decide (n ≤ 0) then 100 else n)
                     (if decide (t ≤ 0) then 7 * 24 * Hour else t)) ops ∅).1.
Proof.
  apply (sim_run ops (newOfflineQueue n t) ∅), sim_new.
Qed.

Lemma wf_step o q : wf q → wf (queue_step o q).2.
Proof.
  destruct o as [now r d|now r|r]; simpl; intros.
  - by apply wf_Enqueue.
  - pose proof (wf_Drain now r q). destruct (Drain now r q); auto.
  - by apply wf_Purge.
Qed.

Lemma wf_run ops q : wf q → wf (run queue_step ops q).2.
Proof.
  revert q. induction ops as [|o ops IH]; intros q Hwf; [done|]. simpl.
  pose proof (wf_step o q Hwf). destruct (queue_step o q) as [res q'].
  specialize (IH q' H). by destruct (run queue_step ops q').
Qed.

(** ** Depths *)

Lemma QueueDepth_bound r q : wf q → 0 ≤ QueueDepth r q ≤ maxLen q.
Proof.
  intros [Hm _ Hb]. unfold QueueDepth, buffer.
  destruct (buffers q !! r) as [buf|] eqn:Hr; simpl; [|lia].
  specialize (Hb _ _ Hr); simpl in Hb. lia.
Qed.

(** The total is the sum over the recipients, and is bounded by their number. *)
Lemma TotalDepth_bound q :
  wf q → Z.of_nat (size (buffers q)) ≤ TotalDepth q ≤ maxLen q * Z.of_nat (size (buffers q)).
Proof.
  intros [_ _ Hb]. unfold TotalDepth. revert Hb. generalize (buffers q) as m.
  refine (map_fold_weak_ind (λ total m,
    map_Forall (λ _ buf, 0 < Z.of_nat (length buf) ≤ maxLen q) m →
    Z.of_nat (size m) ≤ total ≤ maxLen q * Z.of_nat (size m)) _ _ _ _).
  - intros _. rewrite map_size_empty. lia.
  - intros i buf m total Hi IH Hall.
    apply map_Forall_insert in Hall as [Hbuf Hall]; [|done].
    rewrite map_size_insert_None by done. specialize (IH Hall). lia.
Qed.

(** ** At most once, in order *)

(** What was enqueued for [r], and what the drains for [r] returned. *)
Definition enqueued (r : string) (ops : list queue_op) : list json :=
  omap (λ o, match o with
             | OpEnqueue _ r' d => if decide (r = r') then Some d else None
             | _ => None
             end) ops.

Definition drained (r : string) (out : list (string * list json)) : list json :=
  concat (snd <$> filter (λ p, p.1 = r) out).

Lemma last_n_sublist {A} n (l : list A) : last_n n l `sublist_of` l.
Proof. apply sublist_drop. Qed.

Lemma mailbox_sublist n t r ops b :
  drained r (run (mailbox_step n t) ops b).1 `sublist_of` (log r b).*2 ++ enqueued r ops.
Proof.
  revert b. induction ops as [|o ops IH]; intros b; simpl; [apply sublist_nil_l|].
  pose proof (IH (mailbox_step n t o b).2) as IHb.
  destruct (mailbox_step n t o b) as [res b'] eqn:Hstep. simpl in IHb.
  destruct (run (mailbox_step n t) ops b') as [out b''].
  destruct o as [now r' d|now r'|r']; simpl in Hstep; simplify_eq; simpl in *;
    rewrite log_insert in IHb.
  - destruct (decide (r' = r)) as [->|].
    + rewrite decide_True by done. simpl. rewrite fmap_app, <-app_assoc in IHb. done.
    + by rewrite decide_False by done.
  - unfold drained in *. rewrite filter_cons. simpl.
    destruct (decide (r' = r)) as [->|]; [|done]. simpl in *.
    apply sublist_app; [|done]. apply fmap_sublist.
    etrans; [apply sublist_filter|apply last_n_sublist].
  - destruct (decide (r' = r)) as [->|]; [|done]. simpl in *.
    by apply sublist_inserts_l.
Qed.

(** Whatever the interleaving of operations on other recipients,
    the messages drained for a recipient over the whole life of the queue are
    the ones enqueued for it, in that order and each at most once. *)
Theorem drained_in_order n t r ops :
  drained r (run queue_step ops (newOfflineQueue n t)).1 `sublist_of` enqueued r ops.
Proof.
  rewrite (proj1 (sim_run ops _ _ (sim_new n t))).
  pose proof (mailbox_sublist (maxLen (newOfflineQueue n t)) (ttl (newOfflineQueue n t)) r ops ∅)
    as Hsub. unfold log in Hsub. by rewrite lookup_empty in Hsub.
Qed.
