(* ===== verification/Hub.v ===== *)
(** * The hub (hub.go): the registry of WebSocket connections

    A [Connection] is shared by pointer between the hub's maps and the
    goroutines that serve it, so connections live in a heap and the maps hold
    references.  Each operation that runs under [h.mu], or inside one iteration
    of [run]'s select, is one function of the hub's state.  Closing a channel
    twice panics in Go: the functions that close channels return an option, and
    [None] is the panic. *)

From S2P Require Import Prelude GoLib.

(** ** Data *)

(** An [OutgoingMessage] as [json.Marshal] writes it; a map's keys are sorted. *)
Definition OutgoingMessage (type : string) (data : json) : json :=
  JObj [("type", JStr type); ("data", data)].

Inductive ConnType := Agent | Client.

#[global] Instance ConnType_eq_dec : EqDecision ConnType.
Proof. solve_decision. Defined.

Definition conn_type_string (t : ConnType) : string :=
  match t with Agent => "agent" | Client => "client" end.

(** [send] is the buffered channel: its queued elements and whether it is
    closed.  The socket itself and the write mutex are not part of the model. *)
Record Connection := mkConnection {
  connType : ConnType;
  id : string;
  deviceID : string;
  send : list json;
  send_closed : bool;
  connectedAt : Z;
  lastHeartbeat : Z;
  status : string;
  closed : bool;
  negotiatedVersion : string
}.

(** [make(chan []byte, 256)] *)
Definition send_capacity : nat := 256.

Definition newConnection (ct : ConnType) (i dev : string) (now : Z) (version : string)
    : Connection :=
  mkConnection ct i dev [] false now 0 EmptyString false version.

Definition set_send (l : list json) (c : Connection) : Connection :=
  mkConnection (connType c) (id c) (deviceID c) l (send_closed c) (connectedAt c)
    (lastHeartbeat c) (status c) (closed c) (negotiatedVersion c).

Definition set_heartbeat (now : Z) (c : Connection) : Connection :=
  mkConnection (connType c) (id c) (deviceID c) (send c) (send_closed c) (connectedAt c)
    now (status c) (closed c) (negotiatedVersion c).

Definition set_status (s : string) (c : Connection) : Connection :=
  mkConnection (connType c) (id c) (deviceID c) (send c) (send_closed c) (connectedAt c)
    (lastHeartbeat c) s (closed c) (negotiatedVersion c).

Definition MarkClosed (c : Connection) : Connection :=
  mkConnection (connType c) (id c) (deviceID c) (send c) (send_closed c) (connectedAt c)
    (lastHeartbeat c) (status c) true (negotiatedVersion c).

(** [close(c.send)] panics on a closed channel. *)
Definition close_send (c : Connection) : option Connection :=
  if send_closed c then None
  else Some (mkConnection (connType c) (id c) (deviceID c) (send c) true (connectedAt c)
    (lastHeartbeat c) (status c) (closed c) (negotiatedVersion c)).

Definition IsClosed (c : Connection) : bool := closed c.

Definition ref := nat.

Record Hub := mkHub {
  heap : gmap ref Connection;
  next_ref : ref;
  agents : gmap string ref;
  clientConns : gmap string (list ref);
  staleAgents : Z
}.

Definition newHub : Hub := mkHub ∅ O ∅ ∅ 0.

Definition set_heap (f : gmap ref Connection → gmap ref Connection) (h : Hub) : Hub :=
  mkHub (f (heap h)) (next_ref h) (agents h) (clientConns h) (staleAgents h).

Definition set_agents (f : gmap string ref → gmap string ref) (h : Hub) : Hub :=
  mkHub (heap h) (next_ref h) (f (agents h)) (clientConns h) (staleAgents h).

Definition set_clients (f : gmap string (list ref) → gmap string (list ref)) (h : Hub) : Hub :=
  mkHub (heap h) (next_ref h) (agents h) (f (clientConns h)) (staleAgents h).

(** [h.clientConns[id]]: a missing key reads as the nil slice. *)
Definition devices (i : string) (h : Hub) : list ref := default [] (clientConns h !! i).

(** ** Sending *)

(** [SafeSend] on the connection itself: a closed connection refuses, a send on
    a closed channel panics and is recovered with the zero result, a full
    channel takes the [default] branch. *)
Definition SafeSend (d : json) (c : Connection) : bool * Connection :=
  if IsClosed c then (false, c)
  else if send_closed c then (false, c)
  else if decide (length (send c) < send_capacity)%nat then (true, set_send (send c ++ [d]) c)
  else (false, c).

Definition safe_send (r : ref) (d : json) (h : Hub) : bool * Hub :=
  match heap h !! r with
  | Some c => let '(ok, c') := SafeSend d c in (ok, set_heap <[r := c']> h)
  | None => (false, h)
  end.

(** [for _, c := range rs { c.SafeSend(d) }] *)
Definition send_all (rs : list ref) (d : json) (h : Hub) : Hub :=
  foldl (λ h r, (safe_send r d h).2) h rs.

(** The connections of every user, in the order the map is walked. *)
Definition client_refs (h : Hub) : list ref := map_to_list (clientConns h) ≫= snd.

Definition agent_refs (h : Hub) : list ref := (map_to_list (agents h)).*2.

Definition BroadcastToAllClients (d : json) (h : Hub) : Hub := send_all (client_refs h) d h.

Definition presence_event (i connType : string) (online : bool) : json :=
  OutgoingMessage "presence_update"
    (JObj [("id", JStr i); ("online", JBool online); ("type", JStr connType)]).

Definition broadcastPresence (i connType : string) (online : bool) (h : Hub) : Hub :=
  send_all (client_refs h) (presence_event i connType online) h.

(** The [broadcast] case of [run]. *)
Definition broadcast (d : json) (h : Hub) : Hub :=
  send_all (client_refs h) d (send_all (agent_refs h) d h).

(** ** The [register] and [unregister] cases of [run] *)

(** [c.MarkClosed(); close(c.send)] *)
Definition mark_and_close (r : ref) (h : Hub) : option Hub :=
  c ← heap h !! r;
  c' ← close_send (MarkClosed c);
  Some (set_heap <[r := c']> h).

(** The scan for a connection of the same device: the first index it finds. *)
Fixpoint find_device (h : Hub) (dev : string) (rs : list ref) : option nat :=
  match rs with
  | [] => None
  | r :: rs =>
      if decide ((deviceID <$> heap h !! r) = Some dev ∧ dev ≠ EmptyString) then Some O
      else S <$> find_device h dev rs
  end.

Definition register (now : Z) (r : ref) (h : Hub) : option Hub :=
  conn ← heap h !! r;
  match connType conn with
  | Agent =>
      let h := set_heap (alter (set_heartbeat now) r) h in
      h ← match agents h !! id conn with
          | Some old => mark_and_close old h
          | None => Some h
          end;
      let h := set_agents <[id conn := r]> h in
      Some (broadcastPresence (id conn) "agent" true h)
  | Client =>
      match find_device h (deviceID conn) (devices (id conn) h) with
      | Some i =>
          existing ← devices (id conn) h !! i;
          h ← mark_and_close existing h;
          Some (set_clients <[id conn := <[i := r]> (devices (id conn) h)]> h)
      | None => Some (set_clients <[id conn := devices (id conn) h ++ [r]]> h)
      end
  end.

Fixpoint index_of (r : ref) (rs : list ref) : option nat :=
  match rs with
  | [] => None
  | r' :: rs => if decide (r' = r) then Some O else S <$> index_of r rs
  end.

(** [conns[i] = conns[len(conns)-1]; conns = conns[:len(conns)-1]] *)
Definition swap_remove (i : nat) (rs : list ref) : list ref :=
  let n := (length rs - 1)%nat in
  take n (match rs !! n with Some x => <[i := x]> rs | None => rs end).

Definition unregister (r : ref) (h : Hub) : option Hub :=
  conn ← heap h !! r;
  match connType conn with
  | Agent =>
      if decide (agents h !! id conn = Some r) then
        let h := set_agents (delete (id conn)) h in
        h ← (if IsClosed conn then Some h else mark_and_close r h);
        Some (broadcastPresence (id conn) "agent" false h)
      else Some h
  | Client =>
      let h := match index_of r (devices (id conn) h) with
               | Some i =>
                   let conns := swap_remove i (devices (id conn) h) in
                   set_clients (match conns with
                                | [] => delete (id conn)
                                | _ => <[id conn := conns]>
                                end) h
               | None => h
               end in
      if IsClosed conn then Some h else mark_and_close r h
  end.

(** ** The other operations *)

Definition TouchHeartbeat (now : Z) (r : ref) (h : Hub) : Hub :=
  set_heap (alter (set_heartbeat now) r) h.

Definition GetAgent (agentID : string) (h : Hub) : option ref := agents h !! agentID.

Definition GetClient (userID : string) (h : Hub) : option ref :=
  match devices userID h with r :: _ => Some r | [] => None end.

Definition GetClientConns (userID : string) (h : Hub) : list ref := devices userID h.

Definition AgentCount (h : Hub) : Z := Z.of_nat (size (agents h)).
Definition ClientCount (h : Hub) : Z := Z.of_nat (size (clientConns h)).
Definition ClientConnCount (h : Hub) : Z :=
  map_fold (λ _ conns total, total + Z.of_nat (length conns)) 0 (clientConns h).

Definition AgentStatus (agentID : string) (h : Hub) : string :=
  match agents h !! agentID with
  | Some r =>
      match status <$> heap h !! r with
      | Some s => if str_empty s then "online" else s
      | None => "online"
      end
  | None => "offline"
  end.

Definition SetAgentStatus (agentID s : string) (h : Hub) : Hub :=
  match agents h !! agentID with
  | Some r => set_heap (alter (set_status s) r) h
  | None => h
  end.

Definition StaleAgentCount (h : Hub) : Z := staleAgents h.

(** [checkStaleAgents] first collects under the read lock, then hands each
    connection to the [unregister] case. *)
Definition is_stale (timeout now : Z) (h : Hub) (r : ref) : bool :=
  match heap h !! r with
  | Some c => bool_decide (timeout < now - lastHeartbeat c)
  | None => false
  end.

Definition collect_stale (timeout now : Z) (h : Hub) : list ref * Hub :=
  let rs := filter (λ r, is_stale timeout now h r = true) (agent_refs h) in
  (rs, mkHub (heap h) (next_ref h) (agents h) (clientConns h)
         (staleAgents h + Z.of_nat (length rs))).

Fixpoint unregister_all (rs : list ref) (h : Hub) : option Hub :=
  match rs with
  | [] => Some h
  | r :: rs => h ← unregister r h; unregister_all rs h
  end.

Definition checkStaleAgents (timeout now : Z) (h : Hub) : option Hub :=
  let '(rs, h) := collect_stale timeout now h in unregister_all rs h.

(** [writePump] takes one element from the channel. *)
Definition take_send (r : ref) (h : Hub) : option json * Hub :=
  match heap h !! r with
  | Some c =>
      match send c with
      | d :: l => (Some d, set_heap <[r := set_send l c]> h)
      | [] => (None, h)
      end
  | None => (None, h)
  end.

(** The connect handlers make a connection and hand it to [register]; nobody
    else has the pointer before. *)
Definition alloc (c : Connection) (h : Hub) : ref * Hub :=
  (next_ref h, mkHub (<[next_ref h := c]> (heap h)) (S (next_ref h)) (agents h)
                 (clientConns h) (staleAgents h)).

Definition connect (now : Z) (c : Connection) (h : Hub) : option Hub :=
  let '(r, h) := alloc c h in register now r h.
