(* ===== verification/HubInv.v ===== *)
(** * The hub's invariant and its abstract contract

    The contract of the hub is a directory of live connections: connecting
    displaces the agent's previous session, or the user's session on the same
    device, and adds the new one; unregistering removes one connection.  The
    maps, the [closed] flags and the channels of hub.go implement it, and no
    channel is ever closed twice. *)

From S2P Require Import Prelude GoLib Hub.

(** ** The directory *)

(** Type, id and device of a connection. *)
Abbreviation session := (ConnType * string * string)%type.
Abbreviation directory := (gmap ref session).

Definition session_of (c : Connection) : session := (connType c, id c, deviceID c).

Definition displaced (ct : ConnType) (i dev : string) (e : session) : Prop :=
  e.1.1 = ct ∧ e.1.2 = i ∧ (ct = Agent ∨ (e.2 = dev ∧ dev ≠ EmptyString)).

#[global] Instance displaced_dec ct i dev e : Decision (displaced ct i dev e).
Proof. unfold displaced. apply _. Defined.

Definition dir_connect (r : ref) (ct : ConnType) (i dev : string) (D : directory) : directory :=
  <[r := (ct, i, dev)]> (filter (λ '(_, e), ¬ displaced ct i dev e) D).

(** The live connections of a hub. *)
Definition live (h : Hub) : directory :=
  omap (λ c, if closed c then None else Some (session_of c)) (heap h).

(** ** The invariant *)

Definition chan_ok (h : Hub) : Prop :=
  map_Forall (λ _ c, closed c = send_closed c ∧ (length (send c) ≤ send_capacity)%nat) (heap h).

Record wf (h : Hub) : Prop := {
  wf_fresh r : is_Some (heap h !! r) → (r < next_ref h)%nat;
  wf_chan : chan_ok h;
  wf_agents a r : agents h !! a = Some r ↔ ∃ dev, live h !! r = Some (Agent, a, dev);
  wf_devices u r : r ∈ devices u h ↔ ∃ dev, live h !! r = Some (Client, u, dev);
  wf_nodup u : NoDup (devices u h);
  wf_nonempty u : clientConns h !! u ≠ Some [];
  wf_one_per_device u dev r1 r2 :
    live h !! r1 = Some (Client, u, dev) → live h !! r2 = Some (Client, u, dev) →
    dev ≠ EmptyString → r1 = r2
}.

Lemma live_Some h r e :
  live h !! r = Some e ↔ ∃ c, heap h !! r = Some c ∧ closed c = false ∧ session_of c = e.
Proof.
  unfold live. rewrite lookup_omap. destruct (heap h !! r) as [c|]; simpl.
  - destruct (closed c) eqn:Hc; split.
    + done.
    + intros (c' & ? & ? & ?). simplify_eq. congruence.
    + intros [= <-]. eauto.
    + intros (c' & ? & ? & <-). by simplify_eq.
  - split; [done|]. by intros (? & ? & _).
Qed.

Lemma wf_newHub : wf newHub.
Proof.
  split; unfold devices, live; simpl; intros;
    rewrite ?lookup_empty, ?lookup_omap, ?lookup_empty in *; simpl in *;
    try rewrite lookup_empty in *; simpl in *.
  - by destruct H.
  - apply map_Forall_empty.
  - split; [done|]. by intros [].
  - split; [by intros ?%not_elem_of_nil|]. by intros [].
  - constructor.
  - done.
  - done.
Qed.

(** ** Steps that leave the directory alone *)

Record frame (h h' : Hub) : Prop := {
  frame_live : live h' = live h;
  frame_agents : agents h' = agents h;
  frame_clients : clientConns h' = clientConns h;
  frame_next : next_ref h' = next_ref h;
  frame_dom r : is_Some (heap h' !! r) ↔ is_Some (heap h !! r);
  frame_chan : chan_ok h → chan_ok h'
}.

#[global] Instance frame_preorder : PreOrder frame.
Proof.
  split; [by intros h; split|].
  intros h1 h2 h3 [? ? ? ? Hd1 ?] [? ? ? ? Hd2 ?]. split; try congruence; [|auto].
  intros r. by rewrite Hd2, Hd1.
Qed.

Lemma frame_devices h h' u : frame h h' → devices u h' = devices u h.
Proof. intros []. unfold devices. congruence. Qed.

Lemma wf_frame h h' : frame h h' → wf h → wf h'.
Proof.
  intros Hf []. pose proof (λ u, frame_devices _ _ u Hf) as Hdev.
  destruct Hf as [Hl Ha Hc Hn Hd Hch]. split.
  - intros r. rewrite Hd, Hn. auto.
  - auto.
  - intros. by rewrite Ha, Hl.
  - intros. by rewrite Hdev, Hl.
  - intros. by rewrite Hdev.
  - intros. by rewrite Hc.
  - intros u dev r1 r2. rewrite Hl. eauto.
Qed.

(** Rewriting one connection without touching what the directory shows. *)
Lemma frame_insert r c c' h :
  heap h !! r = Some c → closed c' = closed c → send_closed c' = send_closed c →
  session_of c' = session_of c →
  ((length (send c) ≤ send_capacity)%nat → (length (send c') ≤ send_capacity)%nat) →
  frame h (set_heap <[r := c']> h).
Proof.
  intros Hr Hcl Hsc Hs Hlen. split; try done.
  - apply map_eq. intros r'. unfold live; simpl. rewrite !lookup_omap, lookup_insert.
    case_decide; [subst|done]. simpl. by rewrite Hr, Hcl, Hs.
  - intros r'; simpl. rewrite lookup_insert. case_decide; [subst|done]. by rewrite Hr.
  - intros Hch. apply map_Forall_insert_2; [|done]. destruct (Hch _ _ Hr) as [? ?].
    rewrite Hcl, Hsc. auto.
Qed.

Lemma frame_alter f r h :
  (∀ c, closed (f c) = closed c ∧ send_closed (f c) = send_closed c ∧
        session_of (f c) = session_of c ∧ send (f c) = send c) →
  frame h (set_heap (alter f r) h).
Proof.
  intros Hf. destruct (heap h !! r) as [c|] eqn:Hr.
  - destruct (Hf c) as (? & ? & ? & Hsend).
    replace (set_heap (alter f r) h) with (set_heap <[r := f c]> h).
    + eapply frame_insert; try done. by rewrite Hsend.
    + unfold set_heap. f_equal. symmetry. by apply alter_alt_Some.
  - replace (set_heap (alter f r) h) with h; [done|].
    unfold set_heap. destruct h; simpl in *. f_equal. by rewrite alter_alt, Hr.
Qed.

Lemma frame_safe_send r d h : frame h (safe_send r d h).2.
Proof.
  unfold safe_send. destruct (heap h !! r) as [c|] eqn:Hr; [|done].
  destruct (SafeSend d c) as [ok c'] eqn:Hs. simpl.
  unfold SafeSend in Hs. repeat case_match; simplify_eq; eapply frame_insert; try done.
  simpl. rewrite length_app. simpl. lia.
Qed.

Lemma frame_send_all rs d h : frame h (send_all rs d h).
Proof.
  unfold send_all. revert h. induction rs as [|r rs IH]; intros h; simpl; [done|].
  etrans; [apply frame_safe_send|apply IH].
Qed.

Lemma frame_broadcast d h : frame h (broadcast d h).
Proof. unfold broadcast. etrans; apply frame_send_all. Qed.

Lemma frame_touch now r h : frame h (TouchHeartbeat now r h).
Proof. by apply frame_alter. Qed.

Lemma frame_set_status a s h : frame h (SetAgentStatus a s h).
Proof. unfold SetAgentStatus. case_match; [|done]. by apply frame_alter. Qed.

Lemma frame_take r h : frame h (take_send r h).2.
Proof.
  unfold take_send. destruct (heap h !! r) as [c|] eqn:Hr; [|done].
  destruct (send c) as [|d l] eqn:Hs; [done|]. simpl. eapply frame_insert; try done.
  simpl. rewrite Hs. simpl. lia.
Qed.

Create HintDb hub.
#[export] Hint Resolve frame_safe_send frame_send_all frame_broadcast frame_touch
  frame_set_status frame_take : hub.

(** ** Closing a connection *)

(** On a live connection it succeeds and removes it from the directory. *)
Lemma mark_and_close_live r h c :
  chan_ok h → heap h !! r = Some c → closed c = false →
  ∃ h', mark_and_close r h = Some h' ∧ live h' = delete r (live h) ∧
    agents h' = agents h ∧ clientConns h' = clientConns h ∧ next_ref h' = next_ref h ∧
    (∀ r', is_Some (heap h' !! r') ↔ is_Some (heap h !! r')) ∧ chan_ok h' ∧
    (∀ r', r' ≠ r → heap h' !! r' = heap h !! r').
Proof.
  intros Hch Hr Hcl. destruct (Hch _ _ Hr) as [Hsc Hlen]. rewrite Hcl in Hsc.
  unfold mark_and_close. rewrite Hr. simpl. unfold close_send; simpl. rewrite <-Hsc. simpl.
  eexists. split; [done|]. simpl. split_and!; try done.
  - apply map_eq. intros r'. unfold live; simpl. rewrite lookup_omap, lookup_insert, lookup_delete.
    case_decide; [done|]. by rewrite lookup_omap.
  - intros r'. rewrite lookup_insert. case_decide; [subst|done]. by rewrite Hr.
  - apply map_Forall_insert_2; [|done]. by split.
  - intros r' Hne. by rewrite lookup_insert_ne.
Qed.

(** ** Connecting *)

Lemma dir_connect_lookup r ct i dev D r' :
  dir_connect r ct i dev D !! r' =
    if decide (r = r') then Some (ct, i, dev)
    else match D !! r' with
         | Some e => if decide (displaced ct i dev e) then None else Some e
         | None => None
         end.
Proof.
  unfold dir_connect. rewrite lookup_insert. case_decide; [done|].
  destruct (D !! r') as [e|] eqn:Hr.
  - case_decide.
    + by apply map_lookup_filter_None_2; right; intros ? ?; simplify_eq; auto.
    + by apply map_lookup_filter_Some_2.
  - apply map_lookup_filter_None_2. by left.
Qed.

Lemma alloc_spec c h :
  wf h → closed c = false → send_closed c = false → send c = [] →
  let r := (alloc c h).1 in let h' := (alloc c h).2 in
  heap h !! r = None ∧ heap h' !! r = Some c ∧ live h' = <[r := session_of c]> (live h) ∧
  live h !! r = None ∧
  agents h' = agents h ∧ clientConns h' = clientConns h ∧ next_ref h' = S (next_ref h) ∧
  (∀ r', is_Some (heap h' !! r') → (r' < S (next_ref h))%nat) ∧ chan_ok h'.
Proof.
  intros Hwf Hcl Hsc Hsend. simpl.
  assert (heap h !! next_ref h = None) as Hnone.
  { destruct (heap h !! next_ref h) eqn:Hr; [|done].
    pose proof (wf_fresh _ Hwf (next_ref h) ltac:(eauto)). lia. }
  split_and!; try done.
  - by rewrite lookup_insert_eq.
  - apply map_eq. intros r'. unfold live; simpl.
    rewrite lookup_omap, !lookup_insert, lookup_omap. case_decide; [|done]. simpl. by rewrite Hcl.
  - unfold live. by rewrite lookup_omap, Hnone.
  - intros r'. rewrite lookup_insert. case_decide; [lia|]. intros ?%(wf_fresh _ Hwf). lia.
  - apply map_Forall_insert_2; [|apply Hwf]. rewrite Hcl, Hsc, Hsend. split; [done|simpl; lia].
Qed.

(** When exactly one connection is displaced, filtering is deleting it. *)
Lemma dir_connect_replace r ct i dev old D :
  old ≠ r → D !! r = None → (∃ e, D !! old = Some e ∧ displaced ct i dev e) →
  (∀ r' e, D !! r' = Some e → displaced ct i dev e → r' = old) →
  delete old (<[r := (ct, i, dev)]> D) = dir_connect r ct i dev D.
Proof.
  intros Hne Hr (eo & Hold & Hd) Huniq. apply map_eq. intros r'.
  rewrite dir_connect_lookup, lookup_delete, lookup_insert.
  destruct (decide (old = r')) as [->|]; destruct (decide (r = r')) as [->|]; try done.
  - by rewrite Hold, decide_True.
  - destruct (D !! r') as [e|] eqn:He; [|done]. rewrite decide_False; [done|].
    intros Hde. apply (Huniq _ _ He) in Hde. congruence.
Qed.

Lemma dir_connect_add r ct i dev D :
  (∀ r' e, D !! r' = Some e → ¬ displaced ct i dev e) →
  <[r := (ct, i, dev)]> D = dir_connect r ct i dev D.
Proof.
  intros Hnone. apply map_eq. intros r'. rewrite dir_connect_lookup, lookup_insert.
  case_decide; [done|]. destruct (D !! r') as [e|] eqn:He; [|done].
  rewrite decide_False; [done|]. eauto.
Qed.

Lemma dir_connect_Some r ct i dev D r' e :
  dir_connect r ct i dev D !! r' = Some e ↔
    (r' = r ∧ e = (ct, i, dev)) ∨ (r' ≠ r ∧ D !! r' = Some e ∧ ¬ displaced ct i dev e).
Proof.
  rewrite dir_connect_lookup. case_decide as Hr; [naive_solver|].
  destruct (D !! r') as [e'|]; [|naive_solver]. case_decide; naive_solver.
Qed.

(** The invariant of a hub whose directory and agent map both took the new
    agent. *)
Lemma wf_add_agent h h' r i dev :
  wf h → live h !! r = None → live h' = dir_connect r Agent i dev (live h) →
  agents h' = <[i := r]> (agents h) → clientConns h' = clientConns h →
  chan_ok h' → (∀ r', is_Some (heap h' !! r') → (r' < next_ref h')%nat) → wf h'.
Proof.
  intros Hwf Hr Hl Ha Hc Hch Hfr.
  assert (∀ u, devices u h' = devices u h) as Hdev by (intros; unfold devices; congruence).
  split; try done.
  - intros a r'. rewrite Ha, Hl, lookup_insert_Some. setoid_rewrite dir_connect_Some.
    rewrite (wf_agents _ Hwf). unfold displaced; simpl. naive_solver.
  - intros u r'. rewrite Hdev, Hl, (wf_devices _ Hwf). setoid_rewrite dir_connect_Some.
    unfold displaced; simpl. split; [|naive_solver].
    intros [d Hd]. exists d. right. split_and!; [congruence|done|naive_solver].
  - intros u. rewrite Hdev. apply Hwf.
  - intros u. rewrite Hc. apply Hwf.
  - intros u d r1 r2. rewrite Hl, !dir_connect_Some.
    intros [[? ?]|(? & H1 & ?)] [[? ?]|(? & H2 & ?)]; simplify_eq.
    by apply (wf_one_per_device _ Hwf u d).
Qed.

Lemma wf_add_client h h' r i dev rs :
  wf h → live h !! r = None → live h' = dir_connect r Client i dev (live h) →
  agents h' = agents h → clientConns h' = <[i := rs]> (clientConns h) →
  rs ≠ [] → NoDup rs →
  (∀ r', r' ∈ rs ↔ r' = r ∨ (r' ∈ devices i h ∧
     ∀ d, live h !! r' = Some (Client, i, d) → ¬ (d = dev ∧ dev ≠ EmptyString))) →
  chan_ok h' → (∀ r', is_Some (heap h' !! r') → (r' < next_ref h')%nat) → wf h'.
Proof.
  intros Hwf Hr Hl Ha Hc Hne Hnd Hrs Hch Hfr.
  assert (∀ u, devices u h' = if decide (i = u) then rs else devices u h) as Hdev.
  { intros u. unfold devices. rewrite Hc, lookup_insert. by case_decide. }
  split; try done.
  - intros a r'. rewrite Ha, Hl, (wf_agents _ Hwf). setoid_rewrite dir_connect_Some.
    unfold displaced; simpl. split; [|naive_solver].
    intros [d Hd]. exists d. right. split_and!; [congruence|done|naive_solver].
  - intros u r'. rewrite Hdev, Hl. setoid_rewrite dir_connect_Some. unfold displaced; simpl.
    case_decide as Hu; [subst u; rewrite Hrs|]; rewrite (wf_devices _ Hwf); [|].
    + split.
      * intros [->|[[d Hd] Hnd']]; [exists dev; by left|]. exists d. right.
        split_and!; [congruence|done|]. specialize (Hnd' d Hd). naive_solver.
      * intros [d [[-> ?]|(? & Hd & Hnot)]]; [by left|]. right. split; [by eexists|].
        intros d' Hd'. simplify_eq. naive_solver.
    + split; [|naive_solver]. intros [d Hd]. exists d. right.
      split_and!; [congruence|done|naive_solver].
  - intros u. rewrite Hdev. case_decide; [done|apply Hwf].
  - intros u. rewrite Hc, lookup_insert. case_decide; [naive_solver|apply Hwf].
  - intros u d r1 r2. rewrite Hl, !dir_connect_Some. unfold displaced; simpl.
    intros [[-> ?]|(? & H1 & Hd1)] [[-> ?]|(? & H2 & Hd2)] Hd; simplify_eq; try done.
    + naive_solver.
    + naive_solver.
    + by apply (wf_one_per_device _ Hwf u d).
Qed.

Lemma find_device_spec h dev rs :
  match find_device h dev rs with
  | Some i => ∃ r c, rs !! i = Some r ∧ heap h !! r = Some c ∧ deviceID c = dev ∧ dev ≠ EmptyString
  | None => ∀ r c, r ∈ rs → heap h !! r = Some c → deviceID c = dev → dev = EmptyString
  end.
Proof.
  induction rs as [|r rs IH]; simpl; [by intros ??[]%not_elem_of_nil|].
  case_decide as Hd.
  - destruct Hd as [Hd ?]. apply fmap_Some in Hd as (c & Hc & ->). by exists r, c.
  - destruct (find_device h dev rs) as [i|]; simpl.
    + destruct IH as (r' & c & ? & ? & ? & ?). by exists r', c.
    + intros r' c [->|Hin]%elem_of_cons Hc Hdev; [|eauto].
      destruct (decide (dev = EmptyString)); [done|]. destruct Hd. rewrite Hc. simpl. by subst.
Qed.

(** What replacing one element of a list without duplicates leaves. *)
Lemma elem_of_replace (rs : list ref) k old r r' :
  NoDup rs → rs !! k = Some old → r ∉ rs →
  r' ∈ <[k := r]> rs ↔ r' = r ∨ (r' ∈ rs ∧ r' ≠ old).
Proof.
  intros Hnd Hk Hr. pose proof (lookup_lt_Some _ _ _ Hk) as Hlt.
  rewrite !list_elem_of_lookup. split.
  - intros [j Hj]. apply list_lookup_insert_Some in Hj as [(-> & -> & _)|[Hne Hj]]; [by left|].
    right. split; [eauto|]. intros ->. by pose proof (NoDup_lookup _ _ _ _ Hnd Hk Hj).
  - intros [->|[[j Hj] Hne]].
    + exists k. by apply list_lookup_insert_eq.
    + exists j. rewrite list_lookup_insert_ne; [done|]. naive_solver.
Qed.

Lemma NoDup_replace (rs : list ref) k r : NoDup rs → r ∉ rs → NoDup (<[k := r]> rs).
Proof.
  intros Hnd Hr. apply NoDup_alt. intros i j x.
  rewrite !list_lookup_insert_Some.
  intros [(-> & -> & ?)|[? Hi]] [(-> & ? & ?)|[? Hj]]; try done.
  - destruct Hr. by eapply list_elem_of_lookup_2.
  - subst. destruct Hr. by eapply list_elem_of_lookup_2.
  - by eapply NoDup_lookup.
Qed.

(** The outcome of [connect]. *)
Definition connected (h h' : Hub) (ct : ConnType) (i dev : string) : Prop :=
  wf h' ∧ live h' = dir_connect (next_ref h) ct i dev (live h) ∧ next_ref h' = S (next_ref h).

Lemma connect_agent_spec now t i dev v h :
  wf h → ∃ h', connect now (newConnection Agent i dev t v) h = Some h' ∧
    connected h h' Agent i dev.
Proof.
  intros Hwf. set (c := newConnection Agent i dev t v).
  destruct (alloc_spec c h Hwf eq_refl eq_refl eq_refl)
    as (Hnone & Hc & Hl1 & Hl0 & Ha1 & Hc1 & Hn1 & Hfr1 & Hch1).
  unfold connect. unfold alloc in *; cbn [fst snd] in *.
  set (r := next_ref h) in *. set (h1 := mkHub _ _ _ _ _) in *.
  unfold register. rewrite Hc. cbn [mbind option_bind connType newConnection c id].
  set (h2 := set_heap (alter (set_heartbeat now) r) h1).
  assert (frame h1 h2) as Hf by by apply frame_alter.
  pose proof (frame_chan _ _ Hf Hch1) as Hch2. pose proof (frame_live _ _ Hf) as Hl2.
  pose proof (frame_dom _ _ Hf) as Hd2. rewrite Hl1 in Hl2.
  assert (agents h2 = agents h) as -> by done.
  assert (∀ h3, live h3 = dir_connect r Agent i dev (live h) → agents h3 = agents h →
    clientConns h3 = clientConns h → next_ref h3 = S r → chan_ok h3 →
    (∀ r', is_Some (heap h3 !! r') → (r' < S r)%nat) →
    connected h (broadcastPresence i "agent" true (set_agents <[i := r]> h3)) Agent i dev)
    as Hfin.
  { intros h3 Hl3 Ha3 Hc3 Hn3 Hch3 Hd3. set (h4 := set_agents _ h3).
    assert (frame h4 (broadcastPresence i "agent" true h4)) as Hf4 by apply frame_send_all.
    split_and!; [|by rewrite (frame_live _ _ Hf4)|by rewrite (frame_next _ _ Hf4)].
    apply (wf_frame _ _ Hf4). eapply (wf_add_agent h h4 r i dev); try done.
    - unfold h4; simpl. by rewrite Ha3.
    - intros r' Hr'. unfold h4; simpl. rewrite Hn3. auto. }
  destruct (agents h !! i) as [old|] eqn:Hold.
  - destruct (proj1 (wf_agents _ Hwf i old) Hold) as [dev' Hlo].
    assert (r ≠ old) as Hne by congruence.
    assert (live h2 !! old = Some (Agent, i, dev')) as Hlo2
      by by rewrite Hl2, lookup_insert_ne.
    apply live_Some in Hlo2 as (co & Hco & Hcl & _).
    destruct (mark_and_close_live old h2 co Hch2 Hco Hcl)
      as (h3 & -> & Hl3 & Ha3 & Hc3 & Hn3 & Hd3 & Hch3 & _).
    eexists. split; [reflexivity|]. apply Hfin; try done; [|intros r' Hr'].
    + rewrite Hl3, Hl2. apply dir_connect_replace; [done..| |].
      * exists (Agent, i, dev'). split; [done|]. split_and!; try done. by left.
      * intros r' [[ct' i'] d'] Hr' (? & ? & _). simpl in *. subst.
        apply (inj Some). rewrite <-Hold. symmetry. apply (wf_agents _ Hwf). eauto.
    + apply Hfr1, Hd2, Hd3, Hr'.
  - cbn [mbind option_bind]. eexists. split; [reflexivity|]. apply Hfin; try done.
    + rewrite Hl2. apply dir_connect_add. intros r' [[ct' i'] d'] Hr' (? & ? & _). simpl in *.
      subst. assert (agents h !! i = Some r') by (apply (wf_agents _ Hwf); eauto). congruence.
    + intros r' Hr'. apply Hfr1, Hd2, Hr'.
Qed.

Lemma connect_client_spec now t i dev v h :
  wf h → ∃ h', connect now (newConnection Client i dev t v) h = Some h' ∧
    connected h h' Client i dev.
Proof.
  intros Hwf. set (c := newConnection Client i dev t v).
  destruct (alloc_spec c h Hwf eq_refl eq_refl eq_refl)
    as (Hnone & Hc & Hl1 & Hl0 & Ha1 & Hc1 & Hn1 & Hfr1 & Hch1).
  unfold connect. unfold alloc in *; cbn [fst snd] in *.
  set (r := next_ref h) in *. set (h1 := mkHub _ _ _ _ _) in *.
  unfold register. rewrite Hc. cbn [mbind option_bind connType newConnection c id deviceID].
  assert (devices i h1 = devices i h) as -> by done.
  assert (r ∉ devices i h) as Hnotin.
  { rewrite (wf_devices _ Hwf). intros [d Hd]. congruence. }
  pose proof (wf_nodup _ Hwf i) as Hnd.
  assert (∀ r', r' ∈ devices i h → ∃ c', heap h1 !! r' = Some c' ∧ r' ≠ r ∧ closed c' = false ∧
    live h !! r' = Some (Client, i, deviceID c')) as Hin.
  { intros r' Hr'. assert (r' ≠ r) as Hne by by intros ->.
    apply (wf_devices _ Hwf) in Hr' as [d Hd]. pose proof Hd as Hd'.
    apply live_Some in Hd as (c' & Hc' & Hcl & Hs). exists c'.
    split_and!; try done; [by simpl; rewrite lookup_insert_ne|].
    rewrite Hd'. unfold session_of in Hs. by simplify_eq. }
  pose proof (find_device_spec h1 dev (devices i h)) as Hfd.
  destruct (find_device h1 dev (devices i h)) as [k|].
  - destruct Hfd as (old & co & Hk & Hco & Hdev & Hne). rewrite Hk.
    cbn [mbind option_bind].
    destruct (Hin old) as (co' & Hco' & Hor & Hcl & Hlo); [by eapply list_elem_of_lookup_2|].
    assert (co' = co) as -> by congruence.
    destruct (mark_and_close_live old h1 co Hch1 Hco Hcl)
      as (h3 & -> & Hl3 & Ha3 & Hc3 & Hn3 & Hd3 & Hch3 & _).
    cbn [mbind option_bind]. assert (devices i h3 = devices i h) as ->.
    { unfold devices. by rewrite Hc3. }
    assert (live h3 = dir_connect r Client i dev (live h)) as Hl.
    { rewrite Hl3, Hl1. apply dir_connect_replace; [congruence|done| |].
      - exists (Client, i, dev). subst. split; [done|]. split_and!; try done. by right.
      - intros r' [[ct' i'] d'] Hr' (? & ? & [|[? ?]]); simpl in *; [done|]. subst.
        eapply (wf_one_per_device _ Hwf); [done..|congruence]. }
    eexists. split; [reflexivity|]. split_and!; [|done|exact (eq_trans Hn3 eq_refl)].
    eapply (wf_add_client h _ r i dev (<[k := r]> (devices i h))); try done; simpl.
    + rewrite Hc3. reflexivity.
    + intros Hnil%(f_equal length). rewrite length_insert in Hnil.
      apply lookup_lt_Some in Hk. simpl in Hnil. lia.
    + by apply NoDup_replace.
    + intros r'. rewrite (elem_of_replace _ _ old) by done.
      split; (intros [|[Hr' Hx]]; [by left|right; split; [done|]]).
      * intros d Hd [-> _]. subst. destruct Hx. by eapply (wf_one_per_device _ Hwf).
      * intros ->. destruct (Hx _ Hlo). by subst.
    + intros r' Hr'. rewrite Hn3. apply Hfr1, Hd3, Hr'.
  - eexists. split; [reflexivity|].
    assert (live h1 = dir_connect r Client i dev (live h)) as Hl.
    { rewrite Hl1. apply dir_connect_add.
      intros r' [[ct' i'] d'] Hr' (? & ? & [|[? ?]]); simpl in *; [done|]. subst.
      assert (r' ∈ devices i h) as Hmem by (apply (wf_devices _ Hwf); eauto).
      destruct (Hin r' Hmem) as (c' & Hc' & _ & _ & Hlr). rewrite Hr' in Hlr. simplify_eq.
      by specialize (Hfd _ _ Hmem Hc' eq_refl). }
    split_and!; [|done|done].
    eapply (wf_add_client h _ r i dev (devices i h ++ [r])); try done; simpl.
    + by destruct (devices i h).
    + apply NoDup_app. split_and!; [done| |apply NoDup_singleton].
      intros x Hx ->%list_elem_of_singleton. done.
    + intros r'. rewrite elem_of_app, list_elem_of_singleton.
      split; [intros [Hr'| ->]; [|by left]|intros [->|[? _]]; [by right|by left]].
      right. split; [done|]. intros d Hd [-> Hne].
      destruct (Hin r' Hr') as (c' & Hc' & _ & _ & Hlr). rewrite Hd in Hlr. simplify_eq.
      by specialize (Hfd _ _ Hr' Hc' eq_refl).
Qed.

(** ** Unregistering *)

Lemma index_of_spec r rs :
  match index_of r rs with
  | Some i => rs !! i = Some r
  | None => r ∉ rs
  end.
Proof.
  induction rs as [|r' rs IH]; simpl; [by apply not_elem_of_nil|].
  case_decide as Hr; [by subst|]. destruct (index_of r rs); simpl; [done|].
  apply not_elem_of_cons. by split.
Qed.

Lemma swap_remove_perm i r (rs : list ref) :
  rs !! i = Some r → rs ≡ₚ r :: swap_remove i rs.
Proof.
  destruct rs as [|x l _] using rev_ind; [done|]. intros Hi. unfold swap_remove.
  rewrite length_app. simpl. replace (length l + 1 - 1)%nat with (length l) by lia.
  rewrite lookup_app_r, Nat.sub_diag by lia. simpl.
  apply lookup_app_Some in Hi as [Hi|[Hle Hi]].
  - pose proof (lookup_lt_Some _ _ _ Hi).
    rewrite insert_app_l, take_app_le, take_ge by (rewrite ?length_insert; lia).
    rewrite insert_take_drop by done. rewrite <-(take_drop_middle l i r Hi) at 1.
    rewrite <-app_assoc. simpl. rewrite <-!Permutation_middle. constructor.
    by rewrite app_nil_r.
  - apply list_lookup_singleton_Some in Hi as [? <-].
    replace i with (length l + 0)%nat by lia. rewrite insert_app_r. simpl.
    rewrite take_app_le, take_ge by lia. apply Permutation_app_comm.
Qed.

Lemma wf_remove_agent h h' r a dev :
  wf h → live h !! r = Some (Agent, a, dev) → live h' = delete r (live h) →
  agents h' = delete a (agents h) → clientConns h' = clientConns h → chan_ok h' →
  (∀ r', is_Some (heap h' !! r') → (r' < next_ref h')%nat) → wf h'.
Proof.
  intros Hwf Hr Hl Ha Hc Hch Hfr.
  assert (∀ u, devices u h' = devices u h) as Hdev by (intros; unfold devices; congruence).
  assert (agents h !! a = Some r) as Har by (apply (wf_agents _ Hwf); eauto).
  split; try done.
  - intros a' r'. rewrite Ha, Hl, lookup_delete_Some. setoid_rewrite lookup_delete_Some.
    rewrite (wf_agents _ Hwf). split.
    + intros [? [d Hd]]. exists d. split; [congruence|done].
    + intros [d [? Hd]]. split; [|eauto]. intros <-.
      assert (agents h !! a = Some r') by (apply (wf_agents _ Hwf); eauto). congruence.
  - intros u r'. rewrite Hdev, Hl, (wf_devices _ Hwf). setoid_rewrite lookup_delete_Some.
    split; [|naive_solver]. intros [d Hd]. exists d. split; [congruence|done].
  - intros u. rewrite Hdev. apply Hwf.
  - intros u. rewrite Hc. apply Hwf.
  - intros u d r1 r2. rewrite Hl, !lookup_delete_Some. intros [? ?] [? ?].
    by apply (wf_one_per_device _ Hwf u d).
Qed.

Lemma wf_remove_client h h' r u dev rs :
  wf h → live h !! r = Some (Client, u, dev) → live h' = delete r (live h) →
  agents h' = agents h →
  clientConns h' = (match rs with [] => delete u | _ => <[u := rs]> end) (clientConns h) →
  devices u h ≡ₚ r :: rs → chan_ok h' →
  (∀ r', is_Some (heap h' !! r') → (r' < next_ref h')%nat) → wf h'.
Proof.
  intros Hwf Hr Hl Ha Hc Hperm Hch Hfr.
  assert (∀ u', devices u' h' = if decide (u = u') then rs else devices u' h) as Hdev.
  { intros u'. unfold devices. rewrite Hc. destruct rs;
      rewrite ?lookup_delete, ?lookup_insert; by case_decide. }
  pose proof (wf_nodup _ Hwf u) as Hnd. rewrite Hperm in Hnd.
  apply NoDup_cons in Hnd as [Hr_rs Hnd].
  split; try done.
  - intros a r'. rewrite Ha, Hl, (wf_agents _ Hwf). setoid_rewrite lookup_delete_Some.
    split; [|naive_solver]. intros [d Hd]. exists d. split; [congruence|done].
  - intros u' r'. rewrite Hdev, Hl. setoid_rewrite lookup_delete_Some.
    pose proof (wf_devices _ Hwf u' r') as Hd.
    case_decide as Hu; [subst u'|].
    + rewrite Hperm, elem_of_cons in Hd. split.
      * intros Hr'. destruct (proj1 Hd) as [d ?]; [by right|]. exists d.
        split; [by intros ->|done].
      * intros [d [? ?]]. destruct (proj2 Hd) as [->|]; [by exists d|done|done].
    + rewrite Hd. split; [|naive_solver]. intros [d Hd']. exists d. split; [congruence|done].
  - intros u'. rewrite Hdev. case_decide; [done|apply Hwf].
  - intros u'. rewrite Hc. destruct rs; rewrite ?lookup_delete, ?lookup_insert;
      (case_decide; [done|apply Hwf]).
  - intros u' d r1 r2. rewrite Hl, !lookup_delete_Some. intros [? ?] [? ?].
    by apply (wf_one_per_device _ Hwf u' d).
Qed.

(** The outcome of [unregister]. *)
Definition disconnected (h h' : Hub) (r : ref) : Prop :=
  wf h' ∧ live h' = delete r (live h) ∧ next_ref h' = next_ref h ∧
  (∀ r', is_Some (heap h' !! r') ↔ is_Some (heap h !! r')).

Lemma live_self h r c :
  heap h !! r = Some c → live h !! r = if closed c then None else Some (session_of c).
Proof. intros Hr. unfold live. by rewrite lookup_omap, Hr. Qed.

Lemma disconnected_id h r : wf h → live h !! r = None → disconnected h h r.
Proof. intros. split_and!; try done. by rewrite delete_id. Qed.

Lemma unregister_spec r h :
  wf h → is_Some (heap h !! r) → ∃ h', unregister r h = Some h' ∧ disconnected h h' r.
Proof.
  intros Hwf [c Hr]. pose proof (live_self _ _ _ Hr) as Hl. unfold unregister. rewrite Hr.
  cbn [mbind option_bind]. unfold session_of in Hl. destruct (connType c) eqn:Ht.
  - case_decide as Ha.
    + destruct (proj1 (wf_agents _ Hwf _ _) Ha) as [dev Hlr]. rewrite Hl in Hlr.
      unfold IsClosed. destruct (closed c) eqn:Hcl; [done|].
      destruct (mark_and_close_live r (set_agents (delete (id c)) h) c)
        as (h1 & -> & Hl1 & Ha1 & Hc1 & Hn1 & Hd1 & Hch1 & _); [apply Hwf|done..|].
      cbn [mbind option_bind]. eexists. split; [reflexivity|].
      assert (frame h1 (broadcastPresence (id c) "agent" false h1)) as Hf
        by apply frame_send_all.
      split_and!; [|by rewrite (frame_live _ _ Hf)|by rewrite (frame_next _ _ Hf)|
        by intros; rewrite (frame_dom _ _ Hf), Hd1].
      apply (wf_frame _ _ Hf). eapply (wf_remove_agent h h1 r); try done.
      intros r' Hr'. rewrite Hn1. by apply (wf_fresh _ Hwf), Hd1.
    + exists h. split; [done|]. apply disconnected_id; [done|]. rewrite Hl.
      destruct (closed c); [done|]. destruct Ha. apply (wf_agents _ Hwf). eauto.
  - pose proof (index_of_spec r (devices (id c) h)) as Hidx. unfold IsClosed.
    destruct (index_of r (devices (id c) h)) as [k|].
    + assert (r ∈ devices (id c) h) as [dev Hlr]%(wf_devices _ Hwf)
        by by eapply list_elem_of_lookup_2.
      rewrite Hl in Hlr. destruct (closed c) eqn:Hcl; [done|]. set (rs := swap_remove k _).
      destruct (mark_and_close_live r (set_clients
        (match rs with [] => delete (id c) | _ => <[id c := rs]> end) h) c)
        as (h1 & -> & Hl1 & Ha1 & Hc1 & Hn1 & Hd1 & Hch1 & _); [apply Hwf|done..|].
      exists h1. split; [done|]. split_and!; try done.
      eapply (wf_remove_client h h1 r _ _ rs); try done.
      * by apply swap_remove_perm.
      * intros r' Hr'. rewrite Hn1. by apply (wf_fresh _ Hwf), Hd1.
    + destruct (closed c) eqn:Hcl; [|destruct Hidx; apply (wf_devices _ Hwf); eauto].
      exists h. split; [done|]. by apply disconnected_id.
Qed.

Lemma connect_spec now t ct i dev v h :
  wf h → ∃ h', connect now (newConnection ct i dev t v) h = Some h' ∧ connected h h' ct i dev.
Proof. destruct ct; [apply connect_agent_spec|apply connect_client_spec]. Qed.
