(* ===== verification/HubProps.v ===== *)
(** * What the hub promises

    Every history of connects, unregisters, sends, broadcasts, heartbeats and
    status changes keeps the hub an implementation of the directory of HubInv.v
    and never panics; the consequences the source's comments claim follow. *)

From S2P Require Import Prelude GoLib Hub HubInv.

(** ** Histories *)

(** [EUnregister] is one receive from the channel [unregister]: [readPump] of any
    connection ever made, or the stale check, may have sent it, at any time and
    any number of times. *)
Inductive hub_event :=
  | EConnect (t now : Z) (ct : ConnType) (i dev version : string)
  | EUnregister (r : ref)
  | ESend (r : ref) (d : json)
  | EBroadcast (d : json)
  | EBroadcastClients (d : json)
  | EHeartbeat (now : Z) (r : ref)
  | ESetStatus (a s : string)
  | EWritePump (r : ref).

Definition hub_step (e : hub_event) (h : Hub) : option Hub :=
  match e with
  | EConnect t now ct i dev v => connect now (newConnection ct i dev t v) h
  | EUnregister r => if decide (is_Some (heap h !! r)) then unregister r h else Some h
  | ESend r d => Some (safe_send r d h).2
  | EBroadcast d => Some (broadcast d h)
  | EBroadcastClients d => Some (BroadcastToAllClients d h)
  | EHeartbeat now r => Some (TouchHeartbeat now r h)
  | ESetStatus a s => Some (SetAgentStatus a s h)
  | EWritePump r => Some (take_send r h).2
  end.

Fixpoint hub_run (es : list hub_event) (h : Hub) : option Hub :=
  match es with
  | [] => Some h
  | e :: es => h ← hub_step e h; hub_run es h
  end.

(** The same history on a directory, with the number of connections made. *)
Definition dir_step (e : hub_event) (s : directory * ref) : directory * ref :=
  match e with
  | EConnect _ _ ct i dev _ => (dir_connect s.2 ct i dev s.1, S s.2)
  | EUnregister r => (delete r s.1, s.2)
  | _ => s
  end.

Definition dir_run (es : list hub_event) (s : directory * ref) : directory * ref :=
  foldl (λ s e, dir_step e s) s es.

(** [h] shows the directory [D]. *)
Record shows (h : Hub) (D : directory) : Prop := {
  shows_agent a r : GetAgent a h = Some r ↔ ∃ dev, D !! r = Some (Agent, a, dev);
  shows_conns u r : r ∈ GetClientConns u h ↔ ∃ dev, D !! r = Some (Client, u, dev);
  shows_nodup u : NoDup (GetClientConns u h);
  shows_open r : (∃ c, heap h !! r = Some c ∧ closed c = false) ↔ is_Some (D !! r)
}.

Lemma wf_shows h : wf h → shows h (live h).
Proof.
  intros Hwf. split; [apply Hwf..|]. intros r. split.
  - intros (c & Hr & Hc). rewrite (live_self _ _ _ Hr), Hc. eauto.
  - intros [e He]. apply live_Some in He as (c & ? & ? & _). eauto.
Qed.

Lemma frame_step h h' (s : directory * ref) :
  wf h → live h = s.1 ∧ next_ref h = s.2 → frame h h' →
  wf h' ∧ live h' = s.1 ∧ next_ref h' = s.2.
Proof.
  intros Hwf [Hl Hn] Hf. split; [by eapply wf_frame|]. destruct Hf. split; congruence.
Qed.

Lemma hub_step_spec e h s :
  wf h → live h = s.1 ∧ next_ref h = s.2 →
  ∃ h', hub_step e h = Some h' ∧ wf h' ∧
    live h' = (dir_step e s).1 ∧ next_ref h' = (dir_step e s).2.
Proof.
  intros Hwf Hs. pose proof Hs as [Hl Hn].
  destruct e as [t now ct i dev v|r|r d|d|d|now r|a s'|r]; simpl.
  - rewrite <-Hl, <-Hn. destruct (connect_spec now t ct i dev v h Hwf) as (h' & ? & ?). eauto.
  - rewrite <-Hl. case_decide as Hr.
    + destruct (unregister_spec r h Hwf Hr) as (h' & -> & ? & ? & ? & _).
      exists h'. split_and!; try done. congruence.
    + exists h. rewrite delete_id; [done|]. unfold live. rewrite lookup_omap.
      destruct (heap h !! r); [|done]. destruct Hr; eauto.
  - eexists; split; [done|]. eapply frame_step; eauto with hub.
  - eexists; split; [done|]. eapply frame_step; eauto with hub.
  - eexists; split; [done|]. eapply frame_step; eauto with hub.
  - eexists; split; [done|]. eapply frame_step; eauto with hub.
  - eexists; split; [done|]. eapply frame_step; eauto with hub.
  - eexists; split; [done|]. eapply frame_step; eauto with hub.
Qed.

Lemma hub_run_spec es h s :
  wf h → live h = s.1 ∧ next_ref h = s.2 →
  ∃ h', hub_run es h = Some h' ∧ wf h' ∧
    live h' = (dir_run es s).1 ∧ next_ref h' = (dir_run es s).2.
Proof.
  revert h s. induction es as [|e es IH]; intros h s Hwf Hs; simpl; [eauto|].
  destruct (hub_step_spec e h s Hwf Hs) as (h' & -> & Hwf' & Hs'). simpl.
  by apply (IH h').
Qed.

Lemma live_newHub : live newHub = ∅.
Proof. apply omap_empty. Qed.

Lemma hub_run_new es :
  ∃ h, hub_run es newHub = Some h ∧ wf h ∧ live h = (dir_run es (∅, O)).1.
Proof.
  destruct (hub_run_spec es newHub (∅, O) wf_newHub) as (h & ? & ? & ? & _).
  - split; [apply live_newHub|done].
  - eauto.
Qed.

Lemma reachable_wf es h : hub_run es newHub = Some h → wf h.
Proof. intros Hes. destruct (hub_run_new es) as (h' & Hh & ? & _). congruence. Qed.

(** C12: after any history no channel was closed twice (the hub does
    not panic), and the hub shows exactly the directory: the agent map has the
    one live session of each agent, the device lists have each live session of
    the user once, and a connection is open just when it is in the directory. *)
Theorem hub_refines_directory (es : list hub_event) :
  ∃ h, hub_run es newHub = Some h ∧ shows h (dir_run es (∅, O)).1.
Proof.
  destruct (hub_run_new es) as (h & Hh & Hwf & Hl). exists h. split; [done|].
  rewrite <-Hl. by apply wf_shows.
Qed.

(** ** A connection that was replaced *)

(** The [unregister] of a connection that is already closed, as
    its [readPump] sends it after a reconnect has replaced it, changes nothing:
    the new session stays registered and open. *)
Theorem late_unregister es h r c :
  hub_run es newHub = Some h → heap h !! r = Some c → IsClosed c = true →
  unregister r h = Some h.
Proof.
  intros Hes%reachable_wf Hr Hc. unfold unregister. rewrite Hr.
  cbn [mbind option_bind]. pose proof (live_self _ _ _ Hr) as Hl.
  unfold IsClosed in *. rewrite Hc in *. destruct (connType c).
  - rewrite decide_False; [done|]. intros Ha.
    apply (wf_agents _ Hes) in Ha as [dev Hd]. congruence.
  - pose proof (index_of_spec r (devices (id c) h)) as Hi.
    destruct (index_of r (devices (id c) h)) as [k|]; [|done].
    apply list_elem_of_lookup_2, (wf_devices _ Hes) in Hi as [dev Hd]. congruence.
Qed.

(** Two sessions of one agent: the first is replaced, then unregistered. *)
Definition reconnect : list hub_event :=
  [EConnect 5 5 Agent "bot" EmptyString "v1"; EConnect 9 9 Agent "bot" EmptyString "v1"].

Example late_unregister_witness :
  ∃ h, hub_run reconnect newHub = Some h ∧ unregister O h = Some h ∧
    GetAgent "bot" h = Some 1%nat.
Proof.
  assert (∃ h, hub_run reconnect newHub = Some h) as [h Hh] by (eexists; vm_compute; reflexivity).
  exists h. split; [exact Hh|].
  assert (∃ c, heap h !! O = Some c ∧ IsClosed c = true) as (c & Hc & Hcl).
  { vm_compute in Hh. injection Hh as <-. eexists. vm_compute. split; reflexivity. }
  split; [exact (late_unregister reconnect h O c Hh Hc Hcl)|].
  vm_compute in Hh. injection Hh as <-. vm_compute. reflexivity.
Defined.

(** ** Who receives a broadcast *)

Lemma heap_safe_send r d h r' :
  heap (safe_send r d h).2 !! r' =
    if decide (r = r') then (λ c, (SafeSend d c).2) <$> heap h !! r' else heap h !! r'.
Proof.
  unfold safe_send. destruct (heap h !! r) as [c|] eqn:Hr.
  - destruct (SafeSend d c) as [ok c'] eqn:Hs. simpl. rewrite lookup_insert.
    case_decide; [subst|done]. rewrite Hr. simpl. by rewrite Hs.
  - simpl. case_decide; [subst|done]. by rewrite Hr.
Qed.

Lemma heap_send_all rs d h r :
  NoDup rs →
  heap (send_all rs d h) !! r =
    if decide (r ∈ rs) then (λ c, (SafeSend d c).2) <$> heap h !! r else heap h !! r.
Proof.
  unfold send_all. intros Hnd. revert h. induction Hnd as [|r0 rs Hr0 Hnd IH]; intros h; simpl.
  { done. }
  rewrite IH, heap_safe_send.
  destruct (decide (r ∈ rs)); destruct (decide (r0 = r)); subst.
  - done.
  - rewrite decide_True; [done|]. by right.
  - rewrite decide_True; [done|]. by left.
  - rewrite decide_False; [done|]. by rewrite not_elem_of_cons.
Qed.

Lemma elem_of_client_refs h r :
  wf h → r ∈ client_refs h ↔ ∃ u dev, live h !! r = Some (Client, u, dev).
Proof.
  intros Hwf. unfold client_refs. rewrite list_elem_of_bind. split.
  - intros ([u rs] & Hr & Hin). apply elem_of_map_to_list in Hin. exists u.
    apply (wf_devices _ Hwf). unfold devices. by rewrite Hin.
  - intros (u & dev & Hl). assert (r ∈ devices u h) as Hd by (apply (wf_devices _ Hwf); eauto).
    unfold devices in Hd. destruct (clientConns h !! u) as [rs|] eqn:Hu;
      [|by apply not_elem_of_nil in Hd].
    exists (u, rs). split; [done|]. by apply elem_of_map_to_list.
Qed.

Lemma NoDup_client_refs h : wf h → NoDup (client_refs h).
Proof.
  intros Hwf. unfold client_refs. apply NoDup_bind.
  - intros [u rs] [u' rs'] r Hin Hin' Hr Hr'. simpl in *.
    apply elem_of_map_to_list in Hin, Hin'.
    assert (r ∈ devices u h) as [d Hd]%(wf_devices _ Hwf) by by unfold devices; rewrite Hin.
    assert (r ∈ devices u' h) as [d' Hd']%(wf_devices _ Hwf) by by unfold devices; rewrite Hin'.
    congruence.
  - intros [u rs] Hin. apply elem_of_map_to_list in Hin. simpl.
    pose proof (wf_nodup _ Hwf u) as Hnd. unfold devices in Hnd. by rewrite Hin in Hnd.
  - apply NoDup_map_to_list.
Qed.

(** What a client connection with a free slot gets, and nobody else. *)
Definition gets (d : json) (c : Connection) : Connection :=
  if decide (connType c = Client ∧ closed c = false ∧ (length (send c) < send_capacity)%nat)
  then set_send (send c ++ [d]) c else c.

(** A status change sent with [BroadcastToAllClients] is put once
    into the channel of every live client connection that has room, of all users
    and devices, and no other connection changes. *)
Theorem broadcast_reaches_clients es h d :
  hub_run es newHub = Some h →
  heap (BroadcastToAllClients d h) = gets d <$> heap h.
Proof.
  intros Hwf%reachable_wf. apply map_eq. intros r. unfold BroadcastToAllClients.
  rewrite heap_send_all by by apply NoDup_client_refs. rewrite lookup_fmap.
  destruct (heap h !! r) as [c|] eqn:Hr; [|by case_decide]. simpl.
  pose proof (live_self _ _ _ Hr) as Hl. destruct (wf_chan _ Hwf _ _ Hr) as [Hcs _].
  destruct (decide (r ∈ client_refs h)) as [Hin|Hin]; f_equal.
  - apply elem_of_client_refs in Hin as (u & dev & Hlr); [|done]. rewrite Hl in Hlr.
    unfold session_of in Hlr. destruct (closed c) eqn:Hc; simplify_eq.
    unfold gets, SafeSend, IsClosed. rewrite Hc, <-Hcs.
    repeat case_decide; naive_solver.
  - unfold gets. rewrite decide_False; [done|]. intros (Ht & Hc & _).
    destruct Hin. apply elem_of_client_refs; [done|]. rewrite Hl, Hc.
    unfold session_of. rewrite Ht. eauto.
Qed.

Definition two_devices : list hub_event :=
  [EConnect 1 1 Client "u" "phone" "v1"; EConnect 2 2 Client "u" "laptop" "v1";
   EConnect 3 3 Agent "bot" EmptyString "v1"].

Example broadcast_reaches_clients_witness :
  ∃ h, hub_run two_devices newHub = Some h ∧
    (send <$> heap (BroadcastToAllClients JNull h) !! O) =
      Some [presence_event "bot" "agent" true; JNull] ∧
    (send <$> heap (BroadcastToAllClients JNull h) !! 2%nat) = Some [].
Proof.
  assert (∃ h, hub_run two_devices newHub = Some h) as [h Hh]
    by (eexists; vm_compute; reflexivity).
  exists h. split; [exact Hh|].
  rewrite (broadcast_reaches_clients two_devices h JNull Hh).
  vm_compute in Hh. injection Hh as <-. vm_compute. split; reflexivity.
Defined.

(** ** The heartbeat monitor *)

Lemma elem_of_agent_refs h r :
  wf h → r ∈ agent_refs h ↔ ∃ a dev, live h !! r = Some (Agent, a, dev).
Proof.
  intros Hwf. unfold agent_refs. rewrite list_elem_of_fmap. split.
  - intros ([a r'] & -> & Hin). apply elem_of_map_to_list in Hin. exists a.
    by apply (wf_agents _ Hwf).
  - intros (a & dev & Hl). exists (a, r). split; [done|]. apply elem_of_map_to_list.
    apply (wf_agents _ Hwf). eauto.
Qed.

Lemma unregister_all_spec rs h :
  wf h → (∀ r, r ∈ rs → is_Some (heap h !! r)) →
  ∃ h', unregister_all rs h = Some h' ∧ wf h' ∧
    ∀ r, live h' !! r = if decide (r ∈ rs) then None else live h !! r.
Proof.
  revert h. induction rs as [|r rs IH]; intros h Hwf Hrs; simpl.
  { exists h. by split_and!. }
  destruct (unregister_spec r h Hwf) as (h1 & -> & Hwf1 & Hl1 & _ & Hd1);
    [by apply Hrs; left|]. simpl.
  destruct (IH h1 Hwf1) as (h2 & -> & Hwf2 & Hl2).
  { intros r' Hr'. apply Hd1, Hrs. by right. }
  exists h2. split_and!; [done..|]. intros r'. rewrite Hl2, Hl1, lookup_delete.
  destruct (decide (r' ∈ rs)), (decide (r = r')); subst.
  - rewrite decide_True; [done|]. by right.
  - rewrite decide_True; [done|]. by right.
  - rewrite decide_True; [done|]. by left.
  - rewrite decide_False; [done|]. by rewrite not_elem_of_cons.
Qed.

(** A live agent connection whose last heartbeat is too old. *)
Definition stale_agent (timeout now : Z) (h : Hub) (r : ref) : Prop :=
  ∃ c, heap h !! r = Some c ∧ connType c = Agent ∧ closed c = false ∧
    timeout < now - lastHeartbeat c.

Lemma checkStaleAgents_spec timeout now h :
  wf h → ∃ h', checkStaleAgents timeout now h = Some h' ∧ wf h' ∧
    ∀ r, (stale_agent timeout now h r → live h' !! r = None) ∧
         (¬ stale_agent timeout now h r → live h' !! r = live h !! r).
Proof.
  intros Hwf. unfold checkStaleAgents, collect_stale.
  set (rs := filter _ (agent_refs h)). set (h1 := mkHub _ _ _ _ _).
  assert (wf h1) as Hwf1 by by apply (wf_frame h h1); [split|].
  assert (∀ r, r ∈ rs ↔ stale_agent timeout now h r) as Hrs.
  { intros r. unfold rs. rewrite list_elem_of_filter, elem_of_agent_refs by done.
    unfold is_stale, stale_agent. split.
    - intros [Hst (a & dev & Hl)]. apply live_Some in Hl as (c & Hr & Hc & Hs).
      rewrite Hr in Hst. apply bool_decide_eq_true in Hst. exists c.
      unfold session_of in Hs. simplify_eq. done.
    - intros (c & Hr & Ht & Hc & Hlt). rewrite Hr. split; [by apply bool_decide_eq_true|].
      rewrite (live_self _ _ _ Hr), Hc. unfold session_of. rewrite Ht. eauto. }
  destruct (unregister_all_spec rs h1 Hwf1) as (h' & Hh' & Hwf' & Hl).
  { intros r [c [Hr _]]%Hrs. eauto. }
  exists h'. split_and!; [done..|]. intros r. rewrite Hl. split; intros Hst.
  - by rewrite decide_True by by apply Hrs.
  - rewrite decide_False; [done|]. by rewrite Hrs.
Qed.

(** In every state of the hub the heartbeat check disconnects
    exactly the agents without a heartbeat within the timeout, and leaves every
    other connection alone; it does not panic. *)
Theorem checkStaleAgents_exact es h timeout now :
  hub_run es newHub = Some h →
  ∃ h', checkStaleAgents timeout now h = Some h' ∧
    ∀ r, (stale_agent timeout now h r → live h' !! r = None) ∧
         (¬ stale_agent timeout now h r → live h' !! r = live h !! r).
Proof.
  intros Hwf%reachable_wf.
  destruct (checkStaleAgents_spec timeout now h Hwf) as (h' & Hh' & _ & Hl). eauto.
Qed.

Example checkStaleAgents_exact_witness :
  ∃ h h', hub_run (reconnect ++ two_devices) newHub = Some h ∧
    checkStaleAgents 100 104 h = Some h' ∧ agents h' = ∅ ∧ staleAgents h' = 1.
Proof.
  assert (∃ h, hub_run (reconnect ++ two_devices) newHub = Some h) as [h Hh]
    by (eexists; vm_compute; reflexivity).
  destruct (checkStaleAgents_exact _ h 100 104 Hh) as (h' & Hh' & _).
  exists h, h'. split; [exact Hh|]. split; [exact Hh'|].
  vm_compute in Hh. injection Hh as <-. vm_compute in Hh'. injection Hh' as <-.
  vm_compute. split; reflexivity.
Defined.
