(* ===== verification/Store.v ===== *)
(** * The database: schema and write statements

    One record per table of dbdriver.go and main.go, with the statements that
    change them as functions to [Result DB]: a violated PRIMARY KEY or UNIQUE
    constraint is [ErrUnique], a violated FOREIGN KEY [ErrForeignKey] (the
    server switches [foreign_keys] on), and a failed statement changes nothing.
    [db_ok] says that the constraints hold, and every statement keeps it. *)

From S2P Require Import Prelude GoLib Sql.

(** ** Rows *)

Record UserRow := mkUser {
  u_id : string; u_username : string; u_password_hash : string; u_created_at : Z }.

Record AgentRow := mkAgent {
  a_id : string; a_name : string; a_model : string; a_personality : string;
  a_specialty : string; a_status : string; a_created_at : Z }.

Record Conversation := mkConversation {
  ConvID : string; ConvUserID : string; ConvAgentID : string; ConvCreatedAt : Z }.

(** [metadata] is JSON text the server wrote; NULL is [None]. *)
Record MessageRow := mkMessage {
  m_id : string; m_conversation_id : string; m_sender_type : string; m_sender_id : string;
  m_content : string; m_metadata : option json; m_created_at : Z; m_read_at : option Z;
  m_edited_at : option Z; m_is_deleted : bool }.

Record AttachmentRow := mkAttachment {
  at_id : string; at_message_id : option string; at_user_id : string; at_filename : string;
  at_content_type : string; at_size : Z; at_sha256 : string; at_storage_path : string;
  at_created_at : Z }.

Record KeyRow := mkKey {
  k_id : string; k_owner_id : string; k_owner_type : string; k_key_type : string;
  k_public_key : string; k_signature : string; k_key_id : Z; k_created_at : Z }.

Record EncryptedRow := mkEncrypted {
  e_id : string; e_conversation_id : string; e_sender_id : string; e_sender_type : string;
  e_ciphertext : string; e_iv : string; e_recipient_key_id : string; e_sender_key_id : string;
  e_algorithm : string; e_created_at : Z }.

Record PrefRow := mkPref { p_user_id : string; p_conversation_id : string; p_muted : bool }.

Record DeviceRow := mkDevice {
  d_user_id : string; d_token : string; d_platform : string; d_updated_at : Z }.

Record QueueRow := mkQueueRow {
  q_id : Z; q_recipient : string; q_data : json; q_queued_at : Z; q_sent_count : Z }.

Record ReactionRow := mkReaction {
  r_id : string; r_message_id : string; r_user_id : string; r_emoji : string;
  r_created_at : Z }.

Record TagRow := mkTag {
  t_id : string; t_conversation_id : string; t_tag : string; t_created_at : Z }.

Record TierRow := mkTierRow { tr_user_id : string; tr_tier_name : string }.

Record WebSubRow := mkWebSub {
  ws_user_id : string; ws_endpoint : string; ws_p256dh : string; ws_auth : string;
  ws_created_at : Z }.

(** [queue_seq] is the AUTOINCREMENT counter of [offline_queue]; the table
    [web_push_subscriptions] is created by the first request that needs it. *)
Record DB := mkDB {
  users : list UserRow;
  agents : list AgentRow;
  conversations : list Conversation;
  messages : list MessageRow;
  attachments : list AttachmentRow;
  key_bundles : list KeyRow;
  encrypted_messages : list EncryptedRow;
  notification_preferences : list PrefRow;
  device_tokens : list DeviceRow;
  offline_queue : list QueueRow;
  reactions : list ReactionRow;
  conversation_tags : list TagRow;
  user_rate_limit_tiers : list TierRow;
  web_push_subscriptions : option (list WebSubRow);
  queue_seq : Z
}.

Definition empty_db : DB := mkDB [] [] [] [] [] [] [] [] [] [] [] [] [] None 0.

Definition set_users (f : list UserRow → list UserRow) (d : DB) : DB :=
  mkDB (f (users d)) (agents d) (conversations d) (messages d) (attachments d) (key_bundles d)
    (encrypted_messages d) (notification_preferences d) (device_tokens d) (offline_queue d)
    (reactions d) (conversation_tags d) (user_rate_limit_tiers d) (web_push_subscriptions d)
    (queue_seq d).

Definition set_agents (f : list AgentRow → list AgentRow) (d : DB) : DB :=
  mkDB (users d) (f (agents d)) (conversations d) (messages d) (attachments d) (key_bundles d)
    (encrypted_messages d) (notification_preferences d) (device_tokens d) (offline_queue d)
    (reactions d) (conversation_tags d) (user_rate_limit_tiers d) (web_push_subscriptions d)
    (queue_seq d).

Definition set_conversations (f : list Conversation → list Conversation) (d : DB) : DB :=
  mkDB (users d) (agents d) (f (conversations d)) (messages d) (attachments d) (key_bundles d)
    (encrypted_messages d) (notification_preferences d) (device_tokens d) (offline_queue d)
    (reactions d) (conversation_tags d) (user_rate_limit_tiers d) (web_push_subscriptions d)
    (queue_seq d).

Definition set_messages (f : list MessageRow → list MessageRow) (d : DB) : DB :=
  mkDB (users d) (agents d) (conversations d) (f (messages d)) (attachments d) (key_bundles d)
    (encrypted_messages d) (notification_preferences d) (device_tokens d) (offline_queue d)
    (reactions d) (conversation_tags d) (user_rate_limit_tiers d) (web_push_subscriptions d)
    (queue_seq d).

Definition set_attachments (f : list AttachmentRow → list AttachmentRow) (d : DB) : DB :=
  mkDB (users d) (agents d) (conversations d) (messages d) (f (attachments d)) (key_bundles d)
    (encrypted_messages d) (notification_preferences d) (device_tokens d) (offline_queue d)
    (reactions d) (conversation_tags d) (user_rate_limit_tiers d) (web_push_subscriptions d)
    (queue_seq d).

Definition set_key_bundles (f : list KeyRow → list KeyRow) (d : DB) : DB :=
  mkDB (users d) (agents d) (conversations d) (messages d) (attachments d) (f (key_bundles d))
    (encrypted_messages d) (notification_preferences d) (device_tokens d) (offline_queue d)
    (reactions d) (conversation_tags d) (user_rate_limit_tiers d) (web_push_subscriptions d)
    (queue_seq d).

Definition set_encrypted_messages (f : list EncryptedRow → list EncryptedRow) (d : DB) : DB :=
  mkDB (users d) (agents d) (conversations d) (messages d) (attachments d) (key_bundles d)
    (f (encrypted_messages d)) (notification_preferences d) (device_tokens d) (offline_queue d)
    (reactions d) (conversation_tags d) (user_rate_limit_tiers d) (web_push_subscriptions d)
    (queue_seq d).

Definition set_notification_preferences (f : list PrefRow → list PrefRow) (d : DB) : DB :=
  mkDB (users d) (agents d) (conversations d) (messages d) (attachments d) (key_bundles d)
    (encrypted_messages d) (f (notification_preferences d)) (device_tokens d) (offline_queue d)
    (reactions d) (conversation_tags d) (user_rate_limit_tiers d) (web_push_subscriptions d)
    (queue_seq d).

Definition set_device_tokens (f : list DeviceRow → list DeviceRow) (d : DB) : DB :=
  mkDB (users d) (agents d) (conversations d) (messages d) (attachments d) (key_bundles d)
    (encrypted_messages d) (notification_preferences d) (f (device_tokens d)) (offline_queue d)
    (reactions d) (conversation_tags d) (user_rate_limit_tiers d) (web_push_subscriptions d)
    (queue_seq d).

Definition set_offline_queue (f : list QueueRow → list QueueRow) (d : DB) : DB :=
  mkDB (users d) (agents d) (conversations d) (messages d) (attachments d) (key_bundles d)
    (encrypted_messages d) (notification_preferences d) (device_tokens d) (f (offline_queue d))
    (reactions d) (conversation_tags d) (user_rate_limit_tiers d) (web_push_subscriptions d)
    (queue_seq d).

Definition set_reactions (f : list ReactionRow → list ReactionRow) (d : DB) : DB :=
  mkDB (users d) (agents d) (conversations d) (messages d) (attachments d) (key_bundles d)
    (encrypted_messages d) (notification_preferences d) (device_tokens d) (offline_queue d)
    (f (reactions d)) (conversation_tags d) (user_rate_limit_tiers d) (web_push_subscriptions d)
    (queue_seq d).

Definition set_conversation_tags (f : list TagRow → list TagRow) (d : DB) : DB :=
  mkDB (users d) (agents d) (conversations d) (messages d) (attachments d) (key_bundles d)
    (encrypted_messages d) (notification_preferences d) (device_tokens d) (offline_queue d)
    (reactions d) (f (conversation_tags d)) (user_rate_limit_tiers d) (web_push_subscriptions d)
    (queue_seq d).

Definition set_user_rate_limit_tiers (f : list TierRow → list TierRow) (d : DB) : DB :=
  mkDB (users d) (agents d) (conversations d) (messages d) (attachments d) (key_bundles d)
    (encrypted_messages d) (notification_preferences d) (device_tokens d) (offline_queue d)
    (reactions d) (conversation_tags d) (f (user_rate_limit_tiers d)) (web_push_subscriptions d)
    (queue_seq d).

Definition set_web_push_subscriptions
    (f : option (list WebSubRow) → option (list WebSubRow)) (d : DB) : DB :=
  mkDB (users d) (agents d) (conversations d) (messages d) (attachments d) (key_bundles d)
    (encrypted_messages d) (notification_preferences d) (device_tokens d) (offline_queue d)
    (reactions d) (conversation_tags d) (user_rate_limit_tiers d) (f (web_push_subscriptions d))
    (queue_seq d).

Definition next_queue_id (d : DB) : Z * DB :=
  (queue_seq d + 1,
   mkDB (users d) (agents d) (conversations d) (messages d) (attachments d) (key_bundles d)
       (encrypted_messages d) (notification_preferences d) (device_tokens d) (offline_queue d)
       (reactions d) (conversation_tags d) (user_rate_limit_tiers d) (web_push_subscriptions d)
       (queue_seq d + 1)).

(** ** Statements *)

Definition insert_user (u : UserRow) (d : DB) : Result DB :=
  if decide (u_id u ∈ u_id <$> users d) then Err ErrUnique
  else if decide (u_username u ∈ u_username <$> users d) then Err ErrUnique
  else Ok (set_users (λ t, t ++ [u]) d).

Definition update_user_password (uid hash : string) (d : DB) : Result DB :=
  Ok (set_users (fmap (λ u, if decide (u_id u = uid)
    then mkUser (u_id u) (u_username u) hash (u_created_at u) else u)) d).

Definition insert_agent (a : AgentRow) (d : DB) : Result DB :=
  if decide (a_id a ∈ a_id <$> agents d) then Err ErrUnique
  else Ok (set_agents (λ t, t ++ [a]) d).

(** [UPDATE agents SET ... WHERE id = ?], [f] rewriting columns other than the
    key. *)
Definition update_agent (f : AgentRow → AgentRow) (aid : string) (d : DB) : Result DB :=
  Ok (set_agents (fmap (λ a, if decide (a_id a = aid) then f a else a)) d).

Definition with_model (s : string) (a : AgentRow) : AgentRow :=
  mkAgent (a_id a) (a_name a) s (a_personality a) (a_specialty a) (a_status a) (a_created_at a).
Definition with_personality (s : string) (a : AgentRow) : AgentRow :=
  mkAgent (a_id a) (a_name a) (a_model a) s (a_specialty a) (a_status a) (a_created_at a).
Definition with_specialty (s : string) (a : AgentRow) : AgentRow :=
  mkAgent (a_id a) (a_name a) (a_model a) (a_personality a) s (a_status a) (a_created_at a).
Definition with_name (s : string) (a : AgentRow) : AgentRow :=
  mkAgent (a_id a) s (a_model a) (a_personality a) (a_specialty a) (a_status a) (a_created_at a).

(** [INSERT ... ON CONFLICT(id) DO UPDATE SET name, model, personality, specialty] *)
Definition upsert_agent (a : AgentRow) (d : DB) : Result DB :=
  if decide (a_id a ∈ a_id <$> agents d) then
    update_agent (λ o, mkAgent (a_id o) (a_name a) (a_model a) (a_personality a)
      (a_specialty a) (a_status o) (a_created_at o)) (a_id a) d
  else insert_agent a d.

Definition insert_conversation (c : Conversation) (d : DB) : Result DB :=
  if decide (ConvID c ∈ ConvID <$> conversations d) then Err ErrUnique
  else if decide (ConvUserID c ∈ u_id <$> users d ∧ ConvAgentID c ∈ a_id <$> agents d)
  then Ok (set_conversations (λ t, t ++ [c]) d)
  else Err ErrForeignKey.

(** [messages] and [encrypted_messages] reference conversations without
    CASCADE; tags and preferences go with the conversation. *)
Definition delete_conversation (cid : string) (d : DB) : Result DB :=
  if decide (Exists (λ c, ConvID c = cid) (conversations d) ∧
      (cid ∈ m_conversation_id <$> messages d ∨
       cid ∈ e_conversation_id <$> encrypted_messages d))
  then Err ErrForeignKey
  else Ok (set_conversations (filter (λ c, ConvID c ≠ cid))
    (set_conversation_tags (filter (λ t, t_conversation_id t ≠ cid))
    (set_notification_preferences (filter (λ p, p_conversation_id p ≠ cid)) d))).

Definition insert_message (m : MessageRow) (d : DB) : Result DB :=
  if decide (m_id m ∈ m_id <$> messages d) then Err ErrUnique
  else if decide (m_conversation_id m ∈ ConvID <$> conversations d)
  then Ok (set_messages (λ t, t ++ [m]) d)
  else Err ErrForeignKey.

(** [UPDATE messages SET ... WHERE ...] on columns other than the keys. *)
Definition update_messages (P : MessageRow → Prop) `{∀ m, Decision (P m)}
    (f : MessageRow → MessageRow) (d : DB) : Result DB :=
  Ok (set_messages (fmap (λ m, if decide (P m) then f m else m)) d).

Definition with_edit (content : string) (now : Z) (m : MessageRow) : MessageRow :=
  mkMessage (m_id m) (m_conversation_id m) (m_sender_type m) (m_sender_id m) content
    (m_metadata m) (m_created_at m) (m_read_at m) (Some now) (m_is_deleted m).

Definition with_deleted (now : Z) (m : MessageRow) : MessageRow :=
  mkMessage (m_id m) (m_conversation_id m) (m_sender_type m) (m_sender_id m) "[deleted]"
    (m_metadata m) (m_created_at m) (m_read_at m) (Some now) true.

Definition with_read (now : Z) (m : MessageRow) : MessageRow :=
  mkMessage (m_id m) (m_conversation_id m) (m_sender_type m) (m_sender_id m) (m_content m)
    (m_metadata m) (m_created_at m) (Some now) (m_edited_at m) (m_is_deleted m).

(** [attachments] references messages without CASCADE; reactions go along. *)
Definition delete_messages_of (cid : string) (d : DB) : Result DB :=
  let gone := m_id <$> filter (λ m, m_conversation_id m = cid) (messages d) in
  if decide (Exists (λ a, at_message_id a ∈ Some <$> gone) (attachments d))
  then Err ErrForeignKey
  else Ok (set_messages (filter (λ m, m_conversation_id m ≠ cid))
    (set_reactions (filter (λ r, r_message_id r ∉ gone)) d)).

(** [UPDATE attachments SET message_id = ? WHERE id = ? AND message_id IS NULL] *)
Definition link_attachment (mid aid : string) (d : DB) : Result DB :=
  if decide (Exists (λ a, at_id a = aid ∧ at_message_id a = None) (attachments d) ∧
             mid ∉ m_id <$> messages d)
  then Err ErrForeignKey
  else Ok (set_attachments (fmap (λ a, if decide (at_id a = aid ∧ at_message_id a = None)
    then mkAttachment (at_id a) (Some mid) (at_user_id a) (at_filename a) (at_content_type a)
      (at_size a) (at_sha256 a) (at_storage_path a) (at_created_at a)
    else a)) d).

Definition insert_attachment (a : AttachmentRow) (d : DB) : Result DB :=
  if decide (at_id a ∈ at_id <$> attachments d) then Err ErrUnique
  else if decide (at_user_id a ∈ u_id <$> users d ∧
                  at_message_id a ∈ None :: (Some <$> (m_id <$> messages d)))
  then Ok (set_attachments (λ t, t ++ [a]) d)
  else Err ErrForeignKey.

Definition insert_reaction (r : ReactionRow) (d : DB) : Result DB :=
  if decide (r_id r ∈ r_id <$> reactions d) then Err ErrUnique
  else if decide ((r_message_id r, r_user_id r, r_emoji r) ∈
      (λ r, (r_message_id r, r_user_id r, r_emoji r)) <$> reactions d) then Err ErrUnique
  else if decide (r_message_id r ∈ m_id <$> messages d ∧ r_user_id r ∈ u_id <$> users d)
  then Ok (set_reactions (λ t, t ++ [r]) d)
  else Err ErrForeignKey.

Definition delete_reaction (rid : string) (d : DB) : Result DB :=
  Ok (set_reactions (filter (λ r, r_id r ≠ rid)) d).

Definition insert_tag (t : TagRow) (d : DB) : Result DB :=
  if decide (t_id t ∈ t_id <$> conversation_tags d) then Err ErrUnique
  else if decide ((t_conversation_id t, t_tag t) ∈
      (λ t, (t_conversation_id t, t_tag t)) <$> conversation_tags d) then Err ErrUnique
  else if decide (t_conversation_id t ∈ ConvID <$> conversations d)
  then Ok (set_conversation_tags (λ l, l ++ [t]) d)
  else Err ErrForeignKey.

Definition tag_matches (cid tag : string) (t : TagRow) : Prop :=
  t_conversation_id t = cid ∧ t_tag t = tag.

#[global] Instance tag_matches_dec cid tag t : Decision (tag_matches cid tag t).
Proof. unfold tag_matches. apply _. Defined.

(** With the number of rows affected. *)
Definition delete_tag (cid tag : string) (d : DB) : Result (DB * Z) :=
  Ok (set_conversation_tags (filter (λ t, ¬ tag_matches cid tag t)) d,
      Z.of_nat (length (filter (tag_matches cid tag) (conversation_tags d)))).

Definition insert_key (k : KeyRow) (d : DB) : Result DB :=
  if decide (k_id k ∈ k_id <$> key_bundles d) then Err ErrUnique
  else if decide (k_owner_id k ∈ u_id <$> users d)
  then Ok (set_key_bundles (λ t, t ++ [k]) d)
  else Err ErrForeignKey.

Definition delete_key (kid : string) (d : DB) : Result DB :=
  Ok (set_key_bundles (filter (λ k, k_id k ≠ kid)) d).

Definition insert_encrypted (e : EncryptedRow) (d : DB) : Result DB :=
  if decide (e_id e ∈ e_id <$> encrypted_messages d) then Err ErrUnique
  else if decide (e_conversation_id e ∈ ConvID <$> conversations d)
  then Ok (set_encrypted_messages (λ t, t ++ [e]) d)
  else Err ErrForeignKey.

Definition pref_key (p : PrefRow) : string * string := (p_user_id p, p_conversation_id p).

(** [INSERT ... ON CONFLICT(user_id, conversation_id) DO UPDATE SET muted] *)
Definition upsert_pref (p : PrefRow) (d : DB) : Result DB :=
  if decide (pref_key p ∈ pref_key <$> notification_preferences d) then
    Ok (set_notification_preferences
      (fmap (λ q, if decide (pref_key q = pref_key p) then p else q)) d)
  else if decide (p_user_id p ∈ u_id <$> users d ∧
                  p_conversation_id p ∈ ConvID <$> conversations d)
  then Ok (set_notification_preferences (λ t, t ++ [p]) d)
  else Err ErrForeignKey.

Definition delete_pref (uid cid : string) (d : DB) : Result DB :=
  Ok (set_notification_preferences (filter (λ p, pref_key p ≠ (uid, cid))) d).

Definition device_key (r : DeviceRow) : string * string := (d_user_id r, d_token r).

(** [INSERT ... ON CONFLICT(user_id, device_token) DO UPDATE SET platform, updated_at] *)
Definition upsert_device (r : DeviceRow) (d : DB) : Result DB :=
  if decide (device_key r ∈ device_key <$> device_tokens d) then
    Ok (set_device_tokens (fmap (λ q, if decide (device_key q = device_key r) then r else q)) d)
  else if decide (d_user_id r ∈ u_id <$> users d)
  then Ok (set_device_tokens (λ t, t ++ [r]) d)
  else Err ErrForeignKey.

Definition delete_device (uid token : string) (d : DB) : Result DB :=
  Ok (set_device_tokens (filter (λ r, device_key r ≠ (uid, token))) d).

(** [INSERT OR REPLACE INTO device_tokens] *)
Definition replace_device (r : DeviceRow) (d : DB) : Result DB :=
  if decide (d_user_id r ∈ u_id <$> users d) then
    Ok (set_device_tokens (λ t, filter (λ q, device_key q ≠ device_key r) t ++ [r]) d)
  else Err ErrForeignKey.

Definition delete_web_device (uid endpoint : string) (d : DB) : Result DB :=
  Ok (set_device_tokens (filter (λ r, ¬ (device_key r = (uid, endpoint) ∧ d_platform r = "web"))) d).

(** [CREATE TABLE IF NOT EXISTS web_push_subscriptions], with [endpoint] UNIQUE;
    without the table the other two statements fail. *)
Definition create_web_subs (d : DB) : Result DB :=
  Ok (set_web_push_subscriptions (λ t, Some (default [] t)) d).

Definition replace_web_sub (r : WebSubRow) (d : DB) : Result DB :=
  match web_push_subscriptions d with
  | None => Err ErrIO
  | Some t =>
      Ok (set_web_push_subscriptions
        (λ _, Some (filter (λ q, ws_endpoint q ≠ ws_endpoint r) t ++ [r])) d)
  end.

Definition delete_web_sub (uid endpoint : string) (d : DB) : Result DB :=
  match web_push_subscriptions d with
  | None => Err ErrIO
  | Some t =>
      Ok (set_web_push_subscriptions
        (λ _, Some (filter (λ q, ¬ (ws_user_id q = uid ∧ ws_endpoint q = endpoint)) t)) d)
  end.

(** [INSERT OR REPLACE INTO user_rate_limit_tiers] *)
Definition replace_tier (r : TierRow) (d : DB) : Result DB :=
  if decide (tr_user_id r ∈ u_id <$> users d) then
    Ok (set_user_rate_limit_tiers
      (λ t, filter (λ q, tr_user_id q ≠ tr_user_id r) t ++ [r]) d)
  else Err ErrForeignKey.

Definition insert_queued (recipient : string) (data : json) (at_ : Z) (d : DB) : Result DB :=
  let '(i, d) := next_queue_id d in
  Ok (set_offline_queue (λ t, t ++ [mkQueueRow i recipient data at_ 0]) d).

Definition delete_queued (recipient : string) (d : DB) : Result DB :=
  Ok (set_offline_queue (filter (λ r, q_recipient r ≠ recipient)) d).

Definition delete_queued_before (cutoff : Z) (d : DB) : Result DB :=
  Ok (set_offline_queue (filter (λ r, ¬ q_queued_at r < cutoff)) d).
