(* ===== verification/StoreInv.v ===== *)
(** * The database invariant

    [db_ok]: every PRIMARY KEY and UNIQUE constraint of the schema holds, and no
    FOREIGN KEY dangles.  Each write statement of Store.v keeps it, deletions
    with their cascades included. *)

From S2P Require Import Prelude GoLib Sql Store.

(** Uniqueness of a key over a table, and a reference of every row to a table. *)
Definition unique {A K} (key : A → K) (t : list A) : Prop := NoDup (key <$> t).

Definition refers {A K} (key : A → K) (t : list A) (target : list K) : Prop :=
  Forall (λ r, key r ∈ target) t.

Record db_ok (d : DB) : Prop := {
  ok_users_pk : unique u_id (users d);
  ok_users_name : unique u_username (users d);
  ok_agents_pk : unique a_id (agents d);
  ok_conversations_pk : unique ConvID (conversations d);
  ok_conversations_user : refers ConvUserID (conversations d) (u_id <$> users d);
  ok_conversations_agent : refers ConvAgentID (conversations d) (a_id <$> agents d);
  ok_messages_pk : unique m_id (messages d);
  ok_messages_conv : refers m_conversation_id (messages d) (ConvID <$> conversations d);
  ok_attachments_pk : unique at_id (attachments d);
  ok_attachments_msg :
    refers at_message_id (attachments d) (None :: (Some <$> (m_id <$> messages d)));
  ok_attachments_user : refers at_user_id (attachments d) (u_id <$> users d);
  ok_keys_pk : unique k_id (key_bundles d);
  ok_keys_owner : refers k_owner_id (key_bundles d) (u_id <$> users d);
  ok_encrypted_pk : unique e_id (encrypted_messages d);
  ok_encrypted_conv : refers e_conversation_id (encrypted_messages d) (ConvID <$> conversations d);
  ok_prefs_pk : unique pref_key (notification_preferences d);
  ok_prefs_user : refers p_user_id (notification_preferences d) (u_id <$> users d);
  ok_prefs_conv :
    refers p_conversation_id (notification_preferences d) (ConvID <$> conversations d);
  ok_devices_pk : unique device_key (device_tokens d);
  ok_devices_user : refers d_user_id (device_tokens d) (u_id <$> users d);
  ok_queue_pk : unique q_id (offline_queue d);
  ok_queue_seq : Forall (λ r, q_id r ≤ queue_seq d) (offline_queue d);
  ok_reactions_pk : unique r_id (reactions d);
  ok_reactions_unique : unique (λ r, (r_message_id r, r_user_id r, r_emoji r)) (reactions d);
  ok_reactions_msg : refers r_message_id (reactions d) (m_id <$> messages d);
  ok_reactions_user : refers r_user_id (reactions d) (u_id <$> users d);
  ok_tags_pk : unique t_id (conversation_tags d);
  ok_tags_unique : unique (λ t, (t_conversation_id t, t_tag t)) (conversation_tags d);
  ok_tags_conv : refers t_conversation_id (conversation_tags d) (ConvID <$> conversations d);
  ok_tiers_pk : unique tr_user_id (user_rate_limit_tiers d);
  ok_tiers_user : refers tr_user_id (user_rate_limit_tiers d) (u_id <$> users d);
  ok_web_unique : unique ws_endpoint (default [] (web_push_subscriptions d))
}.

Lemma db_ok_empty : db_ok empty_db.
Proof. split; constructor. Qed.

Lemma Forall_filter_sub {A} (P Q : A → Prop) `{∀ x, Decision (Q x)} (l : list A) :
  Forall P l → Forall P (filter Q l).
Proof. rewrite !Forall_forall. intros Hl x [_ Hx]%list_elem_of_filter. auto. Qed.

(** ** How the two kinds of constraint move *)

Section constraints.
Context {A K : Type} (key : A → K).

Lemma unique_snoc t x : unique key t → key x ∉ key <$> t → unique key (t ++ [x]).
Proof.
  unfold unique. intros Hu Hx. rewrite fmap_app. apply NoDup_app. split_and!; [done| |].
  - intros y Hy. simpl. rewrite list_elem_of_singleton. by intros ->.
  - apply NoDup_singleton.
Qed.

Lemma unique_filter P `{∀ x, Decision (P x)} t : unique key t → unique key (filter P t).
Proof.
  unfold unique. intros Hu. eapply sublist_NoDup; [exact Hu|].
  apply fmap_sublist, sublist_filter.
Qed.

Lemma unique_map f t : (∀ x, key (f x) = key x) → unique key t → unique key (f <$> t).
Proof.
  unfold unique. intros Hf. rewrite <-list_fmap_compose.
  rewrite (list_fmap_ext (key ∘ f) key t); [done|]. intros. apply Hf.
Qed.

Lemma refers_snoc t x T : refers key t T → key x ∈ T → refers key (t ++ [x]) T.
Proof. unfold refers. intros. apply Forall_app. split; [done|]. by constructor. Qed.

Lemma refers_filter P `{∀ x, Decision (P x)} t T : refers key t T → refers key (filter P t) T.
Proof.
  unfold refers. rewrite !Forall_forall. intros Ht x [_ Hx]%list_elem_of_filter. auto.
Qed.

Lemma refers_map f t T :
  (∀ x, key x ∈ T → key (f x) ∈ T) → refers key t T → refers key (f <$> t) T.
Proof. unfold refers. intros Hf Ht. apply Forall_fmap. eapply Forall_impl; eauto. Qed.

Lemma refers_target t T T' :
  refers key t T → (∀ k, k ∈ T → k ∈ T') → refers key t T'.
Proof. unfold refers. intros Ht HT. eapply Forall_impl; eauto. Qed.

Lemma refers_target_when t T T' :
  refers key t T → (∀ x, x ∈ t → key x ∈ T → key x ∈ T') → refers key t T'.
Proof.
  unfold refers. intros Ht HT. apply Forall_forall. intros x Hx.
  rewrite Forall_forall in Ht. auto.
Qed.
End constraints.

(** A key determines its row. *)
Lemma unique_inj {A K} (key : A → K) (t : list A) x y :
  unique key t → x ∈ t → y ∈ t → key x = key y → x = y.
Proof.
  unfold unique. intros Hu. induction t as [|z t IH]; [by intros ?%not_elem_of_nil|].
  simpl in Hu. apply NoDup_cons in Hu as [Hz Hu]. rewrite !elem_of_cons.
  intros [->|Hx] [->|Hy] Hk; [done| | |by apply IH].
  - destruct Hz. rewrite Hk. by apply list_elem_of_fmap_2.
  - destruct Hz. rewrite <-Hk. by apply list_elem_of_fmap_2.
Qed.

Lemma elem_of_snoc {A} (x y : A) l : x ∈ l → x ∈ l ++ [y].
Proof. rewrite elem_of_app. auto. Qed.

Lemma fmap_key_map {A K} (key : A → K) (f : A → A) (t : list A) :
  (∀ x, key (f x) = key x) → key <$> (f <$> t) = key <$> t.
Proof.
  intros Hf. rewrite <-list_fmap_compose. apply list_fmap_ext. intros. apply Hf.
Qed.

Lemma elem_of_fmap_filter {A K} (key : A → K) (P : A → Prop) `{∀ x, Decision (P x)}
    (t : list A) k :
  k ∈ key <$> filter P t → k ∈ key <$> t.
Proof.
  intros (x & -> & Hx)%list_elem_of_fmap. apply list_elem_of_filter in Hx as [_ Hx].
  by apply list_elem_of_fmap_2.
Qed.

Create HintDb db_ok.
#[export] Hint Resolve unique_snoc unique_filter refers_snoc refers_filter elem_of_snoc : db_ok.

(** A statement keeps the invariant. *)
Definition keeps (stmt : DB → Result DB) : Prop :=
  ∀ d d', db_ok d → stmt d = Ok d' → db_ok d'.

(** Unfolds one statement, opens its guards and splits the invariant: what the
    statement does not touch closes by assumption. *)
Ltac db_cases :=
  intros d d' Hok Hd; repeat case_decide; simplify_eq/=; destruct Hok; split; simpl; try done;
  rewrite ?fmap_app; eauto 3 with db_ok.


(** For a statement that rewrites rows in place without changing their keys. *)
Ltac db_map :=
  repeat match goal with
  | |- context [ ?key <$> (?f <$> ?t) ] =>
      rewrite (fmap_key_map key f t) by (intros; by repeat case_decide)
  | |- unique _ (_ <$> _) => apply unique_map; [intros; by repeat case_decide|]
  | |- refers _ (_ <$> _) _ => apply refers_map; [intros; by repeat case_decide|]
  end; try done.

(** For a statement that appends a row: what referred to the table still does. *)
Ltac db_snoc :=
  try match goal with
  | H : refers ?key ?t ?T |- refers ?key ?t (?T ++ _) =>
      apply (refers_target key t T _ H); intros; by apply elem_of_snoc
  end.

Lemma keeps_insert_user u : keeps (insert_user u).
Proof. unfold insert_user. db_cases; db_snoc. Qed.

Lemma keeps_update_user_password uid hash : keeps (update_user_password uid hash).
Proof. unfold update_user_password. db_cases; db_map. Qed.

Lemma keeps_insert_agent a : keeps (insert_agent a).
Proof. unfold insert_agent. db_cases; db_snoc. Qed.

Lemma keeps_update_agent f aid : (∀ a, a_id (f a) = a_id a) → keeps (update_agent f aid).
Proof.
  intros Hf. assert (∀ a, a_id (if decide (a_id a = aid) then f a else a) = a_id a) as Hf'.
  { intros a. by case_decide. }
  unfold update_agent. db_cases; rewrite ?fmap_key_map by done; try done.
  by apply unique_map.
Qed.

Lemma keeps_upsert_agent a : keeps (upsert_agent a).
Proof.
  unfold upsert_agent. intros d d' Hok. case_decide.
  - by apply keeps_update_agent.
  - by apply keeps_insert_agent.
Qed.

Lemma keeps_insert_conversation c : keeps (insert_conversation c).
Proof. unfold insert_conversation. db_cases; db_snoc; naive_solver eauto with db_ok. Qed.

Lemma keeps_insert_message m : keeps (insert_message m).
Proof.
  unfold insert_message. db_cases; db_snoc.
  eapply refers_target; [done|]. intros k. rewrite !elem_of_cons, ?fmap_app, elem_of_app. tauto.
Qed.

Lemma keeps_update_messages P `{∀ m, Decision (P m)} f :
  (∀ m, m_id (f m) = m_id m ∧ m_conversation_id (f m) = m_conversation_id m) →
  keeps (update_messages P f).
Proof.
  intros Hf.
  assert (∀ m, m_id (if decide (P m) then f m else m) = m_id m) as H1
    by (intros m; case_decide; [apply Hf|done]).
  assert (∀ m, m_conversation_id (if decide (P m) then f m else m) = m_conversation_id m) as H2
    by (intros m; case_decide; [apply Hf|done]).
  unfold update_messages. db_cases; rewrite ?(fmap_key_map m_id) by done; try done.
  - by apply unique_map.
  - apply refers_map; [|done]. intros x. by rewrite H2.
Qed.

(** Rows that refer to a key other than the deleted one keep their target. *)
Lemma refers_after_delete {A B} (key : A → string) (pk : B → string) (t : list A)
    (target : list B) cid :
  refers key t (pk <$> target) → Forall (λ x, key x ≠ cid) t →
  refers key t (pk <$> filter (λ c, pk c ≠ cid) target).
Proof.
  unfold refers. rewrite !Forall_forall. intros Ht Hne x Hx.
  specialize (Ht x Hx). specialize (Hne x Hx). simpl in *.
  apply list_elem_of_fmap in Ht as (c & Hk & Hc). rewrite Hk. apply list_elem_of_fmap_2.
  apply list_elem_of_filter. split; [congruence|done].
Qed.

(** A key nobody refers to, or that is not there. *)
Lemma not_referred {A B} (key : A → string) (pk : B → string) (t : list A)
    (target : list B) cid :
  refers key t (pk <$> target) → ¬ (Exists (λ c, pk c = cid) target ∧ cid ∈ key <$> t) →
  Forall (λ x, key x ≠ cid) t.
Proof.
  unfold refers. rewrite !Forall_forall. intros Ht Hn x Hx <-. apply Hn. split.
  - apply Exists_exists. specialize (Ht x Hx). simpl in Ht.
    apply list_elem_of_fmap in Ht as (c & -> & Hc). eauto.
  - by apply list_elem_of_fmap_2.
Qed.

Lemma Forall_filter_self {A} (P : A → Prop) `{∀ x, Decision (P x)} (l : list A) :
  Forall P (filter P l).
Proof. rewrite Forall_forall. by intros x [? _]%list_elem_of_filter. Qed.

Lemma keeps_delete_conversation cid : keeps (delete_conversation cid).
Proof.
  unfold delete_conversation. intros d d' Hok Hd. case_decide as Hc; [done|]. simplify_eq/=.
  destruct Hok; split; simpl; try done; eauto 3 with db_ok;
    apply refers_after_delete; eauto 3 with db_ok; try apply Forall_filter_self;
    eapply not_referred; naive_solver.
Qed.

Lemma keeps_delete_messages_of cid : keeps (delete_messages_of cid).
Proof.
  unfold delete_messages_of. intros d d' Hok Hd. case_decide as Hc; [done|]. simplify_eq/=.
  assert (∀ m, m ∈ messages d →
    m_id m ∈ m_id <$> filter (λ m, m_conversation_id m = cid) (messages d) ∨
    m_id m ∈ m_id <$> filter (λ m, m_conversation_id m ≠ cid) (messages d)) as Hsplit.
  { intros m Hm. destruct (decide (m_conversation_id m = cid)); [left|right];
      apply list_elem_of_fmap_2, list_elem_of_filter; done. }
  destruct Hok; split; simpl; try done; eauto 3 with db_ok.
  - eapply refers_target_when; [done|]. intros a Ha [Hn|Hs]%elem_of_cons.
    + rewrite Hn. left.
    + right. apply list_elem_of_fmap in Hs as (i & Hi & (m & -> & Hm)%list_elem_of_fmap).
      rewrite Hi. apply list_elem_of_fmap_2. destruct (Hsplit m Hm) as [Hg|]; [|done].
      destruct Hc. apply Exists_exists. exists a. split; [done|]. rewrite Hi.
      by apply list_elem_of_fmap_2.
  - unfold refers. apply Forall_forall. intros r [Hr Hin]%list_elem_of_filter.
    unfold refers in ok_reactions_msg0. rewrite Forall_forall in ok_reactions_msg0.
    specialize (ok_reactions_msg0 r Hin). simpl in *.
    apply list_elem_of_fmap in ok_reactions_msg0 as (m & Hm & Hmin). rewrite Hm in *.
    by destruct (Hsplit m Hmin).
Qed.

Lemma keeps_link_attachment mid aid : keeps (link_attachment mid aid).
Proof.
  unfold link_attachment. intros d d' Hok Hd. case_decide as Hc; [done|]. simplify_eq/=.
  destruct Hok; split; simpl; try done.
  - db_map.
  - unfold refers in *. rewrite Forall_fmap, Forall_forall in *. intros a Ha.
    specialize (ok_attachments_msg0 a Ha). simpl. case_decide as Hl; [simpl|done].
    right. apply list_elem_of_fmap_2. destruct (decide (mid ∈ m_id <$> messages d)); [done|].
    destruct Hc. split; [|done]. apply Exists_exists. eauto.
  - db_map.
Qed.

Lemma keeps_insert_attachment a : keeps (insert_attachment a).
Proof. unfold insert_attachment. db_cases; destruct_and!; eauto with db_ok. Qed.

Lemma keeps_insert_reaction r : keeps (insert_reaction r).
Proof. unfold insert_reaction. db_cases; naive_solver eauto with db_ok. Qed.

Lemma keeps_delete_reaction rid : keeps (delete_reaction rid).
Proof. unfold delete_reaction. db_cases. Qed.

Lemma keeps_insert_tag t : keeps (insert_tag t).
Proof. unfold insert_tag. db_cases. Qed.

Lemma keeps_delete_tag cid tag d d' n : db_ok d → delete_tag cid tag d = Ok (d', n) → db_ok d'.
Proof.
  unfold delete_tag. intros Hok Hd. simplify_eq/=.
  destruct Hok; split; simpl; try done; eauto 3 with db_ok.
Qed.

Lemma keeps_insert_key k : keeps (insert_key k).
Proof. unfold insert_key. db_cases. Qed.

Lemma keeps_delete_key kid : keeps (delete_key kid).
Proof. unfold delete_key. db_cases. Qed.

Lemma keeps_insert_encrypted e : keeps (insert_encrypted e).
Proof. unfold insert_encrypted. db_cases. Qed.

Lemma keeps_upsert_pref p : keeps (upsert_pref p).
Proof.
  unfold upsert_pref. intros d d' Hok Hd. case_decide as Hin; [|revert d d' Hok Hd Hin].
  - simplify_eq/=. apply list_elem_of_fmap in Hin as (q & Hq & Hqin).
    destruct Hok; split; simpl; try done.
    + db_map.
    + unfold refers in *. rewrite Forall_fmap, Forall_forall in *. intros x Hx. simpl.
      case_decide; [|auto]. specialize (ok_prefs_user0 q Hqin). unfold pref_key in *.
      simpl in *. congruence.
    + unfold refers in *. rewrite Forall_fmap, Forall_forall in *. intros x Hx. simpl.
      case_decide; [|auto]. specialize (ok_prefs_conv0 q Hqin). unfold pref_key in *.
      simpl in *. congruence.
  - intros d d' Hok Hd Hin. revert Hd. case_decide; intros; simplify_eq/=. destruct_and!.
    destruct Hok; split; simpl; try done; eauto 3 with db_ok.
Qed.

Lemma keeps_delete_pref uid cid : keeps (delete_pref uid cid).
Proof. unfold delete_pref. db_cases. Qed.

Lemma keeps_upsert_device r : keeps (upsert_device r).
Proof.
  unfold upsert_device. intros d d' Hok Hd. case_decide as Hin.
  - simplify_eq/=. apply list_elem_of_fmap in Hin as (q & Hq & Hqin).
    destruct Hok; split; simpl; try done.
    + db_map.
    + unfold refers in *. rewrite Forall_fmap, Forall_forall in *. intros x Hx. simpl.
      case_decide; [|auto]. specialize (ok_devices_user0 q Hqin). unfold device_key in *.
      simpl in *. congruence.
  - revert Hd. case_decide; intros; simplify_eq/=.
    destruct Hok; split; simpl; try done; eauto 3 with db_ok.
Qed.

Lemma keeps_delete_device uid token : keeps (delete_device uid token).
Proof. unfold delete_device. db_cases. Qed.

Lemma keeps_replace_device r : keeps (replace_device r).
Proof.
  unfold replace_device. db_cases. apply unique_snoc; [by apply unique_filter|].
  intros (q & Hq & [Hne _]%list_elem_of_filter)%list_elem_of_fmap. congruence.
Qed.

Lemma keeps_delete_web_device uid endpoint : keeps (delete_web_device uid endpoint).
Proof. unfold delete_web_device. db_cases. Qed.

Lemma keeps_create_web_subs : keeps create_web_subs.
Proof. unfold create_web_subs. db_cases. Qed.

Lemma keeps_replace_web_sub r : keeps (replace_web_sub r).
Proof.
  unfold replace_web_sub. intros d d' Hok Hd. destruct (web_push_subscriptions d) as [t|] eqn:Ht; [|done].
  simplify_eq. destruct Hok; split; simpl; try done. rewrite Ht in *.
  apply unique_snoc; [by apply unique_filter|].
  intros (q & Hq & [Hne _]%list_elem_of_filter)%list_elem_of_fmap. congruence.
Qed.

Lemma keeps_delete_web_sub uid endpoint : keeps (delete_web_sub uid endpoint).
Proof.
  unfold delete_web_sub. intros d d' Hok Hd. destruct (web_push_subscriptions d) as [t|] eqn:Ht; [|done].
  simplify_eq. destruct Hok; split; simpl; try done. rewrite Ht in *. by apply unique_filter.
Qed.

Lemma keeps_replace_tier r : keeps (replace_tier r).
Proof.
  unfold replace_tier. db_cases. apply unique_snoc; [by apply unique_filter|].
  intros (q & Hq & [Hne _]%list_elem_of_filter)%list_elem_of_fmap. congruence.
Qed.

Lemma keeps_insert_queued r data t : keeps (insert_queued r data t).
Proof.
  unfold insert_queued. db_cases.
  - apply unique_snoc; [done|]. simpl. intros (q & Hq & Hin)%list_elem_of_fmap.
    rewrite Forall_forall in ok_queue_seq0. specialize (ok_queue_seq0 q Hin). simpl in *. lia.
  - apply Forall_app. split; [|by constructor]. eapply Forall_impl; [done|]. simpl. lia.
Qed.

Lemma keeps_delete_queued r : keeps (delete_queued r).
Proof. unfold delete_queued. db_cases; by apply Forall_filter_sub. Qed.

Lemma keeps_delete_queued_before t : keeps (delete_queued_before t).
Proof. unfold delete_queued_before. db_cases; by apply Forall_filter_sub. Qed.
