(* ===== verification/World.v ===== *)
(** * The server's state and the monad its code runs in

    [World] gathers the globals of the Go program (the database, the hub, the
    offline queue, the rate limiters), the uploaded files, and the two inputs it
    does not control: the clock, which advances by the head of [ticks] at each
    reading, and the failures, one flag of [faults] for each statement that is
    run and each file operation.
    Both lists are arbitrary, so a theorem over all worlds covers every timing
    and every pattern of failures; an exhausted list means no time passes and
    nothing fails.  [Env] has the configuration and the third-party code.

    Log lines, metrics counters and tracing spans do not influence what the
    server does and are left out. *)

From S2P Require Import Prelude GoLib FixedWindow RateLimit Tiers Sql Queue Hub Store.

(** ** Configuration and third-party code *)

(** JWT claims (auth.go); the registered claims are checked by the library. *)
Record Claims := mkClaims { UserID : string; Username : string }.

Class Env := {
  agentSecret : string;
  adminSecret : string;
  corsAllowedOrigins : string;
  agentPresenceEnabled : bool;
  agentPresenceInterval : Z;
  agentPresenceTimeout : Z;
  vapidPublicKey : string;
  maxUploadSize : Z;
  (** the database file, next to which the uploads are *)
  serverDBPath : string;
  (** [db.SetMaxOpenConns]; 0 is no limit, SQLite runs with 1 *)
  MaxOpenConns : nat;
  (** golang-jwt with the server's key: parsing at an instant, and signing
      claims with issue and expiry times *)
  jwt_parse : string → Z → Result Claims;
  jwt_sign : Claims → Z → Z → Result string;
  (** bcrypt; [GenerateFromPassword] draws its salt from the instant here *)
  bcrypt_compare : string → string → bool;
  bcrypt_generate : string → Z → Result string;
  (** time formats: RFC 3339 (with and without fractions) and the text form the
      SQLite driver stores *)
  rfc3339 : Z → string;
  rfc3339nano : Z → string;
  sqlite_time : Z → string;
  (** how the database orders rows that a query leaves unordered *)
  ordering :: OrderBy;
  (** the calendar year and month in the server's time zone *)
  local_year_month : Z → Z * Z;
  (** content sniffing, the system's table of file extensions, and SHA-256 in
      hexadecimal *)
  detect_content_type : string → string;
  extensions_by_type : string → list string;
  sha256_hex : string → string;
  (** the driver's texts for the errors the program did not make *)
  driver_error : error → string
}.

(** [err.Error()] *)
Definition Error `{Env} (e : error) : string :=
  match e with ErrText t => t | _ => driver_error e end.

(** ** The state *)

(** What was started with [go] and has not run yet: a push notification, the
    replay of queued messages to a new connection. *)
Inductive Goroutine :=
  | GoNotifyUser (user title body conv : string)
  | GoReplay (r : ref).

Record World := mkWorld {
  clock : Z;
  ticks : list N;
  faults : list bool;
  db : DB;
  hub : Hub;
  offlineQueue : OfflineQueue;
  messageRateLimiter : RateLimiter.RateLimiter;
  userRateLimiter : RateLimiter.RateLimiter;
  ipRateLimiter : RateLimiter.RateLimiter;
  authIPLimiter : RateLimiter.RateLimiter;
  agentRateLimiter : AgentLimiter.rateLimiter;
  globalTieredLimiter : Tiered.TieredRateLimiter;
  requestIDCounter : Z;
  spawned : list Goroutine;
  panicked : bool;
  stuck : bool;
  files : gmap string string
}.

Definition set_clock (f : Z → Z) (w : World) : World :=
  mkWorld (f (clock w)) (ticks w) (faults w) (db w) (hub w) (offlineQueue w)
    (messageRateLimiter w) (userRateLimiter w) (ipRateLimiter w) (authIPLimiter w)
    (agentRateLimiter w) (globalTieredLimiter w) (requestIDCounter w) (spawned w)
    (panicked w) (stuck w) (files w).

Definition set_ticks (f : list N → list N) (w : World) : World :=
  mkWorld (clock w) (f (ticks w)) (faults w) (db w) (hub w) (offlineQueue w)
    (messageRateLimiter w) (userRateLimiter w) (ipRateLimiter w) (authIPLimiter w)
    (agentRateLimiter w) (globalTieredLimiter w) (requestIDCounter w) (spawned w)
    (panicked w) (stuck w) (files w).

Definition set_faults (f : list bool → list bool) (w : World) : World :=
  mkWorld (clock w) (ticks w) (f (faults w)) (db w) (hub w) (offlineQueue w)
    (messageRateLimiter w) (userRateLimiter w) (ipRateLimiter w) (authIPLimiter w)
    (agentRateLimiter w) (globalTieredLimiter w) (requestIDCounter w) (spawned w)
    (panicked w) (stuck w) (files w).

Definition set_db (f : DB → DB) (w : World) : World :=
  mkWorld (clock w) (ticks w) (faults w) (f (db w)) (hub w) (offlineQueue w)
    (messageRateLimiter w) (userRateLimiter w) (ipRateLimiter w) (authIPLimiter w)
    (agentRateLimiter w) (globalTieredLimiter w) (requestIDCounter w) (spawned w)
    (panicked w) (stuck w) (files w).

Definition set_hub (f : Hub → Hub) (w : World) : World :=
  mkWorld (clock w) (ticks w) (faults w) (db w) (f (hub w)) (offlineQueue w)
    (messageRateLimiter w) (userRateLimiter w) (ipRateLimiter w) (authIPLimiter w)
    (agentRateLimiter w) (globalTieredLimiter w) (requestIDCounter w) (spawned w)
    (panicked w) (stuck w) (files w).

Definition set_offlineQueue (f : OfflineQueue → OfflineQueue) (w : World) : World :=
  mkWorld (clock w) (ticks w) (faults w) (db w) (hub w) (f (offlineQueue w))
    (messageRateLimiter w) (userRateLimiter w) (ipRateLimiter w) (authIPLimiter w)
    (agentRateLimiter w) (globalTieredLimiter w) (requestIDCounter w) (spawned w)
    (panicked w) (stuck w) (files w).

Definition set_messageRateLimiter (f : RateLimiter.RateLimiter → RateLimiter.RateLimiter) (w : World) : World :=
  mkWorld (clock w) (ticks w) (faults w) (db w) (hub w) (offlineQueue w)
    (f (messageRateLimiter w)) (userRateLimiter w) (ipRateLimiter w) (authIPLimiter w)
    (agentRateLimiter w) (globalTieredLimiter w) (requestIDCounter w) (spawned w)
    (panicked w) (stuck w) (files w).

Definition set_userRateLimiter (f : RateLimiter.RateLimiter → RateLimiter.RateLimiter) (w : World) : World :=
  mkWorld (clock w) (ticks w) (faults w) (db w) (hub w) (offlineQueue w)
    (messageRateLimiter w) (f (userRateLimiter w)) (ipRateLimiter w) (authIPLimiter w)
    (agentRateLimiter w) (globalTieredLimiter w) (requestIDCounter w) (spawned w)
    (panicked w) (stuck w) (files w).

Definition set_ipRateLimiter (f : RateLimiter.RateLimiter → RateLimiter.RateLimiter) (w : World) : World :=
  mkWorld (clock w) (ticks w) (faults w) (db w) (hub w) (offlineQueue w)
    (messageRateLimiter w) (userRateLimiter w) (f (ipRateLimiter w)) (authIPLimiter w)
    (agentRateLimiter w) (globalTieredLimiter w) (requestIDCounter w) (spawned w)
    (panicked w) (stuck w) (files w).

Definition set_authIPLimiter (f : RateLimiter.RateLimiter → RateLimiter.RateLimiter) (w : World) : World :=
  mkWorld (clock w) (ticks w) (faults w) (db w) (hub w) (offlineQueue w)
    (messageRateLimiter w) (userRateLimiter w) (ipRateLimiter w) (f (authIPLimiter w))
    (agentRateLimiter w) (globalTieredLimiter w) (requestIDCounter w) (spawned w)
    (panicked w) (stuck w) (files w).

Definition set_agentRateLimiter (f : AgentLimiter.rateLimiter → AgentLimiter.rateLimiter) (w : World) : World :=
  mkWorld (clock w) (ticks w) (faults w) (db w) (hub w) (offlineQueue w)
    (messageRateLimiter w) (userRateLimiter w) (ipRateLimiter w) (authIPLimiter w)
    (f (agentRateLimiter w)) (globalTieredLimiter w) (requestIDCounter w) (spawned w)
    (panicked w) (stuck w) (files w).

Definition set_globalTieredLimiter (f : Tiered.TieredRateLimiter → Tiered.TieredRateLimiter) (w : World) : World :=
  mkWorld (clock w) (ticks w) (faults w) (db w) (hub w) (offlineQueue w)
    (messageRateLimiter w) (userRateLimiter w) (ipRateLimiter w) (authIPLimiter w)
    (agentRateLimiter w) (f (globalTieredLimiter w)) (requestIDCounter w) (spawned w)
    (panicked w) (stuck w) (files w).

Definition set_requestIDCounter (f : Z → Z) (w : World) : World :=
  mkWorld (clock w) (ticks w) (faults w) (db w) (hub w) (offlineQueue w)
    (messageRateLimiter w) (userRateLimiter w) (ipRateLimiter w) (authIPLimiter w)
    (agentRateLimiter w) (globalTieredLimiter w) (f (requestIDCounter w)) (spawned w)
    (panicked w) (stuck w) (files w).

Definition set_spawned (f : list Goroutine → list Goroutine) (w : World) : World :=
  mkWorld (clock w) (ticks w) (faults w) (db w) (hub w) (offlineQueue w)
    (messageRateLimiter w) (userRateLimiter w) (ipRateLimiter w) (authIPLimiter w)
    (agentRateLimiter w) (globalTieredLimiter w) (requestIDCounter w) (f (spawned w))
    (panicked w) (stuck w) (files w).

Definition set_panicked (f : bool → bool) (w : World) : World :=
  mkWorld (clock w) (ticks w) (faults w) (db w) (hub w) (offlineQueue w)
    (messageRateLimiter w) (userRateLimiter w) (ipRateLimiter w) (authIPLimiter w)
    (agentRateLimiter w) (globalTieredLimiter w) (requestIDCounter w) (spawned w)
    (f (panicked w)) (stuck w) (files w).

Definition set_stuck (f : bool → bool) (w : World) : World :=
  mkWorld (clock w) (ticks w) (faults w) (db w) (hub w) (offlineQueue w)
    (messageRateLimiter w) (userRateLimiter w) (ipRateLimiter w) (authIPLimiter w)
    (agentRateLimiter w) (globalTieredLimiter w) (requestIDCounter w) (spawned w)
    (panicked w) (f (stuck w)) (files w).

Definition set_files (f : gmap string string → gmap string string) (w : World) : World :=
  mkWorld (clock w) (ticks w) (faults w) (db w) (hub w) (offlineQueue w)
    (messageRateLimiter w) (userRateLimiter w) (ipRateLimiter w) (authIPLimiter w)
    (agentRateLimiter w) (globalTieredLimiter w) (requestIDCounter w) (spawned w)
    (panicked w) (stuck w) (f (files w)).

(** ** The monad *)

Abbreviation M := (St World).

(** A step on the whole state; a change without result; a read. *)
Definition state {A} (f : World → A * World) : M A := f.
Definition modify (f : World → World) : M unit := λ w, (tt, f w).
Definition gets {A} (f : World → A) : M A := λ w, (f w, w).

(** [time.Now()] *)
Definition now : M Z := λ w,
  let t := clock w + Z.of_N (default 0%N (head (ticks w))) in
  (t, set_clock (λ _, t) (set_ticks tail w)).

(** Whether the next statement fails. *)
Definition fault : M bool := λ w,
  (default false (head (faults w)), set_faults tail w).

(** [db.Exec] of a statement, without and with the number of affected rows; a
    failed statement changes nothing. *)
Definition exec (stmt : DB → Result DB) : M (Result unit) :=
  f ← fault;
  if f : bool then mret (Err ErrIO) else state (λ w,
  match stmt (db w) with
  | Ok d => (Ok tt, set_db (λ _, d) w)
  | Err e => (Err e, w)
  end).

Definition exec_rows (stmt : DB → Result (DB * Z)) : M (Result Z) :=
  f ← fault;
  if f : bool then mret (Err ErrIO) else state (λ w,
  match stmt (db w) with
  | Ok (d, n) => (Ok n, set_db (λ _, d) w)
  | Err e => (Err e, w)
  end).

(** [db.Query] and [db.QueryRow] with their scan. *)
Definition query {A} (q : DB → Result A) : M (Result A) :=
  f ← fault;
  if f : bool then mret (Err ErrIO) else gets (λ w, q (db w)).

(** The result monad inside: [r ?← m; k] continues on [Ok] and returns the
    error otherwise, like [if err != nil { return err }]. *)
Definition mbind_ok {A B} (k : A → M (Result B)) (m : M (Result A)) : M (Result B) :=
  r ← m; match r with Ok a => k a | Err e => mret (Err e) end.

Notation "x ?← m ; k" := (mbind_ok (λ x, k) m)
  (at level 20, m at level 100, k at level 200, right associativity, only parsing).

(** [fmt.Sprintf("%s_%d", prefix, time.Now().UnixNano())] *)
Definition generateID (prefix : string) : M string :=
  t ← now; mret (prefix +:+ "_" +:+ FormatInt t).

(** [CURRENT_TIMESTAMP]: the database's clock, to the second. *)
Definition current_timestamp : M Z := t ← now; mret (t / Second * Second).

(** ** Files *)

(** [os.MkdirAll]; directories are not part of the state. *)
Definition make_dir : M (Result unit) :=
  f ← fault; mret (if f : bool then Err ErrIO else Ok tt).

(** [os.Create] makes the file empty, [io.Copy] fills it.  What a copy that
    fails has written is not shown: the code removes the file right after.  A
    removal that fails leaves the file. *)
Definition write_file (path content : string) : M (Result unit) :=
  f ← fault;
  if f : bool then mret (Err ErrIO) else _ ← modify (set_files <[path := content]>); mret (Ok tt).

Definition remove_file (path : string) : M unit :=
  f ← fault; if f : bool then mret tt else modify (set_files (delete path)).

(** ** Sending *)

(** [conn.SafeSend(data)] through the hub's heap. *)
Definition SafeSendTo (r : ref) (d : json) : M bool := λ w,
  let '(ok, h) := safe_send r d (hub w) in (ok, set_hub (λ _, h) w).

(** [for _, c := range conns { if c.SafeSend(d) { n++ } }] *)
Fixpoint SafeSendAll (rs : list ref) (d : json) : M nat :=
  match rs with
  | [] => mret O
  | r :: rs => ok ← SafeSendTo r d; n ← SafeSendAll rs d; mret (if ok : bool then S n else n)
  end.

(** A receive of [run]; the panic of the hub's goroutine ends the program. *)
Definition hub_do (f : Hub → option Hub) : M unit := λ w,
  match f (hub w) with
  | Some h => (tt, set_hub (λ _, h) w)
  | None => (tt, set_panicked (λ _, true) w)
  end.

Definition go (g : Goroutine) : M unit := modify (set_spawned (λ l, l ++ [g])).

(** ** HTTP handlers *)

(** A handler gets the response headers set so far. *)
Definition HandlerFunc : Type := gmap string string → Request → M Response.

(** [w.Header().Set(k, v)] *)
Definition set_header (k v : string) (h : gmap string string) : gmap string string :=
  <[CanonicalHeaderKey k := v]> h.

Definition content_type : string := "Content-Type".
Definition application_json : string := "application/json".

(** [writeJSON] and [writeJSONResponse] are the same function twice; the
    handlers also inline it with status 200. *)
Definition writeJSON (code : Z) (j : json) (h : gmap string string) : Response :=
  mkResponse code (set_header content_type application_json h) (JSONBody j).

Definition writeJSONError (code : Z) (message : string) (h : gmap string string) : Response :=
  writeJSON code (JObj [("error", JStr message); ("status", JStr (StatusText code))]) h.

(** The early returns of the handlers. *)
Definition reject (code : Z) (message : string) (h : gmap string string) : M Response :=
  mret (writeJSONError code message h).

Definition method_is (m : string) (r : Request) : bool := bool_decide (Method r = m).

(** ** Running the primitives *)

Lemma run_bind {A B} (m : M A) (k : A → M B) w : (m ≫= k) w = k (m w).1 (m w).2.
Proof. done. Qed.

Lemma run_bind_ok {A B} (m : M (Result A)) (k : A → M (Result B)) w :
  mbind_ok k m w = match (m w).1 with Ok a => k a (m w).2 | Err e => (Err e, (m w).2) end.
Proof. unfold mbind_ok. rewrite run_bind. by destruct (m w).1. Qed.

(** The fault flag of the next statement, and the world after it is read. *)
Definition failing (w : World) : bool := default false (head (faults w)).
Definition stepped (w : World) : World := set_faults tail w.

Lemma run_exec stmt w :
  exec stmt w = if failing w then (Err ErrIO, stepped w) else
    match stmt (db w) with
    | Ok d => (Ok tt, set_db (λ _, d) (stepped w))
    | Err e => (Err e, stepped w)
    end.
Proof.
  unfold exec. rewrite run_bind. cbn [fault fst snd]. fold (failing w).
  by destruct (failing w).
Qed.

Lemma run_exec_rows stmt w :
  exec_rows stmt w = if failing w then (Err ErrIO, stepped w) else
    match stmt (db w) with
    | Ok (d, n) => (Ok n, set_db (λ _, d) (stepped w))
    | Err e => (Err e, stepped w)
    end.
Proof.
  unfold exec_rows. rewrite run_bind. cbn [fault fst snd]. fold (failing w).
  by destruct (failing w).
Qed.

Lemma run_query {A} (q : DB → Result A) w :
  query q w = (if failing w then Err ErrIO else q (db w), stepped w).
Proof.
  unfold query. rewrite run_bind. cbn [fault fst snd]. fold (failing w).
  by destruct (failing w).
Qed.

Lemma run_hub_do f w h : f (hub w) = Some h → hub_do f w = (tt, set_hub (λ _, h) w).
Proof. intros Hf. unfold hub_do. by rewrite Hf. Qed.

(** ** Families of computations

    A family is a set of computations; [within P m] says that [m] is one of
    [P].  A family composes when it is closed under the monad, so that a handler
    made of members is a member.  The two that matter: the computations that run
    along a preorder on worlds (frame conditions, invariants), and the
    computations that are made of atomic steps (Interleave.v). *)
Definition Family : Type := ∀ A, M A → Type.

Definition within (P : Family) {A} (m : M A) : Type := P A m.

Class Composes (P : Family) := {
  composes_ext {A} (m m' : M A) : (∀ w, m w = m' w) → within P m → within P m';
  composes_ret {A} (a : A) : within P (mret a);
  composes_gets {A} (f : World → A) : within P (gets f);
  composes_bind {A B} (m : M A) (k : A → M B) :
    within P m → (∀ a, within P (k a)) → within P (m ≫= k)
}.

Section within.
Context (P : Family) `{!Composes P}.

Lemma within_ret {A} (a : A) : within P (mret a).
Proof. apply composes_ret. Defined.

Lemma within_gets {A} (f : World → A) : within P (gets f).
Proof. apply composes_gets. Defined.

Lemma within_bind {A B} (m : M A) (k : A → M B) :
  within P m → (∀ a, within P (k a)) → within P (m ≫= k).
Proof. apply composes_bind. Defined.

Lemma within_bind_ok {A B} (m : M (Result A)) (k : A → M (Result B)) :
  within P m → (∀ a, within P (k a)) → within P (mbind_ok k m).
Proof.
  intros Hm Hk. apply within_bind; [done|]. intros [a|e]; [apply Hk|apply within_ret].
Defined.

Lemma within_fmap {A B} (f : A → B) (m : M A) : within P m → within P (f <$> m).
Proof.
  intros Hm. apply (composes_ext (a ← m; mret (f a))); [done|].
  apply within_bind; [done|]. intros a. apply within_ret.
Defined.
End within.

(** The computations that relate the world before to the world after by [R]. *)
Definition along (R : relation World) : Family := λ A m, ∀ w, R w (m w).2.

Coercion along : relation >-> Family.

#[export] Instance along_composes R : PreOrder R → Composes (along R).
Proof.
  intros HR. split.
  - intros A m m' He Hm w. rewrite <-He. apply Hm.
  - intros A a w. by simpl.
  - intros A f w. by simpl.
  - intros A B m k Hm Hk w. etrans; [apply Hm|apply Hk].
Qed.
