(* ===== verification/Auth.v ===== *)
(** * Authentication (auth.go) and the account handlers of handlers.go *)

From S2P Require Import Prelude GoLib FixedWindow RateLimit Sql Queue Hub Store World.

Section auth.
Context `{Env}.

(** [subtle.ConstantTimeCompare] is 1 on equal byte strings. *)
Definition ConstantTimeCompare (x y : string) : bool := bool_decide (x = y).

Definition ValidateAdminSecret (secret : string) : Result unit :=
  if ConstantTimeCompare secret adminSecret then Ok tt
  else Err (ErrText "unauthorized: invalid admin secret").

Definition agent_limiter_allow (agentID : string) : M bool :=
  t ← now; t' ← now;
  state (λ w, let '(ok, rl) := AgentLimiter.Allow t t' agentID (agentRateLimiter w) in
              (ok, set_agentRateLimiter (λ _, rl) w)).

Definition ValidateAgentSecret (agentID secret : string) : M (Result unit) :=
  if str_empty secret then mret (Err (ErrText "missing agent secret")) else
  allowed ← agent_limiter_allow agentID;
  if negb allowed then mret (Err (ErrText "rate limited: too many connection attempts")) else
  if ConstantTimeCompare secret agentSecret then mret (Ok tt)
  else mret (Err (ErrText "invalid agent secret")).

(** [if x != "" { UPDATE agents SET ... }] *)
Definition update_unless (skip : bool) (f : AgentRow → AgentRow) (agentID : string)
    : M (Result unit) :=
  if skip then mret (Ok tt) else exec (update_agent f agentID).

Definition RegisterAgentOnConnect (agentID name model personality specialty : string)
    : M (Result unit) :=
  let name := if str_empty name then agentID else name in
  existing ← query (λ d, a_name <$> query_row (λ a, a_id a = agentID) (agents d));
  match existing with
  | Err ErrNoRows =>
      t ← current_timestamp;
      exec (insert_agent (mkAgent agentID name model personality specialty "offline" t))
  | Err e => mret (Err e)
  | Ok _ =>
      _ ?← update_unless (str_empty model) (with_model model) agentID;
      _ ?← update_unless (str_empty personality) (with_personality personality) agentID;
      _ ?← update_unless (str_empty specialty) (with_specialty specialty) agentID;
      _ ?← update_unless (bool_decide (name = agentID)) (with_name name) agentID;
      mret (Ok tt)
  end.

Definition ValidateJWT (tokenString : string) : M (Result Claims) :=
  if str_empty tokenString then mret (Err (ErrText "empty token")) else
  t ← now; mret (jwt_parse tokenString t).

Definition GenerateJWT (userID username : string) : M (Result string) :=
  exp ← now; iat ← now;
  mret (jwt_sign (mkClaims userID username) iat (exp + 24 * Hour)).

Definition HashAPIKey (apiKey : string) : M (Result string) :=
  t ← now; mret (bcrypt_generate apiKey t).

(** The lines every handler starts with: the Authorization header, without a
    [Bearer] prefix if something follows it. *)
Definition bearer_token (r : Request) : string :=
  let token := HeaderGet r "Authorization" in
  if bool_decide (7 < len token) && HasPrefix token "Bearer " then drop_str 7 token else token.

(** [if r.Method != m { ... }], then the token. *)
Definition with_claims (m : string) (h : gmap string string) (r : Request)
    (k : Claims → M Response) : M Response :=
  if negb (method_is m r) then reject StatusMethodNotAllowed "method not allowed" h else
  claims ← ValidateJWT (bearer_token r);
  match claims with
  | Err _ => reject StatusUnauthorized "unauthorized" h
  | Ok claims => k claims
  end.

(** ** Accounts *)

Definition handleLogin : HandlerFunc := λ h r,
  if negb (method_is MethodPost r) then
    reject StatusMethodNotAllowed "method not allowed" h else
  let username := FormValue r "username" in
  let password := FormValue r "password" in
  if str_empty username || str_empty password then
    reject StatusBadRequest "missing username or password" h else
  user ← query (λ d, query_row (λ u, u_username u = username) (users d));
  match user with
  | Err ErrNoRows => reject StatusUnauthorized "invalid credentials" h
  | Err _ => reject StatusInternalServerError "internal error" h
  | Ok u =>
      if negb (bcrypt_compare (u_password_hash u) password) then
        reject StatusUnauthorized "invalid credentials" h else
      token ← GenerateJWT (u_id u) username;
      match token with
      | Err _ => reject StatusInternalServerError "internal error" h
      | Ok token =>
          mret (writeJSON StatusOK (JObj [("token", JStr token); ("user_id", JStr (u_id u));
            ("username", JStr username)]) h)
      end
  end.

Definition handleRegisterAgent : HandlerFunc := λ h r,
  if negb (method_is MethodPost r) then
    reject StatusMethodNotAllowed "method not allowed" h else
  let secret := HeaderGet r "X-Agent-Secret" in
  let secret := if str_empty secret then FormValue r "agent_secret" else secret in
  if bool_decide (secret ≠ agentSecret) then
    reject StatusUnauthorized "invalid agent secret" h else
  let agentID := FormValue r "agent_id" in
  let name := FormValue r "name" in
  let model := FormValue r "model" in
  let personality := FormValue r "personality" in
  let specialty := FormValue r "specialty" in
  if str_empty agentID then reject StatusBadRequest "missing agent_id" h else
  let name := if str_empty name then agentID else name in
  t ← current_timestamp;
  res ← exec (upsert_agent (mkAgent agentID name model personality specialty "offline" t));
  match res with
  | Err e => reject StatusInternalServerError ("failed to register agent: " +:+ Error e) h
  | Ok _ =>
      mret (writeJSON StatusOK (JObj [("agent_id", JStr agentID); ("model", JStr model);
        ("personality", JStr personality); ("specialty", JStr specialty);
        ("status", JStr "registered")]) h)
  end.

(** [range username] walks runes; a byte of a character that is not ASCII is
    rejected either way. *)
Definition username_char (c : Ascii.ascii) : bool :=
  let n := Ascii.nat_of_ascii c in
  bool_decide ((97 ≤ n ∧ n ≤ 122) ∨ (65 ≤ n ∧ n ≤ 90) ∨ (48 ≤ n ∧ n ≤ 57) ∨ n = 95)%nat.

Definition isUniqueViolation (e : error) : bool :=
  match e with ErrUnique => true | _ => false end.

Definition handleRegisterUser : HandlerFunc := λ h r,
  if negb (method_is MethodPost r) then
    reject StatusMethodNotAllowed "method not allowed" h else
  let username := FormValue r "username" in
  let password := FormValue r "password" in
  if str_empty username || str_empty password then
    reject StatusBadRequest "missing username or password" h else
  if bool_decide (len username < 3) || bool_decide (50 < len username) then
    reject StatusBadRequest "username must be between 3 and 50 characters" h else
  if negb (forallb username_char (String.list_ascii_of_string username)) then
    reject StatusBadRequest "username must contain only letters, numbers, and underscores" h else
  hash ← HashAPIKey password;
  match hash with
  | Err _ => reject StatusInternalServerError "internal error" h
  | Ok hash =>
      userID ← generateID "user";
      t ← current_timestamp;
      res ← exec (insert_user (mkUser userID username hash t));
      match res with
      | Err e =>
          if isUniqueViolation e then reject StatusConflict "username already exists" h
          else reject StatusInternalServerError ("failed to register user: " +:+ Error e) h
      | Ok _ =>
          mret (writeJSON StatusOK (JObj [("status", JStr "registered");
            ("user_id", JStr userID); ("username", JStr username)]) h)
      end
  end.

Definition changeUserPassword (userID oldPassword newPassword : string) : M (Result unit) :=
  passwordHash ?← query (λ d, u_password_hash <$> query_row (λ u, u_id u = userID) (users d));
  if negb (bcrypt_compare passwordHash oldPassword) then
    mret (Err (ErrText "invalid old password")) else
  if bool_decide (len newPassword < 6) then
    mret (Err (ErrText "new password must be at least 6 characters")) else
  newHash ?← HashAPIKey newPassword;
  exec (update_user_password userID newHash).

Definition handleChangePassword : HandlerFunc := λ h r,
  with_claims MethodPost h r (λ claims,
  let oldPassword := FormValue r "old_password" in
  let newPassword := FormValue r "new_password" in
  if str_empty oldPassword || str_empty newPassword then
    reject StatusBadRequest "missing old_password or new_password" h else
  res ← changeUserPassword (UserID claims) oldPassword newPassword;
  match res with
  | Err e =>
      if err_is e "invalid old password" then reject StatusUnauthorized "invalid old password" h
      else match e with
           | ErrNoRows => reject StatusNotFound "user not found" h
           | _ => reject StatusBadRequest (Error e) h
           end
  | Ok _ => mret (writeJSON StatusOK (JObj [("status", JStr "password_changed")]) h)
  end).
End auth.
