(* ===== verification/Conversations.v ===== *)
(** * Conversations and stored messages (conversations.go, reactions.go:85-107) *)

From S2P Require Import Prelude GoLib FixedWindow RateLimit Sql Queue Hub Store World Auth.

(** ** Messages on their way (routing.go) *)

Record RoutedMessage := mkRouted {
  Type_ : string;
  ConversationID : string;
  Content : string;
  AttachmentIDs : list string;
  SenderType : string;
  SenderID : string;
  RecipientID : string;
  Timestamp : string
}.

(** [json.Unmarshal] into a RoutedMessage, and back with [omitempty]. *)
Definition decode_routed (j : json) : Result RoutedMessage :=
  ms ← struct_members j;
  ty ← decode_field decode_string "type" EmptyString ms;
  conv ← decode_field decode_string "conversation_id" EmptyString ms;
  content ← decode_field decode_string "content" EmptyString ms;
  atts ← decode_field decode_strings "attachment_ids" [] ms;
  st ← decode_field decode_string "sender_type" EmptyString ms;
  sid ← decode_field decode_string "sender_id" EmptyString ms;
  rid ← decode_field decode_string "recipient_id" EmptyString ms;
  ts ← decode_field decode_string "timestamp" EmptyString ms;
  mret (mkRouted ty conv content atts st sid rid ts).

Definition routed_json (m : RoutedMessage) : json :=
  JObj ([("type", JStr (Type_ m)); ("conversation_id", JStr (ConversationID m));
         ("content", JStr (Content m))]
    ++ (match AttachmentIDs m with
        | [] => [] | l => [("attachment_ids", JArr (JStr <$> l))] end)
    ++ [("sender_type", JStr (SenderType m)); ("sender_id", JStr (SenderID m));
        ("recipient_id", JStr (RecipientID m))]
    ++ (if str_empty (Timestamp m) then [] else [("timestamp", JStr (Timestamp m))])).

(** The [metadata] column: a map, so its keys are sorted. *)
Definition metadata_json (m : RoutedMessage) : json :=
  JObj ((match AttachmentIDs m with
         | [] => [] | l => [("attachment_ids", JArr (JStr <$> l))] end)
    ++ [("sender_id", JStr (SenderID m)); ("sender_type", JStr (SenderType m))]).

Definition message_row (mid : string) (t : Z) (m : RoutedMessage) : MessageRow :=
  mkMessage mid (ConversationID m) (SenderType m) (SenderID m) (Content m)
    (Some (metadata_json m)) t None None false.

(** A prefix of [f] over the list, stopping at the first error. *)
Fixpoint map_ok {A B} (f : A → M (Result B)) (l : list A) : M (Result (list B)) :=
  match l with
  | [] => mret (Ok [])
  | x :: l => y ?← f x; ys ?← map_ok f l; mret (Ok (y :: ys))
  end.

(** [for _, x := range l { f(x) }] with the results ignored. *)
Fixpoint for_each {A B} (f : A → M B) (l : list A) : M unit :=
  match l with
  | [] => mret tt
  | x :: l => _ ← f x; for_each f l
  end.

Section conversations.
Context `{Env}.

(** [nil, nil] when there is no row. *)
Definition getConversation (convID : string) : M (Result (option Conversation)) :=
  c ← query (λ d, query_row (λ c, ConvID c = convID) (conversations d));
  match c with
  | Ok c => mret (Ok (Some c))
  | Err ErrNoRows => mret (Ok None)
  | Err e => mret (Err e)
  end.

Definition storeMessage (msg : RoutedMessage) : M (Result unit) :=
  mid ← generateID "msg";
  t ← now;
  _ ?← exec (insert_message (message_row mid t msg));
  _ ← for_each (λ a, exec (link_attachment mid a)) (AttachmentIDs msg);
  mret (Ok tt).

(** One round of the batch: the statement runs in the transaction. *)
Definition batch_one (t : Z) (msg : RoutedMessage) : M (Result string) :=
  mid ← generateID "msg";
  _ ?← exec (insert_message (message_row mid t msg));
  _ ← for_each (λ a, exec (link_attachment mid a)) (AttachmentIDs msg);
  mret (Ok mid).

(** [defer tx.Rollback()]: unless the transaction was committed, the database
    is what it was at [Begin].  The pool has one connection and the transaction
    holds it, so nothing else runs in between. *)
Definition in_transaction {A} (body : M (Result A)) : M (Result A) :=
  d0 ← gets db;
  r ← body;
  match r with
  | Ok a => mret (Ok a)
  | Err e => _ ← modify (set_db (λ _, d0)); mret (Err e)
  end.

Definition storeMessagesBatch (msgs : list RoutedMessage) : M (Result (list string)) :=
  match msgs with
  | [] => mret (Ok [])
  | _ =>
      _ ?← exec Ok;                              (* Begin *)
      in_transaction (
        _ ?← exec Ok;                            (* Prepare *)
        t ← now;
        ids ?← map_ok (batch_one t) msgs;
        _ ?← exec Ok;                            (* Commit *)
        mret (Ok ids))
  end.

Definition getMessageReactions (messageID : string) : M (Result (list ReactionRow)) :=
  query (λ d, Ok (order_by (key_asc r_created_at)
    (filter (λ r, r_message_id r = messageID) (reactions d)))).

(** [created_at < ?] compares the stored text with the client's. *)
Definition before_cursor (before : string) (m : MessageRow) : Prop :=
  String.ltb (sqlite_time (m_created_at m)) before = true.

#[export] Instance before_cursor_dec before m : Decision (before_cursor before m).
Proof. unfold before_cursor. apply _. Defined.

Definition select_page (convID : string) (limit : Z) (before : string) (d : DB)
    : list MessageRow :=
  let rows := filter (λ m, m_conversation_id m = convID) (messages d) in
  if str_empty before
  then limit_rows limit (order_by (key_asc m_created_at) rows)
  else limit_rows limit (order_by (key_desc m_created_at) (filter (before_cursor before) rows)).

(** The loop over the rows queries the reactions while the rows hold their
    connection: with a pool of one the nested query waits for ever ([None]). *)
Fixpoint with_reactions (rows : list MessageRow)
    : M (option (list (MessageRow * list ReactionRow))) :=
  match rows with
  | [] => mret (Some [])
  | m :: rows =>
      if decide (MaxOpenConns = 1%nat) then mret None else
      rs ← getMessageReactions (m_id m);
      let rs := match rs with Ok rs => rs | Err _ => [] end in
      rest ← with_reactions rows;
      mret (cons (m, rs) <$> rest)
  end.

Definition getConversationMessages (convID : string) (limit : Z) (before : string)
    : M (option (Result (list (MessageRow * list ReactionRow)))) :=
  let limit := if decide (limit ≤ 0) then 50 else limit in
  rows ← query (λ d, Ok (select_page convID limit before d));
  match rows with
  | Err e => mret (Some (Err e))
  | Ok rows =>
      msgs ← with_reactions rows;
      mret ((λ l, Ok (if str_empty before then l else reverse l)) <$> msgs)
  end.

Definition deleteConversation (convID userID : string) : M (Result unit) :=
  conv ?← getConversation convID;
  match conv with
  | None => mret (Err ErrNoRows)
  | Some conv =>
      if decide (ConvUserID conv ≠ userID) then mret (Err (ErrText "unauthorized")) else
      _ ?← exec (delete_messages_of convID);
      exec (delete_conversation convID)
  end.

(** The JOIN: [messages] with a conversation of the user. *)
Definition in_users_conversation (userID : string) (d : DB) (m : MessageRow) : Prop :=
  Exists (λ c, ConvID c = m_conversation_id m ∧ ConvUserID c = userID) (conversations d).

#[export] Instance in_users_conversation_dec u d m : Decision (in_users_conversation u d m).
Proof. unfold in_users_conversation. apply _. Defined.

Definition select_search (userID pattern : string) (limit : Z) (d : DB) : list MessageRow :=
  limit_rows limit (order_by (key_desc m_created_at)
    (filter (λ m, in_users_conversation userID d m ∧ like pattern (m_content m) = true)
      (messages d))).

Definition searchMessages (userID q : string) (limit : Z) : M (Result (list MessageRow)) :=
  let limit := if decide (limit ≤ 0) then 50 else limit in
  if str_empty q then mret (Err (ErrText "empty search query")) else
  query (λ d, Ok (select_search userID ("%" +:+ q +:+ "%") limit d)).

(** The rows [UPDATE messages SET read_at] hits. *)
Definition unread_by_user (convID : string) (m : MessageRow) : Prop :=
  m_conversation_id m = convID ∧ m_sender_type m = "agent" ∧ m_read_at m = None.

#[export] Instance unread_by_user_dec c m : Decision (unread_by_user c m).
Proof. unfold unread_by_user. apply _. Defined.

Definition mark_read_stmt (convID : string) (t : Z) (d : DB) : Result (DB * Z) :=
  match update_messages (unread_by_user convID) (with_read t) d with
  | Ok d' => Ok (d', Z.of_nat (length (filter (unread_by_user convID) (messages d))))
  | Err e => Err e
  end.

Definition markMessagesRead (convID userID : string) : M (Result Z) :=
  conv ?← getConversation convID;
  match conv with
  | None => mret (Err ErrNoRows)
  | Some conv =>
      if decide (ConvUserID conv ≠ userID) then mret (Err (ErrText "unauthorized")) else
      t ← now;
      exec_rows (mark_read_stmt convID t)
  end.

(** The returned conversation has no creation time, nobody reads it. *)
Definition CreateConversation (userID agentID : string) : M (Result Conversation) :=
  cid ← generateID "conv";
  t ← current_timestamp;
  _ ?← exec (insert_conversation (mkConversation cid userID agentID t));
  mret (Ok (mkConversation cid userID agentID 0)).

Definition GetOrCreateConversation (userID agentID : string) : M (Result Conversation) :=
  conv ← query (λ d, query_row (λ _, True) (order_by (key_desc ConvCreatedAt)
    (filter (λ c, ConvUserID c = userID ∧ ConvAgentID c = agentID) (conversations d))));
  match conv with
  | Ok c => mret (Ok c)
  | Err ErrNoRows => CreateConversation userID agentID
  | Err e => mret (Err e)
  end.
End conversations.
