(* ===== verification/Routing.v ===== *)
(** * Routing of WebSocket messages (routing.go) and the durable offline queue
      (queue_persist.go, replay in queue.go)

    [raw] is what [json.Unmarshal] makes of the bytes a socket delivered. *)

From S2P Require Import Prelude GoLib FixedWindow RateLimit Sql Queue Hub Store World Auth Conversations.

Definition MsgTypeMessage : string := "message".
Definition MsgTypeTyping : string := "typing".
Definition MsgTypeStatus : string := "status".
Definition MsgTypeError : string := "error".
Definition MsgTypeHeartbeat : string := "heartbeat".

(** [IncomingMessage]: a missing [data] is an empty RawMessage, which no later
    [json.Unmarshal] accepts. *)
Record IncomingMessage := mkIncoming { in_type : string; in_data : Result json }.

Definition decode_incoming (j : json) : Result IncomingMessage :=
  ms ← struct_members j;
  ty ← decode_field decode_string "type" EmptyString ms;
  dt ← decode_field (λ _ v, Ok (Ok v)) "data" (Err (ErrText "unexpected end of JSON input")) ms;
  mret (mkIncoming ty dt).

(** ** The queue in the database *)

(** RFC 3339 keeps whole seconds. *)
Definition persistQueue (recipient : string) (data : json) : M unit :=
  t ← now;
  _ ← exec (insert_queued recipient data (t / Second * Second));
  mret tt.

Definition deleteQueueMessages (recipient : string) : M unit :=
  _ ← exec (delete_queued recipient);
  mret tt.

Definition cleanStaleQueueMessages (maxAge : Z) : M unit :=
  t ← now;
  _ ← exec (delete_queued_before ((t - maxAge) / Second * Second));
  mret tt.

(** [offlineQueue.Enqueue(recipientID, outgoing)]; [persistQueue(...)]. *)
Definition queue_message (recipient : string) (data : json) : M unit :=
  t ← now;
  _ ← modify (set_offlineQueue (Enqueue t recipient data));
  persistQueue recipient data.

(** ** Errors and limits *)

Definition sendError (conn : ref) (message : string) : M unit :=
  _ ← SafeSendTo conn (OutgoingMessage MsgTypeError (JObj [("error", JStr message)]));
  mret tt.

(** [truncate] cuts bytes. *)
Definition truncate (s : string) (maxLen : Z) : string :=
  if bool_decide (len s ≤ maxLen) then s
  else if bool_decide (maxLen ≤ 3) then take_str (Z.to_nat maxLen) s
  else take_str (Z.to_nat (maxLen - 3)) s +:+ "...".

Definition message_limiter_allow (i : string) : M bool :=
  t ← now;
  state (λ w, let '(ok, rl) := RateLimiter.Allow t i (messageRateLimiter w) in
              (ok, set_messageRateLimiter (λ _, rl) w)).

Definition user_limiter_allow (i : string) : M bool :=
  t ← now;
  state (λ w, let '(ok, rl) := RateLimiter.Allow t i (userRateLimiter w) in
              (ok, set_userRateLimiter (λ _, rl) w)).

Definition checkRateLimit (conn : ref) (i : string) : M bool :=
  connAllowed ← message_limiter_allow i;
  if negb connAllowed then
    _ ← sendError conn "rate limit exceeded: too many messages"; mret false
  else
  userAllowed ← user_limiter_allow i;
  if negb userAllowed then
    _ ← sendError conn "rate limit exceeded: user message quota reached"; mret false
  else mret true.

Section routing.
Context `{Env}.

(** The rows in insertion order are put in the queue, each at the time it is
    read. *)
Definition loadQueueFromDB : M unit :=
  rows ← query (λ d, Ok (order_by (key_asc q_id) (offline_queue d)));
  match rows with
  | Err _ => mret tt
  | Ok rows =>
      for_each (λ r, t ← now;
        modify (set_offlineQueue (Enqueue t (q_recipient r) (q_data r)))) rows
  end.

(** The last part of [routeChatMessage] before the acknowledgment: delivery to
    all devices of the user, or to the agent, or the offline queue. *)
Definition deliver_to_user (recipientID : string) (content convID : string) (outgoing : json)
    : M unit :=
  conns ← gets (λ w, GetClientConns recipientID (hub w));
  match conns with
  | _ :: _ =>
      delivered ← SafeSendAll conns outgoing;
      if decide (delivered = O) then
        _ ← queue_message recipientID outgoing;
        go (GoNotifyUser recipientID "New Message" (truncate content 100) convID)
      else mret tt
  | [] =>
      _ ← queue_message recipientID outgoing;
      go (GoNotifyUser recipientID "New Message" (truncate content 100) convID)
  end.

Definition deliver_to_agent (recipientID : string) (outgoing : json) : M unit :=
  agent ← gets (λ w, GetAgent recipientID (hub w));
  match agent with
  | Some a =>
      ok ← SafeSendTo a outgoing;
      if ok : bool then mret tt else queue_message recipientID outgoing
  | None => queue_message recipientID outgoing
  end.

(** What the sender may not choose. *)
Definition stamp (c : Connection) (recipientID : string) (m : RoutedMessage) : RoutedMessage :=
  mkRouted MsgTypeMessage (ConversationID m) (Content m) (AttachmentIDs m)
    (conn_type_string (connType c)) (id c) recipientID (Timestamp m).

Definition is_participant (c : Connection) (conv : Conversation) : bool :=
  match connType c with
  | Agent => bool_decide (ConvAgentID conv = id c)
  | Client => bool_decide (ConvUserID conv = id c)
  end.

Definition other_party (c : Connection) (conv : Conversation) : string :=
  match connType c with Agent => ConvUserID conv | Client => ConvAgentID conv end.

Definition message_sent_ack (convID : string) : json :=
  OutgoingMessage "message_sent"
    (JObj [("conversation_id", JStr convID); ("status", JStr "delivered")]).

Definition routeChatMessage (sender : ref) (c : Connection) (data : Result json) : M unit :=
  match data ≫= decode_routed with
  | Err _ => sendError sender "invalid message data"
  | Ok msg =>
      if str_empty (Content msg) then sendError sender "content is required" else
      if str_empty (ConversationID msg) then sendError sender "conversation_id is required" else
      conv ← getConversation (ConversationID msg);
      match conv with
      | Err _ | Ok None => sendError sender "conversation not found"
      | Ok (Some conv) =>
          if negb (is_participant c conv) then
            sendError sender "not authorized for this conversation" else
          let recipientID := other_party c conv in
          let msg := stamp c recipientID msg in
          stored ← storeMessage msg;
          match stored with
          | Err _ => sendError sender "failed to store message"
          | Ok _ =>
              let outgoing := OutgoingMessage MsgTypeMessage (routed_json msg) in
              _ ← match connType c with
                  | Agent => deliver_to_user recipientID (Content msg) (ConversationID msg) outgoing
                  | Client => deliver_to_agent recipientID outgoing
                  end;
              _ ← SafeSendTo sender (message_sent_ack (ConversationID msg));
              mret tt
          end
      end
  end.

(** Typing and status events go to the devices or the agent that are there. *)
Definition forward (c : Connection) (recipientID : string) (d : json) : M unit :=
  match connType c with
  | Agent =>
      conns ← gets (λ w, GetClientConns recipientID (hub w));
      _ ← SafeSendAll conns d; mret tt
  | Client =>
      agent ← gets (λ w, GetAgent recipientID (hub w));
      match agent with
      | Some a => _ ← SafeSendTo a d; mret tt
      | None => mret tt
      end
  end.

Definition routeTypingIndicator (c : Connection) (data : Result json) : M unit :=
  match (j ← data; ms ← struct_members j;
         decode_field decode_string "conversation_id" EmptyString ms) with
  | Err _ => mret tt
  | Ok convID =>
      if str_empty convID then mret tt else
      conv ← getConversation convID;
      match conv with
      | Err _ | Ok None => mret tt
      | Ok (Some conv) =>
          if negb (is_participant c conv) then mret tt else
          forward c (other_party c conv) (OutgoingMessage MsgTypeTyping
            (JObj [("conversation_id", JStr convID); ("sender_id", JStr (id c));
                   ("sender_type", JStr (conn_type_string (connType c)))]))
      end
  end.

Definition status_broadcast (c : Connection) (s : string) : json :=
  OutgoingMessage MsgTypeStatus
    (JObj [("sender_id", JStr (id c)); ("sender_type", JStr (conn_type_string (connType c)));
           ("status", JStr s)]).

(** An agent's own status is set and broadcast; the event for a conversation is
    forwarded without asking whether the sender takes part in it. *)
Definition routeStatusUpdate (c : Connection) (data : Result json) : M unit :=
  match (j ← data; ms ← struct_members j;
         convID ← decode_field decode_string "conversation_id" EmptyString ms;
         s ← decode_field decode_string "status" EmptyString ms; mret (convID, s)) with
  | Err _ => mret tt
  | Ok (convID, s) =>
      _ ← (if decide (connType c = Agent ∧ str_empty s = false) then
             modify (set_hub (λ h, BroadcastToAllClients (status_broadcast c s)
                                     (SetAgentStatus (id c) s h)))
           else mret tt);
      if str_empty convID then mret tt else
      conv ← getConversation convID;
      match conv with
      | Err _ | Ok None => mret tt
      | Ok (Some conv) =>
          forward c (other_party c conv) (OutgoingMessage MsgTypeStatus
            (JObj [("conversation_id", JStr convID); ("sender_id", JStr (id c));
                   ("sender_type", JStr (conn_type_string (connType c)));
                   ("status", JStr s)]))
      end
  end.

Definition heartbeat_ack (t : Z) : json :=
  OutgoingMessage "heartbeat_ack"
    (JObj [("interval_s", JInt (Seconds_int agentPresenceInterval));
           ("monitoring", JBool agentPresenceEnabled);
           ("server_time", JStr (rfc3339nano t));
           ("timeout_s", JInt (Seconds_int agentPresenceTimeout))]).

Definition routeHeartbeat (sender : ref) : M unit :=
  t ← now;
  _ ← modify (set_hub (TouchHeartbeat t sender));
  t' ← now;
  _ ← SafeSendTo sender (heartbeat_ack t');
  mret tt.

(** [c] is the sender's connection; its type and id never change. *)
Definition routeMessage (sender : ref) (c : Connection) (raw : Result json) : M unit :=
  allowed ← checkRateLimit sender (id c);
  if negb allowed then mret tt else
  match raw ≫= decode_incoming with
  | Err _ => sendError sender "invalid message format"
  | Ok msg =>
      if decide (in_type msg = MsgTypeMessage) then routeChatMessage sender c (in_data msg)
      else if decide (in_type msg = MsgTypeTyping) then routeTypingIndicator c (in_data msg)
      else if decide (in_type msg = MsgTypeStatus) then routeStatusUpdate c (in_data msg)
      else if decide (in_type msg = MsgTypeHeartbeat) then routeHeartbeat sender
      else sendError sender ("unknown message type: " +:+ in_type msg)
  end.

(** ** Replay on connect *)

(** The [type] of a queued document. *)
Definition outgoing_type (d : json) : Result string :=
  ms ← struct_members d; decode_field decode_string "type" EmptyString ms.

Definition replayable (d : json) : bool :=
  match outgoing_type d with
  | Ok t => bool_decide (t = MsgTypeMessage ∨ t = "read_receipt")
  | Err _ => false
  end.

(** The loop returns at the first send that fails. *)
Fixpoint replay_loop (conn : ref) (messages : list json) : M unit :=
  match messages with
  | [] => mret tt
  | d :: messages =>
      if replayable d then
        ok ← SafeSendTo conn d;
        if ok : bool then replay_loop conn messages else mret tt
      else replay_loop conn messages
  end.

Definition drain_queue (i : string) : M (list json) :=
  t ← now;
  state (λ w, let '(l, q) := Drain t i (offlineQueue w) in (l, set_offlineQueue (λ _, q) w)).

Definition replayOfflineMessages (conn : ref) (i : string) : M unit :=
  messages ← drain_queue i;
  match messages with
  | [] => mret tt
  | _ =>
      _ ← deleteQueueMessages i;
      replay_loop conn messages
  end.
End routing.
