(* ===== verification/Protocol.v ===== *)
(** * Protocol negotiation (protocol.go), the WebSocket endpoints of handlers.go
      and the presence endpoints (presence.go) *)

From S2P Require Import Prelude GoLib FixedWindow RateLimit Sql Queue Hub Store World Auth.
From S2P Require Import Conversations.

Definition ProtocolVersion : string := "v1".
Definition SupportedVersions : string := "v1".

Definition isSupportedVersion (v : string) : bool :=
  existsb (λ sv, bool_decide (TrimSpace sv = v)) (Split SupportedVersions comma).

(** The first supported version of the header, then the query parameter, then
    the current version. *)
Definition negotiateProtocol (r : Request) : string :=
  let protocols := TrimSpace <$> Split (HeaderGet r "Sec-WebSocket-Protocol") comma in
  match head (filter (λ p, isSupportedVersion p = true) protocols) with
  | Some p => p
  | None =>
      let v := QueryGet r "protocol_version" in
      if negb (str_empty v) && isSupportedVersion v then v else ProtocolVersion
  end.

Definition upgradeWithProtocol (negotiated : string) (h : gmap string string)
    : gmap string string :=
  if negb (str_empty negotiated) && isSupportedVersion negotiated
  then set_header "Sec-WebSocket-Protocol" negotiated h else h.

Definition welcome (c : Connection) : json :=
  OutgoingMessage "connected" (JObj (
    (if str_empty (deviceID c) then [] else [("device_id", JStr (deviceID c))])
    ++ [("id", JStr (id c)); ("protocol_version", JStr (negotiatedVersion c));
        ("status", JStr "connected");
        ("supported_versions", JArr (JStr <$> Split SupportedVersions comma))])).

Definition sendWelcomeMessage (r : ref) (c : Connection) : M unit :=
  _ ← SafeSendTo r (welcome c); mret tt.

(** An allowed origin: the loop [isOriginAllowed], [CheckOrigin] and
    [corsMiddleware] share. *)
Definition origin_listed (allowed_origins origin : string) : bool :=
  existsb (λ a, let a := TrimSpace a in bool_decide (a = origin) || bool_decide (a = "*"))
    (Split allowed_origins comma).

Section endpoints.
Context `{Env}.

Definition CheckOrigin (r : Request) : bool :=
  let origin := HeaderGet r "Origin" in
  if str_empty origin then true
  else if bool_decide (corsAllowedOrigins = "*") then true
  else origin_listed corsAllowedOrigins origin.

(** The upgrade itself is gorilla/websocket's: it consults [CheckOrigin] and
    either takes the connection over or has answered with an error. *)
Variable Upgrade : bool → gmap string string → Request → option Response.

(** A handler that may hand the connection to the WebSocket library. *)
Inductive Outcome :=
  | Answered (res : Response)
  | Upgraded (conn : ref).

Definition answer (m : M Response) : M Outcome := res ← m; mret (Answered res).

(** [hub.register <- c] and the goroutines started after it; [run] handles the
    registration before the welcome message is sent. *)
Definition serve (c : Connection) : M Outcome :=
  r ← state (λ w, let '(r, h) := alloc c (hub w) in (r, set_hub (λ _, h) w));
  t ← now;
  _ ← hub_do (register t r);
  _ ← go (GoReplay r);
  _ ← sendWelcomeMessage r c;
  mret (Upgraded r).

Definition handleAgentConnect (h : gmap string string) (r : Request) : M Outcome :=
  let agentID := QueryGet r "agent_id" in
  if str_empty agentID then
    answer (reject StatusBadRequest "missing agent_id parameter" h) else
  let secret := QueryGet r "agent_secret" in
  if str_empty secret then
    answer (reject StatusUnauthorized "missing agent_secret parameter" h) else
  valid ← ValidateAgentSecret agentID secret;
  match valid with
  | Err e =>
      let status := if err_is e "rate limited: too many connection attempts"
                    then StatusTooManyRequests else StatusUnauthorized in
      answer (reject status ("authentication failed: " +:+ Error e) h)
  | Ok _ =>
      registered ← RegisterAgentOnConnect agentID (QueryGet r "name") (QueryGet r "model")
        (QueryGet r "personality") (QueryGet r "specialty");
      match registered with
      | Err _ => answer (reject StatusInternalServerError "failed to register agent" h)
      | Ok _ =>
          let protocolVersion := negotiateProtocol r in
          match Upgrade (CheckOrigin r) (upgradeWithProtocol protocolVersion ∅) r with
          | Some res => mret (Answered res)
          | None =>
              t ← now;
              serve (newConnection Agent agentID EmptyString t protocolVersion)
          end
      end
  end.

Definition handleClientConnect (h : gmap string string) (r : Request) : M Outcome :=
  let token := QueryGet r "token" in
  if str_empty token then answer (reject StatusUnauthorized "missing token parameter" h) else
  claims ← ValidateJWT token;
  match claims with
  | Err e => answer (reject StatusUnauthorized ("authentication failed: " +:+ Error e) h)
  | Ok claims =>
      let userID := UserID claims in
      let protocolVersion := negotiateProtocol r in
      match Upgrade (CheckOrigin r) (upgradeWithProtocol protocolVersion ∅) r with
      | Some res => mret (Answered res)
      | None =>
          t ← now;
          serve (newConnection Client userID (QueryGet r "device_id") t protocolVersion)
      end
  end.

(** ** Presence *)

(** One row of the answer; the loop reads the clock for each agent that is
    connected. *)
Definition agent_presence (a : AgentRow) : M json :=
  conn ← gets (λ w, GetAgent (a_id a) (hub w));
  match conn with
  | Some _ =>
      t ← now;
      mret (JObj [("id", JStr (a_id a)); ("name", JStr (a_name a)); ("online", JBool true);
                  ("status", JStr (a_status a)); ("last_seen", JStr (rfc3339 t))])
  | None =>
      mret (JObj [("id", JStr (a_id a)); ("name", JStr (a_name a)); ("online", JBool false);
                  ("status", JStr (a_status a))])
  end.

Fixpoint collect {A} (f : A → M json) (l : list A) : M (list json) :=
  match l with
  | [] => mret []
  | x :: l => j ← f x; js ← collect f l; mret (j :: js)
  end.

Definition handleGetPresence : HandlerFunc := λ h r,
  with_claims MethodGet h r (λ _,
  rows ← query (λ d, Ok (agents d));
  match rows with
  | Err _ => reject StatusInternalServerError "internal error" h
  | Ok rows =>
      js ← collect agent_presence rows;
      mret (writeJSON StatusOK (JArr js) h)
  end).

Definition last_activity (userID : string) (d : DB) : Result Z :=
  m_created_at <$> query_row (λ _, True) (order_by (key_desc m_created_at)
    (filter (λ m, m_sender_id m = userID) (messages d))).

Definition handleGetUserPresence : HandlerFunc := λ h r,
  with_claims MethodGet h r (λ claims,
  let userID := QueryGet r "user_id" in
  let userID := if str_empty userID then UserID claims else userID in
  conns ← gets (λ w, GetClientConns userID (hub w));
  lastSeen ← match conns with
             | _ :: _ => t ← now; mret (rfc3339 t)
             | [] =>
                 t ← query (last_activity userID);
                 mret (match t with Ok t => rfc3339 t | Err _ => EmptyString end)
             end;
  mret (writeJSON StatusOK (JObj [("device_count", JInt (Z.of_nat (length conns)));
    ("last_seen", JStr lastSeen); ("online", JBool (bool_decide (conns ≠ [])));
    ("user_id", JStr userID)]) h)).

(** ** Agent lists *)

(** [AgentInfo]: [connected_at] has [omitempty]. *)
Definition agent_info (a : AgentRow) (status connected_at : string) : json :=
  JObj ([("id", JStr (a_id a)); ("name", JStr (a_name a)); ("model", JStr (a_model a));
         ("personality", JStr (a_personality a)); ("specialty", JStr (a_specialty a));
         ("status", JStr status)]
    ++ (if str_empty connected_at then [] else [("connected_at", JStr connected_at)])).

Definition handleListAgents : HandlerFunc := λ h r,
  if negb (method_is MethodGet r) then
    reject StatusMethodNotAllowed "method not allowed" h else
  rows ← query (λ d, Ok (order_by (text_asc a_name) (agents d)));
  match rows with
  | Err _ => reject StatusInternalServerError "internal error" h
  | Ok rows =>
      js ← collect (λ a, s ← gets (λ w, AgentStatus (a_id a) (hub w));
                         mret (agent_info a s EmptyString)) rows;
      mret (writeJSON StatusOK (JArr js) h)
  end.

Definition admin_agent (a : AgentRow) : M json :=
  s ← gets (λ w, AgentStatus (a_id a) (hub w));
  if decide (s = "offline") then mret (agent_info a s EmptyString) else
  conn ← gets (λ w, r ← GetAgent (a_id a) (hub w); heap (hub w) !! r);
  mret (agent_info a s (match conn with
                        | Some c => rfc3339 (connectedAt c) | None => EmptyString end)).

Definition handleAdminAgents : HandlerFunc := λ h r,
  if negb (method_is MethodGet r) then
    reject StatusMethodNotAllowed "method not allowed" h else
  rows ← query (λ d, Ok (order_by (text_asc a_name) (agents d)));
  match rows with
  | Err _ => reject StatusInternalServerError "internal error" h
  | Ok rows =>
      js ← collect admin_agent rows;
      mret (writeJSON StatusOK (JArr js) h)
  end.
End endpoints.
