(* ===== verification/Messages.v ===== *)
(** * The conversation and message endpoints (handlers.go, messages_edit_delete.go) *)

From S2P Require Import Prelude GoLib FixedWindow RateLimit Sql Queue Hub Store World Auth.
From S2P Require Import Conversations.

Section messages.
Context `{Env}.

(** ** JSON of stored messages *)

Definition time_json (t : Z) : json := JStr (rfc3339nano t).

Definition reaction_json (x : ReactionRow) (created_at : string) : json :=
  JObj [("id", JStr (r_id x)); ("message_id", JStr (r_message_id x));
        ("user_id", JStr (r_user_id x)); ("emoji", JStr (r_emoji x));
        ("created_at", JStr created_at)].

Definition optional (k : string) (t : option Z) : list (string * json) :=
  match t with Some t => [(k, time_json t)] | None => [] end.

(** [StoredMessage] with its [omitempty] fields. *)
Definition message_json (m : MessageRow) (rs : list ReactionRow) : json :=
  JObj ([("id", JStr (m_id m)); ("conversation_id", JStr (m_conversation_id m));
         ("sender_type", JStr (m_sender_type m)); ("sender_id", JStr (m_sender_id m));
         ("content", JStr (m_content m))]
    ++ (match m_metadata m with Some j => [("metadata", JStr (Marshal j))] | None => [] end)
    ++ [("created_at", time_json (m_created_at m))]
    ++ optional "read_at" (m_read_at m) ++ optional "edited_at" (m_edited_at m)
    ++ [("is_deleted", JBool (m_is_deleted m))]
    ++ (match rs with
        | [] => []
        | _ => [("reactions", JArr ((λ x, reaction_json x (rfc3339nano (r_created_at x))) <$> rs))]
        end)).

(** ** Notifying *)

(** To all devices of a user; to the agent if it is connected. *)
Definition notify_devices (userID : string) (d : json) : M unit :=
  conns ← gets (λ w, GetClientConns userID (hub w));
  _ ← SafeSendAll conns d; mret tt.

Definition notify_agent (agentID : string) (d : json) : M unit :=
  agent ← gets (λ w, GetAgent agentID (hub w));
  match agent with
  | Some a => _ ← SafeSendTo a d; mret tt
  | None => mret tt
  end.

(** ** Conversations *)

Definition handleCreateConversation : HandlerFunc := λ h r,
  with_claims MethodPost h r (λ claims,
  let agentID := FormValue r "agent_id" in
  if str_empty agentID then reject StatusBadRequest "missing agent_id" h else
  conv ← GetOrCreateConversation (UserID claims) agentID;
  match conv with
  | Err _ => reject StatusInternalServerError "failed to create conversation" h
  | Ok c =>
      mret (writeJSON StatusOK (JObj [("agent_id", JStr (ConvAgentID c));
        ("conversation_id", JStr (ConvID c)); ("user_id", JStr (ConvUserID c))]) h)
  end).

Definition handleDeleteConversation : HandlerFunc := λ h r,
  with_claims MethodDelete h r (λ claims,
  let convID := QueryGet r "conversation_id" in
  let convID := if str_empty convID then FormValue r "conversation_id" else convID in
  if str_empty convID then reject StatusBadRequest "missing conversation_id" h else
  res ← deleteConversation convID (UserID claims);
  match res with
  | Err ErrNoRows => reject StatusNotFound "conversation not found" h
  | Err e =>
      if err_is e "unauthorized" then reject StatusUnauthorized "not your conversation" h
      else reject StatusInternalServerError "internal error" h
  | Ok _ =>
      mret (writeJSON StatusOK (JObj [("conversation_id", JStr convID);
        ("status", JStr "deleted")]) h)
  end).

Definition handleSearchMessages : HandlerFunc := λ h r,
  with_claims MethodGet h r (λ claims,
  let q := QueryGet r "q" in
  if str_empty q then reject StatusBadRequest "missing search query (q)" h else
  let limitStr := QueryGet r "limit" in
  let limit :=
    if str_empty limitStr then 50 else
    let l := default 50 (Sscanf_d limitStr) in
    if decide (200 < l) then 200 else l in
  msgs ← searchMessages (UserID claims) q limit;
  match msgs with
  | Err e =>
      if err_is e "empty search query" then reject StatusBadRequest "empty search query" h
      else reject StatusInternalServerError "internal error" h
  | Ok ms => mret (writeJSON StatusOK (JArr ((λ m, message_json m []) <$> ms)) h)
  end).

Definition read_receipt (convID userID : string) (count : Z) : json :=
  OutgoingMessage "read_receipt"
    (JObj [("conversation_id", JStr convID); ("count", JInt count); ("read_by", JStr userID)]).

Definition handleMarkRead : HandlerFunc := λ h r,
  with_claims MethodPost h r (λ claims,
  let convID := FormValue r "conversation_id" in
  if str_empty convID then reject StatusBadRequest "missing conversation_id" h else
  res ← markMessagesRead convID (UserID claims);
  match res with
  | Err ErrNoRows => reject StatusNotFound "conversation not found" h
  | Err e =>
      if err_is e "unauthorized" then reject StatusUnauthorized "not your conversation" h
      else reject StatusInternalServerError "internal error" h
  | Ok count =>
      conv ← getConversation convID;
      _ ← match conv with
          | Ok (Some conv) =>
              _ ← notify_agent (ConvAgentID conv) (read_receipt convID (UserID claims) count);
              notify_devices (UserID claims) (read_receipt convID (UserID claims) count)
          | _ => mret tt
          end;
      mret (writeJSON StatusOK (JObj [("conversation_id", JStr convID); ("count", JInt count);
        ("status", JStr "marked_read")]) h)
  end).

(** [None] is a request that never gets an answer. *)
Definition handleGetMessages (h : gmap string string) (r : Request) : M (option Response) :=
  if negb (method_is MethodGet r) then
    Some <$> (reject StatusMethodNotAllowed "method not allowed" h) else
  claims ← ValidateJWT (bearer_token r);
  match claims with
  | Err _ => Some <$> (reject StatusUnauthorized "unauthorized" h)
  | Ok claims =>
      let convID := QueryGet r "conversation_id" in
      if str_empty convID then Some <$> (reject StatusBadRequest "missing conversation_id" h) else
      conv ← getConversation convID;
      match conv with
      | Err _ | Ok None => Some <$> (reject StatusNotFound "conversation not found" h)
      | Ok (Some conv) =>
          if decide (ConvUserID conv ≠ UserID claims) then
            Some <$> (reject StatusUnauthorized "unauthorized" h) else
          let l := QueryGet r "limit" in
          let limit :=
            match Atoi l with
            | Ok n => if decide (0 < n ∧ n ≤ 200) then n else 50
            | Err _ => 50
            end in
          msgs ← getConversationMessages convID limit (QueryGet r "before");
          match msgs with
          | None => mret None
          | Some (Err _) => Some <$> (reject StatusInternalServerError "internal error" h)
          | Some (Ok ms) =>
              mret (Some (writeJSON StatusOK
                (JArr ((λ '(m, rs), message_json m rs) <$> ms)) h))
          end
      end
  end.

(** ** The list of conversations *)

Definition not_deleted (m : MessageRow) : Prop := m_is_deleted m = false.
#[export] Instance not_deleted_dec m : Decision (not_deleted m).
Proof. unfold not_deleted. apply _. Defined.

(** The row with [rn = 1] of the window over the conversation. *)
Definition last_message (convID : string) (d : DB) : option MessageRow :=
  head (order_by (key_desc m_created_at)
    (filter (λ m, m_conversation_id m = convID ∧ not_deleted m) (messages d))).

Definition unread_count (convID : string) (d : DB) : Z :=
  Z.of_nat (length (filter (λ m, m_conversation_id m = convID ∧ m_read_at m = None ∧ not_deleted m)
    (messages d))).

(** A last message without content reads as no last message. *)
Definition conv_info (d : DB) (c : Conversation) : json :=
  JObj [("id", JStr (ConvID c)); ("user_id", JStr (ConvUserID c));
        ("agent_id", JStr (ConvAgentID c)); ("created_at", JStr (rfc3339nano (ConvCreatedAt c)));
        ("last_message",
          match last_message (ConvID c) d with
          | Some m =>
              if str_empty (m_content m) then JNull else
              JObj [("content", JStr (m_content m)); ("sender_type", JStr (m_sender_type m));
                    ("created_at", JStr (sqlite_time (m_created_at m)))]
          | None => JNull
          end);
        ("unread_count", JInt (unread_count (ConvID c) d))].

Definition handleListConversations : HandlerFunc := λ h r,
  with_claims MethodGet h r (λ claims,
  rows ← query (λ d, Ok (conv_info d <$> order_by (key_desc ConvCreatedAt)
    (filter (λ c, ConvUserID c = UserID claims) (conversations d))));
  match rows with
  | Err _ => reject StatusInternalServerError "internal error" h
  | Ok js => mret (writeJSON StatusOK (JArr js) h)
  end).

(** ** Editing and deleting messages *)

Definition fetchMessage (messageID : string) : M (Result MessageRow) :=
  query (λ d, query_row (λ m, m_id m = messageID) (messages d)).

Definition message_edited (messageID convID content edited_at edited_by : string) : json :=
  OutgoingMessage "message_edited" (JObj [("content", JStr content);
    ("conversation_id", JStr convID); ("edited_at", JStr edited_at);
    ("edited_by", JStr edited_by); ("message_id", JStr messageID)]).

Definition handleMessageEdit : HandlerFunc := λ h r,
  with_claims MethodPost h r (λ claims,
  let messageID := FormValue r "message_id" in
  let content := FormValue r "content" in
  if str_empty messageID then reject StatusBadRequest "missing message_id" h else
  if str_empty content then reject StatusBadRequest "content cannot be empty" h else
  msg ← fetchMessage messageID;
  match msg with
  | Err ErrNoRows => reject StatusNotFound "message not found" h
  | Err _ => reject StatusInternalServerError "internal error" h
  | Ok msg =>
      if m_is_deleted msg then reject StatusBadRequest "cannot edit a deleted message" h else
      if decide (m_sender_type msg ≠ "client" ∨ m_sender_id msg ≠ UserID claims) then
        reject StatusUnauthorized "can only edit your own messages" h else
      t ← now;
      res ← exec (update_messages (λ m, m_id m = messageID) (with_edit content t));
      match res with
      | Err _ => reject StatusInternalServerError "failed to update message" h
      | Ok _ =>
          conv ← getConversation (m_conversation_id msg);
          _ ← match conv with
              | Ok (Some conv) =>
                  let e := message_edited messageID (m_conversation_id msg) content
                             (rfc3339 t) (UserID claims) in
                  _ ← notify_devices (ConvUserID conv) e;
                  notify_agent (ConvAgentID conv) e
              | _ => mret tt
              end;
          mret (writeJSON StatusOK (JObj [("content", JStr content);
            ("conversation_id", JStr (m_conversation_id msg)); ("edited_at", JStr (rfc3339 t));
            ("message_id", JStr messageID); ("status", JStr "edited")]) h)
      end
  end).

Definition message_deleted (messageID convID deleted_at deleted_by : string) : json :=
  OutgoingMessage "message_deleted" (JObj [("conversation_id", JStr convID);
    ("deleted_at", JStr deleted_at); ("deleted_by", JStr deleted_by);
    ("message_id", JStr messageID)]).

Definition handleMessageDelete : HandlerFunc := λ h r,
  with_claims MethodPost h r (λ claims,
  let messageID := FormValue r "message_id" in
  if str_empty messageID then reject StatusBadRequest "missing message_id" h else
  msg ← fetchMessage messageID;
  match msg with
  | Err ErrNoRows => reject StatusNotFound "message not found" h
  | Err _ => reject StatusInternalServerError "internal error" h
  | Ok msg =>
      if m_is_deleted msg then reject StatusBadRequest "message already deleted" h else
      conv ← getConversation (m_conversation_id msg);
      match conv with
      | Err _ | Ok None => reject StatusNotFound "conversation not found" h
      | Ok (Some conv) =>
          let isSender := bool_decide (m_sender_type msg = "client" ∧
                                       m_sender_id msg = UserID claims) in
          let isOwner := bool_decide (ConvUserID conv = UserID claims) in
          if negb isSender && negb isOwner then
            reject StatusUnauthorized
              "can only delete your own messages or messages in your conversations" h else
          t ← now;
          res ← exec (update_messages (λ m, m_id m = messageID) (with_deleted t));
          match res with
          | Err _ => reject StatusInternalServerError "failed to delete message" h
          | Ok _ =>
              let e := message_deleted messageID (m_conversation_id msg) (rfc3339 t)
                         (UserID claims) in
              _ ← notify_devices (ConvUserID conv) e;
              _ ← notify_agent (ConvAgentID conv) e;
              mret (writeJSON StatusOK (JObj [("conversation_id", JStr (m_conversation_id msg));
                ("deleted_at", JStr (rfc3339 t)); ("message_id", JStr messageID);
                ("status", JStr "deleted")]) h)
          end
      end
  end).
End messages.
