(* ===== verification/Reactions.v ===== *)
(** * Reactions (reactions.go) and conversation tags (tags.go) *)

From S2P Require Import Prelude GoLib FixedWindow RateLimit Sql Queue Hub Store World Auth.
From S2P Require Import Conversations Messages.

Section reactions.
Context `{Env}.

Definition message_conversation (messageID : string) : M (Result string) :=
  query (λ d, m_conversation_id <$> query_row (λ m, m_id m = messageID) (messages d)).

(** Reads an absent conversation and a failed query alike, as handlers that
    write [conv, _ := getConversation(...)] do. *)
Definition getConversation_ (convID : string) : M (option Conversation) :=
  conv ← getConversation convID;
  mret (match conv with Ok c => c | Err _ => None end).

Definition same_reaction (messageID userID emoji : string) (x : ReactionRow) : Prop :=
  r_message_id x = messageID ∧ r_user_id x = userID ∧ r_emoji x = emoji.

#[export] Instance same_reaction_dec m u e x : Decision (same_reaction m u e x).
Proof. unfold same_reaction. apply _. Defined.

(** The reaction added, or [None] when one was removed; the Go function also
    returns that as a flag. *)
Definition addReaction (messageID userID emoji : string) : M (Result (option ReactionRow)) :=
  convID ← message_conversation messageID;
  match convID with
  | Err ErrNoRows => mret (Err (ErrText "message not found"))
  | Err e => mret (Err e)
  | Ok convID =>
      conv ?← getConversation convID;
      match conv with
      | None => mret (Err (ErrText "conversation not found"))
      | Some conv =>
          if decide (ConvUserID conv ≠ userID ∧ ConvAgentID conv ≠ userID) then
            mret (Err (ErrText "unauthorized")) else
          existing ← query (λ d, query_row (same_reaction messageID userID emoji) (reactions d));
          match existing with
          | Ok x => _ ?← exec (delete_reaction (r_id x)); mret (Ok None)
          | Err ErrNoRows =>
              rid ← generateID "rxn";
              t ← now;
              let x := mkReaction rid messageID userID emoji t in
              _ ?← exec (insert_reaction x);
              mret (Ok (Some x))
          | Err e => mret (Err e)
          end
      end
  end.

Definition reaction_event (added : bool) (messageID convID userID emoji : string) : json :=
  OutgoingMessage (if added then "reaction_added" else "reaction_removed")
    (JObj [("conversation_id", JStr convID); ("emoji", JStr emoji);
           ("message_id", JStr messageID); ("user_id", JStr userID)]).

Definition handleReact : HandlerFunc := λ h r,
  with_claims MethodPost h r (λ claims,
  let messageID := FormValue r "message_id" in
  let emoji := FormValue r "emoji" in
  if str_empty messageID || str_empty emoji then
    reject StatusBadRequest "missing message_id or emoji" h else
  if bool_decide (10 < len emoji) then reject StatusBadRequest "emoji too long" h else
  res ← addReaction messageID (UserID claims) emoji;
  match res with
  | Err e =>
      if err_is e "message not found" then reject StatusNotFound "message not found" h
      else if err_is e "unauthorized" then reject StatusUnauthorized "unauthorized" h
      else reject StatusInternalServerError "internal error" h
  | Ok added =>
      convID ← message_conversation messageID;
      let convID := match convID with Ok c => c | Err _ => EmptyString end in
      agentID ← (if str_empty convID then mret EmptyString else
                   conv ← getConversation_ convID;
                   mret (match conv with Some c => ConvAgentID c | None => EmptyString end));
      let is_added := match added with Some _ => true | None => false end in
      let e := reaction_event is_added messageID convID (UserID claims) emoji in
      _ ← (if str_empty agentID then mret tt else notify_agent agentID e);
      _ ← notify_devices (UserID claims) e;
      mret (writeJSON StatusOK
        (match added with
         | Some x => JObj [("reaction", reaction_json x (rfc3339 (r_created_at x)));
                           ("status", JStr "reaction_added")]
         | None => JObj [("emoji", JStr emoji); ("message_id", JStr messageID);
                         ("status", JStr "reaction_removed")]
         end) h)
  end).

Definition handleGetReactions : HandlerFunc := λ h r,
  with_claims MethodGet h r (λ claims,
  let messageID := QueryGet r "message_id" in
  if str_empty messageID then reject StatusBadRequest "missing message_id" h else
  convID ← message_conversation messageID;
  match convID with
  | Err ErrNoRows => reject StatusNotFound "message not found" h
  | Err _ => reject StatusInternalServerError "internal error" h
  | Ok convID =>
      conv ← getConversation_ convID;
      match conv with
      | None => reject StatusUnauthorized "unauthorized" h
      | Some conv =>
          if decide (ConvUserID conv ≠ UserID claims ∧ ConvAgentID conv ≠ UserID claims) then
            reject StatusUnauthorized "unauthorized" h else
          rs ← getMessageReactions messageID;
          match rs with
          | Err _ => reject StatusInternalServerError "internal error" h
          | Ok rs =>
              mret (writeJSON StatusOK
                (JArr ((λ x, reaction_json x (rfc3339nano (r_created_at x))) <$> rs)) h)
          end
      end
  end).

(** ** Tags *)

Definition addConversationTag (convID userID tag : string) : M (Result TagRow) :=
  conv ?← getConversation convID;
  match conv with
  | None => mret (Err (ErrText "conversation not found"))
  | Some conv =>
      if decide (ConvUserID conv ≠ userID) then mret (Err (ErrText "unauthorized")) else
      if bool_decide (len tag = 0) || bool_decide (50 < len tag) then
        mret (Err (ErrText "tag must be 1-50 characters")) else
      existing ← query (λ d, query_row (tag_matches convID tag) (conversation_tags d));
      match existing with
      | Ok _ => mret (Err (ErrText "tag already exists"))
      | Err ErrNoRows =>
          tid ← generateID "tag";
          t ← now;
          let x := mkTag tid convID tag t in
          _ ?← exec (insert_tag x);
          mret (Ok x)
      | Err e => mret (Err e)
      end
  end.

Definition removeConversationTag (convID userID tag : string) : M (Result unit) :=
  conv ?← getConversation convID;
  match conv with
  | None => mret (Err (ErrText "conversation not found"))
  | Some conv =>
      if decide (ConvUserID conv ≠ userID) then mret (Err (ErrText "unauthorized")) else
      n ?← exec_rows (delete_tag convID tag);
      if decide (n = 0) then mret (Err (ErrText "tag not found")) else mret (Ok tt)
  end.

Definition getConversationTags (convID : string) : M (Result (list TagRow)) :=
  query (λ d, Ok (order_by (text_asc t_tag)
    (filter (λ t, t_conversation_id t = convID) (conversation_tags d)))).

Definition tag_json (x : TagRow) (created_at : string) : json :=
  JObj [("id", JStr (t_id x)); ("tag", JStr (t_tag x)); ("created_at", JStr created_at)].

Definition handleAddTag : HandlerFunc := λ h r,
  with_claims MethodPost h r (λ claims,
  let convID := FormValue r "conversation_id" in
  let tag := FormValue r "tag" in
  if str_empty convID || str_empty tag then
    reject StatusBadRequest "missing conversation_id or tag" h else
  res ← addConversationTag convID (UserID claims) tag;
  match res with
  | Err e =>
      if err_is e "conversation not found" then reject StatusNotFound "conversation not found" h
      else if err_is e "unauthorized" then reject StatusUnauthorized "unauthorized" h
      else if err_is e "tag already exists" then reject StatusConflict "tag already exists" h
      else if err_is e "tag must be 1-50 characters" then
        reject StatusBadRequest "tag must be 1-50 characters" h
      else reject StatusInternalServerError "internal error" h
  | Ok x =>
      mret (writeJSON StatusOK (JObj [("status", JStr "tag_added");
        ("tag", tag_json x (rfc3339 (t_created_at x)))]) h)
  end).

Definition handleRemoveTag : HandlerFunc := λ h r,
  with_claims MethodPost h r (λ claims,
  let convID := FormValue r "conversation_id" in
  let tag := FormValue r "tag" in
  if str_empty convID || str_empty tag then
    reject StatusBadRequest "missing conversation_id or tag" h else
  res ← removeConversationTag convID (UserID claims) tag;
  match res with
  | Err e =>
      if err_is e "conversation not found" then reject StatusNotFound "conversation not found" h
      else if err_is e "unauthorized" then reject StatusUnauthorized "unauthorized" h
      else if err_is e "tag not found" then reject StatusNotFound "tag not found" h
      else reject StatusInternalServerError "internal error" h
  | Ok _ =>
      mret (writeJSON StatusOK (JObj [("status", JStr "tag_removed"); ("tag", JStr tag)]) h)
  end).

Definition handleGetTags : HandlerFunc := λ h r,
  with_claims MethodGet h r (λ claims,
  let convID := QueryGet r "conversation_id" in
  if str_empty convID then reject StatusBadRequest "missing conversation_id" h else
  conv ← getConversation_ convID;
  match conv with
  | None => reject StatusUnauthorized "unauthorized" h
  | Some conv =>
      if decide (ConvUserID conv ≠ UserID claims) then
        reject StatusUnauthorized "unauthorized" h else
      tags ← getConversationTags convID;
      match tags with
      | Err _ => reject StatusInternalServerError "internal error" h
      | Ok tags =>
          mret (writeJSON StatusOK
            (JArr ((λ x, tag_json x (rfc3339nano (t_created_at x))) <$> tags)) h)
      end
  end).
End reactions.
