(* ===== verification/E2E.v ===== *)
(** * End-to-end encryption endpoints (e2e.go) *)

From S2P Require Import Prelude GoLib FixedWindow RateLimit Sql Queue Hub Store World Auth.
From S2P Require Import Conversations Messages.

Definition KeyTypeIdentity : string := "identity".
Definition KeyTypeSignedPreKey : string := "signed_prekey".
Definition KeyTypeOneTimePreKey : string := "one_time_prekey".

(** The body of an upload. *)
Record KeyUpload := mkKeyUpload {
  up_key_type : string; up_public_key : string; up_signature : string; up_key_id : Z }.

Definition decode_key_upload (j : json) : Result KeyUpload :=
  ms ← struct_members j;
  kt ← decode_field decode_string "key_type" EmptyString ms;
  pk ← decode_field decode_string "public_key" EmptyString ms;
  sg ← decode_field decode_string "signature" EmptyString ms;
  ki ← decode_field decode_int "key_id" 0 ms;
  mret (mkKeyUpload kt pk sg ki).

Record EncryptedUpload := mkEncryptedUpload {
  eu_conversation_id : string; eu_ciphertext : string; eu_iv : string;
  eu_recipient_key_id : string; eu_sender_key_id : string; eu_algorithm : string }.

Definition decode_encrypted_upload (j : json) : Result EncryptedUpload :=
  ms ← struct_members j;
  conv ← decode_field decode_string "conversation_id" EmptyString ms;
  ct ← decode_field decode_string "ciphertext" EmptyString ms;
  iv ← decode_field decode_string "iv" EmptyString ms;
  rk ← decode_field decode_string "recipient_key_id" EmptyString ms;
  sk ← decode_field decode_string "sender_key_id" EmptyString ms;
  al ← decode_field decode_string "algorithm" EmptyString ms;
  mret (mkEncryptedUpload conv ct iv rk sk al).

Definition validKeyType (t : string) : bool :=
  bool_decide (t ∈ [KeyTypeIdentity; KeyTypeSignedPreKey; KeyTypeOneTimePreKey]).

Definition validAlgorithm (a : string) : bool :=
  bool_decide (a ∈ ["aes-256-gcm"; "x25519-aes-256-gcm"; "x25519-chacha20-poly1305"]).

(** [KeyBundle] with its [omitempty] fields. *)
Definition key_json (k : KeyRow) (key_id : Z) (created_at : string) : json :=
  JObj ([("id", JStr (k_id k)); ("owner_id", JStr (k_owner_id k));
         ("owner_type", JStr (k_owner_type k)); ("key_type", JStr (k_key_type k));
         ("public_key", JStr (k_public_key k))]
    ++ (if str_empty (k_signature k) then [] else [("signature", JStr (k_signature k))])
    ++ (if decide (key_id = 0) then [] else [("key_id", JInt key_id)])
    ++ [("created_at", JStr created_at)]).

(** The keys of one kind an owner has. *)
Definition key_of (ownerID ownerType keyType : string) (k : KeyRow) : Prop :=
  k_owner_id k = ownerID ∧ k_owner_type k = ownerType ∧ k_key_type k = keyType.

#[export] Instance key_of_dec o t kt k : Decision (key_of o t kt k).
Proof. unfold key_of. apply _. Defined.

Section e2e.
Context `{Env}.

Inductive Identity := mkIdentity (owner_id owner_type : string).

Definition authenticateRequest (r : Request) : M (Result Identity) :=
  let authHeader := HeaderGet r "Authorization" in
  if HasPrefix authHeader "Bearer " then
    claims ← ValidateJWT (TrimPrefix authHeader "Bearer ");
    match claims with
    | Err _ => mret (Err (ErrText "invalid token"))
    | Ok claims => mret (Ok (mkIdentity (UserID claims) "user"))
    end
  else
    let secret := HeaderGet r "X-Agent-Secret" in
    if negb (str_empty secret) && bool_decide (secret = agentSecret) then
      let agentID := HeaderGet r "X-Agent-ID" in
      if str_empty agentID
      then mret (Err (ErrText "X-Agent-ID header required with agent auth"))
      else mret (Ok (mkIdentity agentID "agent"))
    else mret (Err (ErrText "authorization required")).

Definition with_identity (m : string) (h : gmap string string) (r : Request)
    (k : string → string → M Response) : M Response :=
  if negb (method_is m r) then reject StatusMethodNotAllowed "method not allowed" h else
  who ← authenticateRequest r;
  match who with
  | Err e => reject StatusUnauthorized (Error e) h
  | Ok (mkIdentity ownerID ownerType) => k ownerID ownerType
  end.

Definition handleUploadPublicKey : HandlerFunc := λ h r,
  with_identity MethodPost h r (λ ownerID ownerType,
  match Body r ≫= decode_key_upload with
  | Err _ => reject StatusBadRequest "invalid JSON" h
  | Ok req =>
      if str_empty (up_public_key req) then reject StatusBadRequest "public_key is required" h else
      if negb (validKeyType (up_key_type req)) then
        reject StatusBadRequest
          "invalid key_type, must be identity/signed_prekey/one_time_prekey" h else
      _ ← (if decide (up_key_type req = KeyTypeIdentity) then
             existing ← query (λ d, query_row (key_of ownerID ownerType KeyTypeIdentity)
                                      (key_bundles d));
             match existing with
             | Ok k => _ ← exec (delete_key (k_id k)); mret tt
             | Err _ => mret tt
             end
           else mret tt);
      keyID ← generateID "key";
      t ← now;
      let k := mkKey keyID ownerID ownerType (up_key_type req) (up_public_key req)
                 (up_signature req) (up_key_id req) t in
      res ← exec (insert_key k);
      match res with
      | Err _ => reject StatusInternalServerError "failed to store key" h
      | Ok _ =>
          t' ← now;
          mret (writeJSON StatusOK (key_json k (up_key_id req) (rfc3339 t')) h)
      end
  end).

(** The one-time key is read and then deleted, two statements; the result of the
    deletion is not looked at. *)
Definition take_one_time_key (targetID targetType : string) : M (option KeyRow) :=
  otp ← query (λ d, query_row (λ _, True) (order_by (key_asc k_key_id)
    (filter (key_of targetID targetType KeyTypeOneTimePreKey) (key_bundles d))));
  match otp with
  | Ok k => _ ← exec (delete_key (k_id k)); mret (Some k)
  | Err _ => mret None
  end.

Definition bundle_json (ident : KeyRow) (otp signed : option KeyRow) : json :=
  let created k := rfc3339nano (k_created_at k) in
  JObj ([("identity_key", key_json ident 0 (created ident))]
    ++ (match otp with
        | Some k => [("one_time_prekey", key_json k (k_key_id k) (created k))] | None => [] end)
    ++ (match signed with
        | Some k => [("signed_prekey", key_json k 0 (created k))] | None => [] end)).

Definition handleGetKeyBundle : HandlerFunc := λ h r,
  with_identity MethodGet h r (λ _ _,
  let targetID := QueryGet r "owner_id" in
  let targetType := QueryGet r "owner_type" in
  if str_empty targetID then reject StatusBadRequest "owner_id is required" h else
  let targetType := if str_empty targetType then "user" else targetType in
  ident ← query (λ d, query_row (key_of targetID targetType KeyTypeIdentity) (key_bundles d));
  match ident with
  | Err _ => reject StatusNotFound "no identity key found for this owner" h
  | Ok ident =>
      signed ← query (λ d, query_row (λ _, True) (order_by (key_desc k_created_at)
        (filter (key_of targetID targetType KeyTypeSignedPreKey) (key_bundles d))));
      let signed := match signed with Ok k => Some k | Err _ => None end in
      otp ← take_one_time_key targetID targetType;
      mret (writeJSON StatusOK (bundle_json ident otp signed) h)
  end).

Definition handleListOneTimePreKeys : HandlerFunc := λ h r,
  with_identity MethodGet h r (λ ownerID ownerType,
  count ← query (λ d, Ok (Z.of_nat (length
    (filter (key_of ownerID ownerType KeyTypeOneTimePreKey) (key_bundles d)))));
  let count := match count with Ok n => n | Err _ => 0 end in
  mret (writeJSON StatusOK (JObj [("one_time_prekey_count", JInt count)]) h)).

Definition sender_excluded (who who_type : string) (conv : Conversation) : bool :=
  bool_decide (who_type = "user" ∧ ConvUserID conv ≠ who) ||
  bool_decide (who_type = "agent" ∧ ConvAgentID conv ≠ who).

Definition encrypted_event (convID emsgID senderType senderID : string) : json :=
  OutgoingMessage "encrypted_message" (routed_json (mkRouted "encrypted_message" convID
    ("encrypted:" +:+ emsgID) [] senderType senderID EmptyString EmptyString)).

(** The UTF-8 bytes of the padlock sign and the rest of the notification. *)
Definition encrypted_body : string :=
  String.string_of_list_ascii (Ascii.ascii_of_nat <$> [240; 159; 148; 146]%nat)
    +:+ " Encrypted message".

Definition deliver_encrypted (senderType : string) (conv : Conversation) (convID : string)
    (outgoing : json) : M unit :=
  let push := go (GoNotifyUser (ConvUserID conv) "New Encrypted Message" encrypted_body convID) in
  if decide (senderType = "user") then notify_agent (ConvAgentID conv) outgoing else
  conns ← gets (λ w, GetClientConns (ConvUserID conv) (hub w));
  match conns with
  | [] => push
  | _ :: _ =>
      delivered ← SafeSendAll conns outgoing;
      if decide (delivered = O) then push else mret tt
  end.

Definition handleStoreEncryptedMessage : HandlerFunc := λ h r,
  with_identity MethodPost h r (λ senderID senderType,
  match Body r ≫= decode_encrypted_upload with
  | Err _ => reject StatusBadRequest "invalid JSON" h
  | Ok req =>
      if str_empty (eu_conversation_id req) || str_empty (eu_ciphertext req) ||
         str_empty (eu_iv req) || str_empty (eu_algorithm req) then
        reject StatusBadRequest "conversation_id, ciphertext, iv, and algorithm are required" h else
      if negb (validAlgorithm (eu_algorithm req)) then
        reject StatusBadRequest "unsupported algorithm" h else
      conv ← getConversation (eu_conversation_id req);
      match conv with
      | Err _ | Ok None => reject StatusNotFound "conversation not found" h
      | Ok (Some conv) =>
          if sender_excluded senderID senderType conv then
            reject StatusForbidden "not a participant in this conversation" h else
          emsgID ← generateID "emsg";
          t ← now;
          res ← exec (insert_encrypted (mkEncrypted emsgID (eu_conversation_id req) senderID
            senderType (eu_ciphertext req) (eu_iv req) (eu_recipient_key_id req)
            (eu_sender_key_id req) (eu_algorithm req) t));
          match res with
          | Err _ => reject StatusInternalServerError "failed to store encrypted message" h
          | Ok _ =>
              _ ← deliver_encrypted senderType conv (eu_conversation_id req)
                    (encrypted_event (eu_conversation_id req) emsgID senderType senderID);
              mret (writeJSON StatusOK (JObj [("id", JStr emsgID);
                ("message", JStr "encrypted message stored and delivered");
                ("status", JStr "stored")]) h)
          end
      end
  end).

Definition encrypted_json (e : EncryptedRow) : json :=
  JObj ([("id", JStr (e_id e)); ("conversation_id", JStr (e_conversation_id e));
         ("sender_id", JStr (e_sender_id e)); ("sender_type", JStr (e_sender_type e));
         ("ciphertext", JStr (e_ciphertext e)); ("iv", JStr (e_iv e));
         ("recipient_key_id", JStr (e_recipient_key_id e))]
    ++ (if str_empty (e_sender_key_id e) then []
        else [("sender_key_id", JStr (e_sender_key_id e))])
    ++ [("algorithm", JStr (e_algorithm e)); ("created_at", JStr (rfc3339nano (e_created_at e)))]).

Definition handleGetEncryptedMessages : HandlerFunc := λ h r,
  with_identity MethodGet h r (λ ownerID ownerType,
  let convID := QueryGet r "conversation_id" in
  if str_empty convID then reject StatusBadRequest "conversation_id is required" h else
  conv ← getConversation convID;
  match conv with
  | Err _ | Ok None => reject StatusNotFound "conversation not found" h
  | Ok (Some conv) =>
      if sender_excluded ownerID ownerType conv then
        reject StatusNotFound "conversation not found" h else
      let l := default 50 (Sscanf_d (QueryGet r "limit")) in
      let limit := if bool_decide (l ≤ 0) || bool_decide (200 < l) then 50 else l in
      rows ← query (λ d, Ok (limit_rows limit (order_by (key_asc e_created_at)
        (filter (λ e, e_conversation_id e = convID) (encrypted_messages d)))));
      match rows with
      | Err _ => reject StatusInternalServerError "failed to fetch encrypted messages" h
      | Ok rows => mret (writeJSON StatusOK (JArr (encrypted_json <$> rows)) h)
      end
  end).
End e2e.
