(* ===== verification/Push.v ===== *)
(** * Notification preferences (notif_prefs.go) and push notifications (push.go)

    The push services are third-party clients.  Which of them gets a notification
    is the result of [notifyUser] here; Startup.v makes the clients and has what
    each is handed. *)

From S2P Require Import Prelude GoLib FixedWindow RateLimit Sql Queue Hub Store World Auth.
From S2P Require Import Conversations.

(** [safeTruncate] is only used for log lines. *)
Definition safeTruncate (s : string) (n : Z) : string :=
  if bool_decide (len s ≤ n) then s else take_str (Z.to_nat n) s.

(** A decoded request body. *)
Record DeviceReg := mkDeviceReg { dr_token : string; dr_platform : string }.

Definition decode_device_reg (j : json) : Result DeviceReg :=
  ms ← struct_members j;
  tk ← decode_field decode_string "device_token" EmptyString ms;
  pf ← decode_field decode_string "platform" EmptyString ms;
  mret (mkDeviceReg tk pf).

Definition decode_device_token (j : json) : Result string :=
  ms ← struct_members j; decode_field decode_string "device_token" EmptyString ms.

(** The subscription of a browser: the endpoint and the two keys. *)
Record WebSub := mkWebSubscription { wr_endpoint : string; wr_p256dh : string; wr_auth : string }.

Definition decode_web_keys (cur : string * string) (j : json) : Result (string * string) :=
  ms ← struct_members j;
  p ← decode_field decode_string "p256dh" cur.1 ms;
  a ← decode_field decode_string "auth" cur.2 ms;
  mret (p, a).

Definition decode_web_sub (j : json) : Result WebSub :=
  ms ← struct_members j;
  ep ← decode_field decode_string "endpoint" EmptyString ms;
  keys ← decode_field decode_web_keys "keys" (EmptyString, EmptyString) ms;
  mret (mkWebSubscription ep keys.1 keys.2).

Definition decode_endpoint (j : json) : Result string :=
  ms ← struct_members j; decode_field decode_string "endpoint" EmptyString ms.

Section push.
Context `{Env}.

(** ** Preferences *)

Definition getUserID (r : Request) : Result string :=
  match UserIDCtx r with
  | Some u => if str_empty u then Err (ErrText "unauthorized") else Ok u
  | None => Err (ErrText "unauthorized")
  end.

Definition pref_json (convID : string) (muted : bool) : json :=
  JObj [("conversation_id", JStr convID); ("muted", JBool muted)].

Definition handleGetNotificationPrefs : HandlerFunc := λ h r,
  match getUserID r with
  | Err _ => reject StatusUnauthorized "unauthorized" h
  | Ok userID =>
      rows ← query (λ d, Ok (filter (λ p, p_user_id p = userID) (notification_preferences d)));
      match rows with
      | Err _ => reject StatusInternalServerError "internal error" h
      | Ok ps =>
          mret (writeJSON StatusOK
            (JArr ((λ p, pref_json (p_conversation_id p) (p_muted p)) <$> ps)) h)
      end
  end.

Definition handleSetNotificationPrefs : HandlerFunc := λ h r,
  match getUserID r with
  | Err _ => reject StatusUnauthorized "unauthorized" h
  | Ok userID =>
      let convID := FormValue r "conversation_id" in
      let muted := bool_decide (FormValue r "muted" = "true") in
      if str_empty convID then reject StatusBadRequest "conversation_id required" h else
      owner ← query (λ d, ConvUserID <$> query_row (λ c, ConvID c = convID) (conversations d));
      match owner with
      | Err ErrNoRows => reject StatusNotFound "conversation not found" h
      | Err _ => reject StatusInternalServerError "internal error" h
      | Ok owner =>
          if decide (owner ≠ userID) then reject StatusForbidden "not your conversation" h else
          res ← exec (upsert_pref (mkPref userID convID muted));
          match res with
          | Err _ => reject StatusInternalServerError "internal error" h
          | Ok _ => mret (writeJSON StatusOK (pref_json convID muted) h)
          end
      end
  end.

Definition handleDeleteNotificationPrefs : HandlerFunc := λ h r,
  match getUserID r with
  | Err _ => reject StatusUnauthorized "unauthorized" h
  | Ok userID =>
      let convID := FormValue r "conversation_id" in
      if str_empty convID then reject StatusBadRequest "conversation_id required" h else
      _ ← exec (delete_pref userID convID);
      mret (writeJSON StatusOK (JObj [("status", JStr "deleted")]) h)
  end.

(** A failed ping or query reads as not muted. *)
Definition isConversationMuted (userID convID : string) : M bool :=
  ping ← exec Ok;
  match ping with
  | Err _ => mret false
  | Ok _ =>
      muted ← query (λ d, p_muted <$> query_row (λ p, pref_key p = (userID, convID))
                            (notification_preferences d));
      mret (match muted with Ok b => b | Err _ => false end)
  end.

(** ** Device tokens *)

Definition status_ok : json := JObj [("status", JStr "ok")].

Definition handleRegisterDeviceToken : HandlerFunc := λ h r,
  with_claims MethodPost h r (λ claims,
  match Body r ≫= decode_device_reg with
  | Err _ => reject StatusBadRequest "invalid request body" h
  | Ok req =>
      if str_empty (dr_token req) then reject StatusBadRequest "device_token is required" h else
      let platform := if str_empty (dr_platform req) then "ios" else dr_platform req in
      t ← current_timestamp;
      res ← exec (upsert_device (mkDevice (UserID claims) (dr_token req) platform t));
      match res with
      | Err _ => reject StatusInternalServerError "failed to store device token" h
      | Ok _ => mret (writeJSON StatusOK status_ok h)
      end
  end).

Definition handleUnregisterDeviceToken : HandlerFunc := λ h r,
  with_claims MethodDelete h r (λ claims,
  match Body r ≫= decode_device_token with
  | Err _ => reject StatusBadRequest "invalid request body" h
  | Ok token =>
      if str_empty token then reject StatusBadRequest "device_token is required" h else
      res ← exec (delete_device (UserID claims) token);
      match res with
      | Err _ => reject StatusInternalServerError "failed to remove device token" h
      | Ok _ => mret (writeJSON StatusOK status_ok h)
      end
  end).

Definition getDeviceTokensForUser (userID : string) : M (Result (list (string * string))) :=
  query (λ d, Ok ((λ r, (d_token r, d_platform r)) <$>
    filter (λ r, d_user_id r = userID) (device_tokens d))).

Definition handleGetVAPIDKey : HandlerFunc := λ h r,
  if negb (method_is MethodGet r) then
    reject StatusMethodNotAllowed "method not allowed" h else
  let authHeader := HeaderGet r "Authorization" in
  if str_empty authHeader || negb (HasPrefix authHeader "Bearer ") then
    reject StatusUnauthorized "authorization required" h else
  if str_empty vapidPublicKey then reject StatusNotFound "VAPID not configured on server" h else
  mret (writeJSON StatusOK (JObj [("public_key", JStr vapidPublicKey)]) h).

(** ** Web push subscriptions *)

(** The endpoint is also a device token, of the platform [web]; the keys go
    into a table made on demand, whose errors do not matter. *)
Definition handleWebPushSubscribe : HandlerFunc := λ h r,
  with_claims MethodPost h r (λ claims,
  match Body r ≫= decode_web_sub with
  | Err _ => reject StatusBadRequest "invalid request body" h
  | Ok req =>
      if str_empty (wr_endpoint req) || str_empty (wr_p256dh req) || str_empty (wr_auth req) then
        reject StatusBadRequest "endpoint, p256dh, and auth keys are required" h else
      t ← current_timestamp;
      res ← exec (replace_device (mkDevice (UserID claims) (wr_endpoint req) "web" t));
      match res with
      | Err _ => reject StatusInternalServerError "failed to store subscription" h
      | Ok _ =>
          _ ← exec create_web_subs;
          t ← now;
          _ ← exec (replace_web_sub (mkWebSub (UserID claims) (wr_endpoint req)
                (wr_p256dh req) (wr_auth req) t));
          mret (writeJSON StatusOK (JObj [("status", JStr "subscribed")]) h)
      end
  end).

Definition handleWebPushUnsubscribe : HandlerFunc := λ h r,
  with_claims MethodPost h r (λ claims,
  match Body r ≫= decode_endpoint with
  | Err _ => reject StatusBadRequest "invalid request body" h
  | Ok endpoint =>
      if str_empty endpoint then reject StatusBadRequest "endpoint is required" h else
      _ ← exec (delete_web_device (UserID claims) endpoint);
      _ ← exec (delete_web_sub (UserID claims) endpoint);
      mret (writeJSON StatusOK (JObj [("status", JStr "unsubscribed")]) h)
  end).

(** ** Sending *)

(** Which service a token is sent to, with the notification. *)
Inductive PushService := APNs | FCM.

Definition push_service (platform : string) : PushService :=
  if decide (ToLower platform ∈ ["android"; "fcm"]) then FCM else APNs.

Record PushCall := mkPushCall {
  pc_service : PushService; pc_token : string; pc_title : string; pc_body : string;
  pc_conversation : string }.

(** The calls made; a service that is disabled ignores its calls, and a failing
    call does not stop the loop. *)
Definition notifyUser (userID title body convID : string) : M (list PushCall) :=
  muted ← (if str_empty convID then mret false else isConversationMuted userID convID);
  if muted : bool then mret [] else
  tokens ← getDeviceTokensForUser userID;
  mret (match tokens with
        | Err _ => []
        | Ok ts => (λ '(token, platform),
            mkPushCall (push_service platform) token title body convID) <$> ts
        end).
End push.
