(* ===== verification/Attachments.v ===== *)
(** * File attachments (attachments.go)

    An upload writes a file next to the database and a row about it; a download
    looks the row up and serves the file.  Content sniffing, the table of file
    extensions, SHA-256 and the local calendar are parameters ([Env]). *)

From S2P Require Import Prelude GoLib Path FixedWindow RateLimit Sql Queue Hub Store World Auth.
From S2P Require Import Conversations.
From Stdlib Require Import Ascii.

(** [isAllowedContentType]: the list and the prefixes. *)
Definition allowed_types : list string :=
  ["image/jpeg"; "image/png"; "image/gif"; "image/webp"; "image/svg+xml"; "image/bmp";
   "application/pdf"; "text/plain"; "text/csv"; "text/markdown"; "application/json";
   "audio/mpeg"; "audio/ogg"; "audio/wav"; "audio/webm"; "audio/mp4";
   "video/mp4"; "video/webm"; "video/ogg"].

Definition isAllowedContentType (ct : string) : bool :=
  existsb (HasPrefix ct) ["image/"; "audio/"; "video/"; "text/"]
  || bool_decide (ct ∈ allowed_types).

(** [Attachment]: neither handler sets [message_id], and [storage_path] is not
    exposed. *)
Definition attachment_json (a : AttachmentRow) (created_at : string) : json :=
  JObj [("id", JStr (at_id a)); ("filename", JStr (at_filename a));
        ("content_type", JStr (at_content_type a)); ("size", JInt (at_size a));
        ("sha256", JStr (at_sha256 a)); ("url", JStr ("/attachments/" +:+ at_id a));
        ("created_at", JStr created_at)].

(** The join of the list: attachments of the messages of a conversation. *)
Definition in_conversation (convID : string) (ms : list MessageRow) (a : AttachmentRow) : Prop :=
  Exists (λ m, at_message_id a = Some (m_id m) ∧ m_conversation_id m = convID) ms.

#[export] Instance in_conversation_dec convID ms a : Decision (in_conversation convID ms a).
Proof. unfold in_conversation. apply _. Defined.

(** An element of a path as [http.ServeFile] splits it: at slashes and
    backslashes. *)
Definition backslash : ascii := ascii_of_nat 92.

Definition containsDotDot (path : string) : bool :=
  bool_decide (".." ∈ (Split path slash ≫= λ e, Split e backslash)).

Section attachments.
Context `{Env}.

Definition UploadSubdir : string := "uploads".

Definition getUploadDir : string := Path.Join [Path.Dir serverDBPath; UploadSubdir].

(** [ensureUploadDir] at the start: an error is only warned of. *)
Definition ensureUploadDir : M (Result unit) := make_dir.

(** The preamble of the two handlers that want a bearer token. *)
Definition with_bearer (m : string) (h : gmap string string) (r : Request)
    (k : Claims → M Response) : M Response :=
  if negb (method_is m r) then reject StatusMethodNotAllowed "method not allowed" h else
  let authHeader := HeaderGet r "Authorization" in
  if str_empty authHeader || negb (HasPrefix authHeader "Bearer ") then
    reject StatusUnauthorized "authorization required" h else
  claims ← ValidateJWT (TrimPrefix authHeader "Bearer ");
  match claims with
  | Err _ => reject StatusUnauthorized "invalid token" h
  | Ok claims => k claims
  end.

(** [http.MaxBytesReader] cuts the body off, which makes the parsing fail. *)
Definition parse_multipart (r : Request) : Result (option FileHeader) :=
  if decide (maxUploadSize < BodySize r) then Err (ErrText "http: request body too large")
  else Multipart r.

(** The declared content type, or what the first 512 bytes look like; reading
    them and going back may fail. *)
Definition content_type_of (f : FileHeader) : M (Result string) :=
  if str_empty (PartContentType f) || bool_decide (PartContentType f = "application/octet-stream")
  then
    seek ← fault;
    if seek : bool then mret (Err ErrIO)
    else mret (Ok (detect_content_type (take_str 512 (Content_ f))))
  else mret (Ok (PartContentType f)).

Definition extension_of (f : FileHeader) (ct : string) : string :=
  if str_empty (Ext (Filename f)) then default EmptyString (head (extensions_by_type ct))
  else Ext (Filename f).

(** The directory of a file under the upload directory, by year and month. *)
Definition date_dir (t : Z) : string :=
  let '(year, month) := local_year_month t in
  Path.Join [FormatPadded 4 year; FormatPadded 2 month].

(** The rest of [handleUpload]: the file, then its row; the file is removed again
    when either cannot be written. *)
Definition store_upload (claims : Claims) (file : FileHeader) (ct : string) : HandlerFunc := λ h r,
  attachID ← generateID "att";
  t ← now;
  dir ← make_dir;
  match dir with
  | Err _ => reject StatusInternalServerError "failed to store file" h
  | Ok _ =>
      let storageName := attachID +:+ extension_of file ct in
      let storagePath := Path.Join [getUploadDir; date_dir t; storageName] in
      created ← write_file storagePath EmptyString;
      match created with
      | Err _ => reject StatusInternalServerError "failed to store file" h
      | Ok _ =>
          written ← write_file storagePath (Content_ file);
          match written with
          | Err _ =>
              _ ← remove_file storagePath;
              reject StatusInternalServerError "failed to store file" h
          | Ok _ =>
              let mid := FormValue r "message_id" in
              let a := mkAttachment attachID (if str_empty mid then None else Some mid)
                         (UserID claims) (Filename file) ct (len (Content_ file))
                         (sha256_hex (Content_ file)) (Path.Join [date_dir t; storageName]) t in
              res ← exec (insert_attachment a);
              match res with
              | Err _ =>
                  _ ← remove_file storagePath;
                  reject StatusInternalServerError "failed to store attachment" h
              | Ok _ => mret (writeJSON StatusOK (attachment_json a (rfc3339 t)) h)
              end
          end
      end
  end.

Definition handleUpload : HandlerFunc := λ h r,
  with_bearer MethodPost h r (λ claims,
  match parse_multipart r with
  | Err _ => reject StatusBadRequest "file too large or invalid form data" h
  | Ok None => reject StatusBadRequest "missing file field" h
  | Ok (Some file) =>
      if decide (maxUploadSize < len (Content_ file)) then
        reject StatusBadRequest
          ("file too large (max " +:+ FormatInt (maxUploadSize / 2 ^ 20) +:+ " MB)") h else
      ct ← content_type_of file;
      match ct with
      | Err _ => reject StatusInternalServerError "failed to process file" h
      | Ok ct =>
          if negb (isAllowedContentType ct) then
            reject StatusBadRequest ("file type not allowed: " +:+ ct) h
          else store_upload claims file ct h r
      end
  end).

(** [http.ServeFile] for a request that asks for the whole file. *)
Definition ServeFile (h : gmap string string) (r : Request) (path : string) : M Response :=
  if containsDotDot (URLPath r) then mret (mkResponse StatusBadRequest h (TextBody "invalid URL path"))
  else if HasSuffix (URLPath r) "/index.html" then
    mret (mkResponse 301 (set_header "Location" "./" h) NoBody)
  else
    file ← gets (λ w, files w !! path);
    mret (match file with
          | Some content => mkResponse StatusOK h (FileBody content)
          | None => mkResponse StatusNotFound h (TextBody "404 page not found")
          end).

(** The lookups of [handleGetAttachment], by two queries; an empty user id
    stands for the agents' secret. *)
Definition serve_attachment (userID attachID : string) (h : gmap string string) (r : Request)
    : M Response :=
  row ← query (λ d, query_row (λ a, at_id a = attachID) (attachments d));
  match row with
  | Err _ => reject StatusNotFound "attachment not found" h
  | Ok row =>
      allowed ← (if str_empty userID then mret true else
                 owner ← query (λ d, at_user_id <$> query_row (λ a, at_id a = attachID) (attachments d));
                 mret (match owner with
                       | Ok owner => bool_decide (owner = userID)
                       | Err _ => false
                       end));
      if negb allowed then
        reject StatusForbidden "not authorized to access this attachment" h
      else ServeFile h r (Path.Join [getUploadDir; at_storage_path row])
  end.

Definition handleGetAttachment : HandlerFunc := λ h r,
  if negb (method_is MethodGet r) then
    reject StatusMethodNotAllowed "method not allowed" h else
  let attachID := default EmptyString (head (Split (TrimPrefix (URLPath r) "/attachments/") slash)) in
  if str_empty attachID then reject StatusBadRequest "missing attachment id" h else
  let authHeader := HeaderGet r "Authorization" in
  if HasPrefix authHeader "Bearer " then
    claims ← ValidateJWT (TrimPrefix authHeader "Bearer ");
    match claims with
    | Err _ => reject StatusUnauthorized "invalid token" h
    | Ok claims => serve_attachment (UserID claims) attachID h r
    end
  else
    let secret := HeaderGet r "X-Agent-Secret" in
    if str_empty secret || negb (bool_decide (secret = agentSecret)) then
      reject StatusUnauthorized "authorization required" h
    else serve_attachment EmptyString attachID h r.

Definition handleListAttachments : HandlerFunc := λ h r,
  with_bearer MethodGet h r (λ claims,
  let conversationID := QueryGet r "conversation_id" in
  if str_empty conversationID then reject StatusBadRequest "conversation_id is required" h else
  conv ← getConversation conversationID;
  match conv with
  | Ok (Some conv) =>
      if decide (ConvUserID conv ≠ UserID claims) then
        reject StatusNotFound "conversation not found" h else
      rows ← query (λ d, Ok (order_by (key_desc at_created_at)
               (filter (in_conversation conversationID (messages d)) (attachments d))));
      match rows with
      | Err _ => reject StatusInternalServerError "failed to list attachments" h
      | Ok rows =>
          mret (writeJSON StatusOK
            (JArr ((λ a, attachment_json a (rfc3339nano (at_created_at a))) <$> rows)) h)
      end
  | _ => reject StatusNotFound "conversation not found" h
  end).
End attachments.
