(* ===== verification/Middleware.v ===== *)
(** * HTTP middleware (middleware.go, rate_limit_tiers.go:214-250) and the
      administration of rate-limit tiers *)

From S2P Require Import Prelude GoLib FixedWindow RateLimit Tiers Sql Queue Hub Store World Auth.
From S2P Require Import Conversations Protocol.

(** A middleware turns a handler into a handler. *)
Definition Middleware : Type := HandlerFunc → HandlerFunc.

(** The request with a header or the context value set. *)
Definition with_header (k v : string) (r : Request) : Request :=
  mkRequest (Method r) (URLPath r) (RemoteAddr r) (<[CanonicalHeaderKey k := v]> (Headers r)) (Query r)
    (PostForm r) (Body r) (Multipart r) (BodySize r) (UserIDCtx r).

Definition with_user (u : string) (r : Request) : Request :=
  mkRequest (Method r) (URLPath r) (RemoteAddr r) (Headers r) (Query r)
    (PostForm r) (Body r) (Multipart r) (BodySize r) (Some u).

(** [extractIP]: the first address of X-Forwarded-For, X-Real-IP, or the remote
    address without its port. *)
Definition extractIP (r : Request) : string :=
  let xff := HeaderGet r "X-Forwarded-For" in
  if negb (str_empty xff) then
    match Index xff comma with
    | Some idx => TrimSpace (take_str idx xff)
    | None => TrimSpace xff
    end
  else
    let xri := HeaderGet r "X-Real-IP" in
    if negb (str_empty xri) then TrimSpace xri
    else match LastIndex (RemoteAddr r) (Ascii.ascii_of_nat 58) with
         | Some idx => take_str idx (RemoteAddr r)
         | None => RemoteAddr r
         end.

Section middleware.
Context `{Env}.

Definition isOriginAllowed (origin : string) : bool :=
  if bool_decide (corsAllowedOrigins = "*") then true
  else origin_listed corsAllowedOrigins origin.

Definition csrf_error : string :=
  "CSRF validation failed: missing Origin, X-Requested-With, X-CSRF-Token, or Authorization header".

Definition csrfMiddleware : Middleware := λ next h r,
  if bool_decide (Method r ∈ ["GET"; "HEAD"; "OPTIONS"]) then next h r
  else if bool_decide (HeaderGet r "X-Requested-With" = "XMLHttpRequest") then next h r
  else if negb (str_empty (HeaderGet r "X-CSRF-Token")) then next h r
  else if negb (str_empty (HeaderGet r "Origin")) && isOriginAllowed (HeaderGet r "Origin")
  then next h r
  else if negb (str_empty (HeaderGet r "Authorization")) then next h r
  else if negb (str_empty (HeaderGet r "X-Agent-Secret")) then next h r
  else reject StatusForbidden csrf_error h.

(** [atomic.AddUint64] wraps at 64 bits. *)
Definition next_request_id : M string :=
  t ← now;
  n ← state (λ w, let n := (requestIDCounter w + 1) `mod` 2 ^ 64 in
                  (n, set_requestIDCounter (λ _, n) w));
  mret ("req-" +:+ FormatInt t +:+ "-" +:+ FormatInt n).

Definition requestIDMiddleware : Middleware := λ next h r,
  let requestID := HeaderGet r "X-Request-ID" in
  requestID ← (if str_empty requestID then next_request_id else mret requestID);
  next (set_header "X-Request-ID" requestID h) (with_header "X-Request-ID" requestID r).

(** Only observes: two clock readings and, with a bearer token, its validation. *)
Definition accessLogMiddleware : Middleware := λ next h r,
  _ ← now;
  let authHeader := HeaderGet r "Authorization" in
  _ ← (if HasPrefix authHeader "Bearer " then
         _ ← ValidateJWT (TrimPrefix authHeader "Bearer "); mret tt
       else mret tt);
  res ← next h r;
  _ ← now;
  mret res.

Definition content_security_policy : string :=
  "default-src 'self'; script-src 'self' 'unsafe-inline' 'unsafe-eval'; style-src 'self' 'unsafe-inline'; img-src 'self' data: blob:; connect-src 'self' ws: wss:; font-src 'self'; frame-ancestors 'none'; form-action 'self'; base-uri 'self'".

Definition securityHeadersMiddleware : Middleware := λ next h r,
  next (set_header "Content-Security-Policy" content_security_policy
    (set_header "Permissions-Policy" "camera=(), microphone=(), geolocation=()"
    (set_header "Referrer-Policy" "strict-origin-when-cross-origin"
    (set_header "X-XSS-Protection" "1; mode=block"
    (set_header "X-Frame-Options" "DENY"
    (set_header "X-Content-Type-Options" "nosniff" h)))))) r.

Definition cors_headers (origin : string) (h : gmap string string) : gmap string string :=
  let h :=
    if bool_decide (corsAllowedOrigins = "*")
    then set_header "Access-Control-Allow-Origin" "*" h
    else if origin_listed corsAllowedOrigins origin
    then set_header "Access-Control-Allow-Origin" origin h else h in
  set_header "Access-Control-Max-Age" "86400"
    (set_header "Access-Control-Expose-Headers"
      "X-RateLimit-Limit, X-RateLimit-Remaining, X-RateLimit-Reset"
    (set_header "Access-Control-Allow-Headers" "Content-Type, Authorization, X-Agent-Secret"
    (set_header "Access-Control-Allow-Methods" "GET, POST, PUT, DELETE, OPTIONS" h))).

Definition corsMiddleware : Middleware := λ next h r,
  let origin := HeaderGet r "Origin" in
  let h := if str_empty origin then h else cors_headers origin h in
  if method_is MethodOptions r then mret (mkResponse StatusNoContent h NoBody) else next h r.

Definition ip_limiter_allow (i : string) : M bool :=
  t ← now;
  state (λ w, let '(ok, rl) := RateLimiter.Allow t i (ipRateLimiter w) in
              (ok, set_ipRateLimiter (λ _, rl) w)).

Definition auth_limiter_allow (i : string) : M bool :=
  t ← now;
  state (λ w, let '(ok, rl) := RateLimiter.Allow t i (authIPLimiter w) in
              (ok, set_authIPLimiter (λ _, rl) w)).

(** [AUTH_RATE_LIMIT] replaces the default when it is a positive number. *)
Definition initAuthRateLimit (env : string) : M unit :=
  let n := match Atoi env with Ok n => if decide (0 < n) then n else 30 | Err _ => 30 end in
  modify (set_authIPLimiter (λ _, RateLimiter.NewRateLimiter n Minute)).

Definition ipRateLimitMiddleware : Middleware := λ next h r,
  ok ← ip_limiter_allow (extractIP r);
  if negb ok then
    reject StatusTooManyRequests "rate limit exceeded: too many requests from this IP"
      (set_header "Retry-After" "60" h)
  else next h r.

Definition authRateLimitMiddleware : Middleware := λ next h r,
  ok ← auth_limiter_allow (extractIP r);
  if negb ok then
    reject StatusTooManyRequests "rate limit exceeded: too many auth attempts from this IP"
      (set_header "Retry-After" "60" h)
  else next h r.

Definition adminAuthMiddleware : Middleware := λ next h r,
  let secret := HeaderGet r "X-Admin-Secret" in
  let secret := if str_empty secret then FormValue r "admin_secret" else secret in
  let secret := if str_empty secret then QueryGet r "admin_secret" else secret in
  match ValidateAdminSecret secret with
  | Err _ => reject StatusUnauthorized "unauthorized" h
  | Ok _ => next h r
  end.

Definition authMiddleware : Middleware := λ next h r,
  claims ← ValidateJWT (bearer_token r);
  match claims with
  | Err _ => reject StatusUnauthorized "unauthorized" h
  | Ok claims => next h (with_user (UserID claims) r)
  end.

(** ** Tiers *)

(** The three results of [Allow], and the tier read afterwards. *)
Definition tiered_allow (userID : string) : M (bool * Z * Z * Tiered.RateLimitTier) :=
  t ← now;
  state (λ w,
    let '(res, trl) := Tiered.Allow t userID (globalTieredLimiter w) in
    ((res, Tiered.GetTier userID trl), set_globalTieredLimiter (λ _, trl) w)).

(** [itoa] panics in the source when it runs out of its buffer; it never does
    (Tiers.v), so the header gets its text. *)
Definition itoa_header (n : Z) : string := default EmptyString (itoa n).

(** A bearer token that validates names the user; anything else is limited by
    the remote address. *)
Definition tiered_key (r : Request) : M string :=
  let token := HeaderGet r "Authorization" in
  userID ← (if bool_decide (7 < len token) && HasPrefix token "Bearer " then
              claims ← ValidateJWT (drop_str 7 token);
              mret (match claims with Ok c => UserID c | Err _ => EmptyString end)
            else mret EmptyString);
  mret (if str_empty userID then "ip:" +:+ RemoteAddr r else userID).

Definition tieredRateLimitMiddleware : Middleware := λ next h r,
  userID ← tiered_key r;
  res ← tiered_allow userID;
  let '(allowed, remaining, retryAfter, tier) := res in
  let h := set_header "X-RateLimit-Remaining" (itoa_header remaining)
             (set_header "X-RateLimit-Limit" (itoa_header (Tiered.Burst tier)) h) in
  if negb allowed then
    reject StatusTooManyRequests "rate limit exceeded"
      (set_header "X-RateLimit-Remaining" "0"
        (set_header "Retry-After" (itoa_header retryAfter) h))
  else next h r.

Definition tier_of_name (tierName : string) : option Tiered.RateLimitTier :=
  if decide (tierName = "free") then Some Tiered.TierFree
  else if decide (tierName = "pro") then Some Tiered.TierPro
  else if decide (tierName = "enterprise") then Some Tiered.TierEnterprise
  else None.

Definition set_tier (userID : string) (tier : Tiered.RateLimitTier) : M unit :=
  t ← now;
  modify (set_globalTieredLimiter (Tiered.SetTier t userID tier)).

(** Rows with an unknown name are read as free, and free is the default. *)
Definition load_tier (row : TierRow) : M unit :=
  let tier := if decide (tr_tier_name row = "pro") then Tiered.TierPro
              else if decide (tr_tier_name row = "enterprise") then Tiered.TierEnterprise
              else Tiered.TierFree in
  if decide (Tiered.Name tier ≠ "free") then set_tier (tr_user_id row) tier else mret tt.

Definition loadTiersFromDB : M (Result unit) :=
  rows ← query (λ d, Ok (user_rate_limit_tiers d));
  match rows with
  | Err e => mret (Err e)
  | Ok rows => _ ← for_each load_tier rows; mret (Ok tt)
  end.

Definition persistTierToDB (userID : string) (tier : Tiered.RateLimitTier) : M (Result unit) :=
  exec (replace_tier (mkTierRow userID (Tiered.Name tier))).

Definition handleSetRateLimitTier : HandlerFunc := λ h r,
  if negb (method_is MethodPost r) then
    reject StatusMethodNotAllowed "method not allowed" h else
  let secret := HeaderGet r "X-Admin-Secret" in
  let secret := if str_empty secret then FormValue r "admin_secret" else secret in
  match ValidateAdminSecret secret with
  | Err _ => reject StatusUnauthorized "unauthorized" h
  | Ok _ =>
      let userID := FormValue r "user_id" in
      let tierName := FormValue r "tier" in
      if str_empty userID || str_empty tierName then
        reject StatusBadRequest "missing user_id or tier" h else
      match tier_of_name tierName with
      | None => reject StatusBadRequest ("unknown tier: " +:+ tierName) h
      | Some tier =>
          _ ← set_tier userID tier;
          _ ← persistTierToDB userID tier;
          mret (writeJSON StatusOK (JObj [("status", JStr "ok"); ("tier", JStr tierName);
            ("user_id", JStr userID)]) h)
      end
  end.

Definition handleGetRateLimitTier : HandlerFunc := λ h r,
  if negb (method_is MethodGet r) then
    reject StatusMethodNotAllowed "method not allowed" h else
  let secret := HeaderGet r "X-Admin-Secret" in
  let secret := if str_empty secret then QueryGet r "admin_secret" else secret in
  match ValidateAdminSecret secret with
  | Err _ => reject StatusUnauthorized "unauthorized" h
  | Ok _ =>
      let userID := QueryGet r "user_id" in
      if str_empty userID then reject StatusBadRequest "missing user_id" h else
      tier ← gets (λ w, Tiered.GetTier userID (globalTieredLimiter w));
      t ← now;
      remaining ← gets (λ w, Tiered.GetRemaining t userID (globalTieredLimiter w));
      mret (writeJSON StatusOK (JObj [("burst", JInt (Tiered.Burst tier));
        ("remaining", JInt remaining); ("tier", JStr (Tiered.Name tier));
        ("user_id", JStr userID); ("window_sec", JInt (Seconds_int (Tiered.Window tier)))]) h)
  end.

Definition handleAdminRateLimitTier : HandlerFunc := λ h r,
  if method_is MethodPost r then handleSetRateLimitTier h r else handleGetRateLimitTier h r.
End middleware.
