(* ===== verification/Admits.v ===== *)
(** * What the handlers may do to the state

    Three interfaces between the handlers and the properties of the server, each
    a [Family] of computations that has certain primitive steps.  [Quiet R] has
    the steps that write no table: the clock, reads, sends, registrations, the
    rate limiters and the queue.  [Delivers R] adds the durable queue, [Admits R]
    all SQL statements of the program.  A handler built from the steps of an
    interface belongs to every [R] that implements it; the proofs, by the hint
    database [within], are transparent, since for the family of Interleave.v they
    compute the steps of the handler. *)

From S2P Require Import Prelude GoLib FixedWindow RateLimit Tiers Sql Queue Hub Store World Auth.
From S2P Require Import Conversations Routing Protocol Messages Reactions E2E Push Attachments.
From S2P Require Import Middleware.

(** ** The statements of the program *)

Inductive statement : (DB → Result DB) → Prop :=
  | st_ping : statement Ok
  | st_insert_user u : statement (insert_user u)
  | st_update_password uid hash : statement (update_user_password uid hash)
  | st_insert_agent a : statement (insert_agent a)
  | st_upsert_agent a : statement (upsert_agent a)
  | st_update_model s aid : statement (update_agent (with_model s) aid)
  | st_update_personality s aid : statement (update_agent (with_personality s) aid)
  | st_update_specialty s aid : statement (update_agent (with_specialty s) aid)
  | st_update_name s aid : statement (update_agent (with_name s) aid)
  | st_insert_conversation c : statement (insert_conversation c)
  | st_delete_conversation c : statement (delete_conversation c)
  | st_insert_message m : statement (insert_message m)
  | st_edit_message i content t :
      statement (update_messages (λ m, m_id m = i) (with_edit content t))
  | st_delete_message i t : statement (update_messages (λ m, m_id m = i) (with_deleted t))
  | st_delete_messages_of c : statement (delete_messages_of c)
  | st_link_attachment m a : statement (link_attachment m a)
  | st_insert_attachment a : statement (insert_attachment a)
  | st_insert_reaction r : statement (insert_reaction r)
  | st_delete_reaction r : statement (delete_reaction r)
  | st_insert_tag t : statement (insert_tag t)
  | st_insert_key k : statement (insert_key k)
  | st_delete_key k : statement (delete_key k)
  | st_insert_encrypted e : statement (insert_encrypted e)
  | st_upsert_pref p : statement (upsert_pref p)
  | st_delete_pref u c : statement (delete_pref u c)
  | st_upsert_device r : statement (upsert_device r)
  | st_delete_device u t : statement (delete_device u t)
  | st_replace_device r : statement (replace_device r)
  | st_delete_web_device u e : statement (delete_web_device u e)
  | st_create_web_subs : statement create_web_subs
  | st_replace_web_sub r : statement (replace_web_sub r)
  | st_delete_web_sub u e : statement (delete_web_sub u e)
  | st_replace_tier r : statement (replace_tier r)
  | st_insert_queued r d t : statement (insert_queued r d t)
  | st_delete_queued r : statement (delete_queued r)
  | st_delete_queued_before t : statement (delete_queued_before t).

Inductive statement_rows : (DB → Result (DB * Z)) → Prop :=
  | st_delete_tag c t : statement_rows (delete_tag c t)
  | st_mark_read c t : statement_rows (mark_read_stmt c t).

(** The tiers a user can be given. *)
Inductive valid_tier : Tiered.RateLimitTier → Prop :=
  | vt_free : valid_tier Tiered.TierFree
  | vt_pro : valid_tier Tiered.TierPro
  | vt_enterprise : valid_tier Tiered.TierEnterprise.

Lemma tier_of_name_valid name tier : tier_of_name name = Some tier → valid_tier tier.
Proof. unfold tier_of_name. repeat case_decide; intros [= <-]; constructor. Qed.

(** ** The interface *)

(** Everything but the SQL statements that write. *)
Class Quiet `{Env} (R : Family) := {
  quiet_composes :: Composes R;
  quiet_now : within R now;
  quiet_fault : within R fault;
  quiet_send r d : within R (SafeSendTo r d);
  quiet_serve ct i dev t v : within R (serve (newConnection ct i dev t v));
  quiet_go g : within R (go g);
  quiet_enqueue t r d : within R (modify (set_offlineQueue (Enqueue t r d)));
  quiet_drain i : within R (drain_queue i);
  quiet_status a s d :
    within R (modify (set_hub (λ h, BroadcastToAllClients d (SetAgentStatus a s h))));
  quiet_touch t r : within R (modify (set_hub (TouchHeartbeat t r)));
  quiet_agent_limiter i : within R (agent_limiter_allow i);
  quiet_check conn i : within R (checkRateLimit conn i);
  quiet_ip_limiter i : within R (ip_limiter_allow i);
  quiet_auth_limiter i : within R (auth_limiter_allow i);
  quiet_tiered i : within R (tiered_allow i);
  quiet_set_tier u t : valid_tier t → within R (set_tier u t);
  quiet_request_id : within R next_request_id;
  quiet_files f : within R (modify (set_files f))
}.

(** With the insertion into the durable queue. *)
Class Delivers `{Env} (R : Family) := {
  delivers_quiet :: Quiet R;
  delivers_queued r d t : within R (exec (insert_queued r d t))
}.

(** With all statements. *)
Class Admits `{Env} (R : Family) := {
  admits_quiet :: Quiet R;
  admits_exec stmt : statement stmt → within R (exec stmt);
  admits_exec_rows stmt : statement_rows stmt → within R (exec_rows stmt);
  admits_transaction {A} (body : M (Result A)) : within R body → within R (in_transaction body)
}.

#[export] Instance admits_delivers `{Env} R : Admits R → Delivers R.
Proof. intros HR. split; [exact _|]. intros. apply admits_exec. constructor. Defined.

Create HintDb within.
#[export] Hint Constructors statement statement_rows valid_tier : within.
#[export] Hint Resolve quiet_now quiet_fault quiet_send quiet_serve quiet_go quiet_enqueue
  quiet_drain quiet_status quiet_touch quiet_agent_limiter quiet_check
  quiet_ip_limiter quiet_auth_limiter quiet_tiered quiet_set_tier
  quiet_request_id quiet_files delivers_queued admits_exec admits_exec_rows admits_transaction : within.
#[export] Hint Resolve within_gets : within.
#[export] Hint Extern 0 (Quiet _) => exact _ : within.
#[export] Hint Extern 0 (Delivers _) => exact _ : within.
#[export] Hint Extern 0 (Admits _) => exact _ : within.

(** Walks through a handler: every bind is split, every branch taken, and each
    call closed by the lemma about it. *)
Ltac walk :=
  repeat first
    [ progress intros
    | solve [eauto 2 with within]
    | lazymatch goal with
      | |- within _ (mret _) => apply within_ret; exact _
      | |- within _ (gets _) => apply within_gets; exact _
      | |- within _ (mbind_ok _ _) => apply within_bind_ok; [exact _| |]
      | |- within _ (mbind _ _) => apply within_bind; [exact _| |]
      | |- within _ (let _ := _ in _) => cbv zeta
      | |- within _ (match ?x with _ => _ end) => destruct x
      end ].

(** The two limiters of [checkRateLimit] are used nowhere else. *)
Lemma within_checkRateLimit_of (R : Family) `{!Composes R} conn i :
  within R (message_limiter_allow i) → within R (user_limiter_allow i) →
  (∀ d, within R (SafeSendTo conn d)) → within R (checkRateLimit conn i).
Proof. intros. unfold checkRateLimit, sendError. walk. Defined.

(** A coarser preorder. *)
Lemma within_mono (R R' : relation World) {A} (m : M A) :
  (∀ w w', R w w' → R' w w') → within R m → within R' m.
Proof. intros HR Hm w. apply HR, Hm. Qed.

Lemma quiet_mono `{Env} (R R' : relation World) :
  PreOrder R' → (∀ w w', R w w' → R' w w') → Quiet R → Quiet R'.
Proof.
  intros ? HR []. split; [exact _|..]; intros; by apply (within_mono R R'); auto.
Qed.

Section loops.
Context (R : Family) `{!Composes R}.

Lemma within_for_each {A B} (f : A → M B) l : (∀ x, within R (f x)) → within R (for_each f l).
Proof. intros Hf. induction l; simpl; walk. Defined.

Lemma within_map_ok {A B} (f : A → M (Result B)) l :
  (∀ x, within R (f x)) → within R (map_ok f l).
Proof. intros Hf. induction l; simpl; walk. Defined.

Lemma within_collect {A} (f : A → M json) l : (∀ x, within R (f x)) → within R (collect f l).
Proof. intros Hf. induction l; simpl; walk. Defined.

Lemma within_in_transaction {A} (body : M (Result A)) :
  within R body → (∀ d, within R (modify (set_db (λ _, d)))) → within R (in_transaction body).
Proof. intros Hb Hd. unfold in_transaction. walk. Defined.
End loops.

Section admits.
Context `{Env} (R : Family) `{!Quiet R}.

(** [db.Ping] is a statement that changes nothing. *)
Lemma within_ping : within R (exec Ok).
Proof.
  apply (composes_ext (f ← fault; mret (if f : bool then Err ErrIO else Ok tt))); [|walk].
  intros w. rewrite run_exec, run_bind. change (fault w) with (failing w, stepped w). simpl.
  destruct (failing w); [done|]. by destruct w.
Defined.

Lemma within_query {A} (q : DB → Result A) : within R (query q).
Proof. unfold query. walk. Defined.

Lemma within_reject code msg h : within R (reject code msg h).
Proof. unfold reject. walk. Defined.
End admits.

#[export] Hint Resolve within_ping within_query within_reject : within.

(** The walk, through the loops as well. *)
Ltac walk_calls :=
  repeat first
    [ progress walk
    | lazymatch goal with
      | |- within _ (_ <$> _) => apply within_fmap; [exact _|]
      | |- within _ (for_each _ _) => apply within_for_each; [exact _|]
      | |- within _ (map_ok _ _) => apply within_map_ok; [exact _|]
      | |- within _ (collect _ _) => apply within_collect; [exact _|]
      | |- within _ (in_transaction _) => apply admits_transaction
      end ].

Section handlers.
Context `{Env} (R : Family) `{!Quiet R}.

(** ** Calls shared by the handlers *)

Lemma within_generateID p : within R (generateID p).
Proof. unfold generateID. walk. Defined.

Lemma within_current_timestamp : within R current_timestamp.
Proof. unfold current_timestamp. walk. Defined.

Lemma within_SafeSendAll rs d : within R (SafeSendAll rs d).
Proof. induction rs; simpl; walk. Defined.

Lemma within_ValidateJWT t : within R (ValidateJWT t).
Proof. unfold ValidateJWT. walk. Defined.
End handlers.

#[export] Hint Resolve within_generateID within_current_timestamp within_SafeSendAll
  within_ValidateJWT : within.

Section reading.
Context `{Env} (R : Family) `{!Quiet R}.

Lemma within_ValidateAgentSecret agentID secret : within R (ValidateAgentSecret agentID secret).
Proof. unfold ValidateAgentSecret. walk_calls. Defined.
#[local] Hint Resolve within_ValidateAgentSecret : within.

Lemma within_GenerateJWT userID username : within R (GenerateJWT userID username).
Proof. unfold GenerateJWT. walk_calls. Defined.
#[local] Hint Resolve within_GenerateJWT : within.

Lemma within_HashAPIKey apiKey : within R (HashAPIKey apiKey).
Proof. unfold HashAPIKey. walk_calls. Defined.
#[local] Hint Resolve within_HashAPIKey : within.

Lemma within_getConversation convID : within R (getConversation convID).
Proof. unfold getConversation. walk_calls. Defined.
#[local] Hint Resolve within_getConversation : within.

Lemma within_getMessageReactions messageID : within R (getMessageReactions messageID).
Proof. unfold getMessageReactions. walk_calls. Defined.
#[local] Hint Resolve within_getMessageReactions : within.

Lemma within_with_reactions rows : within R (with_reactions rows).
Proof. induction rows; simpl; walk. Defined.
#[local] Hint Resolve within_with_reactions : within.

Lemma within_getConversationMessages convID limit before : within R (getConversationMessages convID limit before).
Proof. unfold getConversationMessages. walk_calls. Defined.
#[local] Hint Resolve within_getConversationMessages : within.

Lemma within_searchMessages userID q limit : within R (searchMessages userID q limit).
Proof. unfold searchMessages. walk_calls. Defined.
#[local] Hint Resolve within_searchMessages : within.

Lemma within_sendError conn message : within R (sendError conn message).
Proof. unfold sendError. walk_calls. Defined.
#[local] Hint Resolve within_sendError : within.

Lemma within_forward c recipientID d : within R (forward c recipientID d).
Proof. unfold forward. walk_calls. Defined.
#[local] Hint Resolve within_forward : within.

Lemma within_routeTypingIndicator c data : within R (routeTypingIndicator c data).
Proof. unfold routeTypingIndicator. walk_calls. Defined.
#[local] Hint Resolve within_routeTypingIndicator : within.

Lemma within_routeStatusUpdate c data : within R (routeStatusUpdate c data).
Proof. unfold routeStatusUpdate. walk_calls. Defined.
#[local] Hint Resolve within_routeStatusUpdate : within.

Lemma within_routeHeartbeat sender : within R (routeHeartbeat sender).
Proof. unfold routeHeartbeat. walk_calls. Defined.
#[local] Hint Resolve within_routeHeartbeat : within.

Lemma within_loadQueueFromDB : within R loadQueueFromDB.
Proof. unfold loadQueueFromDB. walk_calls. Defined.
#[local] Hint Resolve within_loadQueueFromDB : within.

Lemma within_replay_loop conn messages : within R (replay_loop conn messages).
Proof. induction messages; simpl; walk. Defined.
#[local] Hint Resolve within_replay_loop : within.

Lemma within_sendWelcomeMessage r c : within R (sendWelcomeMessage r c).
Proof. unfold sendWelcomeMessage. walk_calls. Defined.
#[local] Hint Resolve within_sendWelcomeMessage : within.

Lemma within_notify_devices userID d : within R (notify_devices userID d).
Proof. unfold notify_devices. walk_calls. Defined.
#[local] Hint Resolve within_notify_devices : within.

Lemma within_notify_agent agentID d : within R (notify_agent agentID d).
Proof. unfold notify_agent. walk_calls. Defined.
#[local] Hint Resolve within_notify_agent : within.

Lemma within_fetchMessage messageID : within R (fetchMessage messageID).
Proof. unfold fetchMessage. walk_calls. Defined.
#[local] Hint Resolve within_fetchMessage : within.

Lemma within_message_conversation messageID : within R (message_conversation messageID).
Proof. unfold message_conversation. walk_calls. Defined.
#[local] Hint Resolve within_message_conversation : within.

Lemma within_getConversation_ convID : within R (getConversation_ convID).
Proof. unfold getConversation_. walk_calls. Defined.
#[local] Hint Resolve within_getConversation_ : within.

Lemma within_getConversationTags convID : within R (getConversationTags convID).
Proof. unfold getConversationTags. walk_calls. Defined.
#[local] Hint Resolve within_getConversationTags : within.

Lemma within_authenticateRequest r : within R (authenticateRequest r).
Proof. unfold authenticateRequest. walk_calls. Defined.
#[local] Hint Resolve within_authenticateRequest : within.

Lemma within_deliver_encrypted senderType conv convID outgoing : within R (deliver_encrypted senderType conv convID outgoing).
Proof. unfold deliver_encrypted. walk_calls. Defined.
#[local] Hint Resolve within_deliver_encrypted : within.

Lemma within_isConversationMuted userID convID : within R (isConversationMuted userID convID).
Proof. unfold isConversationMuted. walk_calls. Defined.
#[local] Hint Resolve within_isConversationMuted : within.

Lemma within_getDeviceTokensForUser userID : within R (getDeviceTokensForUser userID).
Proof. unfold getDeviceTokensForUser. walk_calls. Defined.
#[local] Hint Resolve within_getDeviceTokensForUser : within.

Lemma within_notifyUser userID title body convID : within R (notifyUser userID title body convID).
Proof. unfold notifyUser. walk_calls. Defined.
#[local] Hint Resolve within_notifyUser : within.

Lemma within_agent_presence a : within R (agent_presence a).
Proof. unfold agent_presence. walk_calls. Defined.
#[local] Hint Resolve within_agent_presence : within.

Lemma within_admin_agent a : within R (admin_agent a).
Proof. unfold admin_agent. walk_calls. Defined.
#[local] Hint Resolve within_admin_agent : within.

Lemma within_tiered_key r : within R (tiered_key r).
Proof. unfold tiered_key. walk_calls. Defined.
#[local] Hint Resolve within_tiered_key : within.

Lemma within_load_tier row : within R (load_tier row).
Proof. unfold load_tier. cbv zeta. repeat case_decide; walk. Defined.
#[local] Hint Resolve within_load_tier : within.

Lemma within_loadTiersFromDB : within R loadTiersFromDB.
Proof. unfold loadTiersFromDB. walk_calls. Defined.
#[local] Hint Resolve within_loadTiersFromDB : within.

End reading.

#[export] Hint Resolve within_ValidateAgentSecret within_GenerateJWT within_HashAPIKey within_getConversation
  within_getMessageReactions within_with_reactions within_getConversationMessages
  within_searchMessages within_sendError within_forward within_routeTypingIndicator
  within_routeStatusUpdate within_routeHeartbeat within_loadQueueFromDB
  within_replay_loop within_sendWelcomeMessage within_notify_devices within_notify_agent
  within_fetchMessage within_message_conversation within_getConversation_
  within_getConversationTags within_authenticateRequest within_deliver_encrypted
  within_isConversationMuted within_getDeviceTokensForUser within_notifyUser
  within_agent_presence within_admin_agent within_tiered_key within_load_tier
  within_loadTiersFromDB : within.

(** ** The handlers *)

Section combinators.
Context `{Env} (R : Family) `{!Quiet R}.

Lemma within_with_claims m h r k : (∀ c, within R (k c)) → within R (with_claims m h r k).
Proof. intros Hk. unfold with_claims. walk. Defined.

Lemma within_with_bearer m h r k : (∀ c, within R (k c)) → within R (with_bearer m h r k).
Proof. intros Hk. unfold with_bearer. walk. Defined.

Lemma within_with_identity m h r k : (∀ o t, within R (k o t)) → within R (with_identity m h r k).
Proof. intros Hk. unfold with_identity. walk. Defined.
End combinators.

Ltac walk_handler :=
  first [apply within_with_bearer; [exact _|] | apply within_with_claims; [exact _|] | apply within_with_identity; [exact _|] | idtac];
  walk_calls.

Section read_requests.
Context `{Env} (R : Family) `{!Quiet R}.

Lemma within_serve_attachment userID attachID h r : within R (serve_attachment userID attachID h r).
Proof. unfold serve_attachment, ServeFile. walk_calls. Defined.
#[local] Hint Resolve within_serve_attachment : within.

Lemma within_handleGetAttachment h r : within R (handleGetAttachment h r).
Proof. unfold handleGetAttachment. walk_handler. Defined.

Lemma within_handleListAttachments h r : within R (handleListAttachments h r).
Proof. unfold handleListAttachments. walk_handler. Defined.

Lemma within_handleLogin h r : within R (handleLogin h r).
Proof. unfold handleLogin. walk_handler. Defined.

Lemma within_handleGetPresence h r : within R (handleGetPresence h r).
Proof. unfold handleGetPresence. walk_handler. Defined.

Lemma within_handleGetUserPresence h r : within R (handleGetUserPresence h r).
Proof. unfold handleGetUserPresence. walk_handler. Defined.

Lemma within_handleListAgents h r : within R (handleListAgents h r).
Proof. unfold handleListAgents. walk_handler. Defined.

Lemma within_handleAdminAgents h r : within R (handleAdminAgents h r).
Proof. unfold handleAdminAgents. walk_handler. Defined.

Lemma within_handleSearchMessages h r : within R (handleSearchMessages h r).
Proof. unfold handleSearchMessages. walk_handler. Defined.

Lemma within_handleGetMessages h r : within R (handleGetMessages h r).
Proof. unfold handleGetMessages. walk_handler. Defined.

Lemma within_handleListConversations h r : within R (handleListConversations h r).
Proof. unfold handleListConversations. walk_handler. Defined.

Lemma within_handleGetReactions h r : within R (handleGetReactions h r).
Proof. unfold handleGetReactions. walk_handler. Defined.

Lemma within_handleGetTags h r : within R (handleGetTags h r).
Proof. unfold handleGetTags. walk_handler. Defined.

Lemma within_handleListOneTimePreKeys h r : within R (handleListOneTimePreKeys h r).
Proof. unfold handleListOneTimePreKeys. walk_handler. Defined.

Lemma within_handleGetEncryptedMessages h r : within R (handleGetEncryptedMessages h r).
Proof. unfold handleGetEncryptedMessages. walk_handler. Defined.

Lemma within_handleGetNotificationPrefs h r : within R (handleGetNotificationPrefs h r).
Proof. unfold handleGetNotificationPrefs. walk_handler. Defined.

Lemma within_handleGetVAPIDKey h r : within R (handleGetVAPIDKey h r).
Proof. unfold handleGetVAPIDKey. walk_handler. Defined.

Lemma within_handleGetRateLimitTier h r : within R (handleGetRateLimitTier h r).
Proof. unfold handleGetRateLimitTier. walk_handler. Defined.

#[local] Hint Resolve within_handleGetRateLimitTier : within.

End read_requests.

#[export] Hint Resolve within_handleGetAttachment within_handleListAttachments within_handleLogin within_handleGetPresence within_handleGetUserPresence
  within_handleListAgents within_handleAdminAgents within_handleSearchMessages
  within_handleGetMessages within_handleListConversations within_handleGetReactions
  within_handleGetTags within_handleListOneTimePreKeys within_handleGetEncryptedMessages
  within_handleGetNotificationPrefs within_handleGetVAPIDKey
  within_handleGetRateLimitTier : within.

Section delivering.
Context `{Env} (R : Family) `{!Delivers R}.

Lemma within_persistQueue recipient data : within R (persistQueue recipient data).
Proof. unfold persistQueue. walk_calls. Defined.
#[local] Hint Resolve within_persistQueue : within.

Lemma within_queue_message recipient data : within R (queue_message recipient data).
Proof. unfold queue_message. walk_calls. Defined.
#[local] Hint Resolve within_queue_message : within.

Lemma within_deliver_to_user recipientID content convID outgoing : within R (deliver_to_user recipientID content convID outgoing).
Proof. unfold deliver_to_user. walk_calls. Defined.
#[local] Hint Resolve within_deliver_to_user : within.

Lemma within_deliver_to_agent recipientID outgoing : within R (deliver_to_agent recipientID outgoing).
Proof. unfold deliver_to_agent. walk_calls. Defined.
#[local] Hint Resolve within_deliver_to_agent : within.

End delivering.

#[export] Hint Resolve within_persistQueue within_queue_message within_deliver_to_user
  within_deliver_to_agent : within.

Section writing.
Context `{Env} (R : Family) `{!Admits R}.

Lemma within_update_unless skip f agentID :
  statement (update_agent f agentID) → within R (update_unless skip f agentID).
Proof. unfold update_unless. walk. Defined.
#[local] Hint Resolve within_update_unless : within.

Lemma within_RegisterAgentOnConnect agentID name model personality specialty : within R (RegisterAgentOnConnect agentID name model personality specialty).
Proof. unfold RegisterAgentOnConnect. walk_calls. Defined.
#[local] Hint Resolve within_RegisterAgentOnConnect : within.

Lemma within_changeUserPassword userID oldPassword newPassword : within R (changeUserPassword userID oldPassword newPassword).
Proof. unfold changeUserPassword. walk_calls. Defined.
#[local] Hint Resolve within_changeUserPassword : within.

Lemma within_storeMessage msg : within R (storeMessage msg).
Proof. unfold storeMessage. walk_calls. Defined.
#[local] Hint Resolve within_storeMessage : within.

Lemma within_batch_one t msg : within R (batch_one t msg).
Proof. unfold batch_one. walk_calls. Defined.
#[local] Hint Resolve within_batch_one : within.

Lemma within_storeMessagesBatch msgs : within R (storeMessagesBatch msgs).
Proof. unfold storeMessagesBatch. walk_calls. Defined.
#[local] Hint Resolve within_storeMessagesBatch : within.

Lemma within_deleteConversation convID userID : within R (deleteConversation convID userID).
Proof. unfold deleteConversation. walk_calls. Defined.
#[local] Hint Resolve within_deleteConversation : within.

Lemma within_markMessagesRead convID userID : within R (markMessagesRead convID userID).
Proof. unfold markMessagesRead. walk_calls. Defined.
#[local] Hint Resolve within_markMessagesRead : within.

Lemma within_CreateConversation userID agentID : within R (CreateConversation userID agentID).
Proof. unfold CreateConversation. walk_calls. Defined.
#[local] Hint Resolve within_CreateConversation : within.

Lemma within_GetOrCreateConversation userID agentID : within R (GetOrCreateConversation userID agentID).
Proof. unfold GetOrCreateConversation. walk_calls. Defined.
#[local] Hint Resolve within_GetOrCreateConversation : within.

Lemma within_deleteQueueMessages recipient : within R (deleteQueueMessages recipient).
Proof. unfold deleteQueueMessages. walk_calls. Defined.
#[local] Hint Resolve within_deleteQueueMessages : within.

Lemma within_cleanStaleQueueMessages maxAge : within R (cleanStaleQueueMessages maxAge).
Proof. unfold cleanStaleQueueMessages. walk_calls. Defined.
#[local] Hint Resolve within_cleanStaleQueueMessages : within.

Lemma within_routeChatMessage sender c data : within R (routeChatMessage sender c data).
Proof. unfold routeChatMessage. walk_calls. Defined.
#[local] Hint Resolve within_routeChatMessage : within.

Lemma within_routeMessage sender c raw : within R (routeMessage sender c raw).
Proof. unfold routeMessage. walk_calls. Defined.
#[local] Hint Resolve within_routeMessage : within.

Lemma within_replayOfflineMessages conn i : within R (replayOfflineMessages conn i).
Proof. unfold replayOfflineMessages. walk_calls. Defined.
#[local] Hint Resolve within_replayOfflineMessages : within.

Lemma within_addReaction messageID userID emoji : within R (addReaction messageID userID emoji).
Proof. unfold addReaction. walk_calls. Defined.
#[local] Hint Resolve within_addReaction : within.

Lemma within_addConversationTag convID userID tag : within R (addConversationTag convID userID tag).
Proof. unfold addConversationTag. walk_calls. Defined.
#[local] Hint Resolve within_addConversationTag : within.

Lemma within_removeConversationTag convID userID tag : within R (removeConversationTag convID userID tag).
Proof. unfold removeConversationTag. walk_calls. Defined.
#[local] Hint Resolve within_removeConversationTag : within.

Lemma within_take_one_time_key targetID targetType : within R (take_one_time_key targetID targetType).
Proof. unfold take_one_time_key. walk_calls. Defined.
#[local] Hint Resolve within_take_one_time_key : within.

Lemma within_persistTierToDB userID tier : within R (persistTierToDB userID tier).
Proof. unfold persistTierToDB. walk_calls. Defined.
#[local] Hint Resolve within_persistTierToDB : within.

End writing.

#[export] Hint Resolve within_update_unless within_RegisterAgentOnConnect within_changeUserPassword
  within_storeMessage within_batch_one within_storeMessagesBatch
  within_deleteConversation within_markMessagesRead within_CreateConversation
  within_GetOrCreateConversation within_deleteQueueMessages
  within_cleanStaleQueueMessages within_routeChatMessage within_routeMessage
  within_replayOfflineMessages within_addReaction within_addConversationTag
  within_removeConversationTag within_take_one_time_key within_persistTierToDB : within.

Section write_requests.
Context `{Env} (R : Family) `{!Admits R}.

Lemma within_make_dir : within R make_dir.
Proof. unfold make_dir. walk. Defined.

Lemma within_write_file path content : within R (write_file path content).
Proof. unfold write_file. walk. Defined.

Lemma within_remove_file path : within R (remove_file path).
Proof. unfold remove_file. walk. Defined.

Lemma within_content_type_of f : within R (content_type_of f).
Proof. unfold content_type_of. walk. Defined.
#[local] Hint Resolve within_make_dir within_write_file within_remove_file
  within_content_type_of : within.

Lemma within_store_upload c f ct h r : within R (store_upload c f ct h r).
Proof. unfold store_upload. walk_calls. Defined.
#[local] Hint Resolve within_store_upload : within.

Lemma within_handleUpload h r : within R (handleUpload h r).
Proof. unfold handleUpload. walk_handler. Defined.

Lemma within_handleRegisterAgent h r : within R (handleRegisterAgent h r).
Proof. unfold handleRegisterAgent. walk_handler. Defined.

Lemma within_handleRegisterUser h r : within R (handleRegisterUser h r).
Proof. unfold handleRegisterUser. walk_handler. Defined.

Lemma within_handleChangePassword h r : within R (handleChangePassword h r).
Proof. unfold handleChangePassword. walk_handler. Defined.

Lemma within_handleCreateConversation h r : within R (handleCreateConversation h r).
Proof. unfold handleCreateConversation. walk_handler. Defined.

Lemma within_handleDeleteConversation h r : within R (handleDeleteConversation h r).
Proof. unfold handleDeleteConversation. walk_handler. Defined.

Lemma within_handleMarkRead h r : within R (handleMarkRead h r).
Proof. unfold handleMarkRead. walk_handler. Defined.

Lemma within_handleMessageEdit h r : within R (handleMessageEdit h r).
Proof. unfold handleMessageEdit. walk_handler. Defined.

Lemma within_handleMessageDelete h r : within R (handleMessageDelete h r).
Proof. unfold handleMessageDelete. walk_handler. Defined.

Lemma within_handleReact h r : within R (handleReact h r).
Proof. unfold handleReact. walk_handler. Defined.

Lemma within_handleAddTag h r : within R (handleAddTag h r).
Proof. unfold handleAddTag. walk_handler. Defined.

Lemma within_handleRemoveTag h r : within R (handleRemoveTag h r).
Proof. unfold handleRemoveTag. walk_handler. Defined.

Lemma within_handleUploadPublicKey h r : within R (handleUploadPublicKey h r).
Proof. unfold handleUploadPublicKey. walk_handler. Defined.

Lemma within_handleGetKeyBundle h r : within R (handleGetKeyBundle h r).
Proof. unfold handleGetKeyBundle. walk_handler. Defined.

Lemma within_handleStoreEncryptedMessage h r : within R (handleStoreEncryptedMessage h r).
Proof. unfold handleStoreEncryptedMessage. walk_handler. Defined.

Lemma within_handleSetNotificationPrefs h r : within R (handleSetNotificationPrefs h r).
Proof. unfold handleSetNotificationPrefs. walk_handler. Defined.

Lemma within_handleDeleteNotificationPrefs h r : within R (handleDeleteNotificationPrefs h r).
Proof. unfold handleDeleteNotificationPrefs. walk_handler. Defined.

Lemma within_handleRegisterDeviceToken h r : within R (handleRegisterDeviceToken h r).
Proof. unfold handleRegisterDeviceToken. walk_handler. Defined.

Lemma within_handleUnregisterDeviceToken h r : within R (handleUnregisterDeviceToken h r).
Proof. unfold handleUnregisterDeviceToken. walk_handler. Defined.

Lemma within_handleWebPushSubscribe h r : within R (handleWebPushSubscribe h r).
Proof. unfold handleWebPushSubscribe. walk_handler. Defined.

Lemma within_handleWebPushUnsubscribe h r : within R (handleWebPushUnsubscribe h r).
Proof. unfold handleWebPushUnsubscribe. walk_handler. Defined.

Lemma within_handleSetRateLimitTier h r : within R (handleSetRateLimitTier h r).
Proof.
  unfold handleSetRateLimitTier. cbv zeta.
  pose proof (tier_of_name_valid (FormValue r "tier")) as Hv.
  destruct (tier_of_name (FormValue r "tier")) as [tier|]; [specialize (Hv tier eq_refl)|]; walk_calls.
Defined.
#[local] Hint Resolve within_handleSetRateLimitTier : within.

Lemma within_handleAdminRateLimitTier h r : within R (handleAdminRateLimitTier h r).
Proof. unfold handleAdminRateLimitTier. walk_handler. Defined.

End write_requests.

#[export] Hint Resolve within_handleUpload within_handleRegisterAgent within_handleRegisterUser within_handleChangePassword
  within_handleCreateConversation within_handleDeleteConversation within_handleMarkRead
  within_handleMessageEdit within_handleMessageDelete within_handleReact
  within_handleAddTag within_handleRemoveTag within_handleUploadPublicKey
  within_handleGetKeyBundle within_handleStoreEncryptedMessage
  within_handleSetNotificationPrefs within_handleDeleteNotificationPrefs
  within_handleRegisterDeviceToken within_handleUnregisterDeviceToken
  within_handleWebPushSubscribe within_handleWebPushUnsubscribe
  within_handleSetRateLimitTier within_handleAdminRateLimitTier : within.
