(* ===== verification/System.v ===== *)
(** * The whole server: routes, events and the invariant of its state *)

From S2P Require Import Prelude GoLib FixedWindow RateLimit Tiers Sql Queue Hub HubInv Store StoreInv.
From S2P Require Import World Auth Conversations Routing Protocol Messages Reactions E2E Push Attachments.
From S2P Require Import Middleware Admits.

(** ** Routes (main.go) *)

Section routes.
Context `{Env}.

Definition logged (f : HandlerFunc) : HandlerFunc := accessLogMiddleware (requestIDMiddleware f).

Definition auth_route (f : HandlerFunc) : HandlerFunc :=
  logged (csrfMiddleware (authRateLimitMiddleware (corsMiddleware f))).

Definition read_route (f : HandlerFunc) : HandlerFunc :=
  logged (corsMiddleware (tieredRateLimitMiddleware f)).

Definition write_route (f : HandlerFunc) : HandlerFunc :=
  logged (csrfMiddleware (corsMiddleware (tieredRateLimitMiddleware f))).

Definition plain_read (f : HandlerFunc) : HandlerFunc := logged (corsMiddleware f).
Definition plain_write (f : HandlerFunc) : HandlerFunc := logged (csrfMiddleware (corsMiddleware f)).
Definition admin_route (f : HandlerFunc) : HandlerFunc :=
  logged (adminAuthMiddleware (corsMiddleware f)).

(** A request that waits for ever for the only database connection: no response
    is written, and the model stops (see [server_step]). *)
Definition or_stuck (f : gmap string string → Request → M (option Response)) : HandlerFunc :=
  λ h r,
  res ← f h r;
  match res with
  | Some res => mret res
  | None => _ ← modify (set_stuck (λ _, true)); mret (mkResponse 0 ∅ NoBody)
  end.

Definition routes : list (string * HandlerFunc) :=
  [("/auth/login", auth_route handleLogin);
   ("/auth/agent", auth_route handleRegisterAgent);
   ("/auth/user", auth_route handleRegisterUser);
   ("/auth/change-password", auth_route handleChangePassword);
   ("/agents", plain_read handleListAgents);
   ("/admin/agents", admin_route handleAdminAgents);
   ("/conversations/create", write_route handleCreateConversation);
   ("/conversations/list", read_route handleListConversations);
   ("/conversations/messages", read_route (or_stuck handleGetMessages));
   ("/conversations/delete", write_route handleDeleteConversation);
   ("/conversations/mark-read", write_route handleMarkRead);
   ("/messages/search", read_route handleSearchMessages);
   ("/messages/edit", write_route handleMessageEdit);
   ("/messages/delete", write_route handleMessageDelete);
   ("/presence", read_route handleGetPresence);
   ("/presence/user", read_route handleGetUserPresence);
   ("/messages/react", write_route handleReact);
   ("/messages/reactions", read_route handleGetReactions);
   ("/conversations/tags/add", write_route handleAddTag);
   ("/conversations/tags/remove", write_route handleRemoveTag);
   ("/conversations/tags", read_route handleGetTags);
   ("/attachments/upload", plain_write handleUpload);
   ("/attachments/", plain_read handleGetAttachment);
   ("/messages/attachments", plain_read handleListAttachments);
   ("/keys/upload", plain_write handleUploadPublicKey);
   ("/keys/bundle", plain_read handleGetKeyBundle);
   ("/keys/otpk-count", plain_read handleListOneTimePreKeys);
   ("/messages/encrypted", plain_write handleStoreEncryptedMessage);
   ("/messages/encrypted/list", plain_read handleGetEncryptedMessages);
   ("/push/register", plain_write handleRegisterDeviceToken);
   ("/push/unregister", plain_write handleUnregisterDeviceToken);
   ("/push/vapid-key", plain_read handleGetVAPIDKey);
   ("/push/web-subscribe", plain_write handleWebPushSubscribe);
   ("/push/web-unsubscribe", plain_write handleWebPushUnsubscribe);
   ("/notification-prefs", logged (authMiddleware handleGetNotificationPrefs));
   ("/notification-prefs/set",
     logged (csrfMiddleware (corsMiddleware (authMiddleware handleSetNotificationPrefs))));
   ("/notification-prefs/delete",
     logged (csrfMiddleware (corsMiddleware (authMiddleware handleDeleteNotificationPrefs))));
   ("/admin/rate-limit/tier", admin_route handleAdminRateLimitTier)].

(** The longest pattern wins: an exact one, or else a subtree one, which ends in
    a slash; no two subtree patterns of [routes] are nested. *)
Definition subtree_of (path pattern : string) : Prop :=
  HasSuffix pattern "/" = true ∧ HasPrefix path pattern = true.

#[export] Instance subtree_of_dec path pattern : Decision (subtree_of path pattern).
Proof. unfold subtree_of. apply _. Defined.

Definition find_route (path : string) : option HandlerFunc :=
  snd <$> head (filter (λ p, p.1 = path) routes ++ filter (λ p, subtree_of path p.1) routes).

(** A route that is found is in the table, and its pattern matches. *)
Lemma find_route_in path f :
  find_route path = Some f → ∃ p, (p, f) ∈ routes ∧ (p = path ∨ subtree_of path p).
Proof.
  unfold find_route. destruct (head _) as [[p g]|] eqn:Hh; simpl; [|done]. intros [= ->].
  exists p. apply head_Some_elem_of, elem_of_app in Hh as [Hh|Hh];
    apply list_elem_of_filter in Hh as [Hm Hin]; auto.
Qed.

Definition not_found : HandlerFunc := λ h _,
  mret (mkResponse StatusNotFound h (TextBody "404 page not found")).

Definition serve_http (r : Request) : M Response :=
  default not_found (find_route (URLPath r)) ∅ r.

(** ** Events *)

Variable Upgrade : bool → gmap string string → Request → option Response.

(** What can happen to the server: a request; a frame or the end of a socket; a
    frame written; a goroutine started with [go]; the ticks of the background
    loops.  Here each one runs alone, except that a goroutine may run at any later
    time; Interleave lets them overtake each other. *)
Inductive Event :=
  | EvRequest (r : Request)
  | EvAgentConnect (r : Request)
  | EvClientConnect (r : Request)
  | EvMessage (conn : ref) (raw : Result json)
  | EvDisconnect (conn : ref)
  | EvWritePump (conn : ref)
  | EvGoroutine (i : nat)
  | EvStaleCheck
  | EvLimiterCleanup (reading : string → Z)
  | EvQueueCleanup.

Definition run_goroutine (g : Goroutine) : M unit :=
  match g with
  | GoNotifyUser user title body conv => _ ← notifyUser user title body conv; mret tt
  | GoReplay r =>
      c ← gets (λ w, heap (hub w) !! r);
      match c with Some c => replayOfflineMessages r (id c) | None => mret tt end
  end.

Definition take_goroutine (i : nat) : M (option Goroutine) :=
  state (λ w, (spawned w !! i, set_spawned (delete i) w)).

(** The cleanup loops of the limiters. *)
Definition limiter_cleanup (reading : string → Z) : M unit :=
  t ← now;
  _ ← modify (set_messageRateLimiter (RateLimiter.cleanup t));
  _ ← modify (set_userRateLimiter (RateLimiter.cleanup t));
  _ ← modify (set_ipRateLimiter (RateLimiter.cleanup t));
  _ ← modify (set_authIPLimiter (RateLimiter.cleanup t));
  _ ← modify (set_globalTieredLimiter (Tiered.cleanupOnce t));
  modify (set_agentRateLimiter (AgentLimiter.Clean reading)).

Definition step (e : Event) : M unit :=
  match e with
  | EvRequest r => _ ← serve_http r; mret tt
  | EvAgentConnect r => _ ← handleAgentConnect Upgrade ∅ r; mret tt
  | EvClientConnect r => _ ← handleClientConnect Upgrade ∅ r; mret tt
  | EvMessage conn raw =>
      c ← gets (λ w, heap (hub w) !! conn);
      match c with Some c => routeMessage conn c raw | None => mret tt end
  | EvDisconnect conn =>
      c ← gets (λ w, heap (hub w) !! conn);
      match c with Some _ => hub_do (unregister conn) | None => mret tt end
  | EvWritePump conn => modify (set_hub (λ h, (take_send conn h).2))
  | EvGoroutine i =>
      g ← take_goroutine i;
      match g with Some g => run_goroutine g | None => mret tt end
  | EvStaleCheck => t ← now; hub_do (checkStaleAgents agentPresenceTimeout t)
  | EvLimiterCleanup reading => limiter_cleanup reading
  | EvQueueCleanup => cleanStaleQueueMessages (7 * 24 * Hour)
  end.

(** Nothing happens after the database connection is lost to a stuck request. *)
Definition server_step (e : Event) : M unit :=
  s ← gets stuck; if s : bool then mret tt else step e.

Fixpoint server_run (es : list Event) : M unit :=
  match es with
  | [] => mret tt
  | e :: es => _ ← server_step e; server_run es
  end.

(** ** Start (main.go) *)

(** A process that starts on a database: the queue is loaded before the hub
    runs, the tiers at the end of [initSchema]. *)
Definition boot_world (t : Z) (ts : list N) (fs : list bool) (d : DB)
    (stored : gmap string string) : World :=
  mkWorld t ts fs d newHub (newOfflineQueue 100 (7 * 24 * Hour))
    (RateLimiter.NewRateLimiter 60 Minute) (RateLimiter.NewRateLimiter 120 Minute)
    (RateLimiter.NewRateLimiter 300 Minute) (RateLimiter.NewRateLimiter 30 Minute)
    AgentLimiter.new Tiered.NewTieredRateLimiter 0 [] false false stored.

Definition start (auth_rate_limit : string) : M unit :=
  _ ← initAuthRateLimit auth_rate_limit;
  _ ← loadTiersFromDB;
  loadQueueFromDB.
(** Everything the server does from its start on a database. *)
Definition server_from (limit : string) (es : list Event) : M unit :=
  _ ← start limit; server_run es.
End routes.
