(* ===== verification/Runs.v ===== *)
(** * What the server may do to the state

    A middleware belongs to a family that its handler belongs to, so every route
    does; [Runs] adds the events that are no requests to the interface [Admits],
    and every run of the server belongs to what implements it. *)

From S2P Require Import Prelude GoLib FixedWindow RateLimit Tiers Sql Queue Hub Store World Auth.
From S2P Require Import Conversations Routing Protocol Messages Reactions E2E Push Middleware.
From S2P Require Import Admits System.

(** ** Routes *)

(** A handler that is in [R] on every request. *)
Definition handler_within (R : Family) (f : HandlerFunc) : Type :=
  ∀ h r, within R (f h r).

(** A property of every member of a list, as data. *)
Fixpoint each {A} (Q : A → Type) (l : list A) : Type :=
  match l with [] => unit | x :: l => (Q x * each Q l)%type end.

Lemma each_filter {A} (Q : A → Type) (S : A → Prop) `{!∀ x, Decision (S x)} l :
  each Q l → each Q (filter S l).
Proof.
  induction l as [|x l IH]; [done|]. intros [Hx Hl].
  change (each Q (if decide (S x) then x :: filter S l else filter S l)).
  destruct (decide (S x)); [exact (Hx, IH Hl)|exact (IH Hl)].
Defined.

Lemma each_app {A} (Q : A → Type) l k : each Q l → each Q k → each Q (l ++ k).
Proof.
  intros Hl Hk. induction l as [|x l IH]; [done|]. destruct Hl as [Hx Hl].
  exact (Hx, IH Hl).
Defined.

Section routes.
Context `{Env} (R : Family) `{!Quiet R}.

Lemma within_csrf f : handler_within R f → handler_within R (csrfMiddleware f).
Proof. intros Hf h r. unfold csrfMiddleware. walk_calls. Defined.

Lemma within_request_id f : handler_within R f → handler_within R (requestIDMiddleware f).
Proof. intros Hf h r. unfold requestIDMiddleware. walk_calls. Defined.

Lemma within_token token : within R (ValidateJWT token).
Proof. unfold ValidateJWT. walk_calls. Defined.
#[local] Hint Resolve within_token : within.

Lemma within_access_log f : handler_within R f → handler_within R (accessLogMiddleware f).
Proof. intros Hf h r. unfold accessLogMiddleware. walk_calls. Defined.

Lemma within_cors f : handler_within R f → handler_within R (corsMiddleware f).
Proof. intros Hf h r. unfold corsMiddleware. walk_calls. Defined.

Lemma within_auth_limit f : handler_within R f → handler_within R (authRateLimitMiddleware f).
Proof. intros Hf h r. unfold authRateLimitMiddleware. walk_calls. Defined.

Lemma within_admin_auth f : handler_within R f → handler_within R (adminAuthMiddleware f).
Proof. intros Hf h r. unfold adminAuthMiddleware. walk_calls. Defined.

Lemma within_auth f : handler_within R f → handler_within R (authMiddleware f).
Proof. intros Hf h r. unfold authMiddleware. walk_calls. Defined.

Lemma within_tiered f : handler_within R f → handler_within R (tieredRateLimitMiddleware f).
Proof. intros Hf h r. unfold tieredRateLimitMiddleware. walk_calls. Defined.

Lemma within_or_stuck f :
  within R (modify (set_stuck (λ _, true))) →
  (∀ h r, within R (f h r)) → handler_within R (or_stuck f).
Proof. intros Hs Hf h r. unfold or_stuck. walk_calls. Defined.
End routes.

#[export] Hint Resolve within_csrf within_request_id within_access_log within_cors
  within_auth_limit within_admin_auth within_auth within_tiered : within.

Section server.
Context `{Env} (R : Family) `{!Admits R}.
Hypothesis R_stuck : within R (modify (set_stuck (λ _, true))).

(** Peels the middlewares off a route. *)
Ltac walk_middleware :=
  lazymatch goal with
  | |- handler_within _ (csrfMiddleware _) => apply within_csrf; [exact _|]
  | |- handler_within _ (requestIDMiddleware _) => apply within_request_id; [exact _|]
  | |- handler_within _ (accessLogMiddleware _) => apply within_access_log; [exact _|]
  | |- handler_within _ (corsMiddleware _) => apply within_cors; [exact _|]
  | |- handler_within _ (authRateLimitMiddleware _) => apply within_auth_limit; [exact _|]
  | |- handler_within _ (adminAuthMiddleware _) => apply within_admin_auth; [exact _|]
  | |- handler_within _ (authMiddleware _) => apply within_auth; [exact _|]
  | |- handler_within _ (tieredRateLimitMiddleware _) => apply within_tiered; [exact _|]
  | |- handler_within _ (or_stuck _) => apply within_or_stuck; [exact _|assumption|]
  end.

Lemma routes_within : each (λ p, handler_within R p.2) routes.
Proof.
  unfold routes, auth_route, read_route, write_route, plain_read, plain_write, admin_route, logged.
  repeat (split; [simpl|]); [..|exact tt].
  all: repeat walk_middleware.
  all: intros h r; eauto 2 with within.
Defined.

Lemma find_route_within path : handler_within R (default not_found (find_route path)).
Proof.
  unfold find_route.
  pose proof (each_app _ _ _ (each_filter _ (λ p, p.1 = path) _ routes_within)
                (each_filter _ (λ p, subtree_of path p.1) _ routes_within)) as He.
  destruct (filter _ routes ++ filter _ routes) as [|p l]; simpl.
  - intros h r. unfold not_found. walk.
  - apply He.
Defined.

Lemma within_serve_http r : within R (serve_http r).
Proof. apply find_route_within. Defined.

Lemma within_handleAgentConnect Upgrade h r : within R (handleAgentConnect Upgrade h r).
Proof. unfold handleAgentConnect, answer. walk_calls. Defined.

Lemma within_handleClientConnect Upgrade h r : within R (handleClientConnect Upgrade h r).
Proof. unfold handleClientConnect, answer. walk_calls. Defined.
End server.

(** ** Steps and runs *)

Class Runs `{Env} (R : Family) := {
  runs_admits :: Admits R;
  runs_stuck : within R (modify (set_stuck (λ _, true)));
  runs_take i : within R (take_goroutine i);
  runs_disconnect conn :
    within R (c ← gets (λ w, heap (hub w) !! conn);
              match c with Some _ => hub_do (unregister conn) | None => mret tt end);
  runs_stale timeout : within R (t ← now; hub_do (checkStaleAgents timeout t));
  runs_pump conn : within R (modify (set_hub (λ h, (take_send conn h).2)));
  runs_cleanup reading : within R (limiter_cleanup reading);
  runs_init limit : within R (initAuthRateLimit limit)
}.

#[export] Hint Resolve runs_stuck runs_take runs_disconnect runs_stale runs_pump runs_cleanup
  runs_init : within.
#[export] Hint Extern 0 (Runs _) => exact _ : within.

Section runs.
Context `{Env} (R : Family) `{!Runs R}.
Context (Upgrade : bool → gmap string string → Request → option Response).

Lemma within_goroutine g : within R (run_goroutine g).
Proof. unfold run_goroutine. walk_calls. Defined.
#[local] Hint Resolve within_goroutine : within.

Lemma within_step e : within R (step Upgrade e).
Proof.
  pose proof (within_serve_http R runs_stuck).
  pose proof (within_handleAgentConnect R Upgrade).
  pose proof (within_handleClientConnect R Upgrade).
  destruct e; unfold step; walk_calls.
Defined.

Lemma within_server_step e : within R (server_step Upgrade e).
Proof. pose proof within_step. unfold server_step. walk_calls. Defined.

Lemma within_run es : within R (server_run Upgrade es).
Proof. pose proof within_server_step. induction es as [|e es IH]; simpl; walk. Defined.

Lemma within_start limit : within R (start limit).
Proof. unfold start. walk_calls. Defined.

Lemma within_server_from limit es : within R (server_from Upgrade limit es).
Proof. pose proof within_run. pose proof within_start. unfold server_from. walk_calls. Defined.
End runs.
