(* ===== verification/Interleave.v ===== *)
(** * Requests that run at the same time

    Go runs every request, every connection and every goroutine concurrently;
    between two of its SQL statements, or two calls that take a lock, a handler
    can be overtaken by any other.  A [prog] is a handler cut into those steps:
    the family [stepwise] of the computations that are such a program is closed
    under the interfaces of Admits.v and Runs.v, so the lemmas there build the
    program of every event, middlewares and routes included.  A [Pool] runs many
    programs over one world, a step at a time in the order of a schedule.

    A step is one statement, one call under a mutex, one receive of the hub, one
    read of the clock.  A transaction is one step: it holds the only connection
    of the pool (SQLite; on PostgreSQL this is the serializable case).  So is
    [serve], the registration of a new connection that no other goroutine has a
    reference to yet. *)

From S2P Require Import Prelude GoLib FixedWindow RateLimit Tiers Sql Queue Hub Store World Auth.
From S2P Require Import Conversations Routing Protocol Messages Reactions E2E Push Attachments.
From S2P Require Import Middleware Admits System Runs.

(** ** The steps *)

Section steps.
Context `{Env}.

Inductive atomic : ∀ {A}, M A → Type :=
  | at_gets {A} (f : World → A) : atomic (gets f)
  | at_now : atomic now
  | at_fault : atomic fault
  | at_exec stmt : statement stmt → atomic (exec stmt)
  | at_exec_rows stmt : statement_rows stmt → atomic (exec_rows stmt)
  | at_send r d : atomic (SafeSendTo r d)
  | at_serve ct i dev t v : atomic (serve (newConnection ct i dev t v))
  | at_go g : atomic (go g)
  | at_take i : atomic (take_goroutine i)
  | at_enqueue t r d : atomic (modify (set_offlineQueue (Enqueue t r d)))
  | at_drain i : atomic (drain_queue i)
  | at_status a s d :
      atomic (modify (set_hub (λ h, BroadcastToAllClients d (SetAgentStatus a s h))))
  | at_touch t r : atomic (modify (set_hub (TouchHeartbeat t r)))
  | at_disconnect conn :
      atomic (c ← gets (λ w, heap (hub w) !! conn);
              match c with Some _ => hub_do (unregister conn) | None => mret tt end)
  | at_stale timeout : atomic (t ← now; hub_do (checkStaleAgents timeout t))
  | at_pump conn : atomic (modify (set_hub (λ h, (take_send conn h).2)))
  | at_message_limiter i : atomic (message_limiter_allow i)
  | at_user_limiter i : atomic (user_limiter_allow i)
  | at_ip_limiter i : atomic (ip_limiter_allow i)
  | at_auth_limiter i : atomic (auth_limiter_allow i)
  | at_agent_limiter i : atomic (agent_limiter_allow i)
  | at_tiered i : atomic (tiered_allow i)
  | at_set_tier u t : valid_tier t → atomic (set_tier u t)
  | at_cleanup reading : atomic (limiter_cleanup reading)
  | at_init limit : atomic (initAuthRateLimit limit)
  | at_request_id : atomic next_request_id
  | at_files f : atomic (modify (set_files f))
  | at_stuck : atomic (modify (set_stuck (λ _, true))).

(** What is left of a goroutine. *)
Inductive prog (A : Type) : Type :=
  | Ret (a : A)
  | Step {B : Type} (m : M B) (atom : atomic m) (k : B → prog A)
  | Transaction {B : Type} (body : prog (Result B)) (k : Result B → prog A).

#[global] Arguments Ret {A} a.
#[global] Arguments Step {A B} m atom k.
#[global] Arguments Transaction {A B} body k.

(** Run to the end, alone. *)
Fixpoint run {A} (p : prog A) : M A :=
  match p with
  | Ret a => mret a
  | Step m _ k => b ← m; run (k b)
  | Transaction body k => r ← in_transaction (run body); run (k r)
  end.

Fixpoint then_do {A B} (f : A → prog B) (p : prog A) : prog B :=
  match p with
  | Ret a => f a
  | Step m atom k => Step m atom (λ b, then_do f (k b))
  | Transaction body k => Transaction body (λ r, then_do f (k r))
  end.

Lemma run_then_do {A B} (f : A → prog B) (p : prog A) w :
  run (then_do f p) w = (a ← run p; run (f a)) w.
Proof.
  revert f w. induction p as [A a|A B' m atom k IH|A B' body _ k IH]; intros f w; simpl; [done|..].
  - rewrite !run_bind. apply IH.
  - rewrite !run_bind. apply IH.
Qed.

Lemma in_transaction_ext {A} (m m' : M (Result A)) w :
  (∀ w, m w = m' w) → in_transaction m w = in_transaction m' w.
Proof. intros He. unfold in_transaction. rewrite !run_bind. by rewrite He. Qed.

(** ** Computations made of steps *)

Record program {A} (m : M A) : Type := {
  steps_of : prog A;
  run_steps w : run steps_of w = m w
}.

Definition stepwise : Family := @program.

Lemma run_one {A} (m : M A) (atom : atomic m) w : run (Step m atom Ret) w = m w.
Proof. simpl. rewrite run_bind. by destruct (m w). Qed.

Definition step_of {A} (m : M A) (atom : atomic m) : within stepwise m :=
  {| steps_of := Step m atom Ret; run_steps := run_one m atom |}.

Lemma run_sequence {A B} (m : M A) (k : A → M B) (p : program m) (q : ∀ a, program (k a)) w :
  run (then_do (λ a, steps_of _ (q a)) (steps_of _ p)) w = (m ≫= k) w.
Proof. rewrite run_then_do, !run_bind, !run_steps. done. Qed.

#[export] Instance stepwise_composes : Composes stepwise.
Proof.
  split.
  - intros A m m' He p. refine {| steps_of := steps_of _ p |}. abstract (intros w; by rewrite run_steps).
  - intros A a. by refine {| steps_of := Ret a |}.
  - intros A f. exact (step_of _ (at_gets f)).
  - intros A B m k p q. exact {| run_steps := run_sequence m k p q |}.
Defined.

#[export] Instance stepwise_quiet : Quiet stepwise.
Proof.
  split; [exact _|..]; intros; try (apply step_of; by constructor).
  apply within_checkRateLimit_of; [exact _|..]; intros; apply step_of; constructor.
Defined.

Lemma run_transaction {A} (body : M (Result A)) (p : program body) w :
  run (Transaction (steps_of _ p) Ret) w = in_transaction body w.
Proof.
  simpl. rewrite run_bind, (in_transaction_ext _ body) by apply run_steps.
  by destruct (in_transaction body w).
Qed.

#[export] Instance stepwise_admits : Admits stepwise.
Proof.
  split; [exact _|..].
  - intros stmt Hs. exact (step_of _ (at_exec stmt Hs)).
  - intros stmt Hs. exact (step_of _ (at_exec_rows stmt Hs)).
  - intros A body p. exact {| run_steps := run_transaction body p |}.
Defined.

#[export] Instance stepwise_runs : Runs stepwise.
Proof. split; [exact _|..]; intros; apply step_of; constructor. Defined.
End steps.

(** ** A pool of programs *)

Abbreviation Pool A := (list (prog A)).

Section pool.
Context `{Env}.

(** The next step of a program. *)
Definition advance {A} (p : prog A) : M (prog A) :=
  match p with
  | Ret _ => mret p
  | Step m _ k => k <$> m
  | Transaction body k => k <$> in_transaction (run body)
  end.

(** The next step of the [i]-th one; a schedule names one after another. *)
Definition pool_step {A} (i : nat) (ps : Pool A) : M (Pool A) :=
  match ps !! i with
  | Some p => (λ p', <[i := p']> ps) <$> advance p
  | None => mret ps
  end.

Fixpoint pool_run {A} (schedule : list nat) (ps : Pool A) : M (Pool A) :=
  match schedule with
  | [] => mret ps
  | i :: schedule => ps' ← pool_step i ps; pool_run schedule ps'
  end.

(** One after another, each to its end. *)
Fixpoint run_all {A} (ps : Pool A) : M (list A) :=
  match ps with
  | [] => mret []
  | p :: ps => a ← run p; l ← run_all ps; mret (a :: l)
  end.

Lemma pool_run_app {A} s s' (ps : Pool A) w :
  pool_run (s ++ s') ps w = pool_run s' (pool_run s ps w).1 (pool_run s ps w).2.
Proof. revert ps w. induction s as [|i s IH]; intros ps w; [done|]. simpl. apply IH. Qed.

Lemma length_pool_run {A} s (ps : Pool A) w : length (pool_run s ps w).1 = length ps.
Proof.
  revert ps w. induction s as [|i s IH]; intros ps w; [done|].
  cbn [pool_run]. rewrite run_bind, IH. unfold pool_step. destruct (ps !! i); [|done]. simpl. apply length_insert.
Qed.

Lemma length_run_all {A} (ps : Pool A) w : length (run_all ps w).1 = length ps.
Proof.
  revert w. induction ps as [|p ps IH]; intros w; [done|].
  cbn [run_all]. rewrite !run_bind. simpl. by rewrite IH.
Qed.

(** Scheduled alone, a program is run to its end. *)
Lemma run_alone {A} (p : prog A) i (ps : Pool A) w :
  ps !! i = Some p →
  ∃ n, pool_run (replicate n i) ps w = (<[i := Ret (run p w).1]> ps, (run p w).2).
Proof.
  revert ps w. induction p as [A a|A B m atom k IH|A B body _ k IH]; intros ps w Hi.
  - exists 0%nat. simpl. by rewrite list_insert_id.
  - specialize (IH (m w).1 (<[i := k (m w).1]> ps) (m w).2).
    rewrite list_lookup_insert_eq in IH by (by eapply lookup_lt_Some).
    destruct (IH eq_refl) as [n Hn]. exists (S n). rewrite list_insert_insert_eq in Hn.
    simpl. unfold pool_step. rewrite Hi. exact Hn.
  - set (m := in_transaction (run body)).
    specialize (IH (m w).1 (<[i := k (m w).1]> ps) (m w).2).
    rewrite list_lookup_insert_eq in IH by (by eapply lookup_lt_Some).
    destruct (IH eq_refl) as [n Hn]. exists (S n). rewrite list_insert_insert_eq in Hn.
    simpl. unfold pool_step. rewrite Hi. exact Hn.
Qed.

(** A schedule that runs the programs one after another. *)
Lemma run_serially {A} (done ps : Pool A) w :
  ∃ schedule, pool_run schedule (done ++ ps) w =
    (done ++ (Ret <$> (run_all ps w).1), (run_all ps w).2).
Proof.
  revert done w. induction ps as [|p ps IH]; intros done w; [by exists []|].
  destruct (run_alone p (length done) (done ++ p :: ps) w) as [n Hn].
  { by rewrite list_lookup_middle. }
  rewrite insert_app_r_alt, Nat.sub_diag in Hn by done. simpl in Hn.
  destruct (IH (done ++ [Ret (run p w).1]) (run p w).2) as [s Hs].
  exists (replicate n (length done) ++ s). rewrite pool_run_app, Hn. cbn [fst snd].
  rewrite <-app_assoc in Hs. simpl in Hs. rewrite Hs. by rewrite <-app_assoc.
Qed.
End pool.

(** ** Events *)

Section events.
Context `{Env} (Upgrade : bool → gmap string string → Request → option Response).

(** The program of a request, and that of any event of the server. *)
Definition request_prog (r : Request) : prog Response :=
  steps_of _ (within_serve_http stepwise (runs_stuck (R := stepwise)) r).

Definition event_prog (e : Event) : prog unit :=
  steps_of _ (within_server_step stepwise Upgrade e).

Lemma run_event e w : run (event_prog e) w = server_step Upgrade e w.
Proof. apply run_steps. Qed.

Lemma run_events es w : (run_all (event_prog <$> es) w).2 = (server_run Upgrade es w).2.
Proof.
  revert w. induction es as [|e es IH]; intros w; [done|]. cbn [fmap list_fmap run_all server_run].
  rewrite !run_bind, run_event. apply IH.
Qed.

(** The server as it runs: the start, then its events in any interleaving. *)
Definition server_pool (limit : string) (es : list Event) (schedule : list nat) : M (Pool unit) :=
  _ ← start limit; pool_run schedule (event_prog <$> es).
End events.

(** ** What every step keeps *)

(** The two limiters of a frame are two calls. *)
Class Atoms `{Env} (R : relation World) := {
  atoms_runs :: Runs R;
  atoms_message_limiter i : within R (message_limiter_allow i);
  atoms_user_limiter i : within R (user_limiter_allow i)
}.

Section atoms.
Context `{Env} (R : relation World) `{!Atoms R}.

Lemma atomic_within {A} (m : M A) : atomic m → within R m.
Proof.
  destruct 1; solve [eauto 2 with within | apply within_gets; exact _ | apply atoms_message_limiter | apply atoms_user_limiter].
Qed.

Lemma run_within {A} (p : prog A) : within R (run p).
Proof.
  induction p as [A a|A B m atom k IH|A B body IHb k IH]; simpl; walk.
  by apply atomic_within.
Qed.

Lemma advance_within {A} (p : prog A) : within R (advance p).
Proof.
  destruct p as [a|B m atom k|B body k]; simpl; [walk|..]; (apply within_fmap; [exact _|]).
  - by apply atomic_within.
  - apply admits_transaction, run_within.
Qed.

Lemma pool_within {A} schedule (ps : Pool A) : within R (pool_run schedule ps).
Proof.
  revert ps. induction schedule as [|i s IH]; intros ps; simpl; [walk|].
  apply within_bind; [exact _| |intros ps'; apply IH]. unfold pool_step.
  destruct (ps !! i) as [p|]; [|walk]. apply within_fmap; [exact _|]. apply advance_within.
Qed.
End atoms.
