(* ===== verification/Effects.v ===== *)
(** * Reasoning about what a handler does to the database

    The rules of [wp] (Prelude.v) for the primitives, with the database as the
    only part of the world that is tracked: a computation of quiet steps leaves
    it alone, a statement that succeeds changes it as the statement says.  The
    tactic [wp_walk] executes a handler symbolically by these rules. *)

From S2P Require Import Prelude GoLib FixedWindow RateLimit Tiers Sql Queue Hub Store World Auth.
From S2P Require Import Conversations Routing Protocol Messages Reactions E2E Push Attachments Middleware.
From S2P Require Import Admits.

(** ** Keeping the database *)

Definition same_db : relation World := λ w w', db w' = db w.

#[export] Instance same_db_preorder : PreOrder same_db.
Proof. split; [done|]. intros x y z Hxy Hyz. unfold same_db in *. by rewrite Hyz. Qed.

Lemma same_db_hub_do f : within same_db (hub_do f).
Proof. intros w. unfold hub_do. by destruct (f (hub w)). Qed.

#[export] Instance quiet_same_db `{Env} : Quiet same_db.
Proof.
  split; try exact _; try done.
  - intros r d w. unfold SafeSendTo. by destruct (safe_send r d (hub w)).
  - intros ct i dev t v. unfold serve, sendWelcomeMessage.
    repeat (apply within_bind; [exact _| |intros ?]).
    all: try done.
    + apply same_db_hub_do.
    + intros w. unfold SafeSendTo. by destruct (safe_send _ _ _).
  - intros i w. unfold drain_queue. rewrite run_bind. unfold state. by destruct (Drain _ _ _).
  - intros i w. unfold agent_limiter_allow. rewrite !run_bind. unfold state.
    by destruct (AgentLimiter.Allow _ _ _ _).
  - intros conn i. apply (within_checkRateLimit_of same_db).
    + intros w. unfold message_limiter_allow. rewrite run_bind. unfold state.
      by destruct (RateLimiter.Allow _ _ _).
    + intros w. unfold user_limiter_allow. rewrite run_bind. unfold state.
      by destruct (RateLimiter.Allow _ _ _).
    + intros d w. unfold SafeSendTo. by destruct (safe_send conn d (hub w)).
  - intros i w. unfold ip_limiter_allow. rewrite run_bind. unfold state.
    by destruct (RateLimiter.Allow _ _ _).
  - intros i w. unfold auth_limiter_allow. rewrite run_bind. unfold state.
    by destruct (RateLimiter.Allow _ _ _).
  - intros i w. unfold tiered_allow. rewrite run_bind. unfold state.
    by destruct (Tiered.Allow _ _ _).
Qed.

(** ** Errors of a statement *)

Definition exec_error (e : error) : Prop :=
  match e with ErrIO | ErrUnique | ErrForeignKey => True | _ => False end.

Lemma statement_error stmt d e : statement stmt → stmt d = Err e → exec_error e.
Proof.
  destruct 1; unfold insert_user, update_user_password, upsert_agent, update_agent, insert_agent,
    insert_conversation, delete_conversation, insert_message, update_messages,
    delete_messages_of, link_attachment, insert_attachment, insert_reaction, delete_reaction, insert_tag, insert_key,
    delete_key, insert_encrypted, upsert_pref, delete_pref, upsert_device, delete_device,
    replace_device, delete_web_device, create_web_subs, replace_web_sub, delete_web_sub,
    replace_tier, insert_queued, delete_queued, delete_queued_before;
    repeat case_decide; repeat case_match; intros; by simplify_eq.
Qed.

(** ** Rules *)

Section rules.
Context `{Env}.
Implicit Types w : World.

Lemma wp_quiet {A} (m : M A) (Q : A → World → Prop) w :
  within same_db m → (∀ a w', db w' = db w → Q a w') → wp m Q w.
Proof. intros Hm HQ. apply HQ, Hm. Qed.

Lemma wp_exec stmt (Q : Result unit → World → Prop) w :
  statement stmt →
  (∀ e w', exec_error e → db w' = db w → Q (Err e) w') →
  (∀ w', stmt (db w) = Ok (db w') → Q (Ok tt) w') →
  wp (exec stmt) Q w.
Proof.
  intros Hs He Hok. unfold wp. rewrite run_exec. destruct (failing w); [by apply He|].
  destruct (stmt (db w)) as [d|e] eqn:Hd; [by apply Hok|].
  apply He; [by eapply statement_error|done].
Qed.

Lemma wp_exec_rows stmt (Q : Result Z → World → Prop) w :
  statement_rows stmt →
  (∀ w', db w' = db w → Q (Err ErrIO) w') →
  (∀ n w', stmt (db w) = Ok (db w', n) → Q (Ok n) w') →
  wp (exec_rows stmt) Q w.
Proof.
  intros Hs He Hok. unfold wp. rewrite run_exec_rows. destruct (failing w); [by apply He|].
  destruct (stmt (db w)) as [[d n]|e] eqn:Hd; [by apply Hok|].
  by destruct Hs.
Qed.

Lemma wp_query {A} (q : DB → Result A) (Q : Result A → World → Prop) w :
  (∀ w', db w' = db w → Q (Err ErrIO) w') →
  (∀ w', db w' = db w → Q (q (db w)) w') →
  wp (query q) Q w.
Proof.
  intros He Hok. unfold wp. rewrite run_query. destruct (failing w); [by apply He|by apply Hok].
Qed.

Lemma wp_ValidateJWT token (Q : Result Claims → World → Prop) w :
  (∀ e w', db w' = db w → Q (Err e) w') →
  (∀ t c w', jwt_parse token t = Ok c → db w' = db w → Q (Ok c) w') →
  wp (ValidateJWT token) Q w.
Proof.
  intros He Hok. unfold wp, ValidateJWT. destruct (str_empty token); [by apply He|].
  rewrite run_bind. destruct (now w) as [t w'] eqn:Hn. cbn [fst snd].
  assert (db w' = db w) as Hd by (by injection Hn as <- <-).
  simpl. destruct (jwt_parse token t) as [c|e] eqn:Hp; eauto.
Qed.

Lemma wp_getConversation cid (Q : Result (option Conversation) → World → Prop) w :
  (∀ w', db w' = db w → Q (Err ErrIO) w') →
  (∀ w', db w' = db w → (∀ c, c ∈ conversations (db w) → ConvID c ≠ cid) → Q (Ok None) w') →
  (∀ c w', db w' = db w → query_row (λ c, ConvID c = cid) (conversations (db w)) = Ok c →
           Q (Ok (Some c)) w') →
  wp (getConversation cid) Q w.
Proof.
  intros He Hn Hs. unfold getConversation. apply wp_bind, wp_query; [intros; by apply He|].
  intros w' Hw'. destruct (query_row _ _) as [c|e] eqn:Hq; [by apply Hs|].
  apply query_row_Err in Hq as [-> Hq]. by apply Hn.
Qed.

(** ** Requests *)

(** Refused with an error status, the database untouched. *)
Definition refused (res : Response) (w w' : World) : Prop :=
  400 ≤ StatusCode res ∧ db w' = db w.

(** The request carries a bearer token that the JWT library accepts. *)
Definition authenticated (r : Request) (c : Claims) : Prop :=
  ∃ t, jwt_parse (bearer_token r) t = Ok c.

Lemma wp_reject code msg h (Q : Response → World → Prop) w :
  Q (writeJSONError code msg h) w → wp (reject code msg h) Q w.
Proof. done. Qed.

Lemma wp_with_claims m h r k (Q : Response → World → Prop) w :
  (∀ res w', refused res w w' → Q res w') →
  (∀ c w', Method r = m → authenticated r c → db w' = db w → wp (k c) Q w') →
  wp (with_claims m h r k) Q w.
Proof.
  intros Hr Hk. unfold with_claims. destruct (method_is m r) eqn:Hm; simpl; [|by apply Hr].
  apply bool_decide_eq_true in Hm. apply wp_bind, wp_ValidateJWT.
  - intros e w' Hw'. apply wp_reject, Hr. done.
  - intros t c w' Hp Hw'. apply Hk; [done|by exists t|done].
Qed.

(** The handlers of attachments take the token another way. *)
Definition bearer (r : Request) (c : Claims) : Prop :=
  ∃ t, jwt_parse (TrimPrefix (HeaderGet r "Authorization") "Bearer ") t = Ok c.

Lemma wp_with_bearer m h r k (Q : Response → World → Prop) w :
  (∀ res w', refused res w w' → Q res w') →
  (∀ c w', Method r = m → bearer r c → db w' = db w → wp (k c) Q w') →
  wp (with_bearer m h r k) Q w.
Proof.
  intros Hr Hk. unfold with_bearer. destruct (method_is m r) eqn:Hm; simpl; [|by apply Hr].
  apply bool_decide_eq_true in Hm. destruct (_ || _); [by apply Hr|].
  apply wp_bind, wp_ValidateJWT.
  - intros e w' Hw'. apply wp_reject, Hr. done.
  - intros t c w' Hp Hw'. apply Hk; [done|by exists t|done].
Qed.
End rules.

(** Symbolic execution: the primitives that matter to the database by their
    rules, everything else as quiet; what is left is the result and the relation
    of the two databases. *)
Ltac wp_walk :=
  repeat lazymatch goal with
    | |- wp (let _ := _ in _) _ _ => cbv zeta
    | |- wp (mret _) _ _ => apply wp_ret
    | |- wp (reject _ _ _) _ _ => apply wp_reject
    | |- wp (with_claims _ _ _ _) _ _ => apply wp_with_claims; intros
    | |- wp (with_bearer _ _ _ _) _ _ => apply wp_with_bearer; intros
    | |- wp (mbind_ok _ _) _ _ => unfold mbind_ok at 1
    | |- wp (mbind _ _) _ _ => apply wp_bind
    | |- wp (exec _) _ _ => apply wp_exec; [by auto with within|intros..]
    | |- wp (exec_rows _) _ _ => apply wp_exec_rows; [by auto with within|intros..]
    | |- wp (query _) _ _ => apply wp_query; intros
    | |- wp (ValidateJWT _) _ _ => apply wp_ValidateJWT; intros
    | |- wp (getConversation _) _ _ => apply wp_getConversation; intros
    | |- wp (match ?x with _ => _ end) _ _ => destruct x eqn:?
    | |- wp _ _ _ => apply wp_quiet; [solve [eauto 2 with within]|intros]
    end.

(** Replaces the database of every intermediate world by the one it equals. *)
Ltac norm_db :=
  repeat match goal with
    | H : db ?w' = db ?w |- _ => rewrite H in *; clear H
    end.

(** Closes the branches that answer with an error. *)
Ltac refuse :=
  try solve
    [ left; assumption
    | left; split; [by vm_compute|by norm_db]
    | match goal with He : exec_error ?e |- _ => by destruct e end ].

Lemma not_ne_or {A B} `{EqDecision A, EqDecision B} (a x : A) (b y : B) :
  ¬ (a ≠ x ∨ b ≠ y) → a = x ∧ b = y.
Proof. intros Hn. split; apply dec_stable; auto. Qed.

Lemma not_ne_and {A B} `{EqDecision A, EqDecision B} (a x : A) (b y : B) :
  ¬ (a ≠ x ∧ b ≠ y) → a = x ∨ b = y.
Proof. intros Hn. destruct (decide (a = x)); [by left|right]. apply dec_stable. auto. Qed.

(** Turns the tests a branch has passed into propositions. *)
Ltac facts :=
  repeat match goal with
    | H : decide _ = _ |- _ => clear H
    | H : _ ∧ _ |- _ => destruct H
    | H : @fmap Result _ _ _ _ _ = Ok _ |- _ => apply fmap_Ok in H as (? & ? & ?)
    | H : query_row _ (order_by (key_desc _) _) = Ok _ |- _ => apply query_row_newest in H as [? ?]
    | H : query_row _ (order_by (key_asc _) _) = Ok _ |- _ => apply query_row_least in H as [? ?]
    | H : query_row _ (order_by _ _) = Err _ |- _ => apply query_row_order_none in H as [? ?]
    | H : query_row _ _ = Ok _ |- _ => apply query_row_Ok in H as [? ?]
    | H : query_row _ _ = Err _ |- _ => apply query_row_Err in H as [? ?]
    | H : ErrNoRows = ErrNoRows |- _ => clear H
    | H : _ ∈ filter _ _ |- _ => apply list_elem_of_filter in H as [? ?]
    | H : str_empty _ = false |- _ => apply str_empty_false in H
    | H : str_empty _ = true |- _ => apply str_empty_true in H
    | H : _ || _ = false |- _ => apply orb_false_iff in H as [? ?]
    | H : _ && _ = false |- _ => apply andb_false_iff in H as [?|?]
    | H : method_is _ _ = true |- _ => unfold method_is in H
    | H : negb _ = false |- _ => apply negb_false_iff in H
    | H : negb _ = true |- _ => apply negb_true_iff in H
    | H : bool_decide _ = true |- _ => apply bool_decide_eq_true in H
    | H : bool_decide _ = false |- _ => apply bool_decide_eq_false in H
    | H : ¬ (_ ≠ _ ∨ _ ≠ _) |- _ => apply not_ne_or in H as [? ?]
    | H : ¬ (_ ≠ _ ∧ _ ≠ _) |- _ => apply not_ne_and in H as [?|?]
    | H : ¬ (_ ≠ _) |- _ => apply dec_stable in H
    end.
