(* ===== verification/Demo.v ===== *)
(** * A concrete server

    A configuration with concrete third-party code and a small database, on
    which the model runs: the theorems about all configurations are applied to
    it, and the hypotheses they make of it are evaluated. *)

From S2P Require Import Prelude GoLib FixedWindow RateLimit Tiers Sql Queue Hub Store StoreInv World.
From S2P Require Import Auth Conversations Routing Protocol Messages Reactions E2E Push Middleware.
From S2P Require Import System.

(** A token is the user's id behind a prefix, a hash the password behind one. *)
Definition demo_env : Env := {|
  agentSecret := "agent-secret";
  adminSecret := "admin-secret";
  corsAllowedOrigins := "https://app.example";
  agentPresenceEnabled := true;
  agentPresenceInterval := 30 * Second;
  agentPresenceTimeout := 90 * Second;
  vapidPublicKey := EmptyString;
  maxUploadSize := 52428800;
  serverDBPath := "/data/agent-messenger.db";
  MaxOpenConns := 1;
  jwt_parse token _ :=
    if HasPrefix token "user:" then Ok (mkClaims (TrimPrefix token "user:") "name")
    else Err (ErrText "invalid token");
  jwt_sign c _ _ := Ok ("user:" +:+ UserID c);
  bcrypt_compare hash password := bool_decide (hash = "#" +:+ password);
  bcrypt_generate password _ := Ok ("#" +:+ password);
  rfc3339 := FormatInt;
  rfc3339nano := FormatInt;
  sqlite_time := FormatInt;
  ordering := stable_order;
  local_year_month _ := (2026, 5);
  detect_content_type _ := "text/plain; charset=utf-8";
  extensions_by_type _ := [".txt"];
  sha256_hex s := "sha256 of " +:+ s;
  driver_error _ := "driver error"
|}.

(** gorilla/websocket: the handshake fails for a refused origin. *)
Definition demo_upgrade (origin_ok : bool) (h : gmap string string) (r : Request) : option Response :=
  if origin_ok then None else Some (mkResponse StatusForbidden ∅ NoBody).

(** One user, one agent, their conversation with a message, two one-time keys. *)
Definition demo_db : DB :=
  mkDB [mkUser "u1" "ann" "#secret" 0] [mkAgent "a1" "Bot" "m" "p" "s" "offline" 0]
    [mkConversation "c1" "u1" "a1" 0]
    [mkMessage "m1" "c1" "client" "u1" "hello" None 0 None None false] []
    [mkKey "k1" "u1" "user" KeyTypeOneTimePreKey "pk1" EmptyString 2 0;
     mkKey "k2" "u1" "user" KeyTypeOneTimePreKey "pk2" EmptyString 1 0]
    [] [] [mkDevice "u1" "tok" "ios" 0] [] [] [] [] None 0.

Lemma demo_db_ok : db_ok demo_db.
Proof. split; apply (bool_decide_unpack _); vm_compute; exact I. Qed.

Definition demo_world : World := boot_world 0 [] [] demo_db ∅.

(** A request with headers, query and form parameters. *)
Definition demo_request (method path : string) (headers query form : list (string * string))
    : Request :=
  mkRequest method path "10.0.0.1:5000"
    (list_to_map ((λ '(k, v), (CanonicalHeaderKey k, v)) <$> headers))
    (list_to_map query) (list_to_map form) (Err (ErrText "EOF")) (Err (ErrText "no form")) 0 None.

(** The user and the agent connect, and the user's frame is a chat message. *)
Definition demo_frame : json :=
  JObj [("type", JStr "message");
        ("data", JObj [("conversation_id", JStr "c1"); ("content", JStr "hi");
                       ("sender_id", JStr "somebody else")])].

Definition demo_events : list Event :=
  [EvClientConnect (demo_request MethodGet "/client/connect" [] [("token", "user:u1")] []);
   EvMessage O (Ok demo_frame);
   EvAgentConnect (demo_request MethodGet "/agent/connect" []
     [("agent_id", "a1"); ("agent_secret", "agent-secret")] []);
   EvGoroutine 1; EvStaleCheck; EvQueueCleanup; EvDisconnect O].

(** What the run leaves: the frame's message is stored under its real sender,
    and was replayed to the agent when it connected. *)
Example demo_run :
  let w := (@server_from demo_env demo_upgrade "30" demo_events demo_world).2 in
  m_sender_id <$> messages (db w) = ["u1"; "u1"] ∧
  m_content <$> messages (db w) = ["hello"; "hi"] ∧
  buffer "a1" (offlineQueue w) = [] ∧ offline_queue (db w) = [] ∧
  panicked w = false.
Proof. vm_compute. repeat split. Qed.
