(* ===== verification/MessageProps.v ===== *)
(** * Who may change a message, and what a change is *)

From S2P Require Import Prelude GoLib FixedWindow RateLimit Tiers Sql Queue Hub Store World Auth.
From S2P Require Import Conversations Routing Protocol Messages Reactions E2E Push Middleware.
From S2P Require Import Admits Effects.

Section messages.
Context `{Env}.

(** C19: an edit either is refused with an error status and leaves the
    database alone, or is answered with 200 and was made by the user who sent
    the message, which exists and is not deleted; then exactly the content and
    the edit time of the rows with that id are changed. *)
Theorem handleMessageEdit_exact h r w :
  let content := FormValue r "content" in
  let mid := FormValue r "message_id" in
  wp (handleMessageEdit h r) (λ res w',
    refused res w w' ∨
    (StatusCode res = StatusOK ∧ content ≠ EmptyString ∧
     ∃ c msg t, Method r = MethodPost ∧ authenticated r c ∧
       msg ∈ messages (db w) ∧ m_id msg = mid ∧ m_is_deleted msg = false ∧
       m_sender_type msg = "client" ∧ m_sender_id msg = UserID c ∧
       update_messages (λ m, m_id m = mid) (with_edit content t) (db w) = Ok (db w'))) w.
Proof.
  cbv zeta. unfold handleMessageEdit, fetchMessage. wp_walk; refuse.
  all: right; norm_db; facts; eauto 15.
Qed.

(** A message is deleted either by the user who sent it or by the
    user whose conversation it is in; the row stays, with its content replaced,
    and every other outcome is an error status with the database untouched. *)
Theorem handleMessageDelete_exact h r w :
  let mid := FormValue r "message_id" in
  wp (handleMessageDelete h r) (λ res w',
    refused res w w' ∨
    (StatusCode res = StatusOK ∧
     ∃ c msg conv t, Method r = MethodPost ∧ authenticated r c ∧
       msg ∈ messages (db w) ∧ m_id msg = mid ∧ m_is_deleted msg = false ∧
       conv ∈ conversations (db w) ∧ ConvID conv = m_conversation_id msg ∧
       ((m_sender_type msg = "client" ∧ m_sender_id msg = UserID c) ∨ ConvUserID conv = UserID c) ∧
       update_messages (λ m, m_id m = mid) (with_deleted t) (db w) = Ok (db w'))) w.
Proof.
  cbv zeta. unfold handleMessageDelete, fetchMessage. wp_walk; refuse.
  all: right; norm_db; facts; (split; [done|]); eauto 20.
Qed.

(** ** Reading *)

(** What the user has seen after marking the conversation as read. *)
Definition marked (cid : string) (t : Z) (m : MessageRow) : MessageRow :=
  if decide (unread_by_user cid m) then with_read t m else m.

(** Marking a conversation as read is refused, or it is the
    user's own conversation and exactly the unread messages of the agent in it
    get the read time; the answer carries how many there were. *)
Theorem handleMarkRead_exact h r w :
  let cid := FormValue r "conversation_id" in
  wp (handleMarkRead h r) (λ res w',
    refused res w w' ∨
    ∃ c conv t, Method r = MethodPost ∧ authenticated r c ∧
      conv ∈ conversations (db w) ∧ ConvID conv = cid ∧ ConvUserID conv = UserID c ∧
      db w' = set_messages (fmap (marked cid t)) (db w) ∧
      res = writeJSON StatusOK (JObj [("conversation_id", JStr cid);
        ("count", JInt (Z.of_nat (length (filter (unread_by_user cid) (messages (db w))))));
        ("status", JStr "marked_read")]) h) w.
Proof.
  cbv zeta. unfold handleMarkRead, markMessagesRead. wp_walk; refuse.
  all: right; norm_db; facts; unfold mark_read_stmt, update_messages in *; simplify_eq/=.
  all: eexists _, _, _; split_and!; eauto.
Qed.

(** ** Deleting a conversation *)

(** Nothing of the conversation is left, everything else is. *)
Definition purged (cid : string) (d d' : DB) : Prop :=
  conversations d' = filter (λ c, ConvID c ≠ cid) (conversations d) ∧
  messages d' = filter (λ m, m_conversation_id m ≠ cid) (messages d) ∧
  conversation_tags d' = filter (λ t, t_conversation_id t ≠ cid) (conversation_tags d) ∧
  notification_preferences d' =
    filter (λ p, p_conversation_id p ≠ cid) (notification_preferences d).

(** The messages are gone and the conversation is still there. *)
Definition half_deleted (cid : string) (d d' : DB) : Prop :=
  conversations d' = conversations d ∧
  messages d' = filter (λ m, m_conversation_id m ≠ cid) (messages d).

Lemma delete_messages_of_inv cid d d' :
  delete_messages_of cid d = Ok d' →
  conversations d' = conversations d ∧ encrypted_messages d' = encrypted_messages d ∧
  messages d' = filter (λ m, m_conversation_id m ≠ cid) (messages d) ∧
  conversation_tags d' = conversation_tags d ∧
  notification_preferences d' = notification_preferences d.
Proof. unfold delete_messages_of. case_decide; intros; by simplify_eq. Qed.

Lemma delete_conversation_inv cid d d' :
  delete_conversation cid d = Ok d' →
  conversations d' = filter (λ c, ConvID c ≠ cid) (conversations d) ∧ messages d' = messages d ∧
  conversation_tags d' = filter (λ t, t_conversation_id t ≠ cid) (conversation_tags d) ∧
  notification_preferences d' =
    filter (λ p, p_conversation_id p ≠ cid) (notification_preferences d).
Proof. unfold delete_conversation. case_decide; intros; by simplify_eq. Qed.

(** C20: deleting a conversation needs its user's token; 200 means
    that the conversation, its messages, tags and preferences are gone and no
    other row of these tables is.  The two statements are not one transaction:
    the third outcome is a 500 after the messages alone were deleted. *)
Theorem handleDeleteConversation_exact h r w :
  let q := QueryGet r "conversation_id" in
  let cid := if str_empty q then FormValue r "conversation_id" else q in
  wp (handleDeleteConversation h r) (λ res w',
    refused res w w' ∨
    ∃ c conv, Method r = MethodDelete ∧ authenticated r c ∧
      conv ∈ conversations (db w) ∧ ConvID conv = cid ∧ ConvUserID conv = UserID c ∧
      ((StatusCode res = StatusOK ∧ purged cid (db w) (db w')) ∨
       (StatusCode res = StatusInternalServerError ∧ half_deleted cid (db w) (db w')))) w.
Proof.
  cbv zeta. unfold handleDeleteConversation, deleteConversation. wp_walk; refuse.
  all: norm_db; facts; right; eexists _, _; split_and!; eauto.
  all: repeat match goal with
    | H : delete_messages_of _ _ = Ok _ |- _ =>
        apply delete_messages_of_inv in H as (? & ? & ? & ? & ?)
    | H : delete_conversation _ _ = Ok _ |- _ =>
        apply delete_conversation_inv in H as (? & ? & ? & ?)
    end.
  all: first [by right | left; split; [done|]; unfold purged; split_and!; congruence].
Qed.

(** A conversation that an encrypted message refers to keeps its row, whatever is
    deleted before it: such a request always ends in the third outcome. *)
Lemma encrypted_blocks_delete cid d d' :
  cid ∈ ConvID <$> conversations d →
  cid ∈ e_conversation_id <$> encrypted_messages d →
  delete_messages_of cid d = Ok d' → delete_conversation cid d' = Err ErrForeignKey.
Proof.
  intros Hc He (Hcs & Hes & _)%delete_messages_of_inv. unfold delete_conversation.
  rewrite decide_True; [done|]. rewrite Hcs, Hes. split; [|by right].
  apply list_elem_of_fmap in Hc as (c & -> & Hc). apply Exists_exists. eauto.
Qed.

(** ** Creating a conversation *)

(** Creating a conversation is refused, or answers with the
    newest conversation of the user with that agent if there is one, the
    database untouched, and otherwise with exactly one new conversation of the
    two, both of which exist. *)
Theorem handleCreateConversation_exact h r w :
  let aid := FormValue r "agent_id" in
  wp (handleCreateConversation h r) (λ res w',
    refused res w w' ∨
    ∃ c conv, Method r = MethodPost ∧ authenticated r c ∧
      ConvUserID conv = UserID c ∧ ConvAgentID conv = aid ∧
      res = writeJSON StatusOK (JObj [("agent_id", JStr aid); ("conversation_id", JStr (ConvID conv));
        ("user_id", JStr (UserID c))]) h ∧
      ((db w' = db w ∧ conv ∈ conversations (db w) ∧
        (∀ conv', conv' ∈ conversations (db w) → ConvUserID conv' = UserID c →
           ConvAgentID conv' = aid → ConvCreatedAt conv' ≤ ConvCreatedAt conv)) ∨
       ((∀ conv', conv' ∈ conversations (db w) →
           ¬ (ConvUserID conv' = UserID c ∧ ConvAgentID conv' = aid)) ∧
        insert_conversation conv (db w) = Ok (db w')))) w.
Proof.
  cbv zeta. unfold handleCreateConversation, GetOrCreateConversation, CreateConversation.
  wp_walk; refuse.
  all: norm_db; facts; right.
  - match goal with Ha : ?a ∈ conversations _ |- _ => exists c, a end.
    split_and!; eauto; [congruence|].
    left. split_and!; [done..|]. intros conv' ? ? ?.
    match goal with Hmax : ∀ y, y ∈ filter _ _ → _ |- _ => apply Hmax end.
    by apply list_elem_of_filter.
  - match goal with Hi : insert_conversation ?x _ = _ |- _ => exists c, x end. split_and!; eauto.
    right. split; [|assumption]. intros conv' Hin Hc.
    match goal with Hn : ∀ x, x ∉ _ |- _ => apply (Hn conv') end.
    by apply list_elem_of_filter.
Qed.
End messages.
