(* ===== verification/ReactionProps.v ===== *)
(** * Reactions are toggles, tags are sets *)

From S2P Require Import Prelude GoLib FixedWindow RateLimit Tiers Sql Queue Hub Store World Auth.
From S2P Require Import Conversations Routing Protocol Messages Reactions E2E Push Middleware.
From S2P Require Import Admits Effects.

Section reactions.
Context `{Env}.

(** The user may react to the message: it is in a conversation of theirs. *)
Definition may_react (mid u : string) (d : DB) : Prop :=
  ∃ msg conv, msg ∈ messages d ∧ m_id msg = mid ∧
    conv ∈ conversations d ∧ ConvID conv = m_conversation_id msg ∧
    (ConvUserID conv = u ∨ ConvAgentID conv = u).

(** What [addReaction] does to the tables, by its result. *)
Definition toggled (mid u e : string) (res : Result (option ReactionRow)) (d d' : DB) : Prop :=
  match res with
  | Err _ => d' = d
  | Ok None =>
      may_react mid u d ∧
      ∃ x, x ∈ reactions d ∧ same_reaction mid u e x ∧ delete_reaction (r_id x) d = Ok d'
  | Ok (Some x) =>
      may_react mid u d ∧ (∀ y, y ∈ reactions d → ¬ same_reaction mid u e y) ∧
      same_reaction mid u e x ∧ insert_reaction x d = Ok d'
  end.

Lemma addReaction_toggles mid u e w :
  wp (addReaction mid u e) (λ res w', toggled mid u e res (db w) (db w')) w.
Proof.
  unfold addReaction, message_conversation. wp_walk; unfold toggled; norm_db; try done.
  all: facts; subst; (split; [unfold may_react; eauto 10|]); eauto 10.
  all: split_and!; try done.
Qed.

Lemma insert_reaction_inv x d d' :
  insert_reaction x d = Ok d' →
  d' = set_reactions (λ t, t ++ [x]) d ∧ r_id x ∉ r_id <$> reactions d.
Proof. unfold insert_reaction. repeat case_decide; intros; by simplify_eq. Qed.

Lemma insert_delete_reaction x d d' :
  insert_reaction x d = Ok d' → delete_reaction (r_id x) d' = Ok d.
Proof.
  intros [-> Hx]%insert_reaction_inv. unfold delete_reaction. f_equal.
  destruct d as [? ? ? ? ? ? ? ? ? ? rs ? ? ?]. unfold set_reactions. simpl in *. f_equal.
  rewrite filter_app, filter_true, filter_cons_False, filter_nil, app_nil_r; [done|auto|].
  intros y Hy Heq. apply Hx. rewrite <-Heq. by apply list_elem_of_fmap_2.
Qed.

(** The second press finds the reaction the first one made. *)
Lemma toggle_back mid u e x res d d' d'' :
  toggled mid u e (Ok (Some x)) d d' → toggled mid u e (Ok res) d' d'' → res = None ∧ d'' = d.
Proof.
  intros (_ & Hnone & Hx & Hi). pose proof (insert_delete_reaction _ _ _ Hi) as Hd.
  apply insert_reaction_inv in Hi as [-> _]. destruct res as [y|]; simpl.
  - intros (_ & Hno & _). exfalso. apply (Hno x); [|done]. apply elem_of_app. right. by left.
  - intros (_ & y & Hy & Hsame & Hdel). split; [done|].
    apply elem_of_app in Hy as [Hy|Hy%list_elem_of_singleton]; [by destruct (Hnone y)|].
    subst y. rewrite Hd in Hdel. by injection Hdel.
Qed.

(** A reaction is a toggle.  A request is refused, or the user
    takes part in the conversation of the message and the one reaction of this
    user with this emoji to it was removed if it was there and added if not. *)
Theorem handleReact_exact h r w :
  let mid := FormValue r "message_id" in
  let e := FormValue r "emoji" in
  wp (handleReact h r) (λ res w',
    refused res w w' ∨
    (StatusCode res = StatusOK ∧ 0 < len e ≤ 10 ∧
     ∃ c x, Method r = MethodPost ∧ authenticated r c ∧
       toggled mid (UserID c) e (Ok x) (db w) (db w'))) w.
Proof.
  cbv zeta. unfold handleReact. apply wp_with_claims; [by left|]. intros c w0 Hm Ha Hw0.
  destruct (str_empty (FormValue r "message_id")
            || str_empty (FormValue r "emoji")) eqn:He; [wp_walk; by left|].
  destruct (bool_decide (10 < len (FormValue r "emoji"))) eqn:Hl; [wp_walk; by left|].
  apply wp_bind. eapply wp_mono; [apply addReaction_toggles|]. cbv beta.
  intros [x|err] w1 Htog; [|simpl in Htog; wp_walk; refuse].
  rewrite Hw0 in Htog. unfold message_conversation. wp_walk; right.
  all: norm_db; facts; split_and!; try done; try by exists c, x.
  all: destruct (FormValue r "emoji"); [done|]; unfold len in *; simpl in *; lia.
Qed.

(** Reacting and reacting again with the same emoji leaves the
    database as it was, whatever time passes and whatever the other emojis. *)
Theorem reaction_round_trip mid u e w :
  wp (x ← addReaction mid u e; y ← addReaction mid u e; mret (x, y))
    (λ '(x, y) w', ∀ added res, x = Ok (Some added) → y = Ok res →
       res = None ∧ db w' = db w) w.
Proof.
  apply wp_bind. eapply wp_mono; [apply addReaction_toggles|]. intros x w1 Hx.
  apply wp_bind. eapply wp_mono; [apply addReaction_toggles|]. intros y w2 Hy.
  apply wp_ret. intros added res -> ->. by eapply toggle_back.
Qed.

(** ** Tags: a set of labels per conversation *)

Definition tag_set (d : DB) : gset (string * string) :=
  list_to_set ((λ t, (t_conversation_id t, t_tag t)) <$> conversation_tags d).

Lemma elem_of_tag_set cid tag d :
  (cid, tag) ∈ tag_set d ↔ ∃ t, t ∈ conversation_tags d ∧ tag_matches cid tag t.
Proof.
  unfold tag_set. rewrite elem_of_list_to_set, list_elem_of_fmap. split.
  - intros (t & [= -> ->] & Ht). exists t. by split.
  - intros (t & Ht & [<- <-]). eauto.
Qed.

Lemma insert_tag_set x d d' :
  insert_tag x d = Ok d' → tag_set d' = {[(t_conversation_id x, t_tag x)]} ∪ tag_set d.
Proof.
  unfold insert_tag, tag_set. repeat case_decide; intros; simplify_eq/=.
  rewrite fmap_app, list_to_set_app_L. simpl. set_solver.
Qed.

Lemma delete_tag_set cid tag d d' n :
  delete_tag cid tag d = Ok (d', n) →
  tag_set d' = tag_set d ∖ {[(cid, tag)]} ∧ (n = 0 ↔ (cid, tag) ∉ tag_set d) ∧ (n = 0 → d' = d).
Proof.
  unfold delete_tag. intros [= <- <-].
  assert (∀ t, t ∈ filter (tag_matches cid tag) (conversation_tags d) ↔
          tag_matches cid tag t ∧ t ∈ conversation_tags d) as Hf
    by (intros; apply list_elem_of_filter).
  split_and!.
  - apply set_eq. intros [c' t']. rewrite elem_of_difference, elem_of_singleton, !elem_of_tag_set.
    simpl. setoid_rewrite list_elem_of_filter. unfold tag_matches. naive_solver congruence.
  - rewrite elem_of_tag_set. destruct (filter _ _) as [|t l]; simpl; split.
    + intros _ (t & Ht & Hm). assert (t ∈ @nil TagRow) as [] %not_elem_of_nil by by apply Hf.
    + done.
    + lia.
    + intros Hn. exfalso. apply Hn. exists t. apply and_comm, Hf. left.
  - intros Hz. destruct d as [? ? ? ? ? ? ? ? ? ? ? ts ? ?]. unfold set_conversation_tags.
    simpl in *. f_equal. apply filter_true. intros t Ht Hm.
    destruct (filter _ _) as [|t' l]; simpl in Hz; [|lia].
    assert (t ∈ @nil TagRow) as []%not_elem_of_nil by by apply Hf.
Qed.

(** The conversation is the user's who sent the request. *)
Definition owner_request (m cid : string) (r : Request) (d : DB) : Prop :=
  ∃ c conv, Method r = m ∧ authenticated r c ∧
    conv ∈ conversations d ∧ ConvID conv = cid ∧ ConvUserID conv = UserID c.

(** Adding a tag is refused with the database untouched, or the
    conversation is the user's, the tag has 1 to 50 bytes and was not there, and
    the set of tags grows by exactly this one. *)
Theorem handleAddTag_exact h r w :
  let cid := FormValue r "conversation_id" in
  let tag := FormValue r "tag" in
  wp (handleAddTag h r) (λ res w',
    refused res w w' ∨
    (StatusCode res = StatusOK ∧ owner_request MethodPost cid r (db w) ∧ 1 ≤ len tag ≤ 50 ∧
     (cid, tag) ∉ tag_set (db w) ∧ tag_set (db w') = {[(cid, tag)]} ∪ tag_set (db w))) w.
Proof.
  cbv zeta. unfold handleAddTag, addConversationTag. wp_walk; refuse.
  right. norm_db. facts. split_and!; [done|unfold owner_request; eauto 10|..].
  - unfold len in *. lia.
  - lia.
  - rewrite elem_of_tag_set. naive_solver.
  - by erewrite insert_tag_set by eassumption.
Qed.

(** Removing a tag is refused with the database untouched, or the
    conversation is the user's, the tag was there, and the set of tags shrinks
    by exactly this one. *)
Theorem handleRemoveTag_exact h r w :
  let cid := FormValue r "conversation_id" in
  let tag := FormValue r "tag" in
  wp (handleRemoveTag h r) (λ res w',
    refused res w w' ∨
    (StatusCode res = StatusOK ∧ owner_request MethodPost cid r (db w) ∧
     (cid, tag) ∈ tag_set (db w) ∧ tag_set (db w') = tag_set (db w) ∖ {[(cid, tag)]})) w.
Proof.
  cbv zeta. unfold handleRemoveTag, removeConversationTag. wp_walk; refuse.
  all: norm_db; facts; match goal with Hd : delete_tag _ _ _ = Ok _ |- _ =>
    apply delete_tag_set in Hd as (Hset & Hn & Heq) end.
  - left. split; [by vm_compute|]. auto.
  - right. split_and!; [done|unfold owner_request; eauto 10| |done].
    apply dec_stable. by rewrite <-Hn.
Qed.
End reactions.
