(* ===== verification/AccountProps.v ===== *)
(** * Accounts: registration, login, passwords, and who gets a WebSocket *)

From S2P Require Import Prelude GoLib FixedWindow RateLimit Tiers Sql Queue Hub HubInv Store World Auth.
From S2P Require Import Conversations Routing Protocol Messages Reactions E2E Push Middleware.
From S2P Require Import Admits Effects.

Section accounts.
Context `{Env}.

(** The names [handleRegisterUser] accepts. *)
Definition good_username (s : string) : Prop :=
  3 ≤ len s ≤ 50 ∧ Forall (λ c, username_char c = true) (String.list_ascii_of_string s).

(** C30: registration is refused with the database untouched, or the
    name is well formed and new, and exactly one user is added, with the hash
    bcrypt made of the password and not the password. *)
Theorem handleRegisterUser_exact h r w :
  let name := FormValue r "username" in
  let password := FormValue r "password" in
  wp (handleRegisterUser h r) (λ res w',
    refused res w w' ∨
    (StatusCode res = StatusOK ∧ Method r = MethodPost ∧ good_username name ∧
     password ≠ EmptyString ∧
     ∃ u t, u_username u = name ∧ bcrypt_generate password t = Ok (u_password_hash u) ∧
       u_id u ∉ u_id <$> users (db w) ∧ name ∉ u_username <$> users (db w) ∧
       db w' = set_users (λ l, l ++ [u]) (db w))) w.
Proof.
  cbv zeta. unfold handleRegisterUser, HashAPIKey. wp_walk; refuse.
  right. norm_db. facts.
  match goal with Hi : insert_user ?u _ = _ |- _ =>
    unfold insert_user in Hi; repeat case_decide; simplify_eq; split_and!; try done; [|by exists u, a] end.
  split; [lia|]. apply Forall_forall. intros x Hx. apply list_elem_of_In in Hx.
  by apply (proj1 (forallb_forall _ _)) with (x := x) in Heqb2.
Qed.

(** A password change is refused with the database untouched, or
    the old password matches the stored hash of the user of the token, the new
    one has at least 6 bytes, and the hash of this user alone is replaced. *)
Theorem handleChangePassword_exact h r w :
  let old := FormValue r "old_password" in
  let new := FormValue r "new_password" in
  wp (handleChangePassword h r) (λ res w',
    refused res w w' ∨
    (StatusCode res = StatusOK ∧ 6 ≤ len new ∧
     ∃ c u hash t, Method r = MethodPost ∧ authenticated r c ∧
       u ∈ users (db w) ∧ u_id u = UserID c ∧ bcrypt_compare (u_password_hash u) old = true ∧
       bcrypt_generate new t = Ok hash ∧
       update_user_password (UserID c) hash (db w) = Ok (db w'))) w.
Proof.
  cbv zeta. unfold handleChangePassword, changeUserPassword, HashAPIKey. wp_walk; refuse.
  norm_db. facts. right. split; [done|]. split; [lia|].
  match goal with Hu : _ ∈ users _ |- _ => subst; eauto 20 end.
Qed.

(** A login never changes the database, and it is answered with
    200 only if there is a user of that name whose stored hash matches the
    password; the token is signed for the id of this user. *)
Theorem handleLogin_exact h r w :
  let name := FormValue r "username" in
  let password := FormValue r "password" in
  wp (handleLogin h r) (λ res w',
    refused res w w' ∨
    (db w' = db w ∧ ∃ u iat exp token, Method r = MethodPost ∧
       u ∈ users (db w) ∧ u_username u = name ∧ bcrypt_compare (u_password_hash u) password = true ∧
       jwt_sign (mkClaims (u_id u) name) iat (exp + 24 * Hour) = Ok token ∧
       res = writeJSON StatusOK (JObj [("token", JStr token); ("user_id", JStr (u_id u));
         ("username", JStr name)]) h)) w.
Proof.
  cbv zeta. unfold handleLogin, GenerateJWT. wp_walk; refuse.
  right. norm_db. facts. split; [done|]. eexists _, _, _, _. split_and!; eauto.
Qed.
End accounts.
