(* ===== verification/ConnectProps.v ===== *)
(** * Who gets a connection, with which version, from which origin *)

From S2P Require Import Prelude GoLib FixedWindow RateLimit Tiers Sql Queue Hub HubInv Store World Auth.
From S2P Require Import Conversations Routing Protocol Messages Reactions E2E Push Middleware.
From S2P Require Import Admits Effects.
From S2P Require Import System Demo.

(** ** Checks that do not touch the hub *)

Definition same_hub : relation World := λ w w', hub w' = hub w.

#[export] Instance same_hub_preorder : PreOrder same_hub.
Proof. split; [done|]. intros x y z Hxy Hyz. unfold same_hub in *. by rewrite Hyz. Qed.

Section same_hub.
Context `{Env}.

Lemma hub_now : within same_hub now.
Proof. done. Qed.

Lemma hub_query {A} (q : DB → Result A) : within same_hub (query q).
Proof. intros w. by rewrite run_query. Qed.

Lemma hub_exec stmt : within same_hub (exec stmt).
Proof. intros w. rewrite run_exec. destruct (failing w); [done|]. by destruct (stmt (db w)). Qed.

Lemma hub_agent_limiter i : within same_hub (agent_limiter_allow i).
Proof.
  intros w. unfold agent_limiter_allow. rewrite !run_bind. unfold state.
  by destruct (AgentLimiter.Allow _ _ _ _).
Qed.
#[local] Hint Resolve hub_now hub_query hub_exec hub_agent_limiter : within.

Lemma hub_ValidateJWT token : within same_hub (ValidateJWT token).
Proof. unfold ValidateJWT. walk. Qed.

Lemma hub_ValidateAgentSecret i s : within same_hub (ValidateAgentSecret i s).
Proof. unfold ValidateAgentSecret. walk. Qed.

Lemma hub_RegisterAgentOnConnect i n m p s : within same_hub (RegisterAgentOnConnect i n m p s).
Proof. unfold RegisterAgentOnConnect, update_unless, current_timestamp. walk. Qed.

(** [serve] registers the connection; the welcome message only fills its buffer. *)
Lemma serve_spec ct i dev t v w :
  HubInv.wf (hub w) →
  ∃ r w', serve (newConnection ct i dev t v) w = (Upgraded r, w') ∧
    r = next_ref (hub w) ∧ HubInv.wf (hub w') ∧
    live (hub w') = dir_connect r ct i dev (live (hub w)).
Proof.
  intros Hwf. set (c := newConnection ct i dev t v).
  destruct (alloc c (hub w)) as [r h1] eqn:Ha.
  assert (r = next_ref (hub w)) as Hr by (unfold alloc in Ha; by injection Ha).
  set (w0 := set_hub (λ _, h1) w). set (t1 := (now w0).1).
  destruct (connect_spec t1 t ct i dev v (hub w) Hwf) as (h2 & Hc & Hwf2 & Hl2 & _).
  unfold connect in Hc. fold c in Hc. rewrite Ha in Hc.
  assert (state (λ w, let '(r, h) := alloc c (hub w) in (r, set_hub (λ _, h) w)) w = (r, w0)) as Hs
    by (unfold state; by rewrite Ha).
  eexists r, _. split.
  - unfold serve. rewrite run_bind, Hs. cbn [fst snd]. rewrite run_bind, run_bind.
    rewrite (run_hub_do _ _ h2) by exact Hc. cbn [snd]. rewrite run_bind. unfold sendWelcomeMessage.
    rewrite !run_bind. unfold SafeSendTo. rewrite (surjective_pairing (safe_send _ _ _)).
    reflexivity.
  - split_and!; [done| |].
    + eapply wf_frame; [apply frame_safe_send|]. exact Hwf2.
    + simpl. rewrite (frame_live _ _ (frame_safe_send _ _ _)). simpl. by rewrite Hl2, Hr.
Qed.
End same_hub.

Section connect.
Context `{Env} (Upgrade : bool → gmap string string → Request → option Response).

(** gorilla/websocket fails the handshake when [CheckOrigin] returned false. *)
Definition refuses_bad_origin : Prop := ∀ hs r, Upgrade false hs r ≠ None.

(** What the outcome of an endpoint means for the directory of live connections:
    an answer leaves it alone; an upgrade adds a session of the given type, for
    an identity that [allowed], from an accepted origin. *)
Definition connects (ct : ConnType) (dev : string) (r : Request) (allowed : string → Prop)
    (w : World) (o : Outcome) (w' : World) : Prop :=
  match o with
  | Answered _ => live (hub w') = live (hub w)
  | Upgraded conn =>
      CheckOrigin r = true ∧ ∃ i, allowed i ∧ conn = next_ref (hub w) ∧
        live (hub w') = dir_connect conn ct i dev (live (hub w))
  end.

Lemma connects_serve ct dev r (allowed : string → Prop) i t v w w1 :
  HubInv.wf (hub w) → hub w1 = hub w → CheckOrigin r = true → allowed i →
  wp (serve (newConnection ct i dev t v)) (connects ct dev r allowed w) w1.
Proof.
  intros Hwf Hw Ho Ha. destruct (serve_spec ct i dev t v w1) as (conn & w' & Hs & Hr & _ & Hl);
    [by rewrite Hw|]. unfold wp. rewrite Hs. simpl. split; [done|]. exists i. by rewrite <-Hw.
Qed.

Lemma upgrade_origin r hs :
  refuses_bad_origin → Upgrade (CheckOrigin r) hs r = None → CheckOrigin r = true.
Proof. intros Hu Hn. destruct (CheckOrigin r); [done|]. by destruct (Hu hs r). Qed.

Lemma wp_same_hub {A} (m : M A) (Q : A → World → Prop) w :
  within same_hub m → (∀ a w', hub w' = hub w → wp m (λ a' w'', a' = a ∧ w'' = w') w → Q a w') →
  wp m Q w.
Proof. intros Hm HQ. by apply HQ; [apply Hm|split]. Qed.

Lemma same_hub_live w w' : hub w' = hub w → live (hub w') = live (hub w).
Proof. by intros ->. Qed.

Lemma update_agent_ids f aid d d' :
  (∀ a, a_id (f a) = a_id a) → update_agent f aid d = Ok d' →
  a_id <$> agents d' = a_id <$> agents d.
Proof.
  intros Hf [= <-]. simpl. rewrite <-list_fmap_compose. apply list_fmap_ext.
  intros ? a _. simpl. by case_decide.
Qed.

(** A registered agent has a row. *)
Lemma RegisterAgentOnConnect_row i n m p s w :
  wp (RegisterAgentOnConnect i n m p s)
    (λ res w', res = Ok tt → i ∈ a_id <$> agents (db w')) w.
Proof.
  unfold RegisterAgentOnConnect, update_unless. wp_walk; try done; try intros _.
  all: norm_db; facts; subst.
  all: repeat match goal with
    | Hu : update_agent ?f _ ?d = Ok _ |- _ =>
        apply update_agent_ids in Hu; [|done]; try rewrite Hu; clear Hu
    end.
  all: try by apply list_elem_of_fmap_2.
  match goal with Hi : insert_agent _ _ = Ok _ |- _ => rename Hi into Hins end.
  unfold insert_agent in Hins. case_decide; [done|]. injection Hins as <-. simpl.
  rewrite fmap_app. apply elem_of_app. right. left.
Qed.

(** C17: a client socket is added to the directory only for the user
    of a token the JWT library accepts, from an allowed origin and displacing
    only that user's session on the same device; in every other case the
    directory stays as it is. *)
Theorem handleClientConnect_authorised h r w :
  HubInv.wf (hub w) → refuses_bad_origin →
  wp (handleClientConnect Upgrade h r)
    (connects Client (QueryGet r "device_id") r
       (λ i, ∃ t c, jwt_parse (QueryGet r "token") t = Ok c ∧ UserID c = i) w) w.
Proof.
  intros Hwf Hu. unfold handleClientConnect. destruct (str_empty _); [done|].
  apply wp_bind, wp_same_hub; [apply hub_ValidateJWT|]. intros [c|e] w1 Hw1 Hv; [|by apply same_hub_live].
  destruct (Upgrade _ _ r) as [res|] eqn:Hup; [by apply same_hub_live|].
  apply wp_bind. unfold wp at 1. apply connects_serve; [done|done|by eapply upgrade_origin|].
  revert Hv. unfold wp, ValidateJWT. destruct (str_empty _); [by intros []|].
  rewrite run_bind. simpl. intros [Hv _]. eauto.
Qed.

(** C18: an agent socket is added to the directory only with the
    agents' shared secret, from an allowed origin, under the requested id, which
    then has a row in [agents]; it displaces only a session of the same agent. *)
Theorem handleAgentConnect_authorised h r w :
  HubInv.wf (hub w) → refuses_bad_origin →
  wp (handleAgentConnect Upgrade h r)
    (λ o w', connects Agent EmptyString r
       (λ i, i = QueryGet r "agent_id" ∧ i ≠ EmptyString ∧
             QueryGet r "agent_secret" = agentSecret ∧
             i ∈ a_id <$> agents (db w')) w o w') w.
Proof.
  intros Hwf Hu. unfold handleAgentConnect, answer.
  destruct (str_empty (QueryGet r "agent_id")) eqn:Hi; [done|].
  destruct (str_empty (QueryGet r "agent_secret")) eqn:Hs; [done|].
  apply wp_bind, wp_same_hub; [apply hub_ValidateAgentSecret|].
  intros [[]|e] w1 Hw1 Hv; [|by apply same_hub_live].
  assert (QueryGet r "agent_secret" = agentSecret) as Hsec.
  { revert Hv. unfold wp, ValidateAgentSecret. rewrite Hs, run_bind.
    destruct (negb _); [by intros []|]. unfold ConstantTimeCompare.
    case_bool_decide; [done|by intros []]. }
  apply wp_bind, wp_same_hub; [apply hub_RegisterAgentOnConnect|].
  intros [[]|e] w2 Hw2 [Hr1 Hr2]; [|apply same_hub_live; exact (eq_trans Hw2 Hw1)].
  pose proof (RegisterAgentOnConnect_row (QueryGet r "agent_id") (QueryGet r "name")
    (QueryGet r "model") (QueryGet r "personality") (QueryGet r "specialty") w1) as Hrow.
  unfold wp in Hrow. rewrite Hr1, Hr2 in Hrow. specialize (Hrow eq_refl).
  destruct (Upgrade _ _ r) as [res|] eqn:Hup; [apply same_hub_live; exact (eq_trans Hw2 Hw1)|].
  apply str_empty_false in Hi. apply wp_bind. unfold wp at 1.
  eapply wp_mono; [apply wp_conj|].
  - apply (connects_serve _ _ r (λ i, i = QueryGet r "agent_id") _ _ _ w);
      [done|exact (eq_trans Hw2 Hw1)|by eapply upgrade_origin|done].
  - apply wp_quiet; [apply quiet_serve|]. intros o w' Hd. exact Hd.
  - intros [res|conn] w' [Hc Hd]; [exact Hc|]. destruct Hc as (Ho & i & -> & Hn & Hl).
    split; [done|]. exists (QueryGet r "agent_id"). split_and!; try done.
    by rewrite Hd.
Qed.

(** The versions a client offers in the header. *)
Definition offered (r : Request) : list string :=
  TrimSpace <$> Split (HeaderGet r "Sec-WebSocket-Protocol") comma.

(** Whatever a client asks for, the negotiated version is one the
    server supports, it is one of the versions offered in the header if one of
    them is supported, and the answer to the upgrade names it. *)
Theorem negotiateProtocol_supported r :
  isSupportedVersion (negotiateProtocol r) = true ∧
  (Exists (λ p, isSupportedVersion p = true) (offered r) ↔
   head (filter (λ p, isSupportedVersion p = true) (offered r)) = Some (negotiateProtocol r)) ∧
  upgradeWithProtocol (negotiateProtocol r) ∅
    = {[CanonicalHeaderKey "Sec-WebSocket-Protocol" := negotiateProtocol r]}.
Proof.
  assert (isSupportedVersion (negotiateProtocol r) = true) as Hs.
  { unfold negotiateProtocol. destruct (head _) as [p|] eqn:Hh.
    - by apply head_Some_elem_of, list_elem_of_filter in Hh as [Hp _].
    - destruct (negb _ && _) eqn:Hv; [|reflexivity]. by apply andb_true_iff in Hv as [_ ?]. }
  split_and!; [done|split|].
  - intros (p & Hp & Hsup)%Exists_exists. unfold negotiateProtocol.
    fold (offered r). destruct (head _) as [q|] eqn:Hh; [done|]. exfalso.
    assert (p ∈ filter (λ p, isSupportedVersion p = true) (offered r)) as Hin
      by by apply list_elem_of_filter.
    destruct (filter _ _); [by apply not_elem_of_nil in Hin|done].
  - intros Hh. apply head_Some_elem_of, list_elem_of_filter in Hh as [? ?].
    apply Exists_exists. eauto.
  - unfold upgradeWithProtocol. rewrite Hs. destruct (negotiateProtocol r) eqn:Hn; [|done].
    by vm_compute in Hs.
Qed.

(** The WebSocket upgrade, the CSRF check and the CORS headers
    judge an origin by the same rule. *)
Theorem origin_rules_agree r h :
  let origin := HeaderGet r "Origin" in
  origin ≠ EmptyString →
  CheckOrigin r = isOriginAllowed origin ∧
  (cors_headers origin h !! "Access-Control-Allow-Origin" =
     if isOriginAllowed origin
     then Some (if decide (corsAllowedOrigins = "*") then "*" else origin)
     else h !! "Access-Control-Allow-Origin").
Proof.
  cbv zeta. set (origin := HeaderGet r "Origin"). intros Ho. apply str_empty_false in Ho.
  unfold CheckOrigin, isOriginAllowed, cors_headers. fold origin. rewrite Ho.
  split; [done|]. unfold set_header.
  repeat (rewrite lookup_insert_ne by by vm_compute).
  case_bool_decide as Hall; [rewrite decide_True by done; by rewrite lookup_insert_eq|].
  rewrite decide_False by done.
  destruct (origin_listed corsAllowedOrigins origin); [by rewrite lookup_insert_eq|done].
Qed.
End connect.

#[local] Existing Instance demo_env.

Lemma demo_refuses_bad_origin : refuses_bad_origin demo_upgrade.
Proof. by intros h r. Qed.

Definition demo_client_request (origin : string) : Request :=
  demo_request MethodGet "/client/connect" [("Origin", origin)]
    [("token", "user:u1"); ("device_id", "phone")] [].

Lemma handleClientConnect_authorised_witness :
  HubInv.wf (hub demo_world) ∧ refuses_bad_origin demo_upgrade ∧
  let r := demo_client_request "https://app.example" in
  wp (handleClientConnect demo_upgrade ∅ r)
    (connects Client (QueryGet r "device_id") r
       (λ i, ∃ t c, jwt_parse (QueryGet r "token") t = Ok c ∧ UserID c = i) demo_world) demo_world.
Proof.
  split; [exact wf_newHub|]. split; [exact demo_refuses_bad_origin|].
  exact (handleClientConnect_authorised demo_upgrade ∅ (demo_client_request "https://app.example")
    demo_world wf_newHub demo_refuses_bad_origin).
Defined.

Definition demo_agent_request : Request :=
  demo_request MethodGet "/agent/connect" []
    [("agent_id", "a2"); ("agent_secret", "agent-secret")] [].

Lemma handleAgentConnect_authorised_witness :
  HubInv.wf (hub demo_world) ∧ refuses_bad_origin demo_upgrade ∧
  let r := demo_agent_request in
  wp (handleAgentConnect demo_upgrade ∅ r)
    (λ o w', connects Agent EmptyString r
       (λ i, i = QueryGet r "agent_id" ∧ i ≠ EmptyString ∧
             QueryGet r "agent_secret" = agentSecret ∧
             i ∈ a_id <$> agents (db w')) demo_world o w') demo_world.
Proof.
  split; [exact wf_newHub|]. split; [exact demo_refuses_bad_origin|].
  exact (handleAgentConnect_authorised demo_upgrade ∅ demo_agent_request
    demo_world wf_newHub demo_refuses_bad_origin).
Defined.

Lemma origin_rules_agree_witness :
  let r := demo_client_request "https://evil.example" in
  HeaderGet r "Origin" ≠ EmptyString ∧ isOriginAllowed (HeaderGet r "Origin") = false ∧
  CheckOrigin r = isOriginAllowed (HeaderGet r "Origin").
Proof.
  cbv zeta. assert (HeaderGet (demo_client_request "https://evil.example") "Origin" ≠ EmptyString)
    as Ho by (vm_compute; discriminate).
  split; [exact Ho|]. split; [vm_compute; reflexivity|].
  exact (proj1 (origin_rules_agree (demo_client_request "https://evil.example") ∅ Ho)).
Defined.
