(* ===== verification/RoutingProps.v ===== *)
(** * Routed messages: whose they are, and that none is lost *)

From S2P Require Import Prelude GoLib FixedWindow RateLimit Tiers Sql Queue Hub HubInv HubProps.
From S2P Require Import Store World Auth Conversations Routing Protocol Messages Reactions E2E Push.
From S2P Require Import Middleware Admits Effects.
From S2P Require Import System Demo.

(** ** Everything but the delivery tables *)

(** The database without the attachments' links and the durable queue. *)
Definition rows (d : DB) : DB :=
  mkDB (users d) (Store.agents d) (conversations d) (messages d) [] (key_bundles d)
    (encrypted_messages d) (notification_preferences d) (device_tokens d) [] (reactions d)
    (conversation_tags d) (user_rate_limit_tiers d) (web_push_subscriptions d) 0.

Definition same_rows : relation World := λ w w', rows (db w') = rows (db w).

#[export] Instance same_rows_preorder : PreOrder same_rows.
Proof. split; [done|]. intros x y z Hxy Hyz. unfold same_rows in *. by rewrite Hyz. Qed.

Lemma rows_link mid aid d d' : link_attachment mid aid d = Ok d' → rows d' = rows d.
Proof. unfold link_attachment. case_decide; intros; by simplify_eq/=. Qed.

Lemma same_rows_exec stmt :
  (∀ d d', stmt d = Ok d' → rows d' = rows d) → within same_rows (exec stmt).
Proof.
  intros Hs w. rewrite run_exec. destruct (failing w); [done|].
  destruct (stmt (db w)) eqn:Hd; [by apply Hs|done].
Qed.

#[export] Instance delivers_same_rows `{Env} : Delivers same_rows.
Proof.
  split.
  - apply (quiet_mono same_db same_rows); [exact _| |exact _].
    intros w w' Hd. unfold same_rows. by rewrite Hd.
  - intros r d t. apply same_rows_exec. intros ? ? [= <-]. done.
Qed.

Section routing.
Context `{Env}.

Lemma same_rows_link mid aid : within same_rows (exec (link_attachment mid aid)).
Proof. apply same_rows_exec. intros d d'. apply rows_link. Qed.
#[local] Hint Resolve same_rows_link : within.

Lemma wp_within {A} (R : relation World) (m : M A) (Q : A → World → Prop) w :
  within R m → (∀ a w', R w w' → Q a w') → wp m Q w.
Proof. intros Hm HQ. apply HQ, Hm. Qed.

(** The connection's agent or user is the one of the conversation. *)
Definition takes_part (c : Connection) (conv : Conversation) : Prop :=
  id c = match connType c with Agent => ConvAgentID conv | Client => ConvUserID conv end.

Lemma participant_takes_part c conv : is_participant c conv = true → takes_part c conv.
Proof.
  unfold is_participant, takes_part. by destruct (connType c); intros ?%bool_decide_eq_true.
Qed.

(** The row of [messages] a routed message makes, and who may make it. *)
Definition posted_by (c : Connection) (conv : Conversation) (m : RoutedMessage) (d d' : DB) : Prop :=
  conv ∈ conversations d ∧ ConvID conv = ConversationID m ∧ takes_part c conv ∧
  ∃ row, m_conversation_id row = ConvID conv ∧
    m_sender_type row = conn_type_string (connType c) ∧ m_sender_id row = id c ∧
    m_content row = Content m ∧ m_content row ≠ EmptyString ∧
    m_read_at row = None ∧ m_is_deleted row = false ∧
    m_id row ∉ m_id <$> messages d ∧
    rows d' = rows (set_messages (λ l, l ++ [row]) d).

Definition posted (c : Connection) (w w' : World) : Prop :=
  ∃ conv m, posted_by c conv m (db w) (db w').

(** [storeMessage] adds the row or nothing. *)
Lemma storeMessage_posts c conv m r w :
  conv ∈ conversations (db w) → ConvID conv = ConversationID m →
  takes_part c conv → Content m ≠ EmptyString →
  wp (storeMessage (stamp c r m)) (λ res w',
    match res with
    | Ok _ => posted_by c conv m (db w) (db w')
    | Err _ => same_rows w w'
    end) w.
Proof.
  intros Hin Hid Hp Hc. unfold storeMessage. wp_walk; [unfold same_rows; by norm_db|].
  apply (wp_within same_rows); [walk_calls|]. intros ? w3 Hrows. apply wp_ret. norm_db.
  match goal with Hi : insert_message ?m _ = _ |- _ =>
    unfold insert_message in Hi; repeat case_decide; simplify_eq;
    split_and!; try done; exists m end.
  split_and!; try done. unfold same_rows in Hrows. rewrite Hrows. congruence.
Qed.

Lemma same_rows_deliver c conv m o :
  within same_rows (match connType c with
    | Agent => deliver_to_user (other_party c conv) (Content m) (ConversationID m) o
    | Client => deliver_to_agent (other_party c conv) o
    end).
Proof. walk_calls. Qed.

(** ** Delivery *)

Definition recipients (c : Connection) (rid : string) (h : Hub) : list ref :=
  match connType c with
  | Agent => GetClientConns rid h
  | Client => option_list (GetAgent rid h)
  end.

(** The document is in the channel of a connection of the recipient, or in the
    recipient's offline queue. *)
Definition handed_over (c : Connection) (rid : string) (d : json) (w : World) : Prop :=
  (∃ r conn, r ∈ recipients c rid (hub w) ∧ heap (hub w) !! r = Some conn ∧ d ∈ send conn) ∨
  d ∈ data <$> buffer rid (offlineQueue w).

(** Sends only append to channels. *)
Record sends (w w' : World) : Prop := {
  sends_agents : Hub.agents (hub w') = Hub.agents (hub w);
  sends_clients : clientConns (hub w') = clientConns (hub w);
  sends_queue : offlineQueue w' = offlineQueue w;
  sends_heap r c : heap (hub w) !! r = Some c →
    ∃ c', heap (hub w') !! r = Some c' ∧ ∀ d, d ∈ send c → d ∈ send c'
}.

#[local] Instance sends_preorder : PreOrder sends.
Proof.
  split; [by intros w; split; eauto|].
  intros x y z [? ? ? Hxy] [? ? ? Hyz]. split; try congruence.
  intros r c (c1 & Hc1 & H1)%Hxy. apply Hyz in Hc1 as (c2 & ? & ?). eauto.
Qed.

Lemma SafeSend_keeps d c d' : d' ∈ send c → d' ∈ send (SafeSend d c).2.
Proof. unfold SafeSend. repeat case_match; simpl; rewrite ?elem_of_app; auto. Qed.

Lemma sends_SafeSendTo r d : within (along sends) (SafeSendTo r d).
Proof.
  intros w. unfold SafeSendTo. pose proof (heap_safe_send r d (hub w)) as Hh.
  pose proof (frame_safe_send r d (hub w)) as [_ Ha Hc _ _ _].
  destruct (safe_send r d (hub w)) as [ok h]. simpl in *. split; [done..|].
  intros r' c Hr'. simpl. rewrite Hh, Hr'. case_decide; [|eauto].
  eexists. split; [done|]. intros d'. apply SafeSend_keeps.
Qed.
#[local] Hint Resolve sends_SafeSendTo : within.

Lemma sends_SafeSendAll rs d : within (along sends) (SafeSendAll rs d).
Proof. induction rs; simpl; walk. Qed.

(** A send that reports success put the document into the channel. *)
Lemma SafeSendTo_puts r d w :
  wp (SafeSendTo r d) (λ ok w', ok = true →
    ∃ conn, heap (hub w') !! r = Some conn ∧ d ∈ send conn) w.
Proof.
  unfold wp, SafeSendTo, safe_send. destruct (heap (hub w) !! r) as [c|]; [|done].
  destruct (SafeSend d c) as [ok c'] eqn:Hs. simpl. intros ->. rewrite lookup_insert_eq.
  eexists. split; [done|]. unfold SafeSend in Hs. repeat case_match; simplify_eq/=.
  apply elem_of_app. right. by left.
Qed.

Lemma SafeSendAll_puts rs d w :
  wp (SafeSendAll rs d) (λ n w', n ≠ O →
    ∃ r conn, r ∈ rs ∧ heap (hub w') !! r = Some conn ∧ d ∈ send conn) w.
Proof.
  revert w. induction rs as [|r rs IH]; intros w; simpl; [by apply wp_ret; intros []|].
  apply wp_bind. eapply wp_mono; [apply (SafeSendTo_puts r d w)|]. intros ok w1 Hput.
  apply wp_bind. eapply wp_mono; [apply wp_conj; [apply IH|]|].
  { apply (wp_within sends); [apply sends_SafeSendAll|]. intros n w2 Hs. exact Hs. }
  intros n w2 [Hn Hs]. apply wp_ret. destruct ok; intros Hne.
  - destruct (Hput eq_refl) as (conn & Hr & Hd). apply (sends_heap _ _ Hs) in Hr as (c' & Hr & Hd').
    exists r, c'. split_and!; [by left|done|auto].
  - destruct (Hn Hne) as (r' & conn & Hr' & ? & ?). exists r', conn. split_and!; [by right|done..].
Qed.

Lemma handed_over_sends c rid d w w' : sends w w' → handed_over c rid d w → handed_over c rid d w'.
Proof.
  intros [Ha Hc Hq Hh] [(r & conn & Hr & Hconn & Hd)|Hd]; [left|right; by rewrite Hq].
  apply Hh in Hconn as (c' & Hc' & Hd'). exists r, c'. split_and!; [|done|auto].
  unfold recipients, GetClientConns, GetAgent, devices in *. by rewrite Ha, Hc.
Qed.

Lemma queue_message_hands c rid d w :
  Queue.wf (offlineQueue w) → wp (queue_message rid d) (λ _ w', handed_over c rid d w') w.
Proof.
  intros Hwf. right. unfold queue_message, persistQueue. rewrite !run_bind, run_exec.
  set (q := offlineQueue w). assert (0 < maxLen q) as Hmax by apply Hwf.
  assert (∀ t, d ∈ data <$> buffer rid (Enqueue t rid d q)) as Hin.
  { intros t. rewrite buffer_Enqueue, decide_True by done. rewrite <-last_n_fmap, fmap_app.
    unfold last_n. simpl. rewrite drop_app_le.
    - apply elem_of_app. right. by left.
    - rewrite length_app. simpl. lia. }
  case_match; [apply Hin|]. case_match; apply Hin.
Qed.

Lemma deliver_hands c conv m d w :
  Queue.wf (offlineQueue w) →
  wp (match connType c with
      | Agent => deliver_to_user (other_party c conv) (Content m) (ConversationID m) d
      | Client => deliver_to_agent (other_party c conv) d
      end) (λ _ w', handed_over c (other_party c conv) d w') w.
Proof.
  intros Hwf. set (rid := other_party c conv). destruct (connType c) eqn:Hct.
  - unfold deliver_to_user. apply wp_bind. unfold wp at 1. simpl.
    assert (∀ w', offlineQueue w' = offlineQueue w →
      wp (_ ← queue_message rid d;
          go (GoNotifyUser rid "New Message" (truncate (Content m) 100) (ConversationID m)))
        (λ _ w'', handed_over c rid d w'') w') as Hqueue.
    { intros w' Hw'. apply wp_bind. eapply wp_mono; [apply queue_message_hands; by rewrite Hw'|].
      intros ? w'' Hd. exact Hd. }
    destruct (GetClientConns rid (hub w)) as [|r rs] eqn:Hrs; [by apply Hqueue|].
    apply wp_bind. eapply wp_mono; [apply wp_conj; [apply (SafeSendAll_puts (r :: rs) d w)|]|].
    { apply (wp_within sends); [apply sends_SafeSendAll|]. intros n w' Hs. exact Hs. }
    intros n w1 [Hput Hs]. case_decide; [apply Hqueue, Hs|]. apply wp_ret. left.
    destruct (Hput H0) as (r' & conn & Hr' & ? & ?). exists r', conn.
    split_and!; [|done..]. unfold recipients, GetClientConns, devices in *.
    by rewrite Hct, (sends_clients _ _ Hs), Hrs.
  - unfold deliver_to_agent. apply wp_bind. unfold wp at 1. simpl.
    destruct (GetAgent rid (hub w)) as [a|] eqn:Ha; [|by apply queue_message_hands].
    apply wp_bind. eapply wp_mono; [apply wp_conj; [apply (SafeSendTo_puts a d w)|]|].
    { apply (wp_within sends); [apply sends_SafeSendTo|]. intros ok w' Hs. exact Hs. }
    intros [] w1 [Hput Hs]; [|apply queue_message_hands; by rewrite (sends_queue _ _ Hs)].
    apply wp_ret. left. destruct (Hput eq_refl) as (conn & ? & ?). exists a, conn.
    split_and!; [|done..]. unfold recipients, GetAgent in *.
    rewrite Hct, (sends_agents _ _ Hs), Ha. by left.
Qed.

(** Storing does not touch the queue in memory. *)
Definition same_queue : relation World := λ w w', offlineQueue w' = offlineQueue w.

#[local] Instance same_queue_preorder : PreOrder same_queue.
Proof. split; [done|]. intros x y z Hxy Hyz. unfold same_queue in *. by rewrite Hyz. Qed.

Lemma queue_exec stmt : within same_queue (exec stmt).
Proof. intros w. rewrite run_exec. destruct (failing w); [done|]. by destruct (stmt (db w)). Qed.

Lemma queue_now : within same_queue now.
Proof. done. Qed.
#[local] Hint Resolve queue_exec queue_now : within.

Lemma queue_getConversation cid : within same_queue (getConversation cid).
Proof. intros w. unfold getConversation. rewrite run_bind, run_query. by repeat case_match. Qed.

Lemma queue_storeMessage m : within same_queue (storeMessage m).
Proof.
  unfold storeMessage, generateID. walk. apply within_for_each; [exact _|]. intros. walk.
Qed.

Definition chat_document (c : Connection) (conv : Conversation) (m : RoutedMessage) : json :=
  OutgoingMessage MsgTypeMessage (routed_json (stamp c (other_party c conv) m)).

(** The outcome of a chat message: nothing, or posted and handed over. *)
Definition chat_outcome (c : Connection) (w w' : World) : Prop :=
  same_rows w w' ∨
  ∃ conv m, posted_by c conv m (db w) (db w') ∧
    (Queue.wf (offlineQueue w) →
     handed_over c (other_party c conv) (chat_document c conv m) w').

Lemma chat_outcome_keep {A} c (m : M A) w w1 :
  within same_rows m → same_rows w w1 → wp m (λ _ w', chat_outcome c w w') w1.
Proof.
  intros Hm Hw. apply (wp_within same_rows); [done|]. intros ? w' Hr. left. by etrans.
Qed.

Lemma routeChatMessage_outcome sender c data w :
  wp (routeChatMessage sender c data) (λ _ w', chat_outcome c w w') w.
Proof.
  unfold routeChatMessage.
  destruct (data ≫= decode_routed) as [m|e]; [|apply chat_outcome_keep; [walk_calls|done]].
  destruct (str_empty (Content m)) eqn:Hc; [apply chat_outcome_keep; [walk_calls|done]|].
  destruct (str_empty (ConversationID m)); [apply chat_outcome_keep; [walk_calls|done]|].
  apply str_empty_false in Hc.
  assert (∀ msg w', db w' = db w →
    wp (sendError sender msg) (λ _ w'', chat_outcome c w w'') w') as Herr.
  { intros msg w' Hw'. apply chat_outcome_keep; [walk_calls|]. unfold same_rows. by rewrite Hw'. }
  apply wp_bind. eapply wp_mono; [apply wp_conj;
    [apply (wp_getConversation _ (λ o w', db w' = db w ∧ match o with
       | Ok (Some conv) => conv ∈ conversations (db w) ∧ ConvID conv = ConversationID m
       | _ => True end)); [done..|]; intros conv w' Hd Hq; by apply query_row_Ok in Hq|]|].
  { apply (wp_within same_queue); [apply queue_getConversation|]. intros o w' Hs. exact Hs. }
  intros o w1 [[Hw1 Hconv] Hq1]. destruct o as [[conv|]|e]; [|by apply Herr..].
  destruct (is_participant c conv) eqn:Hp; simpl; [|by apply Herr].
  apply participant_takes_part in Hp. destruct Hconv as [Hin Hid]. rewrite <-Hw1 in Hin.
  apply wp_bind. eapply wp_mono; [apply wp_conj; [by apply (storeMessage_posts c conv m)|]|].
  { apply (wp_within same_queue); [apply queue_storeMessage|]. intros r w' Hs. exact Hs. }
  intros [u|e] w2 [Hpost Hq2].
  - apply wp_bind. eapply wp_mono; [apply wp_conj|].
    + apply (wp_within same_rows); [apply (same_rows_deliver c conv m)|]. intros ? w' Hr. exact Hr.
    + instantiate (1 := λ _ w', Queue.wf (offlineQueue w2) →
        handed_over c (other_party c conv) (chat_document c conv m) w').
      unfold wp at 1. intros Hwf. by apply (deliver_hands c conv m).
    + intros ? w3 [Hr3 Hd3].
      apply wp_bind. eapply wp_mono; [apply wp_conj|].
      * apply (wp_within same_rows); [apply quiet_send|]. intros ? w' Hr. exact Hr.
      * apply (wp_within sends); [apply sends_SafeSendTo|]. intros ? w' Hs. exact Hs.
      * intros ok w4 [Hr4 Hs4]. apply wp_ret. right. exists conv, m. split.
        -- rewrite <-Hw1. destruct Hpost as (? & ? & ? & row & Hpost). destruct_and! Hpost.
           split_and!; try done. exists row. split_and!; try done.
           unfold same_rows in *. by rewrite Hr4, Hr3.
        -- intros Hwf. apply (handed_over_sends _ _ _ w3 w4 Hs4), Hd3.
           unfold same_queue in *. by rewrite Hq2, Hq1.
  - apply chat_outcome_keep; [walk_calls|]. unfold same_rows in *. by rewrite Hpost, Hw1.
Qed.

(** C3: a chat message that is stored is not lost on the way: when the
    handler is done the document the recipient is to see is in the channel of
    one of the recipient's connections or in the recipient's offline queue,
    whichever sends failed and whichever statements did. *)
Theorem stored_message_handed_over sender c data w :
  Queue.wf (offlineQueue w) →
  wp (routeChatMessage sender c data) (λ _ w',
    same_rows w w' ∨
    ∃ conv m, posted_by c conv m (db w) (db w') ∧
      handed_over c (other_party c conv) (chat_document c conv m) w') w.
Proof.
  intros Hwf. eapply wp_mono; [apply routeChatMessage_outcome|].
  intros ? w' [Hr|(conv & m & Hp & Hh)]; [by left|right]. exists conv, m. split; [done|auto].
Qed.

End routing.

#[local] Existing Instance demo_env.

(** The user writes while the agent is away: the message is put into its queue. *)
Definition demo_client : Connection := newConnection Client "u1" EmptyString 0 "v1".

Definition demo_data : Result json :=
  Ok (JObj [("conversation_id", JStr "c1"); ("content", JStr "hi");
            ("sender_id", JStr "somebody else")]).

Lemma stored_message_handed_over_witness :
  Queue.wf (offlineQueue demo_world) ∧
  length (Queue.buffer "a1" (offlineQueue (routeChatMessage 0%nat demo_client demo_data demo_world).2)) = 1%nat ∧
  wp (routeChatMessage 0%nat demo_client demo_data) (λ _ w',
    same_rows demo_world w' ∨
    ∃ conv m, posted_by demo_client conv m (db demo_world) (db w') ∧
      handed_over demo_client (other_party demo_client conv) (chat_document demo_client conv m) w')
    demo_world.
Proof.
  assert (Queue.wf (offlineQueue demo_world)) as Hwf by apply wf_new.
  split; [exact Hwf|]. split; [vm_compute; reflexivity|].
  exact (stored_message_handed_over 0%nat demo_client demo_data demo_world Hwf).
Defined.
