(* ===== verification/SysInv.v ===== *)
(** * The invariant of the running server *)

From S2P Require Import Prelude GoLib FixedWindow RateLimit Tiers Sql Queue Hub HubInv HubProps Store StoreInv.
From S2P Require Import World Auth Conversations Routing Protocol Messages Reactions E2E Push.
From S2P Require Import Middleware Admits System Runs.
From S2P Require Import Demo.

(** Every component is well formed and the hub has not panicked. *)
Record sys_ok (w : World) : Prop := {
  sys_db : db_ok (db w);
  sys_hub : HubInv.wf (hub w);
  sys_queue : Queue.wf (offlineQueue w);
  sys_tiered : Tiered.inv (globalTieredLimiter w);
  sys_agents : AgentLimiter.inv (agentRateLimiter w);
  sys_message_limiter : RateLimiter.inv (messageRateLimiter w);
  sys_user_limiter : RateLimiter.inv (userRateLimiter w);
  sys_ip_limiter : RateLimiter.inv (ipRateLimiter w);
  sys_auth_limiter : RateLimiter.inv (authIPLimiter w);
  sys_panic : panicked w = false
}.

Definition keeps_ok : relation World := λ w w', sys_ok w → sys_ok w'.

#[export] Instance keeps_ok_preorder : PreOrder keeps_ok.
Proof.
  unfold keeps_ok. split; [intros w Hw; exact Hw|].
  intros x y z Hxy Hyz Hx. exact (Hyz (Hxy Hx)).
Qed.

Lemma statement_keeps stmt : statement stmt → keeps stmt.
Proof.
  destruct 1; try solve
    [ apply keeps_insert_user | apply keeps_update_user_password | apply keeps_insert_agent
    | apply keeps_upsert_agent | by apply keeps_update_agent | apply keeps_insert_conversation
    | apply keeps_delete_conversation | apply keeps_insert_message
    | by apply keeps_update_messages | apply keeps_delete_messages_of
    | apply keeps_link_attachment | apply keeps_insert_attachment
    | apply keeps_insert_reaction | apply keeps_delete_reaction
    | apply keeps_insert_tag | apply keeps_insert_key | apply keeps_delete_key
    | apply keeps_insert_encrypted | apply keeps_upsert_pref | apply keeps_delete_pref
    | apply keeps_upsert_device | apply keeps_delete_device | apply keeps_replace_device
    | apply keeps_delete_web_device | apply keeps_create_web_subs | apply keeps_replace_web_sub
    | apply keeps_delete_web_sub | apply keeps_replace_tier
    | apply keeps_insert_queued | apply keeps_delete_queued | apply keeps_delete_queued_before ].
  intros d d' Hok [= <-]. done.
Qed.

Lemma statement_rows_keeps stmt d d' n :
  statement_rows stmt → db_ok d → stmt d = Ok (d', n) → db_ok d'.
Proof.
  destruct 1; [by apply keeps_delete_tag|]. unfold mark_read_stmt. intros Hok Hs.
  eapply (keeps_update_messages (unread_by_user c) (with_read t)); [done|exact Hok|].
  unfold mark_read_stmt, update_messages in *. by simplify_eq/=.
Qed.

(** ** The primitive steps *)

(** A step that replaces one component by a well-formed one. *)
Ltac ok_step := intros w Hok; destruct Hok; split; simpl in *; try done.

Lemma ok_set_db d w : sys_ok w → db_ok d → sys_ok (set_db (λ _, d) w).
Proof. intros Hok ?. revert w Hok. ok_step. Qed.

Lemma ok_set_hub h w : sys_ok w → HubInv.wf h → sys_ok (set_hub (λ _, h) w).
Proof. intros Hok ?. revert w Hok. ok_step. Qed.

Lemma ok_fault w : sys_ok w → sys_ok (fault w).2.
Proof. revert w. ok_step. Qed.

Lemma ok_now w : sys_ok w → sys_ok (now w).2.
Proof. revert w. ok_step. Qed.

Lemma ok_exec stmt : keeps stmt → within keeps_ok (exec stmt).
Proof.
  intros Hk w Hok. rewrite run_exec. pose proof (ok_fault w Hok : sys_ok (stepped w)) as Hf.
  destruct (failing w); [done|]. destruct (stmt (db w)) as [d|e] eqn:Hs; [|done].
  apply ok_set_db; [done|]. eapply Hk; [apply (sys_db w Hok)|done].
Qed.

Lemma ok_exec_rows stmt : statement_rows stmt → within keeps_ok (exec_rows stmt).
Proof.
  intros Hk w Hok. rewrite run_exec_rows. pose proof (ok_fault w Hok : sys_ok (stepped w)) as Hf.
  destruct (failing w); [done|]. destruct (stmt (db w)) as [[d n]|e] eqn:Hs; [|done].
  apply ok_set_db; [done|]. eapply statement_rows_keeps; [done|apply (sys_db w Hok)|done].
Qed.

Lemma ok_send r d : within keeps_ok (SafeSendTo r d).
Proof.
  intros w Hok. unfold SafeSendTo. pose proof (frame_safe_send r d (hub w)) as Hf.
  destruct (safe_send r d (hub w)) as [ok h]. apply ok_set_hub; [done|].
  apply (wf_frame (hub w)); [done|apply Hok].
Qed.

Lemma ok_frame f : (∀ h, frame h (f h)) → within keeps_ok (modify (set_hub f)).
Proof.
  intros Hf w Hok. simpl. apply (ok_set_hub (f (hub w)) w Hok).
  apply (wf_frame (hub w)); [done|apply Hok].
Qed.

Lemma ok_hub_do f :
  (∀ h, HubInv.wf h → ∃ h', f h = Some h' ∧ HubInv.wf h') → within keeps_ok (hub_do f).
Proof.
  intros Hf w Hok. unfold hub_do. destruct (Hf _ (sys_hub w Hok)) as (h' & -> & Hwf).
  by apply ok_set_hub.
Qed.

Lemma ok_serve `{Env} ct i dev t v : within keeps_ok (serve (newConnection ct i dev t v)).
Proof.
  intros w Hok. unfold serve. set (c := newConnection ct i dev t v).
  destruct (alloc c (hub w)) as [r h1] eqn:Ha.
  assert (state (λ w, let '(r, h) := alloc c (hub w) in (r, set_hub (λ _, h) w)) w
          = (r, set_hub (λ _, h1) w)) as Hs by (unfold state; by rewrite Ha).
  rewrite run_bind, Hs. cbn [fst snd]. rewrite run_bind.
  set (w0 := set_hub (λ _, h1) w). set (t1 := (now w0).1). set (w1 := (now w0).2).
  destruct (connect_spec t1 t ct i dev v (hub w) (sys_hub w Hok)) as (h2 & Hc & Hwf & _).
  unfold connect in Hc. fold c in Hc. rewrite Ha in Hc.
  rewrite run_bind, (run_hub_do _ _ h2) by exact Hc. cbn [snd].
  assert (sys_ok (set_hub (λ _, h2) w1)) as Hok2 by (destruct Hok; split; done).
  rewrite run_bind. assert (sys_ok (go (GoReplay r) (set_hub (λ _, h2) w1)).2) as Hok3
    by (destruct Hok2; split; done).
  rewrite run_bind. unfold sendWelcomeMessage. rewrite run_bind. by apply ok_send.
Qed.

Lemma ok_drain i : within keeps_ok (drain_queue i).
Proof.
  intros w Hok. unfold drain_queue. rewrite run_bind. unfold state.
  pose proof (ok_now w Hok) as Hok'. destruct (now w) as [t w']. cbn [fst snd] in *.
  pose proof (wf_Drain t i (offlineQueue w') (sys_queue _ Hok')) as Hq.
  destruct (Drain t i (offlineQueue w')) as [l q], Hok'. by split.
Qed.

(** The four limiters of the type of ratelimit.go. *)
Ltac ok_limiter get :=
  intros w Hok; rewrite run_bind; unfold state;
  pose proof (ok_now w Hok) as Hok'; destruct (now w) as [t w']; cbn [fst snd] in *;
  pose proof (RateLimiter.counters_inv_Allow t ltac:(assumption) (get w')) as Hrl;
  destruct (RateLimiter.Allow t _ (get w')) as [ok rl], Hok'; split; auto.

Lemma ok_message_limiter i : within keeps_ok (message_limiter_allow i).
Proof. unfold message_limiter_allow. ok_limiter messageRateLimiter. Qed.

Lemma ok_user_limiter i : within keeps_ok (user_limiter_allow i).
Proof. unfold user_limiter_allow. ok_limiter userRateLimiter. Qed.

Lemma ok_ip_limiter i : within keeps_ok (ip_limiter_allow i).
Proof. unfold ip_limiter_allow. ok_limiter ipRateLimiter. Qed.

Lemma ok_auth_limiter i : within keeps_ok (auth_limiter_allow i).
Proof. unfold auth_limiter_allow. ok_limiter authIPLimiter. Qed.

Lemma ok_agent_limiter i : within keeps_ok (agent_limiter_allow i).
Proof.
  intros w Hok. unfold agent_limiter_allow. rewrite !run_bind. unfold state.
  pose proof (ok_now w Hok) as Hok1. destruct (now w) as [t w1]. cbn [fst snd] in *.
  pose proof (ok_now w1 Hok1) as Hok2. destruct (now w1) as [t' w2]. cbn [fst snd] in *.
  pose proof (AgentLimiter.attempts_inv_Allow t t' i (agentRateLimiter w2)) as Hrl.
  destruct (AgentLimiter.Allow t t' i (agentRateLimiter w2)) as [ok rl], Hok2. split; auto.
Qed.

Lemma ok_tiered i : within keeps_ok (tiered_allow i).
Proof.
  intros w Hok. unfold tiered_allow. rewrite run_bind. unfold state.
  pose proof (ok_now w Hok) as Hok'. destruct (now w) as [t w']. cbn [fst snd] in *.
  pose proof (Tiered.tiered_inv_Allow t i (globalTieredLimiter w')) as Hrl.
  destruct (Tiered.Allow t i (globalTieredLimiter w')) as [res trl], Hok'. split; auto.
Qed.

Lemma ok_set_tier u t : valid_tier t → within keeps_ok (set_tier u t).
Proof.
  intros Ht w Hok. unfold set_tier. rewrite run_bind. pose proof (ok_now w Hok) as Hok'.
  assert (Tiered.inv (Tiered.SetTier (now w).1 u t (globalTieredLimiter (now w).2))) as Hi.
  { apply Tiered.inv_SetTier; [destruct Ht; by vm_compute..|apply Hok']. }
  destruct Hok'. split; done.
Qed.

Lemma ok_transaction {A} (body : M (Result A)) :
  within keeps_ok body → within keeps_ok (in_transaction body).
Proof.
  intros Hb w Hok. unfold in_transaction. rewrite run_bind. cbn [gets fst snd].
  rewrite run_bind. pose proof (Hb w Hok) as Hok'. destruct (body w).1; [done|].
  apply (ok_set_db (db w)); [done|apply Hok].
Qed.

Lemma ok_request_id : within keeps_ok next_request_id.
Proof. intros w Hok. destruct Hok. by split. Qed.

#[export] Instance quiet_keeps_ok `{Env} : Quiet keeps_ok.
Proof.
  split; try exact _.
  - exact ok_now.
  - exact ok_fault.
  - apply ok_send.
  - apply ok_serve.
  - intros g w []. by split.
  - intros t r d w []. split; try done. by apply wf_Enqueue.
  - apply ok_drain.
  - intros a s d. apply ok_frame. intros h. etrans; [apply frame_set_status|apply frame_send_all].
  - intros t r. apply ok_frame. intros h. apply frame_touch.
  - apply ok_agent_limiter.
  - intros conn i. apply (within_checkRateLimit_of keeps_ok);
      [apply ok_message_limiter|apply ok_user_limiter|apply ok_send].
  - apply ok_ip_limiter.
  - apply ok_auth_limiter.
  - apply ok_tiered.
  - apply ok_set_tier.
  - apply ok_request_id.
  - intros f w []. by split.
Qed.

#[export] Instance admits_keeps_ok `{Env} : Admits keeps_ok.
Proof.
  split; [exact _|..].
  - intros stmt Hs. by apply ok_exec, statement_keeps.
  - intros stmt Hs. by apply ok_exec_rows.
  - intros A. apply ok_transaction.
Qed.

(** ** Events *)

Section steps.
Context `{Env} (Upgrade : bool → gmap string string → Request → option Response).

Lemma ok_take_goroutine i : within keeps_ok (take_goroutine i).
Proof. intros w []. by split. Qed.

Lemma ok_stuck : within keeps_ok (modify (set_stuck (λ _, true))).
Proof. intros w []. by split. Qed.

Lemma ok_disconnect conn :
  within keeps_ok (c ← gets (λ w, heap (hub w) !! conn);
    match c with Some _ => hub_do (unregister conn) | None => mret tt end).
Proof.
  intros w Hok. rewrite run_bind. cbn [gets fst snd].
  destruct (heap (hub w) !! conn) as [c|] eqn:Hc; [|done].
  destruct (unregister_spec conn (hub w) (sys_hub w Hok)) as (h' & Hh' & Hwf & _); [by eexists|].
  rewrite (run_hub_do _ _ _ Hh'). by apply ok_set_hub.
Qed.

Lemma ok_stale timeout : within keeps_ok (t ← now; hub_do (checkStaleAgents timeout t)).
Proof.
  apply within_bind; [exact _|exact ok_now|]. intros t. apply ok_hub_do. intros h Hwf.
  destruct (checkStaleAgents_spec timeout t h Hwf) as (h' & ? & ? & _). eauto.
Qed.

Lemma ok_limiter_cleanup reading : within keeps_ok (limiter_cleanup reading).
Proof.
  intros w Hok. unfold limiter_cleanup. rewrite !run_bind. pose proof (ok_now w Hok) as Hok'.
  destruct (now w) as [t w'], Hok'. cbn [fst snd] in *.
  split; simpl; auto using RateLimiter.counters_inv_cleanup, Tiered.inv_cleanupOnce,
    AgentLimiter.attempts_inv_Clean.
Qed.
Lemma ok_init limit : within keeps_ok (initAuthRateLimit limit).
Proof. intros w []. by split. Qed.

#[export] Instance runs_keeps_ok : Runs keeps_ok.
Proof.
  split; try exact _.
  - exact ok_stuck.
  - exact ok_take_goroutine.
  - exact ok_disconnect.
  - exact ok_stale.
  - intros conn. apply ok_frame. intros h. apply frame_take.
  - exact ok_limiter_cleanup.
  - exact ok_init.
Qed.

Lemma ok_boot t ts fs d stored : db_ok d → sys_ok (boot_world t ts fs d stored).
Proof.
  intros Hd. split; try done.
  - exact wf_newHub.
Qed.

(** In every state the server reaches from a database that meets
    the schema's constraints, whatever requests, frames, disconnections, timer
    ticks and goroutines run in whatever order, and whichever statements fail,
    the database still meets every constraint, the hub's indexes agree with its
    live connections, no send buffer or offline queue holds more than its bound,
    the limiters' counters are well formed, and no channel was closed twice. *)
Theorem server_safe limit es t ts fs d stored :
  db_ok d → sys_ok (server_from Upgrade limit es (boot_world t ts fs d stored)).2.
Proof. intros Hd. by apply (within_server_from keeps_ok), ok_boot. Qed.
End steps.

Lemma server_safe_witness :
  db_ok demo_db ∧ sys_ok (@server_from demo_env demo_upgrade "30" demo_events demo_world).2.
Proof.
  split; [exact demo_db_ok|].
  exact (@server_safe demo_env demo_upgrade "30" demo_events 0 [] [] demo_db ∅ demo_db_ok).
Defined.
