(* ===== verification/LimiterPair.v ===== *)
(** * The two message limiters of the router

    [checkRateLimit] asks the per-connection limiter and then the per-user
    limiter, both with the id of the connection.  The second one allows twice as
    much and is asked only after the first one agreed, so it never refuses. *)

From S2P Require Import Prelude GoLib FixedWindow RateLimit Tiers Sql Queue Hub HubInv Store World.
From S2P Require Import Auth Conversations Routing Protocol Messages Reactions E2E Push Middleware.
From S2P Require Import Admits System Runs.

(** ** Steps that let the two limiters be *)

Record calm (w w' : World) : Prop := {
  calm_message : messageRateLimiter w' = messageRateLimiter w;
  calm_user : userRateLimiter w' = userRateLimiter w;
  calm_clock : clock w ≤ clock w'
}.

#[export] Instance calm_preorder : PreOrder calm.
Proof.
  split; [by intros w; split|]. intros x y z [] []. split; [congruence..|lia].
Qed.

Lemma calm_now : within (along calm) now.
Proof. intros w. split; simpl; [done..|]. lia. Qed.

(** A step that changes neither the limiters nor the clock. *)
Ltac calm_step :=
  intros w; split; unfold state, SafeSendTo, hub_do in *; simpl; repeat case_match; simpl; done.

Lemma calm_send r d : within (along calm) (SafeSendTo r d).
Proof. calm_step. Qed.

Lemma calm_hub_do f : within (along calm) (hub_do f).
Proof. calm_step. Qed.

(** One reading of the clock and then a calm step. *)
Lemma calm_after_now {A} (f : Z → World → A * World) :
  (∀ t, within (along calm) (state (f t))) → within (along calm) (t ← now; state (f t)).
Proof. intros Hf. apply within_bind; [exact _|exact calm_now|exact Hf]. Qed.

Section calm.
Context `{Env}.

Lemma calm_exec stmt : within (along calm) (exec stmt).
Proof.
  intros w. rewrite run_exec. destruct (failing w); [split; simpl; done|].
  destruct (stmt (db w)); split; simpl; done.
Qed.

Lemma calm_exec_rows stmt : within (along calm) (exec_rows stmt).
Proof.
  intros w. rewrite run_exec_rows. destruct (failing w); [split; simpl; done|].
  destruct (stmt (db w)) as [[d n]|e]; split; simpl; done.
Qed.

Lemma calm_transaction {A} (body : M (Result A)) :
  within (along calm) body → within (along calm) (in_transaction body).
Proof.
  intros Hb. unfold in_transaction. apply within_bind; [exact _|apply within_gets; exact _|].
  intros d0. apply within_bind; [exact _|done|]. intros [a|e]; [apply within_ret; exact _|].
  apply within_bind; [exact _| |intros ?; apply within_ret; exact _]. intros w. split; simpl; done.
Qed.

Lemma calm_serve ct i dev t v : within (along calm) (serve (newConnection ct i dev t v)).
Proof.
  unfold serve, sendWelcomeMessage.
  repeat (apply within_bind; [exact _| |intros ?]); try (apply within_ret; exact _).
  - calm_step.
  - exact calm_now.
  - apply calm_hub_do.
  - calm_step.
  - apply calm_send.
Qed.

Lemma calm_agent_limiter i : within (along calm) (agent_limiter_allow i).
Proof.
  unfold agent_limiter_allow. apply within_bind; [exact _|exact calm_now|]. intros t.
  apply calm_after_now. intros t'. calm_step.
Qed.

Lemma calm_request_id : within (along calm) next_request_id.
Proof.
  unfold next_request_id. apply within_bind; [exact _|exact calm_now|]. intros t.
  apply within_bind; [exact _|calm_step|]. intros n. apply within_ret; exact _.
Qed.
End calm.

(** ** The invariant *)

Import RateLimiter.

(** How far the user's counter can be, given the connection's: either all it has
    counted was counted in the connection's present window, or its own window
    began in the connection's previous one and ends no later than the present. *)
Definition pair_at (t : Z) (m u : option rateCounter) : Prop :=
  match u with
  | None => True
  | Some u =>
      expires u ≤ t + Minute ∧
      match m with
      | None => count u ≤ 60 ∨ expires u < t
      | Some m =>
          count u ≤ Z.min (count m) 60 ∨
          (expires u ≤ expires m ∧ count u ≤ 60 + Z.min (count m) 60)
      end
  end.

Definition m_ok (m : option rateCounter) : Prop :=
  match m with None => True | Some m => 1 ≤ count m end.

Record pair_ok (w : World) : Prop := {
  pair_message : limit (messageRateLimiter w) = 60 ∧ window (messageRateLimiter w) = Minute;
  pair_user : limit (userRateLimiter w) = 120 ∧ window (userRateLimiter w) = Minute;
  pair_count i : m_ok (counters (messageRateLimiter w) !! i);
  pair_counters i :
    pair_at (clock w) (counters (messageRateLimiter w) !! i) (counters (userRateLimiter w) !! i)
}.

Lemma pair_at_later t t' m u : t ≤ t' → pair_at t m u → pair_at t' m u.
Proof. intros Ht. unfold pair_at. destruct u as [u|]; [|done]. destruct m; lia. Qed.

Lemma calm_pair_ok w w' : calm w w' → pair_ok w → pair_ok w'.
Proof.
  intros [Hm Hu Ht] []. split; rewrite ?Hm, ?Hu; try done.
  intros i. by eapply pair_at_later.
Qed.

Definition keeps_pair : relation World := λ w w', pair_ok w → pair_ok w'.

#[export] Instance keeps_pair_preorder : PreOrder keeps_pair.
Proof. unfold keeps_pair. split; [intros w Hw; exact Hw|]. intros x y z Hxy Hyz Hx. auto. Qed.

Lemma keeps_pair_calm {A} (m : M A) : within (along calm) m → within keeps_pair m.
Proof. apply within_mono. intros w w' Hc Hok. by eapply calm_pair_ok. Qed.

(** One call of [Allow] on a counter, at time [t]. *)
Definition bump (lim t : Z) (c : option rateCounter) : bool * rateCounter :=
  match c with
  | Some c =>
      if decide (expires c < t) then (true, mkCounter 1 (t + Minute))
      else (bool_decide (¬ lim < count c + 1), mkCounter (count c + 1) (expires c))
  | None => (true, mkCounter 1 (t + Minute))
  end.

Lemma Allow_bump t i rl :
  window rl = Minute →
  Allow t i rl = ((bump (limit rl) t (counters rl !! i)).1,
                  set_counters <[i := (bump (limit rl) t (counters rl !! i)).2]> rl).
Proof. intros Hw. unfold Allow, bump. destruct (counters rl !! i); [case_decide|]; by rewrite ?Hw. Qed.

(** The arithmetic of the two counters, for one frame. *)
Lemma pair_bump t0 t t' m u :
  t0 ≤ t ≤ t' → m_ok m → pair_at t0 m u →
  let '(ok, m') := bump 60 t m in
  let '(ok', u') := bump 120 t' u in
  m_ok (Some m') ∧
  (if ok then ok' = true ∧ pair_at t' (Some m') (Some u') else pair_at t (Some m') u).
Proof.
  intros Ht Hm Hp. unfold bump, pair_at, m_ok, Minute, Second, Nanosecond in *.
  destruct m as [m|], u as [u|]; repeat case_decide; simpl in *;
    try case_bool_decide; try case_bool_decide; simpl; lia.
Qed.

Lemma run_message_limiter i w :
  window (messageRateLimiter w) = Minute →
  message_limiter_allow i w =
    let b := bump (limit (messageRateLimiter w)) (now w).1 (counters (messageRateLimiter w) !! i) in
    (b.1, set_messageRateLimiter (set_counters <[i := b.2]>) (now w).2).
Proof.
  intros Hw. unfold message_limiter_allow. rewrite run_bind. unfold state.
  by rewrite Allow_bump by done.
Qed.

Lemma run_user_limiter i w :
  window (userRateLimiter w) = Minute →
  user_limiter_allow i w =
    let b := bump (limit (userRateLimiter w)) (now w).1 (counters (userRateLimiter w) !! i) in
    (b.1, set_userRateLimiter (set_counters <[i := b.2]>) (now w).2).
Proof.
  intros Hw. unfold user_limiter_allow. rewrite run_bind. unfold state.
  by rewrite Allow_bump by done.
Qed.

(** A frame's two decisions, in terms of the two counters. *)
Lemma check_pair i w :
  pair_ok w →
  let w1 := (message_limiter_allow i w).2 in
  let w2 := (user_limiter_allow i w1).2 in
  if (message_limiter_allow i w).1
  then (user_limiter_allow i w1).1 = true ∧ pair_ok w2
  else pair_ok w1.
Proof.
  intros [[Hml Hmw] [Hul Huw] Hc Hp]. cbv zeta. rewrite run_message_limiter by done.
  cbv zeta. rewrite Hml. set (t := (now w).1). cbn [fst snd].
  destruct (bump 60 t (counters (messageRateLimiter w) !! i)) as [ok m'] eqn:Hm. cbn [fst snd].
  set (w1 := set_messageRateLimiter (set_counters <[i := m']>) (now w).2).
  rewrite run_user_limiter by done. set (t' := (now w1).1). cbv zeta.
  change (limit (userRateLimiter w1)) with (limit (userRateLimiter w)).
  change (userRateLimiter w1) with (userRateLimiter w). rewrite Hul.
  destruct (bump 120 t' (counters (userRateLimiter w) !! i)) as [ok' u'] eqn:Hu. cbn [fst snd].
  assert (clock w ≤ t ≤ t') as Ht by (subst t t' w1; simpl; lia).
  pose proof (pair_bump (clock w) t t' _ _ Ht (Hc i) (Hp i)) as Hb. rewrite Hm, Hu in Hb.
  destruct Hb as [Hm' Hb].
  assert (∀ j, m_ok (<[i := m']> (counters (messageRateLimiter w)) !! j)) as Hc'.
  { intros j. rewrite lookup_insert. case_decide; [done|apply Hc]. }
  destruct ok.
  - destruct Hb as [-> Hb]. split; [done|]. split; [done|done|exact Hc'|].
    intros j. change (pair_at t' (<[i := m']> (counters (messageRateLimiter w)) !! j)
      (<[i := u']> (counters (userRateLimiter w)) !! j)). rewrite !lookup_insert.
    case_decide; [done|]. eapply pair_at_later; [|apply Hp]. lia.
  - split; [done|done|exact Hc'|].
    intros j. change (pair_at t (<[i := m']> (counters (messageRateLimiter w)) !! j)
      (counters (userRateLimiter w) !! j)). rewrite lookup_insert.
    case_decide; [by subst j|]. eapply pair_at_later; [|apply Hp]. lia.
Qed.

Lemma keeps_pair_check conn i : within keeps_pair (checkRateLimit conn i).
Proof.
  intros w Hok. pose proof (check_pair i w Hok) as Hc. cbv zeta in Hc.
  unfold checkRateLimit, sendError. rewrite run_bind.
  destruct (message_limiter_allow i w) as [[] w1]; cbn [fst snd negb] in *.
  - rewrite run_bind. destruct (user_limiter_allow i w1) as [ok w2]. cbn [fst snd] in *.
    destruct Hc as [-> Hc]. exact Hc.
  - eapply (keeps_pair_calm (A := bool)); [|exact Hc].
    repeat (apply within_bind; [exact _| |intros ?]); try (apply within_ret; exact _).
    apply calm_send.
Qed.

#[export] Instance quiet_keeps_pair `{Env} : Quiet keeps_pair.
Proof.
  split; try exact _; intros; try by apply keeps_pair_calm; calm_step.
  - apply keeps_pair_calm, calm_now.
  - apply keeps_pair_calm, calm_serve.
  - unfold drain_queue. apply keeps_pair_calm, calm_after_now. intros ?. calm_step.
  - apply keeps_pair_calm, calm_agent_limiter.
  - apply keeps_pair_check.
  - apply keeps_pair_calm. unfold ip_limiter_allow. apply calm_after_now. intros ?. calm_step.
  - apply keeps_pair_calm. unfold auth_limiter_allow. apply calm_after_now. intros ?. calm_step.
  - apply keeps_pair_calm. unfold tiered_allow. apply calm_after_now. intros ?. calm_step.
  - apply keeps_pair_calm. unfold set_tier.
    apply within_bind; [exact _|exact calm_now|]. intros ?. calm_step.
  - apply keeps_pair_calm, calm_request_id.
Qed.

(** One tick of the cleanup goroutines removes what has expired. *)
Lemma cleanup_lookup t (cs : gmap string rateCounter) i :
  filter (λ '(_, c), ¬ expires c < t) cs !! i =
    match cs !! i with
    | Some c => if decide (expires c < t) then None else Some c
    | None => None
    end.
Proof.
  rewrite map_lookup_filter. destruct (cs !! i) as [c|]; simpl; [|done].
  repeat case_guard; repeat case_decide; naive_solver.
Qed.

Lemma pair_ok_cleanup t w :
  clock w = t → pair_ok w →
  pair_ok (set_userRateLimiter (cleanup t) (set_messageRateLimiter (cleanup t) w)).
Proof.
  intros <- [Hm Hu Hc Hp]. split; [done|done|..]; intros i; simpl.
  - specialize (Hc i). rewrite cleanup_lookup.
    destruct (counters (messageRateLimiter w) !! i); [by case_decide|done].
  - specialize (Hp i). rewrite !cleanup_lookup. unfold pair_at in *.
    destruct (counters (userRateLimiter w) !! i) as [u|]; [|done]. case_decide; [done|].
    destruct (counters (messageRateLimiter w) !! i) as [m|]; [case_decide|]; lia.
Qed.

#[export] Instance admits_keeps_pair `{Env} : Admits keeps_pair.
Proof.
  split; try exact _; intros.
  - apply keeps_pair_calm, calm_exec.
  - apply keeps_pair_calm, calm_exec_rows.
  - by apply within_in_transaction; [exact _| |intros d; apply keeps_pair_calm; calm_step].
Qed.

#[export] Instance runs_keeps_pair `{Env} : Runs keeps_pair.
Proof.
  split; try exact _; intros; try by apply keeps_pair_calm; calm_step.
  - apply keeps_pair_calm, within_bind; [exact _|calm_step|]. intros [c|]; [|calm_step].
    apply calm_hub_do.
  - apply keeps_pair_calm, within_bind; [exact _|exact calm_now|]. intros t. apply calm_hub_do.
  - intros w Hok. pose proof (keeps_pair_calm _ calm_now w Hok) as Hok'.
    unfold limiter_cleanup. rewrite !run_bind. set (w1 := (now w).2) in *.
    destruct (pair_ok_cleanup (now w).1 w1 eq_refl Hok'). by split.
Qed.

Lemma boot_pair t ts fs d stored : pair_ok (boot_world t ts fs d stored).
Proof. by split. Qed.

