(* ===== verification/RouteProps.v ===== *)
(** * What no request can do: routes and their middleware *)

From S2P Require Import Prelude GoLib FixedWindow RateLimit Tiers Sql Queue Hub Store World Auth.
From S2P Require Import Conversations Routing Protocol Messages Reactions E2E Push Attachments Middleware.
From S2P Require Import Admits Effects System Runs.
From S2P Require Import Demo.

(** ** Handlers that are harmless for some requests *)

Definition harmless `{Env} (P : Request → Prop) (f : HandlerFunc) : Prop :=
  ∀ h r w, P r → wp (f h r) (λ _ w', db w' = db w) w.

(** What the middlewares add to a request does not matter to the class [P]. *)
Class Stable (P : Request → Prop) := {
  stable_header v r : P r → P (with_header "X-Request-ID" v r);
  stable_user u r : P r → P (with_user u r)
}.

Section harmless.
Context `{Env} (P : Request → Prop) `{!Stable P}.

Lemma wp_same_db {A B} (m : M A) (k : A → M B) w :
  within same_db m → (∀ a w', db w' = db w → wp (k a) (λ _ w'', db w'' = db w') w') →
  wp (m ≫= k) (λ _ w', db w' = db w) w.
Proof.
  intros Hm Hk. apply wp_bind, wp_quiet; [done|]. intros a w' Hw'.
  eapply wp_mono; [by apply Hk|]. intros ? w'' ->. done.
Qed.

Lemma harmless_quiet f : handler_within same_db f → harmless P f.
Proof. intros Hf h r w _. apply Hf. Qed.

Lemma harmless_csrf f : harmless P f → harmless P (csrfMiddleware f).
Proof. intros Hf h r w Hr. unfold csrfMiddleware. repeat case_match; auto; done. Qed.

Lemma harmless_cors f : harmless P f → harmless P (corsMiddleware f).
Proof. intros Hf h r w Hr. unfold corsMiddleware. repeat case_match; auto; done. Qed.

Lemma harmless_request_id f : harmless P f → harmless P (requestIDMiddleware f).
Proof.
  intros Hf h r w Hr. unfold requestIDMiddleware. apply wp_same_db; [walk|].
  intros v w' _. by apply Hf, stable_header.
Qed.

Lemma harmless_access_log f : harmless P f → harmless P (accessLogMiddleware f).
Proof.
  intros Hf h r w Hr. unfold accessLogMiddleware. apply wp_same_db; [walk|]. intros t w1 _.
  cbv zeta. apply wp_same_db; [walk|]. intros ? w2 _. apply wp_bind.
  eapply wp_mono; [by apply Hf|]. intros res w3 Hw3. by apply wp_bind.
Qed.

Lemma harmless_auth_limit f : harmless P f → harmless P (authRateLimitMiddleware f).
Proof.
  intros Hf h r w Hr. unfold authRateLimitMiddleware. apply wp_same_db; [walk|].
  intros [] w' _; simpl; [by apply Hf|done].
Qed.

Lemma harmless_tiered f : harmless P f → harmless P (tieredRateLimitMiddleware f).
Proof.
  intros Hf h r w Hr. unfold tieredRateLimitMiddleware. apply wp_same_db; [walk|].
  intros k w1 _. apply wp_same_db; [walk|]. intros [[[ok rem] retry] tier] w2 _. cbv zeta.
  destruct ok; simpl; [by apply Hf|done].
Qed.

Lemma harmless_admin f : harmless P f → harmless P (adminAuthMiddleware f).
Proof. intros Hf h r w Hr. unfold adminAuthMiddleware. cbv zeta. case_match; [auto|done]. Qed.

Lemma harmless_auth f : harmless P f → harmless P (authMiddleware f).
Proof.
  intros Hf h r w Hr. unfold authMiddleware. apply wp_same_db; [walk|].
  intros [c|e] w' _; [by apply Hf, stable_user|done].
Qed.
End harmless.

(** Peels the middlewares off a route, unless [stop] applies to one of them, and
    ends at the handler with [leaf]. *)
Ltac peel stop leaf :=
  first
    [ stop
    | lazymatch goal with
      | |- harmless _ (csrfMiddleware _) => apply harmless_csrf
      | |- harmless _ (requestIDMiddleware _) => apply harmless_request_id; [exact _|]
      | |- harmless _ (accessLogMiddleware _) => apply harmless_access_log
      | |- harmless _ (corsMiddleware _) => apply harmless_cors
      | |- harmless _ (authRateLimitMiddleware _) => apply harmless_auth_limit
      | |- harmless _ (adminAuthMiddleware _) => apply harmless_admin
      | |- harmless _ (authMiddleware _) => apply harmless_auth; [exact _|]
      | |- harmless _ (tieredRateLimitMiddleware _) => apply harmless_tiered
      end; peel stop leaf
    | leaf ].

(** The handlers that only read. *)
Ltac quiet_leaf :=
  apply harmless_quiet;
  first [apply within_or_stuck; [exact _|by intros ?|] | idtac]; intros ? ?; eauto 2 with within.

(** ** Requests without credentials *)

Section credentials.
Context `{Env}.

(** No token the JWT library accepts, and none of the two shared secrets. *)
Record no_credentials (r : Request) : Prop := {
  no_token t c : jwt_parse (bearer_token r) t ≠ Ok c;
  no_bearer t c : jwt_parse (TrimPrefix (HeaderGet r "Authorization") "Bearer ") t ≠ Ok c;
  no_agent_header : HeaderGet r "X-Agent-Secret" ≠ agentSecret;
  no_agent_form : FormValue r "agent_secret" ≠ agentSecret;
  no_admin_header : HeaderGet r "X-Admin-Secret" ≠ adminSecret;
  no_admin_form : FormValue r "admin_secret" ≠ adminSecret;
  no_admin_query : QueryGet r "admin_secret" ≠ adminSecret
}.

Lemma HeaderGet_request_id v r k :
  CanonicalHeaderKey k ≠ CanonicalHeaderKey "X-Request-ID" →
  HeaderGet (with_header "X-Request-ID" v r) k = HeaderGet r k.
Proof. intros Hk. unfold HeaderGet, get_str. simpl. by rewrite lookup_insert_ne. Qed.

#[local] Instance no_credentials_stable : Stable no_credentials.
Proof.
  split; [|by intros u r []]. intros v r [Ht Hb Ha Haf Hd Hdf Hdq].
  split; unfold bearer_token in *; rewrite ?HeaderGet_request_id by done; done.
Qed.

Lemma refuse_claims m h r k w :
  no_credentials r → wp (with_claims m h r k) (λ _ w', db w' = db w) w.
Proof.
  intros Hr. apply wp_with_claims; [by intros res w' []|].
  intros c w' _ [t Ht]. by destruct (no_token _ Hr t c).
Qed.

Lemma refuse_identity m h r k w :
  no_credentials r → wp (with_identity m h r k) (λ _ w', db w' = db w) w.
Proof.
  intros Hr. unfold with_identity. destruct (negb _); [done|].
  unfold authenticateRequest. cbv zeta. destruct (HasPrefix _ _).
  - apply wp_bind, wp_bind, wp_ValidateJWT; [done|]. intros t c w' Hp.
    by destruct (no_bearer _ Hr t c).
  - rewrite (bool_decide_eq_false_2 _ (no_agent_header _ Hr)), andb_false_r. done.
Qed.

Lemma refuse_bearer m h r k w :
  no_credentials r → wp (with_bearer m h r k) (λ _ w', db w' = db w) w.
Proof.
  intros Hr. apply wp_with_bearer; [by intros res w' []|].
  intros c w' _ [t Ht]. by destruct (no_bearer _ Hr t c).
Qed.

Lemma harmless_admin_secret f : harmless no_credentials (adminAuthMiddleware f).
Proof.
  intros h r w Hr. unfold adminAuthMiddleware, ValidateAdminSecret, ConstantTimeCompare.
  destruct Hr. cbv zeta. repeat case_match; try done; by case_bool_decide.
Qed.

Lemma harmless_auth_token f : harmless no_credentials (authMiddleware f).
Proof.
  intros h r w Hr. unfold authMiddleware. apply wp_bind, wp_ValidateJWT; [done|].
  intros t c w' Hp. by destruct (no_token _ Hr t c).
Qed.

Lemma harmless_register_agent : harmless no_credentials handleRegisterAgent.
Proof.
  intros h r w []. unfold handleRegisterAgent. cbv zeta. destruct (negb _); [done|].
  rewrite bool_decide_eq_true_2; [done|]. by case_match.
Qed.

Ltac credential_stop :=
  idtac; lazymatch goal with
  | |- harmless _ (adminAuthMiddleware _) => apply harmless_admin_secret
  | |- harmless _ (authMiddleware _) => apply harmless_auth_token
  | |- harmless _ handleRegisterAgent => apply harmless_register_agent
  end.

Ltac credential_leaf :=
  first
    [ solve [quiet_leaf]
    | intros ? ? ? ?;
      lazymatch goal with |- wp ?m ?Q ?w => let m := eval red in m in change (wp m Q w) end;
      first [by apply refuse_claims | by apply refuse_identity | by apply refuse_bearer] ].

Lemma routes_harmless :
  Forall (λ p, p.1 ≠ "/auth/user" → harmless no_credentials p.2) routes.
Proof.
  unfold routes, auth_route, read_route, write_route, plain_read, plain_write, admin_route, logged.
  repeat (apply Forall_cons; split; [simpl; intros Hp|]); [..|by constructor].
  all: try (by destruct (Hp eq_refl)).
  all: peel credential_stop credential_leaf.
Qed.

Lemma serve_http_harmless P r w :
  (∀ p f, (p, f) ∈ routes → p = URLPath r ∨ subtree_of (URLPath r) p → harmless P f) → P r →
  wp (serve_http r) (λ _ w', db w' = db w) w.
Proof.
  intros Hf Hr. unfold serve_http. destruct (find_route _) as [f|] eqn:Hh; simpl; [|done].
  apply find_route_in in Hh as (p & Hin & Hp). by eapply Hf.
Qed.

(** The one subtree pattern does not stand for another path of the table. *)
Lemma not_subtree path p (l : list string) :
  Forall (λ q, HasSuffix q "/" = false) l → p = path ∨ subtree_of path p → path ∉ l → p ∉ l.
Proof.
  rewrite Forall_forall. intros Hl [->|[Hs _]] Hp Hin; [done|]. rewrite (Hl p Hin) in Hs. done.
Qed.

(** C6: a request that carries no valid token and none of the shared
    secrets leaves the whole database as it is, on every path of the route table
    (System.v) but the public registration of users, and whatever else it
    contains. *)
Theorem unauthenticated_request_harmless r w :
  no_credentials r → URLPath r ≠ "/auth/user" →
  wp (serve_http r) (λ _ w', db w' = db w) w.
Proof.
  intros Hr Hp. apply (serve_http_harmless no_credentials); [|done].
  intros p f Hin Hm. apply (proj1 (Forall_forall _ _) routes_harmless _ Hin). simpl. intros ->.
  apply (not_subtree _ _ ["/auth/user"] ltac:(by repeat constructor) Hm); [|by left].
  by rewrite list_elem_of_singleton.
Qed.
End credentials.

(** ** Requests another site can make a browser send *)

Section cross_site.
Context `{Env}.

(** A form post: no header that only a script of an allowed origin could add,
    and no allowed origin. *)
Record cross_site (r : Request) : Prop := {
  cs_method : Method r = MethodPost;
  cs_requested_with : HeaderGet r "X-Requested-With" = EmptyString;
  cs_csrf_token : HeaderGet r "X-CSRF-Token" = EmptyString;
  cs_authorization : HeaderGet r "Authorization" = EmptyString;
  cs_agent_secret : HeaderGet r "X-Agent-Secret" = EmptyString;
  cs_origin : HeaderGet r "Origin" = EmptyString ∨ isOriginAllowed (HeaderGet r "Origin") = false;
  cs_admin_header : HeaderGet r "X-Admin-Secret" ≠ adminSecret;
  cs_admin_form : FormValue r "admin_secret" ≠ adminSecret;
  cs_admin_query : QueryGet r "admin_secret" ≠ adminSecret
}.

#[local] Instance cross_site_stable : Stable cross_site.
Proof.
  split; [|by intros u r []]. intros v r [].
  split; rewrite ?HeaderGet_request_id by done; done.
Qed.

Lemma csrf_refuses f : harmless cross_site (csrfMiddleware f).
Proof.
  intros h r w [Hm Hrw Ht Ha Hs Ho _ _ _]. unfold csrfMiddleware.
  rewrite Hm, Hrw, Ht, Ha, Hs. simpl.
  replace (negb (str_empty (HeaderGet r "Origin")) && isOriginAllowed (HeaderGet r "Origin"))
    with false; [done|]. by destruct Ho as [->| ->]; [|rewrite andb_false_r].
Qed.

Lemma cross_site_admin f : harmless cross_site (adminAuthMiddleware f).
Proof.
  intros h r w []. unfold adminAuthMiddleware, ValidateAdminSecret, ConstantTimeCompare.
  cbv zeta. repeat case_match; try done; by case_bool_decide.
Qed.

Lemma cross_site_key_bundle : harmless cross_site handleGetKeyBundle.
Proof.
  intros h r w []. unfold handleGetKeyBundle, with_identity, method_is.
  by rewrite cs_method0.
Qed.

Ltac cross_site_stop :=
  idtac; lazymatch goal with
  | |- harmless _ (csrfMiddleware _) => apply csrf_refuses
  | |- harmless _ (adminAuthMiddleware _) => apply cross_site_admin
  | |- harmless _ handleGetKeyBundle => apply cross_site_key_bundle
  end.

Lemma routes_cross_site : Forall (λ p, harmless cross_site p.2) routes.
Proof.
  unfold routes, auth_route, read_route, write_route, plain_read, plain_write, admin_route, logged.
  repeat (apply Forall_cons; split; [simpl|]); [..|by constructor].
  all: peel cross_site_stop quiet_leaf.
Qed.

End cross_site.

(** ** Safe methods *)

Section safe.
Context `{Env}.

Definition get_request (r : Request) : Prop := Method r = MethodGet.

#[local] Instance get_request_stable : Stable get_request.
Proof. by split. Qed.

Lemma get_refused m h r k w :
  m ≠ MethodGet → get_request r → wp (with_claims m h r k) (λ _ w', db w' = db w) w.
Proof.
  intros Hm Hr. unfold with_claims, method_is. rewrite bool_decide_eq_false_2; [done|]. by rewrite Hr.
Qed.

Lemma get_refused_identity h r k w :
  get_request r → wp (with_identity MethodPost h r k) (λ _ w', db w' = db w) w.
Proof.
  intros Hr. unfold with_identity, method_is. rewrite bool_decide_eq_false_2; [done|]. by rewrite Hr.
Qed.

Lemma get_refused_bearer h r k w :
  get_request r → wp (with_bearer MethodPost h r k) (λ _ w', db w' = db w) w.
Proof.
  intros Hr. unfold with_bearer, method_is. rewrite bool_decide_eq_false_2; [done|]. by rewrite Hr.
Qed.

Ltac no_stop := idtac; fail.

Ltac get_leaf :=
  first
    [ solve [quiet_leaf]
    | intros ? ? ? Hr;
      lazymatch goal with |- wp ?m ?Q ?w => let m := eval red in m in change (wp m Q w) end;
      first
        [ by apply get_refused | by apply get_refused_identity | by apply get_refused_bearer
        | unfold method_is; rewrite Hr; first [done | apply (within_handleGetRateLimitTier same_db)] ] ].

(** The handlers that write whatever the method. *)
Definition writing_gets : list string :=
  ["/keys/bundle"; "/notification-prefs/set"; "/notification-prefs/delete"].

Lemma routes_get : Forall (λ p, p.1 ∉ writing_gets → harmless get_request p.2) routes.
Proof.
  unfold routes, auth_route, read_route, write_route, plain_read, plain_write, admin_route, logged.
  repeat (apply Forall_cons; split; [simpl; intros Hp|]); [..|by constructor].
  all: try (exfalso; apply Hp, (bool_decide_unpack _); vm_compute; exact I).
  all: peel no_stop get_leaf.
Qed.

(** C8: a GET request changes nothing in the database, on every path
    of the route table but the three that [writing_gets] names: fetching a key
    bundle uses up a one-time key, and the two preference endpoints do not look
    at the method.  (The two upgrade endpoints are not in the table.) *)
Theorem get_request_harmless r w :
  get_request r → URLPath r ∉ writing_gets →
  wp (serve_http r) (λ _ w', db w' = db w) w.
Proof.
  intros Hr Hp. apply (serve_http_harmless get_request); [|done].
  intros p f Hin Hm. apply (proj1 (Forall_forall _ _) routes_get _ Hin). simpl.
  by apply (not_subtree (URLPath r)); [repeat constructor|..].
Qed.
End safe.

#[local] Existing Instance demo_env.

(** A guessed token, a form of another site, a read. *)
Definition demo_guess : Request :=
  demo_request MethodPost "/messages/edit" [("Authorization", "Bearer guess")] []
    [("message_id", "m1"); ("content", "defaced")].

Definition demo_forged : Request :=
  demo_request MethodPost "/notification-prefs/set" [("Origin", "https://evil.example")] []
    [("conversation_id", "c1"); ("muted", "true")].

Definition demo_read : Request :=
  demo_request MethodGet "/conversations/delete" [("Authorization", "Bearer user:u1")]
    [("conversation_id", "c1")] [].

Lemma demo_guess_no_credentials : no_credentials demo_guess.
Proof.
  split; try (vm_compute; discriminate); try reflexivity.
  all: intros; eexists; vm_compute; reflexivity.
Qed.

Lemma unauthenticated_request_harmless_witness :
  no_credentials demo_guess ∧ URLPath demo_guess ≠ "/auth/user" ∧
  wp (serve_http demo_guess) (λ _ w', db w' = db demo_world) demo_world.
Proof.
  assert (URLPath demo_guess ≠ "/auth/user") as Hp by (vm_compute; discriminate).
  split; [exact demo_guess_no_credentials|]. split; [exact Hp|].
  exact (unauthenticated_request_harmless demo_guess demo_world demo_guess_no_credentials Hp).
Defined.

Lemma demo_forged_cross_site : cross_site demo_forged.
Proof. split; try (vm_compute; discriminate); try reflexivity. right. vm_compute. reflexivity. Qed.


Lemma get_request_harmless_witness :
  get_request demo_read ∧ URLPath demo_read ∉ writing_gets ∧
  wp (serve_http demo_read) (λ _ w', db w' = db demo_world) demo_world.
Proof.
  assert (URLPath demo_read ∉ writing_gets) as Hp
    by (apply (bool_decide_unpack _); vm_compute; exact I).
  split; [reflexivity|]. split; [exact Hp|].
  exact (get_request_harmless demo_read demo_world eq_refl Hp).
Defined.
