(* ===== verification/DurableProps.v ===== *)
(** * The offline queue across a restart, and its replay

    Every message put in the memory queue is also a row of [offline_queue]; the
    start of the server reads the rows back.  [synced] relates the two. *)

From S2P Require Import Prelude GoLib FixedWindow RateLimit Tiers Sql Queue Hub HubInv HubProps.
From S2P Require Import Store StoreInv World Auth Conversations Routing Protocol Messages Reactions.
From S2P Require Import E2E Push Middleware Admits Effects System.
From S2P Require Import Demo.

(** ** Reading the rows back *)

Definition rows_for (r : string) (l : list QueueRow) : list json :=
  q_data <$> filter (λ x, q_recipient x = r) l.

Section durable.
Context `{Env}.

(** The documents the database holds for a recipient, oldest first. *)
Definition queued_rows (d : DB) (r : string) : list json :=
  rows_for r (order_by (key_asc q_id) (offline_queue d)).

Definition texts (r : string) (q : OfflineQueue) : list json := data <$> buffer r q.

Definition depth (q : OfflineQueue) : nat := Z.to_nat (maxLen q).

Lemma texts_Enqueue t r d q r' :
  0 < maxLen q →
  texts r' (Enqueue t r d q) =
    if decide (r = r') then last_n (depth q) (texts r q ++ [d]) else texts r' q.
Proof.
  intros Hm. unfold texts. rewrite buffer_Enqueue by done. case_decide; [|done].
  by rewrite <-last_n_fmap, fmap_app.
Qed.

Lemma texts_short r q : Queue.wf q → (length (texts r q) ≤ depth q)%nat.
Proof.
  intros [Hm _ Hb]. unfold texts, depth, buffer. rewrite length_fmap.
  destruct (buffers q !! r) as [l|] eqn:Hl; simpl; [|lia]. apply Hb in Hl. lia.
Qed.

(** Cutting before or after more is appended is the same. *)
Lemma last_n_app_last {A} n (l k : list A) :
  (0 < n)%nat → last_n n (last_n n l ++ k) = last_n n (l ++ k).
Proof.
  intros Hn. induction k as [|x k IH] using rev_ind.
  { rewrite !app_nil_r. apply last_n_all. rewrite length_last_n. lia. }
  by rewrite !app_assoc, <-last_n_snoc, IH, last_n_snoc.
Qed.

Definition load_row (r : QueueRow) : M unit :=
  t ← now; modify (set_offlineQueue (Enqueue t (q_recipient r) (q_data r))).

Lemma load_rows l w :
  Queue.wf (offlineQueue w) →
  let w' := (for_each load_row l w).2 in
  Queue.wf (offlineQueue w') ∧ maxLen (offlineQueue w') = maxLen (offlineQueue w) ∧
  ∀ r, texts r (offlineQueue w') =
    last_n (depth (offlineQueue w)) (texts r (offlineQueue w) ++ rows_for r l).
Proof.
  revert w. induction l as [|x l IH]; intros w Hwf; cbv zeta.
  { split_and!; [done|done|]. intros r. unfold rows_for. simpl. rewrite app_nil_r, last_n_all; [done|].
    by apply texts_short. }
  simpl. rewrite run_bind. set (t := (now w).1).
  set (w1 := (load_row x w).2).
  assert (offlineQueue w1 = Enqueue t (q_recipient x) (q_data x) (offlineQueue w)) as Hq by done.
  assert (Queue.wf (offlineQueue w1)) as Hwf1 by (rewrite Hq; by apply wf_Enqueue).
  destruct (IH w1 Hwf1) as (Hwf' & Hm & Ht). split_and!; [done|by rewrite Hm|].
  intros r. rewrite Ht. unfold depth. rewrite Hq. simpl. fold (depth (offlineQueue w)).
  rewrite texts_Enqueue by apply Hwf. unfold rows_for. rewrite filter_cons.
  destruct (decide (q_recipient x = r)) as [Hr|Hr]; [|done].
  rewrite fmap_cons. subst r.
  rewrite last_n_app_last; [by rewrite <-app_assoc|]. unfold depth. pose proof (wf_maxLen _ Hwf). lia.
Qed.

(** ** Memory and database in step *)

Record synced (w : World) : Prop := {
  synced_wf : Queue.wf (offlineQueue w);
  synced_depth : maxLen (offlineQueue w) = 100;
  synced_ids : unique q_id (offline_queue (db w)) ∧
    Forall (λ r, q_id r ≤ queue_seq (db w)) (offline_queue (db w));
  synced_texts r : texts r (offlineQueue w) = last_n 100 (queued_rows (db w) r)
}.

(** The rest of the start: tiers and limits. *)
Definition settles : relation World := λ w w',
  offlineQueue w' = offlineQueue w ∧ db w' = db w ∧ (faults w = [] → faults w' = []) ∧
  hub w' = hub w ∧ spawned w' = spawned w ∧ clock w ≤ clock w'.

#[local] Instance settles_preorder : PreOrder settles.
Proof.
  split; [done|]. intros x y z (? & ? & ? & ? & ? & ?) (? & ? & ? & ? & ? & ?). unfold settles.
  split_and!; congruence || lia || auto.
Qed.

Lemma settles_now : within settles now.
Proof. intros w. split_and!; simpl; done || lia. Qed.

Lemma settles_query {A} (q : DB → Result A) : within settles (query q).
Proof. intros w. rewrite run_query. split_and!; try done. simpl. by intros ->. Qed.

Lemma settles_set_tier u t : within settles (set_tier u t).
Proof. intros w. split_and!; simpl; done || lia. Qed.
#[local] Hint Resolve settles_now settles_query settles_set_tier : within.

Lemma settles_loadTiers : within settles loadTiersFromDB.
Proof.
  unfold loadTiersFromDB. walk. apply within_for_each; [exact _|]. intros row. unfold load_tier.
  cbv zeta. walk.
Qed.

Lemma start_loads limit t ts d stored :
  ∃ w0, offlineQueue w0 = newOfflineQueue 100 (7 * 24 * Hour) ∧ db w0 = d ∧
    faults w0 = [] ∧ hub w0 = newHub ∧ spawned w0 = [] ∧ t ≤ clock w0 ∧
    (start limit (boot_world t ts [] d stored)).2
      = (for_each load_row (order_by (key_asc q_id) (offline_queue d)) w0).2.
Proof.
  unfold start. rewrite !run_bind. set (w1 := (initAuthRateLimit _ _).2).
  destruct (settles_loadTiers w1) as (Hq & Hd & Hf & Hh & Hs & Ht).
  set (w2 := (loadTiersFromDB w1).2) in *.
  exists (stepped w2). assert (faults w2 = []) as Hf2 by by apply Hf.
  split_and!; [done|done|simpl; by rewrite Hf2|exact Hh|exact Hs|exact Ht|].
  unfold loadQueueFromDB. rewrite run_bind, run_query.
  assert (failing w2 = false) as -> by (unfold failing; by rewrite Hf2). cbn [fst snd].
  by rewrite Hd.
Qed.

Lemma start_synced limit t ts d stored :
  unique q_id (offline_queue d) → Forall (λ r, q_id r ≤ queue_seq d) (offline_queue d) →
  synced (start limit (boot_world t ts [] d stored)).2.
Proof.
  intros Hu Hs.
  destruct (start_loads limit t ts d stored) as (w0 & Hq & Hd & _ & _ & _ & _ & ->).
  assert (Queue.wf (offlineQueue w0)) as Hwf by (rewrite Hq; apply wf_new).
  destruct (load_rows (order_by (key_asc q_id) (offline_queue d)) w0 Hwf) as (Hwf' & Hm & Ht).
  assert (db (for_each load_row (order_by (key_asc q_id) (offline_queue d)) w0).2 = d) as Hd'.
  { rewrite <-Hd. apply (within_for_each same_db). intros x. done. }
  split; [done|by rewrite Hm, Hq|by rewrite Hd'|].
  intros r. rewrite Ht, Hd'. unfold depth, queued_rows. rewrite Hq. simpl. done.
Qed.

(** A row with a fresh number comes last. *)
Lemma queued_rows_insert r d t db0 db1 r' :
  unique q_id (offline_queue db0) → Forall (λ x, q_id x ≤ queue_seq db0) (offline_queue db0) →
  insert_queued r d t db0 = Ok db1 →
  queued_rows db1 r' = queued_rows db0 r' ++ (if decide (r = r') then [d] else []).
Proof.
  intros Hu Hs [= <-]. unfold queued_rows, rows_for. simpl.
  rewrite order_by_snoc; [|exact _..| |].
  - rewrite filter_app, fmap_app, filter_cons. simpl. by case_decide.
  - intros y z Hy Hz Hyz Hzy. unfold key_asc in *.
    apply (unique_inj q_id (offline_queue db0)); [done..|lia].
  - intros y Hy. rewrite Forall_forall in Hs. specialize (Hs y Hy). unfold key_asc. simpl. lia.
Qed.

(** Putting a message keeps memory and database in step, if the insert works. *)
Lemma queue_message_synced r d w :
  faults w = [] → synced w →
  let w' := (queue_message r d w).2 in
  synced w' ∧ faults w' = [] ∧
  texts r (offlineQueue w') = last_n 100 (texts r (offlineQueue w) ++ [d]).
Proof.
  intros Hf [Hwf Hm [Hu Hs] Ht]. unfold queue_message, persistQueue. rewrite !run_bind. cbv zeta.
  set (t := (now w).1). set (w1 := (now w).2).
  set (w2 := (modify (set_offlineQueue (Enqueue t r d)) w1).2). rewrite run_exec.
  set (w3 := (now w2).2). set (t' := (now w2).1).
  assert (failing w3 = false) as -> by (unfold failing; simpl; by rewrite Hf).
  destruct (insert_queued r d (t' / Second * Second) (db w3)) as [d1|e] eqn:Hi; [|done].
  assert (offlineQueue w3 = Enqueue t r d (offlineQueue w)) as Hq by done.
  assert (∀ r', texts r' (Enqueue t r d (offlineQueue w)) =
    last_n 100 (queued_rows (db w) r' ++ (if decide (r = r') then [d] else []))) as Htexts.
  { intros r'. rewrite texts_Enqueue by apply Hwf. unfold depth. rewrite Hm, !Ht.
    case_decide; [subst; by rewrite last_n_app_last by (simpl; lia)|by rewrite app_nil_r]. }
  split_and!.
  - split; simpl; [by apply wf_Enqueue|done| |].
    + simpl in Hi. injection Hi as <-. simpl. split.
      * unfold unique. rewrite fmap_app. apply NoDup_app. split_and!; [done| |apply NoDup_singleton].
        intros i (x & -> & Hx)%list_elem_of_fmap Hin%list_elem_of_singleton.
        rewrite Forall_forall in Hs. specialize (Hs x Hx). simpl in Hin. lia.
      * apply Forall_app. split; [|repeat constructor; simpl; lia].
        eapply Forall_impl; [exact Hs|]. simpl. intros. lia.
    + intros r'. rewrite Htexts. by rewrite (queued_rows_insert r d _ _ _ r' Hu Hs Hi).
  - simpl. by rewrite Hf.
  - simpl. rewrite texts_Enqueue, decide_True by (done || apply Hwf). unfold depth. by rewrite Hm.
Qed.

(** A server started on the database has the same documents in memory. *)
Lemma restart_texts limit t ts w stored :
  synced w →
  let w' := (start limit (boot_world t ts [] (db w) stored)).2 in
  synced w' ∧ ∀ r, texts r (offlineQueue w') = texts r (offlineQueue w).
Proof.
  intros Hs. cbv zeta. destruct (synced_ids _ Hs) as [Hu Hseq].
  pose proof (start_synced limit t ts (db w) stored Hu Hseq) as Hs'. split; [done|]. intros r.
  rewrite (synced_texts _ Hs'), (synced_texts _ Hs).
  destruct (start_loads limit t ts (db w) stored) as (w0 & _ & Hd & _ & _ & _ & _ & ->).
  assert (db (for_each load_row (order_by (key_asc q_id) (offline_queue (db w))) w0).2 = db w0)
    as -> by (apply (within_for_each same_db); intros x; done). by rewrite Hd.
Qed.

Lemma last_queued r d w w' :
  texts r (offlineQueue w') = last_n 100 (texts r (offlineQueue w) ++ [d]) →
  last (texts r (offlineQueue w')) = Some d.
Proof.
  intros ->. unfold last_n. rewrite drop_app_le, last_snoc; [done|]. rewrite length_app. simpl. lia.
Qed.

(** A message that is queued for an absent recipient survives a
    restart.  When memory and database are in step and the insert does not fail,
    the recipient's queue ends with the message, a server started on the
    database afterwards holds the same documents for every recipient in the same
    order, and its memory and database are in step again. *)
Theorem queued_message_survives_restart r d w limit t ts stored :
  faults w = [] → synced w →
  let w1 := (queue_message r d w).2 in
  let w2 := (start limit (boot_world t ts [] (db w1) stored)).2 in
  last (texts r (offlineQueue w1)) = Some d ∧
  (∀ r', texts r' (offlineQueue w2) = texts r' (offlineQueue w1)) ∧
  synced w1 ∧ synced w2.
Proof.
  intros Hf Hs. cbv zeta. destruct (queue_message_synced r d w Hf Hs) as (Hs1 & Hf1 & Ht1).
  destruct (restart_texts limit t ts _ stored Hs1) as [Hs2 Ht2].
  split_and!; [by eapply last_queued|done..].
Qed.

(** ** Replay *)

(** The live connection's channel takes the replayable documents from the front
    until it is full. *)
Lemma replay_loop_fills conn l w c :
  heap (hub w) !! conn = Some c → closed c = false → send_closed c = false →
  let w' := (replay_loop conn l w).2 in
  db w' = db w ∧ offlineQueue w' = offlineQueue w ∧
  heap (hub w') !! conn = Some (set_send
    (send c ++ take (send_capacity - length (send c)) (filter (λ d, replayable d = true) l)) c).
Proof.
  revert w c. induction l as [|d l IH]; intros w c Hc Hcl Hsc; cbv zeta; simpl.
  { split_and!; [done..|]. rewrite Hc, filter_nil, take_nil, app_nil_r. by destruct c. }
  rewrite filter_cons. destruct (replayable d) eqn:Hd; simpl; [|by apply IH].
  rewrite run_bind. unfold SafeSendTo, safe_send, SafeSend, IsClosed.
  rewrite Hc, Hcl, Hsc. case_decide as Hlen; simpl.
  - set (c' := set_send (send c ++ [d]) c). set (w1 := set_hub _ w).
    destruct (IH w1 c') as (Hdb & Hq & Hh); [simpl; apply lookup_insert_eq|done..|].
    split_and!; [done..|]. rewrite Hh. simpl. rewrite length_app. simpl. f_equal. unfold set_send. simpl.
    f_equal. rewrite <-app_assoc. f_equal.
    replace (send_capacity - length (send c))%nat with (S (send_capacity - (length (send c) + 1)))
      by lia. done.
  - split_and!; [done..|]. rewrite lookup_insert_eq.
    replace (send_capacity - length (send c))%nat with O by lia. rewrite take_0, app_nil_r.
    by destruct c.
Qed.

Lemma run_drain i w :
  drain_queue i w =
    let dr := Drain (now w).1 i (offlineQueue w) in
    (dr.1, set_offlineQueue (λ _, dr.2) (now w).2).
Proof.
  unfold drain_queue. rewrite run_bind. unfold state.
  by rewrite (surjective_pairing (Drain _ _ _)).
Qed.

Lemma replay_fills conn i w c :
  heap (hub w) !! conn = Some c → closed c = false → send_closed c = false → faults w = [] →
  let t := (now w).1 in
  let unexpired := data <$> filter (λ m, ¬ expired t (offlineQueue w) m) (buffer i (offlineQueue w)) in
  let w' := (replayOfflineMessages conn i w).2 in
  buffer i (offlineQueue w') = [] ∧
  (unexpired ≠ [] → i ∉ q_recipient <$> offline_queue (db w')) ∧
  heap (hub w') !! conn = Some (set_send
    (send c ++ take (send_capacity - length (send c))
                 (filter (λ d, replayable d = true) unexpired)) c).
Proof.
  intros Hc Hcl Hsc Hf. cbv zeta. unfold replayOfflineMessages. rewrite run_bind, run_drain.
  set (t := (now w).1). cbn [fst snd]. rewrite Drain_result.
  set (l := data <$> filter _ _). set (w1 := set_offlineQueue _ _).
  assert (buffer i (offlineQueue w1) = []) as Hb
    by (subst w1; simpl; by rewrite buffer_Drain, decide_True).
  destruct l as [|d l'] eqn:Hl.
  { split_and!; [done|done|]. rewrite filter_nil, take_nil, app_nil_r. simpl. rewrite Hc.
    by destruct c. }
  rewrite run_bind. unfold deleteQueueMessages. rewrite run_bind, run_exec.
  assert (failing w1 = false) as -> by (unfold failing; simpl; by rewrite Hf).
  unfold delete_queued. set (w2 := set_db _ (stepped w1)).
  unfold mret, St_ret. cbn [fst snd].
  destruct (replay_loop_fills conn (d :: l') w2 c) as (Hdb & Hq & Hh); [done..|].
  split_and!.
  - rewrite Hq. exact Hb.
  - intros _. rewrite Hdb. simpl. intros (x & Hx & Hin)%list_elem_of_fmap.
    by apply list_elem_of_filter in Hin as [? _].
  - exact Hh.
Qed.

End durable.

#[local] Existing Instance demo_env.

(** A server started on the small database, with a message queued for the agent
    and the agent connected to an empty channel. *)
Definition demo_started : World := (start "30" demo_world).2.

Definition demo_text (content : string) : json :=
  JObj [("type", JStr "message"); ("data", JObj [("content", JStr content)])].

Lemma demo_started_synced : synced demo_started.
Proof.
  apply start_synced; [exact (NoDup_nil_2)|exact (Forall_nil_2 _)].
Qed.

Lemma queued_message_survives_restart_witness :
  faults demo_started = [] ∧ synced demo_started ∧
  let w1 := (queue_message "a1" (demo_text "hi") demo_started).2 in
  let w2 := (start "30" (boot_world 5 [] [] (db w1) ∅)).2 in
  last (texts "a1" (offlineQueue w1)) = Some (demo_text "hi") ∧
  (∀ r', texts r' (offlineQueue w2) = texts r' (offlineQueue w1)) ∧
  synced w1 ∧ synced w2.
Proof.
  assert (faults demo_started = []) as Hf by (vm_compute; reflexivity).
  split; [exact Hf|]. split; [exact demo_started_synced|].
  exact (queued_message_survives_restart "a1" (demo_text "hi") demo_started "30" 5 [] ∅
    Hf demo_started_synced).
Defined.

Definition demo_socket : Connection := newConnection Agent "a1" EmptyString 0 "v1".

Definition demo_connected : World :=
  let w := (queue_message "a1" (demo_text "hi") demo_started).2 in
  set_hub (λ h, (alloc demo_socket h).2) w.

