(* ===== verification/DeliveryProps.v ===== *)
(** * From the sender's queue to the recipient's socket

    The pieces of offline delivery put together: a document that is queued for an
    absent recipient, a restart of the process, the recipient's connection and
    the replay it starts. *)

From S2P Require Import Prelude GoLib FixedWindow RateLimit Tiers Sql Queue Hub HubInv HubProps.
From S2P Require Import Store StoreInv World Auth Conversations Routing Protocol Messages Reactions.
From S2P Require Import E2E Push Middleware Admits Effects System DurableProps.
From S2P Require Import Demo.

(** ** A new connection in the hub *)

Lemma send_all_other rs d h r : r ∉ rs → heap (send_all rs d h) !! r = heap h !! r.
Proof.
  unfold send_all. revert h. induction rs as [|r' rs IH]; intros h Hr; simpl; [done|].
  apply not_elem_of_cons in Hr as [Hne Hr]. rewrite IH by done. unfold safe_send.
  destruct (heap h !! r') as [c|]; [|done]. destruct (SafeSend d c). simpl.
  by rewrite lookup_insert_ne.
Qed.

Lemma mark_and_close_other r r' h h' :
  mark_and_close r' h = Some h' → r ≠ r' →
  heap h' !! r = heap h !! r ∧ clientConns h' = clientConns h.
Proof.
  unfold mark_and_close. intros (c & Hc & (c' & Hc' & [= <-])%bind_Some)%bind_Some Hne.
  simpl. by rewrite lookup_insert_ne.
Qed.

Lemma agent_ref_known h a r : HubInv.wf h → Hub.agents h !! a = Some r → (r < next_ref h)%nat.
Proof.
  intros Hwf Ha. apply (HubInv.wf_fresh _ Hwf). apply (HubInv.wf_agents _ Hwf) in Ha as [dev Hl].
  apply live_Some in Hl as (c & Hc & _). eauto.
Qed.

Lemma device_ref_known h u r : HubInv.wf h → r ∈ devices u h → (r < next_ref h)%nat.
Proof.
  intros Hwf Hr. apply (HubInv.wf_fresh _ Hwf). apply (HubInv.wf_devices _ Hwf) in Hr as [dev Hl].
  apply live_Some in Hl as (c & Hc & _). eauto.
Qed.

Lemma client_ref_known h r : HubInv.wf h → r ∈ client_refs h → (r < next_ref h)%nat.
Proof.
  intros Hwf ([u rs] & Hr & Hin)%list_elem_of_bind. apply elem_of_map_to_list in Hin.
  apply (device_ref_known h u); [done|]. unfold devices. by rewrite Hin.
Qed.

(** Open, and with the channel it was made with. *)
Definition opened (c c' : Connection) : Prop :=
  send c' = send c ∧ closed c' = closed c ∧ send_closed c' = send_closed c ∧ id c' = id c.

Lemma register_opens now c h h' :
  HubInv.wf h → register now (next_ref h) (alloc c h).2 = Some h' →
  ∃ c', heap h' !! next_ref h = Some c' ∧ opened c c'.
Proof.
  intros Hwf. unfold register, alloc. cbn [snd heap]. rewrite lookup_insert_eq. simpl.
  destruct (connType c).
  - set (h1 := set_heap _ _). intros (h2 & Hh2 & [= <-])%bind_Some.
    assert (heap h1 !! next_ref h = Some (set_heartbeat now c)) as H1.
    { subst h1. simpl. by rewrite lookup_alter_eq, lookup_insert_eq. }
    assert (heap h2 !! next_ref h = heap h1 !! next_ref h ∧ clientConns h2 = clientConns h1) as [Hr Hc].
    { destruct (Hub.agents h !! id c) as [old|] eqn:Ha; [|by injection Hh2 as <-].
      eapply mark_and_close_other; [exact Hh2|]. apply agent_ref_known in Ha; [lia|done]. }
    exists (set_heartbeat now c). split; [|done]. unfold broadcastPresence.
    rewrite send_all_other; [by simpl; rewrite Hr|]. intros Hin.
    assert (next_ref h ∈ client_refs h) as Hin' by (unfold client_refs in *; simpl in *; by rewrite Hc in Hin).
    apply client_ref_known in Hin'; [lia|done].
  - set (h1 := mkHub _ _ _ _ _). destruct (find_device h1 _ _) as [i|].
    + intros (old & Ho & (h2 & Hh2 & [= <-])%bind_Some)%bind_Some.
      change (devices (id c) h1) with (devices (id c) h) in Ho.
      apply list_elem_of_lookup_2, device_ref_known in Ho; [|done].
      apply (mark_and_close_other (next_ref h)) in Hh2 as [Hr _]; [|lia].
      exists c. split; [|done]. simpl. rewrite Hr. subst h1. simpl. by rewrite lookup_insert_eq.
    + intros [= <-]. exists c. split; [|done]. subst h1. simpl. by rewrite lookup_insert_eq.
Qed.

(** ** The connection that is served *)

Section delivery.
Context `{Env} (Upgrade : bool → gmap string string → Request → option Response).

(** What [serve] leaves: a connection whose channel holds the welcome message, and
    the goroutine that will replay; queue and tables are as before. *)
Record served (c : Connection) (w w' : World) : Prop := {
  served_conn : ∃ c', heap (hub w') !! next_ref (hub w) = Some c' ∧ send c' = [welcome c] ∧
    closed c' = false ∧ send_closed c' = false ∧ id c' = id c;
  served_queue : offlineQueue w' = offlineQueue w;
  served_db : db w' = db w;
  served_faults : faults w' = faults w;
  served_spawned : spawned w' = spawned w ++ [GoReplay (next_ref (hub w))];
  served_clock : clock w ≤ clock w'
}.

Lemma serve_served ct i dev t v w :
  HubInv.wf (hub w) →
  served (newConnection ct i dev t v) w (serve (newConnection ct i dev t v) w).2.
Proof.
  intros Hwf. set (c := newConnection ct i dev t v).
  destruct (alloc c (hub w)) as [r h1] eqn:Ha.
  assert (r = next_ref (hub w)) as -> by (unfold alloc in Ha; by injection Ha).
  set (w0 := set_hub (λ _, h1) w). set (t1 := (now w0).1). set (w1 := (now w0).2).
  destruct (connect_spec t1 t ct i dev v (hub w) Hwf) as (h2 & Hc & _).
  unfold connect in Hc. fold c in Hc. rewrite Ha in Hc.
  assert (state (λ w, let '(r, h) := alloc c (hub w) in (r, set_hub (λ _, h) w)) w
          = (next_ref (hub w), w0)) as Hs by (unfold state; by rewrite Ha).
  destruct (register_opens t1 c (hub w) h2 Hwf) as (c' & Hc' & Hsend & Hcl & Hscl & Hid); [by rewrite Ha|].
  unfold serve. rewrite run_bind, Hs. cbn [fst snd]. rewrite run_bind, run_bind.
  rewrite (run_hub_do _ _ h2) by exact Hc. cbn [snd]. rewrite run_bind. unfold sendWelcomeMessage.
  rewrite !run_bind. unfold SafeSendTo, safe_send. simpl. rewrite Hc'. unfold SafeSend, IsClosed.
  rewrite Hcl, Hscl, Hsend. simpl. split; simpl; try done; [|lia].
  exists (set_send [welcome c] c'). rewrite lookup_insert_eq. split; [done|]. simpl.
  rewrite Hcl, Hscl, Hid. done.
Qed.

(** ** The queue after a start *)

(** Everything queued since [t]. *)
Definition queued_since (t : Z) (q : OfflineQueue) : Prop :=
  ∀ r m, m ∈ buffer r q → t ≤ queuedAt m.

Lemma load_rows_since t l w :
  Queue.wf (offlineQueue w) → t ≤ clock w → queued_since t (offlineQueue w) →
  let w' := (for_each load_row l w).2 in
  queued_since t (offlineQueue w') ∧ ttl (offlineQueue w') = ttl (offlineQueue w) ∧
  hub w' = hub w ∧ spawned w' = spawned w ∧ faults w' = faults w.
Proof.
  revert w. induction l as [|x l IH]; intros w Hwf Ht Hs; [done|]. cbv zeta. simpl.
  rewrite run_bind. set (w1 := (load_row x w).2).
  set (n := clock w + Z.of_N (default 0%N (head (ticks w)))).
  assert (offlineQueue w1 = Enqueue n (q_recipient x) (q_data x) (offlineQueue w)) as Hq by done.
  assert (t ≤ n) as Hn by lia.
  destruct (IH w1) as (H1 & H2 & H3 & H4 & H5); [rewrite Hq; by apply wf_Enqueue|done| |done].
  intros r m. rewrite Hq, buffer_Enqueue by apply Hwf. case_decide as Hr; [|by apply Hs].
  unfold last_n. intros Hm%subseteq_drop%elem_of_app. destruct Hm as [Hm|Hm%list_elem_of_singleton]; [by eapply Hs|].
  by subst m.
Qed.

(** A recipient that connects, and the goroutine its connection starts. *)
Lemma serve_then_replay ct r dev tc v w :
  HubInv.wf (hub w) → Queue.wf (offlineQueue w) → spawned w = [] → faults w = [] →
  let c0 := newConnection ct r dev tc v in
  let w1 := (serve c0 w).2 in
  let w2 := (step Upgrade (EvGoroutine 0) w1).2 in
  (∀ m, m ∈ buffer r (offlineQueue w) → ¬ expired (now w1).1 (offlineQueue w) m) →
  maxLen (offlineQueue w) = 100 →
  ∃ c, heap (hub w2) !! next_ref (hub w) = Some c ∧
    send c = welcome c0 :: filter (λ x, replayable x = true) (texts r (offlineQueue w)) ∧
    buffer r (offlineQueue w2) = [] ∧
    (texts r (offlineQueue w) ≠ [] → r ∉ q_recipient <$> offline_queue (db w2)).
Proof.
  intros Hwf Hq Hsp Hf c0 w1 w2 Hexp Hmax.
  destruct (serve_served ct r dev tc v w Hwf) as [(c & Hc & Hsend & Hcl & Hscl & Hid) Hoq Hdb Hfl Hspw _].
  fold c0 in Hc, Hsend, Hid, Hoq, Hdb, Hfl, Hspw. fold w1 in Hc, Hoq, Hdb, Hfl, Hspw.
  rewrite Hsp in Hspw. simpl in Hspw. set (conn := next_ref (hub w)) in *.
  set (w1' := set_spawned (delete O) w1).
  assert (heap (hub w1') !! conn = Some c) as Hc' by exact Hc.
  assert (w2 = (replayOfflineMessages conn r w1').2) as ->.
  { subst w2. unfold step. rewrite run_bind. unfold take_goroutine, state. cbn [fst snd].
    rewrite Hspw. cbn [lookup list_lookup]. unfold run_goroutine. rewrite run_bind. unfold gets.
    cbn [fst snd]. fold w1'. rewrite Hc', Hid. done. }
  destruct (replay_fills conn r w1' c Hc' Hcl Hscl) as (Hb & Hr & Hh); [by rewrite <-Hf, <-Hfl|].
  assert (data <$> filter (λ m, ¬ expired (now w1').1 (offlineQueue w1') m) (buffer r (offlineQueue w1'))
    = texts r (offlineQueue w)) as Hall.
  { change (offlineQueue w1') with (offlineQueue w1). rewrite Hoq. unfold texts. f_equal.
    apply filter_true. intros m Hm. by apply Hexp. }
  rewrite Hall in *. exists (set_send (send c ++ take (send_capacity - length (send c))
    (filter (λ x, replayable x = true) (texts r (offlineQueue w)))) c).
  split_and!; [done| |done|done].
  simpl. rewrite Hsend, take_ge; [done|]. simpl. pose proof (texts_short r _ Hq) as Hl.
  unfold depth in Hl. rewrite Hmax in Hl.
  pose proof (length_filter (λ x, replayable x = true) (texts r (offlineQueue w))). simpl in Hl. lia.
Qed.

(** C4: a document queued for an absent recipient reaches it, across a
    restart.  When memory and database are in step and no statement fails, and the
    recipient, a user's device or an agent, connects to the restarted server
    within seven days, then after the replay the channel of the new connection
    holds the welcome message and every replayable document that was queued, in
    order and the new one among them, and neither queue nor table has any of them
    left. *)
Theorem queued_message_reaches_recipient ct r dev v d w limit t ts stored tc :
  faults w = [] → synced w → replayable d = true →
  let w1 := (queue_message r d w).2 in
  let w2 := (start limit (boot_world t ts [] (db w1) stored)).2 in
  let w3 := (serve (newConnection ct r dev tc v) w2).2 in
  let w4 := (step Upgrade (EvGoroutine 0) w3).2 in
  (now w3).1 - t ≤ 7 * 24 * Hour →
  ∃ c, heap (hub w4) !! O = Some c ∧
    send c = welcome (newConnection ct r dev tc v) ::
      filter (λ x, replayable x = true) (texts r (offlineQueue w1)) ∧
    d ∈ send c ∧ buffer r (offlineQueue w4) = [] ∧
    r ∉ q_recipient <$> offline_queue (db w4).
Proof.
  intros Hf Hs Hd w1 w2 w3 w4 Htime.
  destruct (queue_message_synced r d w Hf Hs) as (Hs1 & Hf1 & Ht1). fold w1 in Hs1, Hf1, Ht1.
  assert (d ∈ texts r (offlineQueue w1)) as Hin.
  { apply last_Some_elem_of. by eapply last_queued. }
  destruct (restart_texts limit t ts w1 stored Hs1) as [Hs2 Htexts]. fold w2 in Hs2, Htexts.
  assert (hub w2 = newHub ∧ spawned w2 = [] ∧ faults w2 = [] ∧ queued_since t (offlineQueue w2) ∧
    ttl (offlineQueue w2) = 7 * 24 * Hour) as (Hh2 & Hsp2 & Hf2 & Hsince & Httl).
  { destruct (start_loads limit t ts (db w1) stored) as (w0 & Hq & _ & Hf0 & Hh0 & Hs0 & Ht0 & Hw2).
    fold w2 in Hw2. rewrite Hw2.
    destruct (load_rows_since t (order_by (key_asc q_id) (offline_queue (db w1))) w0) as (H1 & H2 & H3 & H4 & H5);
      [rewrite Hq; apply wf_new|done| |].
    { rewrite Hq. intros r' m Hm. by apply not_elem_of_nil in Hm. }
    rewrite H2, H3, H4, H5, Hq, Hh0, Hs0, Hf0. done. }
  destruct (serve_then_replay ct r dev tc v w2) as (c & Hc & Hsend & Hb & Hrows);
    [rewrite Hh2; apply wf_newHub|apply Hs2|done|done| |apply Hs2|].
  { intros m Hm. unfold expired. rewrite Httl. apply Hsince in Hm. fold w3. lia. }
  fold w3 w4 in Hc, Hb, Hrows. rewrite Hh2 in Hc. rewrite Htexts in Hsend, Hrows.
  exists c. split_and!; [exact Hc|exact Hsend| |exact Hb|].
  - rewrite Hsend. right. by apply list_elem_of_filter.
  - apply Hrows. intros He. rewrite He in Hin. by apply not_elem_of_nil in Hin.
Qed.
End delivery.

#[local] Existing Instance demo_env.

(** A message queued for the agent while the server ran; a restart; the agent
    connects a day later. *)
Lemma queued_message_reaches_recipient_witness :
  faults demo_started = [] ∧ synced demo_started ∧ replayable (demo_text "hi") = true ∧
  let w1 := (queue_message "a1" (demo_text "hi") demo_started).2 in
  let w2 := (start "30" (boot_world 5 [86400000000000%N] [] (db w1) ∅)).2 in
  let w3 := (serve (newConnection Agent "a1" EmptyString 5 "v1") w2).2 in
  let w4 := (step demo_upgrade (EvGoroutine 0) w3).2 in
  (now w3).1 - 5 ≤ 7 * 24 * Hour ∧
  ∃ c, heap (hub w4) !! O = Some c ∧
    send c = welcome (newConnection Agent "a1" EmptyString 5 "v1") ::
      filter (λ x, replayable x = true) (texts "a1" (offlineQueue w1)) ∧
    demo_text "hi" ∈ send c ∧ buffer "a1" (offlineQueue w4) = [] ∧
    "a1" ∉ q_recipient <$> offline_queue (db w4).
Proof.
  assert (faults demo_started = []) as Hf by (vm_compute; reflexivity).
  split; [exact Hf|]. split; [exact demo_started_synced|]. split; [vm_compute; reflexivity|].
  intros w1 w2 w3 w4.
  assert ((now w3).1 - 5 ≤ 7 * 24 * Hour) as Ht.
  { apply (bool_decide_unpack _). vm_compute. exact I. }
  split; [exact Ht|].
  exact (queued_message_reaches_recipient demo_upgrade Agent "a1" EmptyString "v1" (demo_text "hi")
    demo_started "30" 5 [86400000000000%N] ∅ 5 Hf demo_started_synced eq_refl Ht).
Defined.
