(* ===== verification/RecordProps.v ===== *)
(** * Keys, preferences, tiers, searches and pages *)

From S2P Require Import Prelude GoLib FixedWindow RateLimit Tiers Sql Queue Hub Store StoreInv World.
From S2P Require Import Auth Conversations Routing Protocol Messages Reactions E2E Push Middleware.
From S2P Require Import Admits Effects System.
From S2P Require Import Demo.

Section records.
Context `{Env}.

(** ** Without database failures *)

Lemma reliable_query {A} (q : DB → Result A) w :
  faults w = [] → query q w = (q (db w), stepped w).
Proof. intros Hf. rewrite run_query. unfold failing. by rewrite Hf. Qed.

Lemma reliable_exec stmt w :
  faults w = [] →
  exec stmt w = match stmt (db w) with
                | Ok d => (Ok tt, set_db (λ _, d) (stepped w))
                | Err e => (Err e, stepped w)
                end.
Proof. intros Hf. rewrite run_exec. unfold failing. by rewrite Hf. Qed.

Lemma faults_stepped w : faults w = [] → faults (stepped w) = [].
Proof. intros Hf. simpl. by rewrite Hf. Qed.

(** ** One-time keys *)

Definition one_time (o t : string) : KeyRow → Prop := key_of o t KeyTypeOneTimePreKey.

(** A key that is taken is the one with the least number, and is gone. *)
Lemma take_key_spec o t w :
  faults w = [] →
  let w' := (take_one_time_key o t w).2 in
  faults w' = [] ∧
  match (take_one_time_key o t w).1 with
  | Some k =>
      k ∈ key_bundles (db w) ∧ one_time o t k ∧
      (∀ k', k' ∈ key_bundles (db w) → one_time o t k' → k_key_id k ≤ k_key_id k') ∧
      key_bundles (db w') = filter (λ k', k_id k' ≠ k_id k) (key_bundles (db w))
  | None => (∀ k, k ∈ key_bundles (db w) → ¬ one_time o t k) ∧ db w' = db w
  end.
Proof.
  intros Hf. unfold take_one_time_key. rewrite run_bind, reliable_query by done. cbn [fst snd].
  destruct (query_row _ _) as [k|e] eqn:Hq.
  - rewrite run_bind, reliable_exec by by apply faults_stepped. cbn.
    rewrite Hf. apply query_row_least in Hq as [Hk Hmin].
    apply list_elem_of_filter in Hk as [Hk Hin]. split_and!; try done.
    intros k' Hk' Hot. apply Hmin. by apply list_elem_of_filter.
  - cbn. rewrite Hf. apply query_row_order_none in Hq as [-> Hn]. split_and!; try done.
    intros k Hk Hot. apply (Hn k). by apply list_elem_of_filter.
Qed.

(** C25: a one-time key is handed out at most once, while the database
    does not fail: of two requests for the keys of an owner the first gets the
    key with the least number, which is then gone from the table, and the second
    never gets a key with the same id; it gets one if there is one left. *)
Theorem one_time_key_used_once o t w :
  faults w = [] →
  let '(first, w1) := take_one_time_key o t w in
  let '(second, w2) := take_one_time_key o t w1 in
  match first with
  | Some k =>
      k ∈ key_bundles (db w) ∧ one_time o t k ∧ k_id k ∉ k_id <$> key_bundles (db w1) ∧
      (∀ k', k' ∈ key_bundles (db w) → one_time o t k' → k_key_id k ≤ k_key_id k') ∧
      match second with
      | Some k' => one_time o t k' ∧ k_id k' ≠ k_id k ∧ k' ∈ key_bundles (db w)
      | None => ∀ k', k' ∈ key_bundles (db w) → one_time o t k' → k_id k' = k_id k
      end
  | None => (∀ k, k ∈ key_bundles (db w) → ¬ one_time o t k) ∧ second = None
  end.
Proof.
  intros Hf. pose proof (take_key_spec o t w Hf) as (Hf1 & H1).
  destruct (take_one_time_key o t w) as [first w1]. cbn [fst snd] in *.
  pose proof (take_key_spec o t w1 Hf1) as (_ & H2).
  destruct (take_one_time_key o t w1) as [second w2]. cbn [fst snd] in *.
  destruct first as [k|].
  - destruct H1 as (Hk & Hot & Hmin & Hrest). rewrite Hrest in *. split_and!; try done.
    + intros (k' & Heq & Hin)%list_elem_of_fmap. by apply list_elem_of_filter in Hin as [? _].
    + destruct second as [k'|].
      * destruct H2 as (Hin & Hot' & _). by apply list_elem_of_filter in Hin as [? ?].
      * destruct H2 as [Hno _]. intros k' Hin Hot'. apply dec_stable. intros Hne.
        apply (Hno k'); [|done]. by apply list_elem_of_filter.
  - destruct H1 as [Hno Hd]. rewrite Hd in H2. split; [done|].
    destruct second as [k|]; [|done]. destruct H2 as (Hin & Hot & _). by destruct (Hno k).
Qed.

(** ** Encrypted messages *)

(** Who may write into a conversation by the two kinds of identity. *)
Definition takes_part (who who_type : string) (conv : Conversation) : Prop :=
  (who_type = "user" ∧ ConvUserID conv = who) ∨ (who_type = "agent" ∧ ConvAgentID conv = who).

Definition identity_of (r : Request) (who who_type : string) : Prop :=
  (who_type = "user" ∧ ∃ t c, UserID c = who ∧
     jwt_parse (TrimPrefix (HeaderGet r "Authorization") "Bearer ") t = Ok c) ∨
  (who_type = "agent" ∧ HeaderGet r "X-Agent-Secret" = agentSecret ∧
     HeaderGet r "X-Agent-ID" = who ∧ who ≠ EmptyString).

Lemma wp_with_identity m h r k (Q : Response → World → Prop) w :
  (∀ res w', refused res w w' → Q res w') →
  (∀ who wt w', Method r = m → identity_of r who wt → db w' = db w → wp (k who wt) Q w') →
  wp (with_identity m h r k) Q w.
Proof.
  intros Hr Hk. unfold with_identity. destruct (method_is m r) eqn:Hm; simpl; [|by apply Hr].
  apply bool_decide_eq_true in Hm. unfold authenticateRequest. cbv zeta.
  apply wp_bind. destruct (HasPrefix _ _).
  - apply wp_bind, wp_ValidateJWT; [intros; by apply Hr|].
    intros t c w' Hp Hw'. apply Hk; [done| |done]. left. eauto.
  - destruct (negb _ && bool_decide _) eqn:Hs; [|by apply Hr].
    apply andb_true_iff in Hs as [_ Hs%bool_decide_eq_true].
    destruct (str_empty (HeaderGet r "X-Agent-ID")) eqn:Hid; [by apply Hr|].
    apply str_empty_false in Hid. apply Hk; [done| |done]. by right.
Qed.

Lemma not_excluded who wt conv :
  (wt = "user" ∨ wt = "agent") → sender_excluded who wt conv = false → takes_part who wt conv.
Proof.
  unfold sender_excluded, takes_part. intros Hwt [H1 H2]%orb_false_iff.
  apply bool_decide_eq_false in H1, H2. destruct Hwt as [->| ->]; [left|right]; split; try done;
    apply dec_stable; naive_solver.
Qed.

(** An encrypted message is stored only from a participant of the
    conversation, under that identity, with one of the known algorithms and the
    ciphertext as it was sent; otherwise the request is refused and the database
    untouched. *)
Theorem handleStoreEncryptedMessage_exact h r w :
  wp (handleStoreEncryptedMessage h r) (λ res w',
    refused res w w' ∨
    (StatusCode res = StatusOK ∧
     ∃ who wt conv req e, Method r = MethodPost ∧ identity_of r who wt ∧
       (Body r ≫= decode_encrypted_upload) = Ok req ∧ validAlgorithm (eu_algorithm req) = true ∧
       conv ∈ conversations (db w) ∧ ConvID conv = eu_conversation_id req ∧
       takes_part who wt conv ∧
       e_conversation_id e = ConvID conv ∧ e_sender_id e = who ∧ e_sender_type e = wt ∧
       e_ciphertext e = eu_ciphertext req ∧ e_iv e = eu_iv req ∧
       e_algorithm e = eu_algorithm req ∧
       insert_encrypted e (db w) = Ok (db w'))) w.
Proof.
  unfold handleStoreEncryptedMessage. apply wp_with_identity; [by left|].
  intros who wt w1 Hm Hwho Hw1.
  assert (wt = "user" ∨ wt = "agent") as Hwt by (destruct Hwho as [[? _]|[? _]]; auto).
  wp_walk; refuse. right. norm_db. facts. split; [done|].
  match goal with Hi : insert_encrypted ?e _ = _, Hc : ?c ∈ conversations _ |- _ =>
    eexists who, wt, c, _, e end.
  split_and!; try done. by apply not_excluded.
Qed.

(** ** Muted conversations *)

Lemma upsert_pref_found p d d' :
  db_ok d → upsert_pref p d = Ok d' →
  query_row (λ q, pref_key q = pref_key p) (notification_preferences d') = Ok p.
Proof.
  intros Hok Hu. pose proof (keeps_upsert_pref p d d' Hok Hu) as Hok'.
  assert (p ∈ notification_preferences d') as Hin.
  { revert Hu. unfold upsert_pref. case_decide as Hk; [|case_decide]; intros; simplify_eq/=.
    - apply list_elem_of_fmap in Hk as (q & Hq & Hin). apply list_elem_of_fmap. exists q.
      by rewrite decide_True.
    - apply elem_of_app. right. by left. }
  apply query_row_unique; [done|done|]. intros q Hq Hk.
  by apply (unique_inj pref_key (notification_preferences d')); [apply Hok'|..].
Qed.

Lemma muted_no_calls u title body conv w p :
  faults w = [] → conv ≠ EmptyString →
  query_row (λ q, pref_key q = (u, conv)) (notification_preferences (db w)) = Ok p →
  p_muted p = true → (notifyUser u title body conv w).1 = [].
Proof.
  intros Hf Hc Hq Hp. apply str_empty_false in Hc. unfold notifyUser. rewrite run_bind, Hc.
  unfold isConversationMuted. rewrite run_bind, reliable_exec by done. cbn [fst snd].
  rewrite run_bind, reliable_query by by apply faults_stepped. cbn. rewrite Hq. cbn. by rewrite Hp.
Qed.

(** C28: once a request to mute a conversation was answered with 200,
    a push notification for this user and conversation calls no push service,
    whatever devices are registered, while the database does not fail. *)
Theorem muted_conversation_silent h r u title body w :
  db_ok (db w) → UserIDCtx r = Some u → FormValue r "muted" = "true" →
  wp (handleSetNotificationPrefs h r) (λ res w',
    StatusCode res = StatusOK → faults w' = [] →
    (notifyUser u title body (FormValue r "conversation_id") w').1 = []) w.
Proof.
  intros Hok Hu Hm. unfold handleSetNotificationPrefs, getUserID. rewrite Hu, Hm.
  wp_walk; try (intros Hc; vm_compute in Hc; discriminate).
  intros _ Hf. norm_db. facts. case_match; simplify_eq.
  match goal with Hi : upsert_pref ?p _ = _ |- _ =>
    pose proof (upsert_pref_found p _ _ Hok Hi) as Hq; by apply (muted_no_calls _ _ _ _ _ p) end.
Qed.

(** ** Tiers across a restart *)

Definition tier_named (row : TierRow) : Tiered.RateLimitTier :=
  default Tiered.TierFree (tier_of_name (tr_tier_name row)).

Lemma GetTier_SetTier now u u' t trl :
  Tiered.GetTier u' (Tiered.SetTier now u t trl)
    = if decide (u = u') then t else Tiered.GetTier u' trl.
Proof.
  unfold Tiered.SetTier, Tiered.GetTier. destruct (Tiered.limits trl !! u);
    simpl; rewrite lookup_insert; by case_decide.
Qed.

Definition tier_in (u : string) (w : World) : Tiered.RateLimitTier :=
  Tiered.GetTier u (globalTieredLimiter w).

Lemma load_tier_other row u w : tr_user_id row ≠ u → tier_in u (load_tier row w).2 = tier_in u w.
Proof.
  intros Hne. unfold load_tier, tier_in. cbv zeta. case_decide; [|done].
  unfold set_tier. rewrite run_bind. simpl. by rewrite GetTier_SetTier, decide_False.
Qed.

Lemma load_tier_own row w :
  tier_in (tr_user_id row) w = Tiered.TierFree →
  tier_in (tr_user_id row) (load_tier row w).2 = tier_named row.
Proof.
  intros Hw. unfold load_tier, tier_in, tier_named, tier_of_name in *. cbv zeta.
  repeat case_decide; simplify_eq/=; rewrite ?GetTier_SetTier, ?decide_True by done; try done;
    congruence.
Qed.

Lemma load_tiers_other rows u w :
  u ∉ tr_user_id <$> rows → tier_in u (for_each load_tier rows w).2 = tier_in u w.
Proof.
  revert w. induction rows as [|x rows IH]; intros w Hu; simpl; [done|].
  rewrite fmap_cons, not_elem_of_cons in Hu. destruct Hu as [Hx Hu].
  rewrite run_bind, IH by done. by apply load_tier_other.
Qed.

Lemma load_tiers_own rows row w :
  unique tr_user_id rows → row ∈ rows → tier_in (tr_user_id row) w = Tiered.TierFree →
  tier_in (tr_user_id row) (for_each load_tier rows w).2 = tier_named row.
Proof.
  revert w. induction rows as [|x rows IH]; intros w Hu Hin Hw; [by apply not_elem_of_nil in Hin|].
  apply NoDup_cons in Hu as [Hx Hu]. simpl. rewrite run_bind.
  apply elem_of_cons in Hin as [->|Hin].
  - rewrite load_tiers_other by done. by apply load_tier_own.
  - apply IH; [done..|]. rewrite load_tier_other; [done|]. intros Heq. apply Hx. rewrite Heq.
    by apply list_elem_of_fmap_2.
Qed.

Lemma replace_tier_row row d d' :
  replace_tier row d = Ok d' → row ∈ user_rate_limit_tiers d'.
Proof.
  unfold replace_tier. case_decide; intros; simplify_eq/=. apply elem_of_app. right. by left.
Qed.

Definition same_tiers : relation World :=
  λ w w', globalTieredLimiter w' = globalTieredLimiter w.

#[local] Instance same_tiers_preorder : PreOrder same_tiers.
Proof. split; [done|]. intros x y z Hxy Hyz. unfold same_tiers in *. by rewrite Hyz. Qed.

Lemma same_tiers_loadQueue : within same_tiers loadQueueFromDB.
Proof.
  unfold loadQueueFromDB. apply within_bind; [exact _|intros w; by rewrite run_query|].
  intros [rows|e]; [|by intros w]. apply within_for_each; [exact _|]. by intros row w.
Qed.

Lemma start_tier row limit t ts d stored :
  db_ok d → row ∈ user_rate_limit_tiers d →
  tier_in (tr_user_id row) (start limit (boot_world t ts [] d stored)).2 = tier_named row.
Proof.
  intros Hok Hin. unfold start. rewrite !run_bind. set (w1 := (initAuthRateLimit _ _).2).
  unfold loadTiersFromDB. rewrite run_bind, reliable_query by done. cbn [fst snd].
  rewrite run_bind. set (w2 := (for_each load_tier _ _).2).
  assert (tier_in (tr_user_id row) w2 = tier_named row) as <-.
  { apply load_tiers_own; [apply Hok|done|done]. }
  unfold tier_in. f_equal. apply same_tiers_loadQueue.
Qed.

Lemma tier_of_name_Name name tier : tier_of_name name = Some tier → Tiered.Name tier = name.
Proof. unfold tier_of_name. repeat case_decide; intros [= <-]; by subst. Qed.

(** C29: when the administrator's request to set a user's tier is
    answered with 200, the limiter has the named tier for the user at once; and
    if the user has an account and the database does not fail, a server started
    on the database afterwards has it too. *)
Theorem tier_survives_restart h r w :
  let u := FormValue r "user_id" in
  db_ok (db w) → faults w = [] →
  wp (handleSetRateLimitTier h r) (λ res w',
    StatusCode res = StatusOK →
    ∃ tier, tier_of_name (FormValue r "tier") = Some tier ∧ tier_in u w' = tier ∧
      (u ∈ u_id <$> users (db w) → ∀ limit t ts stored,
        tier_in u (start limit (boot_world t ts [] (db w') stored)).2 = tier)) w.
Proof.
  cbv zeta. intros Hok Hf. unfold handleSetRateLimitTier.
  set (u := FormValue r "user_id"). set (name := FormValue r "tier"). cbv zeta.
  destruct (negb _); [done|]. destruct (ValidateAdminSecret _); [|done].
  destruct (str_empty u || str_empty name); [done|].
  destruct (tier_of_name name) as [tier|] eqn:Ht; [|done]. apply wp_bind.
  assert (tier_in u (set_tier u tier w).2 = tier) as Hset.
  { unfold tier_in, set_tier. rewrite run_bind. simpl. by rewrite GetTier_SetTier, decide_True. }
  unfold wp at 1. set (w1 := (set_tier u tier w).2) in *.
  unfold persistTierToDB. apply wp_bind. unfold wp at 1. rewrite reliable_exec by (simpl; by rewrite Hf).
  change (db w1) with (db w). set (row := mkTierRow u (Tiered.Name tier)).
  assert (tier_named row = tier) as Hrow.
  { unfold tier_named. simpl. by rewrite (tier_of_name_Name name), Ht. }
  destruct (replace_tier row (db w)) as [d|e] eqn:Hr; cbn [fst snd]; apply wp_ret; intros _;
    exists tier; (split; [done|]); (split; [exact Hset|]); intros Hu limit t ts stored.
  - rewrite <-Hrow. apply (start_tier row); [by eapply keeps_replace_tier|by eapply replace_tier_row].
  - unfold replace_tier in Hr. by rewrite decide_True in Hr.
Qed.

(** ** Search *)

(** [s] contains the pattern, as LIKE sees it. *)
Definition found_by (q : string) (m : MessageRow) : Prop := like ("%" +:+ q +:+ "%") (m_content m) = true.

Lemma take_sorted {A} (R : relation A) n l : StronglySorted R l → StronglySorted R (take n l).
Proof.
  revert n. induction l as [|x l IH]; intros [|n] Hl; simpl; try constructor.
  - apply IH. by apply StronglySorted_inv in Hl as [].
  - apply Forall_take. by apply StronglySorted_inv in Hl as [].
Qed.

(** A search never changes the database and answers with messages
    of the user's own conversations only, each matching the query, the newest
    first, at most 200 of them; and when fewer than the limit are returned,
    every message that qualifies is among them. *)
Theorem handleSearchMessages_exact h r w :
  wp (handleSearchMessages h r) (λ res w',
    refused res w w' ∨
    (db w' = db w ∧ ∃ c ms limit, authenticated r c ∧
       res = writeJSON StatusOK (JArr ((λ m, message_json m []) <$> ms)) h ∧
       1 ≤ limit ≤ 200 ∧ Z.of_nat (length ms) ≤ limit ∧
       StronglySorted (key_desc m_created_at) ms ∧
       (∀ m, m ∈ ms → m ∈ messages (db w) ∧ in_users_conversation (UserID c) (db w) m ∧
          found_by (QueryGet r "q") m) ∧
       (Z.of_nat (length ms) < limit → ∀ m, m ∈ messages (db w) →
          in_users_conversation (UserID c) (db w) m → found_by (QueryGet r "q") m → m ∈ ms))) w.
Proof.
  unfold handleSearchMessages. apply wp_with_claims; [by left|]. intros c w1 Hm Ha Hw1. cbv zeta.
  set (q := QueryGet r "q"). destruct (str_empty q) eqn:Hq; [by left|].
  set (l0 := if str_empty (QueryGet r "limit") then 50 else _).
  assert (l0 ≤ 200) as Hl0.
  { subst l0. destruct (str_empty (QueryGet r "limit")); [lia|]. cbv zeta. case_decide; lia. }
  unfold searchMessages. set (limit := if decide (l0 ≤ 0) then 50 else l0). rewrite Hq.
  assert (1 ≤ limit ≤ 200) as Hlim by (subst limit; case_decide; lia). cbv zeta.
  wp_walk; refuse. right. norm_db. split; [done|]. unfold select_search, limit_rows.
  set (P := λ m, in_users_conversation _ _ m ∧ _). set (rows := filter P _).
  exists c, (take (Z.to_nat limit) (order_by (key_desc m_created_at) rows)), limit.
  split_and!; try done; try lia.
  - rewrite length_take. lia.
  - by apply take_sorted, order_by_sorted; exact _.
  - intros m Hin. assert (m ∈ order_by (key_desc m_created_at) rows) as Hin'.
    { eapply elem_of_submseteq; [exact Hin|apply sublist_submseteq, sublist_take]. }
    rewrite elem_of_order_by in Hin'. clear Hin. rename Hin' into Hin.
    apply list_elem_of_filter in Hin as [[? ?] ?]. done.
  - rewrite length_take. intros Hlt m Hin Hu Hf. rewrite take_ge by lia.
    apply elem_of_order_by, list_elem_of_filter. done.
Qed.

(** ** Pages of messages *)

(** The reactions shown with a message: all of them, or none when their query
    failed. *)
Definition shown_reactions (d : DB) (x : MessageRow * list ReactionRow) : Prop :=
  x.2 = [] ∨ x.2 ≡ₚ filter (λ r, r_message_id r = m_id x.1) (reactions d).

Lemma with_reactions_spec rows w :
  wp (with_reactions rows) (λ o w', db w' = db w ∧
    match o with
    | None => MaxOpenConns = 1%nat ∧ rows ≠ []
    | Some l => l.*1 = rows ∧ Forall (shown_reactions (db w)) l ∧ (MaxOpenConns = 1%nat → rows = [])
    end) w.
Proof.
  revert w. induction rows as [|m rows IH]; intros w; simpl; [apply wp_ret; split_and!; by try constructor|].
  case_decide as Hmax; [apply wp_ret; by split_and!|].
  unfold getMessageReactions. apply wp_bind, wp_query; intros w1 Hw1; cbv zeta;
    apply wp_bind; (eapply wp_mono; [apply IH|]); intros [l|] w2 [Hd Ho]; apply wp_ret; simpl;
    rewrite Hw1 in *; try (by destruct Ho); destruct Ho as (Hl & Hr & _);
    (split; [done|]); (split; [by rewrite <-Hl|]); (split; [|done]); constructor; try done.
  - by left.
  - right. simpl. apply order_by_perm.
Qed.

Lemma select_page_spec cid limit before d m :
  m ∈ select_page cid limit before d → m ∈ messages d ∧ m_conversation_id m = cid.
Proof.
  unfold select_page, limit_rows. intros Hm.
  assert (m ∈ filter (λ m, m_conversation_id m = cid) (messages d)) as Hin.
  { destruct (str_empty before).
    - eapply elem_of_submseteq in Hm; [|apply sublist_submseteq, sublist_take].
      by rewrite elem_of_order_by in Hm.
    - eapply elem_of_submseteq in Hm; [|apply sublist_submseteq, sublist_take].
      rewrite elem_of_order_by in Hm. by apply list_elem_of_filter in Hm as [_ ?]. }
  by apply list_elem_of_filter in Hin as [? ?].
Qed.

(** The limit [handleGetMessages] uses. *)
Definition page_limit (r : Request) : Z :=
  match Atoi (QueryGet r "limit") with
  | Ok n => if decide (0 < n ∧ n ≤ 200) then n else 50
  | Err _ => 50
  end.

Lemma page_limit_range r : 1 ≤ page_limit r ≤ 200.
Proof. unfold page_limit. destruct (Atoi _); [case_decide|]; lia. Qed.


(** ** Batches *)

Lemma messages_link mid aid : within (along (λ w w', messages (db w') = messages (db w))) (exec (link_attachment mid aid)).
Proof.
  intros w. rewrite run_exec. destruct (failing w); [done|].
  unfold link_attachment. by case_decide.
Qed.

Lemma batch_one_row t m w :
  wp (batch_one t m) (λ res w', match res with
    | Ok i => messages (db w') = messages (db w) ++ [message_row i t m]
    | Err _ => True
    end) w.
Proof.
  unfold batch_one. wp_walk; [done|].
  assert (∀ l w0, messages (db (for_each (λ x, exec (link_attachment a x)) l w0).2) = messages (db w0)) as Hl.
  { induction l as [|x l IH]; intros w0; simpl; [done|]. rewrite run_bind, IH. apply messages_link. }
  unfold wp at 1. apply wp_ret. rewrite Hl. norm_db.
  match goal with Hi : insert_message _ _ = Ok _ |- _ =>
    unfold insert_message in Hi; repeat case_decide; simplify_eq/= end.
  match goal with Hd : set_messages _ _ = _ |- _ => by rewrite <-Hd end.
Qed.

Lemma map_batch t l w :
  wp (map_ok (batch_one t) l) (λ res w', match res with
    | Ok ids => length ids = length l ∧
        messages (db w') = messages (db w) ++ zip_with (λ i m, message_row i t m) ids l
    | Err _ => True
    end) w.
Proof.
  revert w. induction l as [|m l IH]; intros w; simpl.
  { apply wp_ret. by rewrite app_nil_r. }
  unfold mbind_ok at 1. apply wp_bind. eapply wp_mono; [apply batch_one_row|].
  intros [i|e] w1 Hi; [|done]. unfold mbind_ok at 1. apply wp_bind. eapply wp_mono; [apply IH|].
  intros [ids|e] w2; [|done]. intros [Hlen Hm]. apply wp_ret. simpl. split; [by rewrite Hlen|].
  by rewrite Hm, Hi, <-app_assoc.
Qed.

(** A batch of messages is stored completely or not at all,
    whichever of its statements fails: on success every message has its row, in
    order and under the returned id, and on an error the database is what it was. *)
Theorem storeMessagesBatch_atomic msgs w :
  wp (storeMessagesBatch msgs) (λ res w',
    match res with
    | Err _ => db w' = db w
    | Ok ids => length ids = length msgs ∧ ∃ t,
        messages (db w') = messages (db w) ++ zip_with (λ i m, message_row i t m) ids msgs
    end) w.
Proof.
  unfold storeMessagesBatch. destruct msgs as [|m0 msgs0] eqn:Hm; [apply wp_ret|].
  { split; [done|]. exists 0. by rewrite app_nil_r. }
  rewrite <-Hm. clear Hm m0 msgs0. unfold mbind_ok at 1. apply wp_bind, wp_exec; [constructor|done|].
  intros w1 [= Hw1]. unfold in_transaction. apply wp_bind. unfold wp at 1. cbn [gets fst snd].
  set (Q := λ (res : Result (list string)) (w' : World),
    match res with
    | Ok ids => length ids = length msgs ∧ ∃ t,
        messages (db w') = messages (db w) ++ zip_with (λ i m, message_row i t m) ids msgs
    | Err _ => True
    end).
  apply wp_bind, (wp_mono _ Q).
  - unfold mbind_ok at 1. apply wp_bind, wp_exec; [constructor|done|]. intros w2 [= Hw2].
    apply wp_bind, wp_quiet; [done|]. intros t w3 Hw3.
    unfold mbind_ok at 1. apply wp_bind. eapply wp_mono; [apply map_batch|].
    intros [ids|e] w4; [|done]. intros [Hlen Hmsgs]. unfold mbind_ok at 1.
    apply wp_bind, wp_exec; [constructor|done|]. intros w5 [= Hw5]. apply wp_ret. simpl.
    split; [done|]. exists t. rewrite <-Hw5, Hmsgs. congruence.
  - intros [ids|e] w2 HQ; [by apply wp_ret|]. by unfold wp.
Qed.

(** ** The wire format of routed messages *)

Lemma decode_strings_list cur l : decode_strings cur (JArr (JStr <$> l)) = Ok l.
Proof.
  unfold decode_strings. induction l as [|s l IH]; [done|].
  rewrite fmap_cons. cbn [foldr decode_string]. by rewrite IH.
Qed.

(** What [json.Marshal] writes for a routed message is read back
    by [json.Unmarshal] as the same message, with or without the fields that are
    left out when empty. *)
Theorem routed_json_round_trip m : decode_routed (routed_json m) = Ok m.
Proof.
  assert (∀ l, decode_strings [] (JArr (JStr <$> l)) = Ok l) as Hl by apply decode_strings_list.
  destruct m as [ty conv content atts st sid rid ts].
  destruct atts as [|a atts], ts as [|x ts]; unfold decode_routed, routed_json, decode_field, struct_members;
    simpl app; cbn [mbind Result_bind]; cbn [foldl];
    repeat match goal with |- context [key_matches ?f ?k] =>
      let b := eval vm_compute in (key_matches f k) in
      change (key_matches f k) with b; cbv iota; cbn [decode_string] end.
  all: try reflexivity.
  all: specialize (Hl (a :: atts)); change (JStr a :: list_fmap string json JStr atts)
    with (JStr <$> a :: atts); by rewrite Hl.
Qed.
End records.

#[local] Existing Instance demo_env.

(** The second key of [demo_db] has the lesser number and goes first. *)
Lemma one_time_key_used_once_witness :
  faults demo_world = [] ∧
  k_id <$> (take_one_time_key "u1" "user" demo_world).1 = Some "k2" ∧
  let '(first, w1) := take_one_time_key "u1" "user" demo_world in
  let '(second, w2) := take_one_time_key "u1" "user" w1 in
  match first with
  | Some k =>
      k ∈ key_bundles (db demo_world) ∧ one_time "u1" "user" k ∧
      k_id k ∉ k_id <$> key_bundles (db w1) ∧
      (∀ k', k' ∈ key_bundles (db demo_world) → one_time "u1" "user" k' →
         k_key_id k ≤ k_key_id k') ∧
      match second with
      | Some k' => one_time "u1" "user" k' ∧ k_id k' ≠ k_id k ∧ k' ∈ key_bundles (db demo_world)
      | None => ∀ k', k' ∈ key_bundles (db demo_world) → one_time "u1" "user" k' → k_id k' = k_id k
      end
  | None => (∀ k, k ∈ key_bundles (db demo_world) → ¬ one_time "u1" "user" k) ∧ second = None
  end.
Proof.
  split; [reflexivity|]. split; [vm_compute; reflexivity|].
  exact (one_time_key_used_once "u1" "user" demo_world eq_refl).
Defined.

Definition demo_mute : Request :=
  with_user "u1" (demo_request MethodPost "/notification-prefs/set" [] []
    [("conversation_id", "c1"); ("muted", "true")]).

Lemma muted_conversation_silent_witness :
  db_ok (db demo_world) ∧ UserIDCtx demo_mute = Some "u1" ∧ FormValue demo_mute "muted" = "true" ∧
  StatusCode (handleSetNotificationPrefs ∅ demo_mute demo_world).1 = StatusOK ∧
  length (notifyUser "u1" "Bot" "hi" "c1" demo_world).1 = 1%nat ∧
  wp (handleSetNotificationPrefs ∅ demo_mute) (λ res w',
    StatusCode res = StatusOK → faults w' = [] →
    (notifyUser "u1" "Bot" "hi" (FormValue demo_mute "conversation_id") w').1 = []) demo_world.
Proof.
  split; [exact demo_db_ok|]. split; [reflexivity|]. split; [vm_compute; reflexivity|].
  split; [vm_compute; reflexivity|]. split; [vm_compute; reflexivity|].
  exact (muted_conversation_silent ∅ demo_mute "u1" "Bot" "hi" demo_world demo_db_ok eq_refl eq_refl).
Defined.

Definition demo_set_tier : Request :=
  demo_request MethodPost "/admin/rate-limit/tier" [] []
    [("user_id", "u1"); ("tier", "pro"); ("admin_secret", "admin-secret")].

Lemma tier_survives_restart_witness :
  db_ok (db demo_world) ∧ faults demo_world = [] ∧ "u1" ∈ u_id <$> users (db demo_world) ∧
  StatusCode (handleSetRateLimitTier ∅ demo_set_tier demo_world).1 = StatusOK ∧
  wp (handleSetRateLimitTier ∅ demo_set_tier) (λ res w',
    StatusCode res = StatusOK →
    ∃ tier, tier_of_name (FormValue demo_set_tier "tier") = Some tier ∧ tier_in "u1" w' = tier ∧
      ("u1" ∈ u_id <$> users (db demo_world) → ∀ limit t ts stored,
        tier_in "u1" (start limit (boot_world t ts [] (db w') stored)).2 = tier)) demo_world.
Proof.
  split; [exact demo_db_ok|]. split; [reflexivity|].
  split; [apply (bool_decide_unpack _); vm_compute; exact I|]. split; [vm_compute; reflexivity|].
  exact (tier_survives_restart ∅ demo_set_tier demo_world demo_db_ok eq_refl).
Defined.
