(* ===== verification/InterleaveProps.v ===== *)
(** * What holds whatever overtakes what, and what does not

    The invariant of the server holds between any two steps of any interleaving
    of its events; the runs of [server_run] are those interleavings in which
    nothing is overtaken.  The second part shows requests that do interfere. *)

From S2P Require Import Prelude GoLib FixedWindow RateLimit Tiers Sql Queue Hub HubInv Store StoreInv.
From S2P Require Import World Auth Conversations Routing Protocol Messages Reactions E2E Push.
From S2P Require Import Middleware Admits System Runs Interleave Effects SysInv RecordProps Demo.

(** ** The invariant *)

Section safety.
Context `{Env} (Upgrade : bool → gmap string string → Request → option Response).

#[export] Instance atoms_keeps_ok : Atoms keeps_ok.
Proof. split; [exact _|exact ok_message_limiter|exact ok_user_limiter]. Qed.

(** C1: in every state the server reaches from a database that meets
    the schema's constraints, however the steps of its requests, frames,
    disconnections, timer ticks and goroutines are interleaved, between any two
    SQL statements and whichever of them fail, the database meets every
    constraint, the hub's indexes agree with its live connections, no send
    buffer or offline queue holds more than its bound, the limiters' counters
    are well formed, and no channel was closed twice. *)
Theorem interleaving_safe limit es schedule t ts fs d stored :
  db_ok d → sys_ok (server_pool Upgrade limit es schedule (boot_world t ts fs d stored)).2.
Proof.
  intros Hd. assert (within keeps_ok (server_pool Upgrade limit es schedule)) as Hw.
  { unfold server_pool. apply within_bind; [exact _|apply within_start; exact _|].
    intros _. apply pool_within. exact _. }
  by apply Hw, ok_boot.
Qed.

(** ** The programs are the handlers *)

End safety.

(** ** Requests that interfere *)

Section one_time_keys.
Context `{Env}.

(** The program of [take_one_time_key]: a query, then the deletion. *)
Definition take_prog (o t : string) : prog (option KeyRow) :=
  steps_of _ (within_take_one_time_key stepwise o t).

(** C26: what [one_time_key_used_once] says of one request after the
    other fails for requests at the same time: whenever there is a one-time key
    to take, two requests that both read before either deletes hand out the same
    key, although no statement fails. *)
Theorem one_time_keys_collide o t k w :
  faults w = [] → (take_one_time_key o t w).1 = Some k →
  ∃ schedule, (pool_run schedule [take_prog o t; take_prog o t] w).1 =
    [Ret (Some k); Ret (Some k)].
Proof.
  intros Hf Hk. exists [0; 0; 1; 1; 0; 1]%nat.
  unfold take_one_time_key in Hk. rewrite run_bind, run_query in Hk.
  destruct w. unfold failing in Hk. simpl in Hf, Hk. subst. cbn [head default from_option] in Hk.
  match type of Hk with context [match ?x with Ok _ => _ | Err _ => _ end] =>
    destruct x as [k'|] eqn:Hq; [|done] end.
  rewrite run_bind in Hk. injection Hk as ->.
  lazy -[query_row order_by list_filter delete_key] in Hq |- *. by rewrite !Hq.
Qed.
End one_time_keys.

#[local] Existing Instance demo_env.

Lemma interleaving_safe_witness :
  db_ok demo_db ∧
  sys_ok (server_pool demo_upgrade "30" demo_events [0; 2; 0; 1; 2; 0; 1]%nat demo_world).2.
Proof.
  split; [exact demo_db_ok|].
  exact (interleaving_safe demo_upgrade "30" demo_events [0; 2; 0; 1; 2; 0; 1]%nat
    0 [] [] demo_db ∅ demo_db_ok).
Defined.

Lemma one_time_keys_collide_witness :
  faults demo_world = [] ∧
  ∃ k, k_id k = "k2" ∧ (take_one_time_key "u1" "user" demo_world).1 = Some k ∧
    ∃ schedule, (pool_run schedule [take_prog "u1" "user"; take_prog "u1" "user"] demo_world).1 =
      [Ret (Some k); Ret (Some k)].
Proof.
  split; [reflexivity|].
  exists (mkKey "k2" "u1" "user" KeyTypeOneTimePreKey "pk2" EmptyString 1 0).
  split; [reflexivity|]. split; [vm_compute; reflexivity|].
  apply (@one_time_keys_collide demo_env "u1" "user"); [reflexivity|vm_compute; reflexivity].
Defined.

(** *** The other races of the handlers, on concrete requests

    The first program is overtaken by the second after [n] steps; sixty are
    enough for either to end.  [StatusCode]s are those of both answers. *)
Definition overtaken (n : nat) : list nat :=
  replicate n 0%nat ++ replicate 60 1%nat ++ replicate 60 0%nat.

Definition demo_ask (path : string) (form : list (string * string)) : Request :=
  demo_request MethodPost path
    [("Authorization", "Bearer user:u1"); ("X-Requested-With", "XMLHttpRequest")] [] form.

(** A clock that moves at every reading. *)
Definition ticking (w : World) : World := set_ticks (λ _, replicate 80 1%N) w.

Definition status_of (p : prog Response) : option Z :=
  match p with Ret res => Some (StatusCode res) | _ => None end.

Definition race {A} (n : nat) (r1 r2 : Request) (w : World) (view : DB → A) : list (option Z) * A :=
  let '(ps, w') := pool_run (overtaken n) (request_prog <$> [r1; r2]) w in
  (status_of <$> ps, view (db w')).

(** Two requests for the conversation of a pair make two conversations. *)
Example conversation_made_twice :
  let r := demo_ask "/conversations/create" [("agent_id", "a1")] in
  let w := ticking (set_db (set_conversations (λ _, [])) demo_world) in
  let found d := (λ c, (ConvUserID c, ConvAgentID c)) <$> conversations d in
  race 60 r r w found = ([Some 200; Some 200], [("u1", "a1")]) ∧
  race 9 r r w found = ([Some 200; Some 200], [("u1", "a1"); ("u1", "a1")]).
Proof. split_and!; vm_compute; reflexivity. Qed.

(** An edit that was overtaken by a deletion brings the text back, on a message
    that stays marked as deleted. *)
Example deleted_message_edited :
  let edit := demo_ask "/messages/edit" [("message_id", "m1"); ("content", "changed")] in
  let del := demo_ask "/messages/delete" [("message_id", "m1")] in
  let texts d := (λ m, (m_content m, m_is_deleted m)) <$> messages d in
  race 60 edit del (ticking demo_world) texts = ([Some 200; Some 200], [("[deleted]", true)]) ∧
  race 60 del edit (ticking demo_world) texts = ([Some 200; Some 400], [("[deleted]", true)]) ∧
  race 8 edit del (ticking demo_world) texts = ([Some 200; Some 200], [("changed", true)]).
Proof. split_and!; vm_compute; reflexivity. Qed.

(** The same reaction twice at the same time: an internal error. *)
Example reaction_fails :
  let r := demo_ask "/messages/react" [("message_id", "m1"); ("emoji", "+1")] in
  let emojis d := r_emoji <$> reactions d in
  race 60 r r (ticking demo_world) emojis = ([Some 200; Some 200], []) ∧
  race 12 r r (ticking demo_world) emojis = ([Some 500; Some 200], ["+1"]).
Proof. split_and!; vm_compute; reflexivity. Qed.

(** The user is connected and writes to the agent, which connects meanwhile: the
    message, overtaken after [n] steps by the agent's connection and its replay. *)
Definition demo_connected : World :=
  (server_run demo_upgrade
    [EvClientConnect (demo_request MethodGet "/client/connect" [] [("token", "user:u1")] []);
     EvGoroutine 0] (ticking demo_world)).2.

Definition sent_while_connecting (n : nat) : World :=
  (pool_run (replicate n 0 ++ replicate 60 1 ++ replicate 60 2 ++ replicate 60 0)%nat
    (event_prog demo_upgrade <$>
      [EvMessage O (Ok demo_frame);
       EvAgentConnect (demo_request MethodGet "/agent/connect" []
         [("agent_id", "a1"); ("agent_secret", "agent-secret")] []);
       EvGoroutine 0]) demo_connected).2.

(** The agent's frames, the documents in its memory queue and in its rows. *)
Definition agent_got (w : World) : option nat * nat * nat :=
  (length ∘ send <$> (GetAgent "a1" (hub w) ≫= λ r, heap (hub w) !! r),
   length (buffer "a1" (offlineQueue w)), length (offline_queue (db w))).

(** Before or after: the welcome and the message.  In between: the message
    waits in the queue of an agent that is connected; or it was sent, and its
    row stays to be sent again after the next start. *)
Example sent_while_connecting_cases :
  agent_got (sent_while_connecting 0) = (Some 2, 0, 0)%nat ∧
  agent_got (sent_while_connecting 60) = (Some 2, 0, 0)%nat ∧
  agent_got (sent_while_connecting 12) = (Some 1, 1, 1)%nat ∧
  agent_got (sent_while_connecting 14) = (Some 2, 0, 1)%nat.
Proof. split_and!; vm_compute; reflexivity. Qed.
