(* ===== verification/AttachProps.v ===== *)
(** * Uploads, downloads and lists of attachments *)

From S2P Require Import Prelude GoLib Path FixedWindow RateLimit Tiers Sql Queue Hub Store StoreInv World.
From S2P Require Import Auth Conversations Routing Protocol Messages Reactions E2E Push Attachments.
From S2P Require Import Middleware Admits Effects System Demo.
From Stdlib Require Import Ascii.

(** ** Steps that keep the files *)

Section steps.
Context `{Env}.
Implicit Types w : World.

Definition same_store : relation World := λ w w', db w' = db w ∧ files w' = files w.

#[local] Instance same_store_preorder : PreOrder same_store.
Proof. split; [done|]. intros x y z [Hd Hf] [Hd' Hf']. split; congruence. Qed.

Lemma wp_store {A} (m : M A) (Q : A → World → Prop) w :
  same_store w (m w).2 → (∀ a w', same_store w w' → Q a w') → wp m Q w.
Proof. intros Hm HQ. by apply HQ. Qed.

Lemma wp_write_file path content (Q : Result unit → World → Prop) w :
  (∀ w', same_store w w' → Q (Err ErrIO) w') →
  (∀ w', db w' = db w → files w' = <[path := content]> (files w) → Q (Ok tt) w') →
  wp (write_file path content) Q w.
Proof.
  intros He Hok. unfold write_file. apply wp_bind. unfold wp at 1. cbn [fault fst snd].
  destruct (default _ _); [by apply He|]. by apply Hok.
Qed.

Lemma wp_remove_file path (Q : unit → World → Prop) w :
  (∀ w', db w' = db w → Q tt w') → wp (remove_file path) Q w.
Proof.
  intros HQ. unfold remove_file. apply wp_bind. unfold wp at 1. cbn [fault fst snd].
  destruct (default _ _); by apply HQ.
Qed.

Lemma wp_insert stmt (Q : Result unit → World → Prop) w :
  (∀ e w', same_store w w' → Q (Err e) w') →
  (∀ w', stmt (db w) = Ok (db w') → files w' = files w → Q (Ok tt) w') →
  wp (exec stmt) Q w.
Proof.
  intros He Hok. unfold wp. rewrite run_exec. destruct (failing w); [by apply He|].
  destruct (stmt (db w)) as [d|e] eqn:Hd; [by apply Hok|by apply He].
Qed.

Lemma wp_read {A} (q : DB → Result A) (Q : Result A → World → Prop) w :
  (∀ w', same_store w w' → Q (Err ErrIO) w') →
  (∀ w', same_store w w' → Q (q (db w)) w') →
  wp (query q) Q w.
Proof. intros He Hok. unfold wp. rewrite run_query. destruct (failing w); [by apply He|by apply Hok]. Qed.

Lemma ValidateJWT_store token w : same_store w (ValidateJWT token w).2.
Proof. unfold ValidateJWT. by destruct (str_empty token). Qed.

Lemma wp_token token (Q : Result Claims → World → Prop) w :
  (∀ e w', same_store w w' → Q (Err e) w') →
  (∀ t c w', jwt_parse token t = Ok c → same_store w w' → Q (Ok c) w') →
  wp (ValidateJWT token) Q w.
Proof.
  intros He Hok. assert (same_store w (ValidateJWT token w).2) as Hs by apply ValidateJWT_store.
  destruct ((ValidateJWT token w).1) as [c|e] eqn:Hc; unfold wp; rewrite Hc; [|by apply He].
  unfold ValidateJWT in Hc. destruct (str_empty token); [done|]. by apply (Hok _ _ _ Hc).
Qed.

(** The name of a stored file. *)
Definition attachment_id (t : Z) : string := "att_" +:+ FormatInt t.

Definition stored_path (a : AttachmentRow) : string := Path.Join [getUploadDir; at_storage_path a].

(** ** Where a file is put

    The elements of the path are names: numbers, and below them the server's own
    name for the file. *)

Lemma plain_name n : n ≠ EmptyString → (∀ c, c ∈ chars n → c ≠ slash ∧ c ≠ dot) → Path.name n.
Proof.
  intros Hne Hc. unfold Path.name. split_and!; [done| | |]; intros Hn; try (subst n;
    by destruct (Hc dot) as [_ []]; [left|]). by destruct (Hc _ Hn).
Qed.

Lemma FormatInt_plain z c : c ∈ chars (FormatInt z) → c ≠ slash ∧ c ≠ dot.
Proof. intros [->|Hc]%FormatInt_chars; [done|]. split; intros ->; vm_compute in Hc; lia. Qed.

Lemma FormatPadded_plain k z : Path.name (FormatPadded k z).
Proof.
  apply plain_name.
  - unfold FormatPadded. intros He. assert (FormatInt z = EmptyString) as Hz.
    { destruct (String.string_of_list_ascii _); [exact He|done]. }
    destruct z as [|p|p]; [done| |done]. unfold FormatInt in Hz. simpl in Hz.
    by destruct (Pos.to_uint p).
  - intros c. unfold FormatPadded. rewrite chars_app, elem_of_app.
    intros [Hc|Hc]; [|by apply FormatInt_plain in Hc]. unfold chars in Hc.
    rewrite String.list_ascii_of_string_of_list_ascii in Hc.
    apply elem_of_replicate in Hc as [-> _]. done.
Qed.

Lemma upload_directory : Path.directory getUploadDir.
Proof.
  apply Path.Join_Dir, plain_name; [done|]. intros c Hc.
  assert (Forall (λ c, c ≠ slash ∧ c ≠ dot) (chars UploadSubdir)) as Hall.
  { apply (bool_decide_unpack _). vm_compute. exact I. }
  by apply (proj1 (Forall_forall _ _) Hall).
Qed.

Lemma date_dir_names t :
  ∃ year month, date_dir t = String.concat "/" [year; month] ∧ Path.name year ∧ Path.name month.
Proof.
  unfold date_dir. destruct (local_year_month t) as [y m].
  pose proof (FormatPadded_plain 4 y) as Hy. pose proof (FormatPadded_plain 2 m) as Hm.
  exists (FormatPadded 4 y), (FormatPadded 2 m). split; [|done].
  apply Path.Join_directory; [by apply Path.name_directory|done|by constructor].
Qed.

(** The path that the row keeps, under the upload directory, is where the file is. *)
Lemma stored_path_join t name :
  Path.Join [getUploadDir; Path.Join [date_dir t; name]] = Path.Join [getUploadDir; date_dir t; name].
Proof.
  destruct (date_dir_names t) as (y & m & -> & Hy & _).
  apply Path.Join_assoc.
  - by apply Path.directory_not_empty, upload_directory.
  - destruct Hy as [Hy _]. by destruct y.
  - rewrite <-(Path.rooted_name y Hy). apply Path.rooted_app, Hy.
Qed.

(** The row of an upload. *)
Definition upload_row (c : Claims) (file : FileHeader) (ct : string) (r : Request)
    (a : AttachmentRow) : Prop :=
  at_user_id a = UserID c ∧ at_filename a = Filename file ∧ at_content_type a = ct ∧
  at_size a = len (Content_ file) ∧ at_sha256 a = sha256_hex (Content_ file) ∧
  at_message_id a = (if str_empty (FormValue r "message_id") then None
                     else Some (FormValue r "message_id")) ∧
  ∃ t t', at_id a = attachment_id t ∧
    at_storage_path a = Path.Join [date_dir t'; attachment_id t +:+ extension_of file ct].

Lemma store_upload_spec c file ct h r w :
  wp (store_upload c file ct h r) (λ res w',
    refused res w w' ∨
    (StatusCode res = StatusOK ∧ ∃ a, upload_row c file ct r a ∧
       insert_attachment a (db w) = Ok (db w') ∧
       files w' !! stored_path a = Some (Content_ file) ∧
       ∃ created, ResBody res = JSONBody (attachment_json a created))) w.
Proof.
  unfold store_upload, generateID. apply wp_bind, wp_bind, wp_store; [done|]. intros t w1 [Hd1 _].
  apply wp_ret, wp_bind, wp_store; [done|]. intros t' w2 [Hd2 _].
  assert (db w2 = db w) as Hd by congruence.
  assert (∀ code msg w', 400 ≤ code → db w' = db w2 →
    wp (reject code msg h) (λ res w', refused res w w' ∨
      (StatusCode res = StatusOK ∧ ∃ a, upload_row c file ct r a ∧
       insert_attachment a (db w) = Ok (db w') ∧ files w' !! stored_path a = Some (Content_ file) ∧
       ∃ created, ResBody res = JSONBody (attachment_json a created))) w') as Hrej.
  { intros code msg w' Hc Hw'. apply wp_reject. left. split; [done|]. congruence. }
  apply wp_bind, wp_store; [done|]. intros [[]|e] w3 [Hd3 _]; [|by apply Hrej].
  cbv zeta. apply wp_bind, wp_write_file; [intros w4 [Hd4 _]; apply Hrej; [done|congruence]|].
  intros w4 Hd4 _. apply wp_bind, wp_write_file.
  { intros w5 [Hd5 _]. apply wp_bind, wp_remove_file. intros w6 Hd6. apply Hrej; [done|congruence]. }
  intros w5 Hd5 Hf5. apply wp_bind, wp_insert.
  { intros e w6 [Hd6 _]. apply wp_bind, wp_remove_file. intros w7 Hd7. apply Hrej; [done|congruence]. }
  intros w6 Hins Hf6. apply wp_ret. right. split; [done|]. eexists.
  assert (db w5 = db w) as Hw5 by congruence. rewrite Hw5 in Hins.
  split_and!; [|exact Hins| |eauto].
  - split_and!; try done. by eexists _, _.
  - unfold stored_path. cbn [at_storage_path]. rewrite stored_path_join, Hf6, Hf5.
    apply lookup_insert_eq.
Qed.

(** ** Uploads *)

(** What an upload that succeeds has done. *)
Definition uploaded (r : Request) (c : Claims) (file : FileHeader) (a : AttachmentRow)
    (res : Response) (w w' : World) : Prop :=
  bearer r c ∧ Multipart r = Ok (Some file) ∧
  BodySize r ≤ maxUploadSize ∧ len (Content_ file) ≤ maxUploadSize ∧
  isAllowedContentType (at_content_type a) = true ∧ upload_row c file (at_content_type a) r a ∧
  insert_attachment a (db w) = Ok (db w') ∧
  files w' !! stored_path a = Some (Content_ file) ∧
  ∃ created, ResBody res = JSONBody (attachment_json a created).

Lemma handleUpload_spec h r w :
  wp (handleUpload h r) (λ res w', refused res w w' ∨
    (StatusCode res = StatusOK ∧ Method r = MethodPost ∧
     ∃ c file a, uploaded r c file a res w w')) w.
Proof.
  unfold handleUpload. apply wp_with_bearer; [by left|]. intros c w1 Hm Hc Hd1.
  unfold parse_multipart. case_decide as Hb; [by left|].
  destruct (Multipart r) as [[file|]|e] eqn:Hmp; [|by left..].
  case_decide as Hs; [by left|]. apply wp_bind, wp_quiet.
  { unfold content_type_of. walk. }
  intros [ct|e] w2 Hd2; [|left; split; [done|]; simpl; congruence].
  destruct (isAllowedContentType ct) eqn:Hct; simpl; [|left; split; [done|]; simpl; congruence].
  eapply wp_mono; [apply store_upload_spec|].
  intros res w3 [[Hc4 Hd3]|(Hok & a & Hrow & Hins & Hf & Hj)].
  - left. split; [done|congruence].
  - right. split_and!; [done..|]. assert (at_content_type a = ct) as <- by apply Hrow.
    exists c, file, a. split_and!; try done; [lia..|congruence].
Qed.

(** An upload is refused with the database untouched, or it is a
    POST by a user with a valid token of a file whose size and type are allowed:
    the file is on disk under the path of a new row that has its owner, name,
    size and digest, and the answer describes that row. *)
Theorem handleUpload_exact h r w :
  wp (handleUpload h r) (λ res w', refused res w w' ∨
    (StatusCode res = StatusOK ∧ Method r = MethodPost ∧
     ∃ c file a, uploaded r c file a res w w')) w.
Proof. apply handleUpload_spec. Qed.

(** ** Where the files are *)

(** A file in a year and month directory, with a name of the server's. *)
Definition contained (path : string) : Prop :=
  ∃ t name, path = Path.Join [getUploadDir; date_dir t; name] ∧
    slash ∉ chars name ∧ HasPrefix name "att_" = true.

Definition writes (P : string → Prop) : relation World := λ w w',
  ∀ path, files w' !! path ≠ files w !! path → P path.

#[local] Instance writes_preorder P : PreOrder (writes P).
Proof.
  split; [by intros w path|]. intros x y z Hxy Hyz path Hne.
  destruct (decide (files y !! path = files x !! path)) as [Heq|]; [|by apply Hxy].
  apply Hyz. by rewrite Heq.
Qed.

Lemma writes_none P {A} (m : M A) : (∀ w, files (m w).2 = files w) → within (writes P) m.
Proof. intros Hm w path. by rewrite Hm. Qed.

Lemma writes_now P : within (writes P) now.
Proof. by apply writes_none. Qed.

Lemma writes_fault P : within (writes P) fault.
Proof. by apply writes_none. Qed.

Lemma writes_exec P stmt : within (writes P) (exec stmt).
Proof.
  apply writes_none. intros w. rewrite run_exec. destruct (failing w); [done|].
  by destruct (stmt (db w)).
Qed.

Lemma writes_token P token : within (writes P) (ValidateJWT token).
Proof. apply writes_none. intros w. apply ValidateJWT_store. Qed.

Lemma writes_file (P : string → Prop) path f : P path → within (writes P) (modify (set_files (partial_alter f path))).
Proof.
  intros HP w q. simpl. destruct (decide (path = q)) as [->|]; [done|].
  by rewrite lookup_partial_alter_ne.
Qed.

Lemma writes_write (P : string → Prop) path content :
  P path → within (writes P) (write_file path content).
Proof.
  intros HP. unfold write_file. apply within_bind; [exact _|apply writes_fault|].
  intros []; [apply within_ret; exact _|]. apply within_bind; [exact _|by apply writes_file|].
  intros []. apply within_ret. exact _.
Qed.

Lemma writes_remove (P : string → Prop) path : P path → within (writes P) (remove_file path).
Proof.
  intros HP. unfold remove_file. apply within_bind; [exact _|apply writes_fault|].
  intros []; [apply within_ret; exact _|]. by apply writes_file.
Qed.

Lemma contained_upload t t' file ct :
  (∀ ct e, e ∈ extensions_by_type ct → slash ∉ chars e) →
  contained (Path.Join [getUploadDir; date_dir t'; attachment_id t +:+ extension_of file ct]).
Proof.
  intros Hext. exists t', (attachment_id t +:+ extension_of file ct).
  split; [done|]. unfold attachment_id. split.
  - rewrite !chars_app, !not_elem_of_app. split_and!.
    + apply (bool_decide_unpack _). vm_compute. exact I.
    + intros [Hc|Hc]%FormatInt_chars; [done|]. vm_compute in Hc. lia.
    + unfold extension_of. destruct (str_empty _); [|apply Ext_no_slash].
      destruct (extensions_by_type ct) as [|e l] eqn:He; [by apply not_elem_of_nil|].
      apply (Hext ct). rewrite He. left.
  - rewrite <-str_app_assoc. apply HasPrefix_app.
Qed.

(** Where an upload is put is a path below the upload directory in its normal form:
    joining with [filepath.Join] is putting slashes between the elements. *)
Lemma contained_clean path :
  contained path → ∃ year month name,
    path = String.concat "/" [getUploadDir; year; month; name] ∧ Path.Clean path = path ∧
    Path.name year ∧ Path.name month ∧ Path.name name.
Proof.
  intros (t & name & -> & Hs & Ha). destruct (date_dir_names t) as (y & m & -> & Hy & Hm).
  assert (Path.name name) as Hn.
  { split_and!; [..|exact Hs]; intros ->; done. }
  exists y, m, name.
  destruct (Path.Join_directory getUploadDir [y; m; name]) as [Hj Hdir];
    [apply upload_directory|done|by repeat (apply Forall_cons; split; [done|])|].
  assert (Path.Join [getUploadDir; String.concat "/" [y; m]; name] =
    Path.Join [getUploadDir; y; m; name]) as ->.
  { rewrite !Path.Join_elems by (by apply Path.directory_not_empty, upload_directory).
    simpl. by rewrite !str_app_assoc. }
  split; [done|]. split; [|done]. destruct Hdir as (r & c & st & Hok & ->).
  by apply Path.Clean_render.
Qed.

(** The walk of [within], for the files. *)
Ltac files_walk :=
  repeat first
    [ progress intros
    | assumption
    | lazymatch goal with
      | |- within _ (mret _) => apply within_ret; exact _
      | |- within _ (reject _ _ _) => apply within_ret; exact _
      | |- within _ now => apply writes_now
      | |- within _ fault => apply writes_fault
      | |- within _ make_dir => by apply writes_none
      | |- within _ (exec _) => apply writes_exec
      | |- within _ (ValidateJWT _) => apply writes_token
      | |- within _ (write_file _ _) => apply writes_write, contained_upload; assumption
      | |- within _ (remove_file _) => apply writes_remove, contained_upload; assumption
      | |- within _ (mbind _ _) => apply within_bind; [exact _| |]
      | |- within _ (let _ := _ in _) => cbv zeta
      | |- within _ (match ?x with _ => _ end) => destruct x
      end ].

(** The identifier is an argument of the rest of an upload. *)
Lemma writes_generateID (R : Family) prefix (k : string → M Response) :
  Composes R → within R now → (∀ t, within R (k (prefix +:+ "_" +:+ FormatInt t))) →
  within R (generateID prefix ≫= k).
Proof.
  intros HR Hn Hk. assert (within R (now ≫= λ t, k (prefix +:+ "_" +:+ FormatInt t))) as Hw.
  { apply within_bind; [exact _|exact Hn|exact Hk]. }
  exact Hw.
Qed.

(** C24: an upload writes no file but one in the year and month
    directory under the upload directory, whose name is made by the server and
    cannot lead out of it whatever the client calls the file, as long as the
    extensions the system knows contain no slash. *)
Theorem uploads_contained h r w :
  (∀ ct e, e ∈ extensions_by_type ct → slash ∉ chars e) →
  wp (handleUpload h r) (λ _ w', ∀ path, files w' !! path ≠ files w !! path → contained path) w.
Proof.
  intros Hext.
  assert (within (writes contained) (handleUpload h r)) as Hw; [|exact (Hw w)].
  unfold handleUpload, with_bearer, content_type_of. files_walk.
  unfold store_upload. apply writes_generateID; [exact _|apply writes_now|].
  files_walk.
Qed.

(** ** Downloads *)

(** What a served file is: that of the attachment of the id, for its owner. *)
Definition served (aid userID content : string) (w : World) : Prop :=
  ∃ a, a ∈ attachments (db w) ∧ at_id a = aid ∧ files w !! stored_path a = Some content ∧
    (userID = EmptyString ∨ at_user_id a = userID).

Lemma ServeFile_spec h r path w :
  wp (ServeFile h r path) (λ res w', w' = w ∧
    ∀ content, ResBody res = FileBody content → files w !! path = Some content) w.
Proof.
  unfold ServeFile. destruct (containsDotDot _); [done|]. destruct (HasSuffix _ _); [done|].
  apply wp_bind. unfold wp, gets. simpl. split; [done|]. intros content.
  destruct (files w !! path); [|done]. by intros [= ->].
Qed.

Lemma serve_attachment_spec userID aid h r w :
  wp (serve_attachment userID aid h r) (λ res w', same_store w w' ∧
    ∀ content, ResBody res = FileBody content → served aid userID content w) w.
Proof.
  unfold serve_attachment. apply wp_bind, wp_read; [done|]. intros w1 Hs1.
  destruct (query_row _ _) as [a|e] eqn:Ha; [|done]. cbv beta iota.
  assert (∀ w2, same_store w w2 → (userID = EmptyString ∨ at_user_id a = userID) →
    wp (ServeFile h r (Path.Join [getUploadDir; at_storage_path a])) (λ res w', same_store w w' ∧
      ∀ content, ResBody res = FileBody content → served aid userID content w) w2) as Hserve.
  { intros w2 [Hd Hf] Hu. eapply wp_mono; [apply ServeFile_spec|]. intros res w' [-> Hres].
    split; [done|]. intros content Hc. apply query_row_Ok in Ha as [Hin Hid].
    exists a. split_and!; try done. rewrite <-Hf. by apply Hres. }
  destruct (str_empty userID) eqn:Hu.
  - apply wp_bind, wp_ret. simpl. apply Hserve; [done|]. left. by apply str_empty_true.
  - apply wp_bind, wp_bind, wp_read; [intros w2 Hs2; split; [by etrans|done]|].
    intros w2 Hs2. apply wp_ret. rewrite (proj1 Hs1), Ha. simpl.
    case_bool_decide; simpl; [apply Hserve; [by etrans|by right]|].
    split; [by etrans|done].
Qed.

(** C23: a file is only ever served from the path of an attachment of
    the id in the URL, and only to the user who uploaded it or to a holder of
    the agents' secret (a token whose user id is empty passes too).  A download
    changes neither the database nor the files. *)
Theorem handleGetAttachment_authorised h r w :
  wp (handleGetAttachment h r) (λ res w', same_store w w' ∧
    ∀ content, ResBody res = FileBody content → Method r = MethodGet ∧
      ∃ aid userID, head (Split (TrimPrefix (URLPath r) "/attachments/") slash) = Some aid ∧
        served aid userID content w ∧
        ((∃ c, bearer r c ∧ UserID c = userID) ∨
         (userID = EmptyString ∧ HeaderGet r "X-Agent-Secret" = agentSecret ∧
          agentSecret ≠ EmptyString))) w.
Proof.
  unfold handleGetAttachment. destruct (method_is _ _) eqn:Hm; simpl; [|done].
  apply bool_decide_eq_true in Hm. cbv zeta.
  destruct (head (Split _ _)) as [aid|] eqn:Haid; simpl; [|done].
  destruct (str_empty aid); [done|]. destruct (HasPrefix _ _).
  - apply wp_bind, wp_token; [done|]. intros t c w1 Hc Hs1. cbv beta iota.
    eapply wp_mono; [apply serve_attachment_spec|]. intros res w2 [Hs2 Hres].
    split; [by etrans|]. intros content (a & Ha)%Hres. split; [done|].
    exists aid, (UserID c). split_and!; [done| |left; exists c; split; [by exists t|done]].
    destruct Ha as (Hin & Hid & Hf & Ho). destruct Hs1 as [Hd1 Hf1]. exists a.
    by rewrite <-Hf1, <-Hd1.
  - destruct (str_empty _) eqn:He; simpl; [done|]. case_bool_decide as Hsec; simpl; [|done].
    eapply wp_mono; [apply serve_attachment_spec|]. intros res w1 [Hs1 Hres].
    split; [done|]. intros content Hc. split; [done|]. exists aid, EmptyString.
    split_and!; [done|by apply Hres|]. right. apply str_empty_false in He.
    split_and!; [done..|by rewrite <-Hsec].
Qed.

(** ** What was uploaded can be downloaded *)

Lemma attachment_id_chars c t : c ∈ chars (attachment_id t) → c ∉ [slash; backslash; dot].
Proof.
  assert (Forall (λ c, c ∉ [slash; backslash; dot]) (chars "att_")) as Hatt.
  { apply (bool_decide_unpack _). vm_compute. exact I. }
  unfold attachment_id. rewrite chars_app, elem_of_app. intros [Hc|Hc%FormatInt_chars].
  - rewrite Forall_forall in Hatt. by apply Hatt.
  - rewrite !elem_of_cons. intros [->|[->|[->|Hn]]]; [..|by apply not_elem_of_nil in Hn];
      destruct Hc as [Hc|Hc]; vm_compute in Hc; (done || lia).
Qed.

Lemma attachment_id_absent c t : c ∈ [slash; backslash; dot] → c ∉ chars (attachment_id t).
Proof. intros Hc Hin. by apply attachment_id_chars in Hin. Qed.

(** The URL of an attachment, as the handler and [http.ServeFile] look at it. *)
Lemma containsDotDot_plain s :
  slash ∉ chars s → backslash ∉ chars s → dot ∉ chars s →
  containsDotDot ("/attachments/" +:+ s) = false.
Proof.
  intros Hs Hb Hd. unfold containsDotDot. apply bool_decide_eq_false.
  assert (Split ("/attachments/" +:+ s) slash = [EmptyString; "attachments"; s]) as ->.
  { simpl_str. by rewrite (Split_absent s slash Hs). }
  simpl. rewrite (Split_absent s backslash) by done. simpl.
  rewrite !elem_of_cons. intros [?|[?|[<-|Hn]]]; [done..| |by apply not_elem_of_nil in Hn].
  apply Hd. left.
Qed.

Lemma attachment_url_plain t :
  containsDotDot ("/attachments/" +:+ attachment_id t) = false ∧
  HasSuffix ("/attachments/" +:+ attachment_id t) "/index.html" = false.
Proof.
  split.
  - apply containsDotDot_plain; apply attachment_id_absent; set_solver.
  - apply not_true_iff_false. intros Hs. apply (HasSuffix_last _ "/index.htm") in Hs.
    unfold attachment_id in Hs. rewrite !chars_app in Hs.
    rewrite !last_app in Hs. destruct (last (chars (FormatInt t))) as [d|] eqn:Hd; [|done].
    injection Hs as ->. apply last_Some_elem_of, FormatInt_chars in Hd as [Hd|Hd];
      vm_compute in Hd; (done || lia).
Qed.

Lemma attachment_id_head t :
  head (Split (TrimPrefix ("/attachments/" +:+ attachment_id t) "/attachments/") slash) =
  Some (attachment_id t).
Proof. rewrite TrimPrefix_app, Split_absent; [done|apply attachment_id_absent; left]. Qed.

Lemma insert_attachment_found a d d' :
  insert_attachment a d = Ok d' →
  query_row (λ b, at_id b = at_id a) (attachments d') = Ok a.
Proof.
  unfold insert_attachment. case_decide as Hn; [done|]. case_decide; [|done]. intros [= <-]. simpl.
  apply query_row_unique; [set_solver|done|]. intros b. rewrite elem_of_app, list_elem_of_singleton.
  intros [Hb| ->]; [|done]. intros Hid. destruct Hn. rewrite <-Hid. by apply list_elem_of_fmap_2.
Qed.

(** A query that does not fail. *)
Lemma wp_read_ok {A} (q : DB → Result A) (Q : Result A → World → Prop) w :
  faults w = [] → (∀ w', same_store w w' → faults w' = [] → Q (q (db w)) w') → wp (query q) Q w.
Proof.
  intros Hf HQ. unfold wp. rewrite run_query. unfold failing. rewrite Hf. apply HQ; [done|]. simpl. by rewrite Hf.
Qed.

Lemma serve_attachment_found a content h r w :
  query_row (λ b, at_id b = at_id a) (attachments (db w)) = Ok a →
  files w !! stored_path a = Some content → faults w = [] →
  containsDotDot (URLPath r) = false → HasSuffix (URLPath r) "/index.html" = false →
  wp (serve_attachment (at_user_id a) (at_id a) h r)
    (λ res _, StatusCode res = StatusOK ∧ ResBody res = FileBody content) w.
Proof.
  intros Ha Hc Hf Hdots Hindex. unfold serve_attachment.
  apply wp_bind, wp_read_ok; [done|]. intros w1 [Hd1 Hs1] Hf1. rewrite Ha. cbv beta iota.
  assert (∀ w2, files w2 = files w → wp (ServeFile h r (stored_path a))
    (λ res _, StatusCode res = StatusOK ∧ ResBody res = FileBody content) w2) as Hserve.
  { intros w2 Hw2. unfold ServeFile. rewrite Hdots, Hindex. unfold wp. rewrite run_bind. simpl.
    by rewrite Hw2, Hc. }
  destruct (str_empty (at_user_id a)) eqn:Hu; [by apply wp_bind, wp_ret, Hserve|].
  apply wp_bind, wp_bind, wp_read_ok; [done|]. intros w2 [Hd2 Hs2] Hf2. apply wp_ret.
  rewrite Hd1, Ha. simpl. rewrite bool_decide_true by done. apply Hserve. congruence.
Qed.

End steps.

(** ** The theorems on a concrete server *)

#[local] Existing Instance demo_env.

(** A file whose name tries to leave the directory, from the demo user. *)
Definition demo_upload : Request :=
  mkRequest MethodPost "/attachments/upload" "10.0.0.1:5000"
    {[ "Authorization" := "Bearer user:u1" ]} ∅ {[ "message_id" := "m1" ]} (Err (ErrText "EOF"))
    (Ok (Some (mkFileHeader "../../etc/notes" "text/plain" "the notes"))) 9 None.

Definition demo_download (url : string) : Request :=
  demo_request MethodGet url [("Authorization", "Bearer user:u1")] [] [].

Example upload_then_download :
  let w := (handleUpload ∅ demo_upload demo_world).2 in
  at_storage_path <$> attachments (db w) = ["2026/05/att_0.txt"] ∧
  ResBody (handleGetAttachment ∅ (demo_download "/attachments/att_0") w).1 = FileBody "the notes" ∧
  StatusCode (handleGetAttachment ∅
    (demo_request MethodGet "/attachments/att_0" [("Authorization", "Bearer user:u2")] [] []) w).1
    = StatusForbidden.
Proof. vm_compute. repeat split. Qed.

Lemma uploads_contained_witness :
  StatusCode (handleUpload ∅ demo_upload demo_world).1 = StatusOK ∧
  dom (files (handleUpload ∅ demo_upload demo_world).2) = {[ "/data/uploads/2026/05/att_0.txt" ]} ∧
  wp (handleUpload ∅ demo_upload) (λ _ w', ∀ path,
    files w' !! path ≠ files demo_world !! path → contained path) demo_world.
Proof.
  split; [vm_compute; reflexivity|]. split; [apply (bool_decide_unpack _); vm_compute; exact I|].
  apply (uploads_contained ∅ demo_upload demo_world). intros ct e. cbn.
  rewrite list_elem_of_singleton. intros ->. apply (bool_decide_unpack _). vm_compute. exact I.
Defined.
