(* ===== verification/Ddl.v ===== *)
(** * Data definition in SQL

    The statements that build the database's schema, run from their text: the
    words of a statement, its parse, and its effect on the catalogue of tables,
    columns and indexes, as SQLite documents CREATE TABLE IF NOT EXISTS, ALTER
    TABLE ADD COLUMN, DROP TABLE IF EXISTS and CREATE INDEX IF NOT EXISTS.  A
    column keeps the words of its definition, so two schemas can be compared.
    Keywords are recognised in either case, names are compared as written. *)

From S2P Require Import Prelude GoLib.
From Stdlib Require Import Ascii.

(** ** Words *)

Definition quote_char : ascii := ascii_of_nat 39.

Definition is_space (c : ascii) : bool :=
  bool_decide (nat_of_ascii c ∈ [9; 10; 11; 12; 13; 32]%nat).

(** Letters, digits and the underscore. *)
Definition is_word (c : ascii) : bool :=
  let n := nat_of_ascii c in
  bool_decide ((48 ≤ n ∧ n ≤ 57) ∨ (65 ≤ n ∧ n ≤ 90) ∨ (97 ≤ n ∧ n ≤ 122) ∨ n = 95)%nat.

Definition word_of (cur : list ascii) : list string :=
  match cur with [] => [] | _ => [String.string_of_list_ascii (reverse cur)] end.

(** The words before the rest of the text: names and numbers, string literals
    with their quotes, and every other character by itself. *)
Fixpoint lex (quoted : bool) (cur : list ascii) (s : list ascii) : list string :=
  match s with
  | [] => word_of cur
  | c :: s =>
      if quoted then
        if decide (c = quote_char) then word_of (c :: cur) ++ lex false [] s
        else lex true (c :: cur) s
      else if is_space c then word_of cur ++ lex false [] s
      else if decide (c = quote_char) then word_of cur ++ lex true [c] s
      else if is_word c then lex false (c :: cur) s
      else word_of cur ++ String c EmptyString :: lex false [] s
  end.

Definition words (sql : string) : list string := lex false [] (chars sql).

Example words_ex :
  words "ALTER TABLE agents ADD COLUMN model TEXT DEFAULT '';" =
  ["ALTER"; "TABLE"; "agents"; "ADD"; "COLUMN"; "model"; "TEXT"; "DEFAULT"; "''"; ";"].
Proof. reflexivity. Qed.

(** The statements of a text, by the semicolons outside of literals. *)
Fixpoint statements (cur : list string) (ts : list string) : list (list string) :=
  match ts with
  | [] => if decide (cur = []) then [] else [cur]
  | t :: ts =>
      if decide (t = ";") then
        if decide (cur = []) then statements [] ts else cur :: statements [] ts
      else statements (cur ++ [t]) ts
  end.

(** ** Parsing *)

Fixpoint ToUpper (s : string) : string :=
  match s with
  | EmptyString => EmptyString
  | String c s => String (upper_ascii c) (ToUpper s)
  end.

(** A column or constraint by its words; a column starts with its name. *)
Inductive ddl :=
  | CreateTable (name : string) (defs : list (list string))
  | AddColumn (table name : string) (def : list string)
  | DropTable (name : string)
  | CreateIndex (name table : string) (defs : list (list string)).

#[export] Instance ddl_eq_dec : EqDecision ddl.
Proof. solve_decision. Defined.

Fixpoint strip_words (keywords ts : list string) : option (list string) :=
  match keywords, ts with
  | [], _ => Some ts
  | k :: keywords, t :: ts => if decide (ToUpper t = k) then strip_words keywords ts else None
  | _ :: _, [] => None
  end.

(** The list up to the parenthesis that closes it, which ends the statement. *)
Fixpoint split_defs (depth : nat) (cur : list string) (ts : list string)
    : option (list (list string)) :=
  match ts with
  | [] => None
  | t :: ts =>
      if decide (t = "(") then split_defs (S depth) (cur ++ [t]) ts
      else if decide (t = ")") then
        match depth with
        | O => if decide (ts = [] ∧ cur ≠ []) then Some [cur] else None
        | S depth => split_defs depth (cur ++ [t]) ts
        end
      else if decide (t = "," ∧ depth = O) then
        if decide (cur = []) then None else cons cur <$> split_defs O [] ts
      else split_defs depth (cur ++ [t]) ts
  end.

Definition parse_defs (ts : list string) : option (list (list string)) :=
  match ts with
  | t :: ts => if decide (t = "(") then split_defs O [] ts else None
  | [] => None
  end.

Definition parse_ddl (ts : list string) : option ddl :=
  match strip_words ["CREATE"; "TABLE"; "IF"; "NOT"; "EXISTS"] ts with
  | Some (name :: rest) => CreateTable name <$> parse_defs rest
  | Some [] => None
  | None =>
  match strip_words ["CREATE"; "INDEX"; "IF"; "NOT"; "EXISTS"] ts with
  | Some (name :: on :: table :: rest) =>
      if decide (ToUpper on = "ON") then CreateIndex name table <$> parse_defs rest else None
  | Some _ => None
  | None =>
  match strip_words ["DROP"; "TABLE"; "IF"; "EXISTS"] ts with
  | Some [name] => Some (DropTable name)
  | Some _ => None
  | None =>
  match strip_words ["ALTER"; "TABLE"] ts with
  | Some (table :: rest) =>
      match strip_words ["ADD"; "COLUMN"] rest with
      | Some (name :: def) => Some (AddColumn table name def)
      | _ => None
      end
  | _ => None
  end end end end.

(** ** The catalogue *)

Record Table := mkTable {
  t_columns : list (string * list string); t_constraints : list (list string) }.

Record Catalog := mkCatalog { tables : gmap string Table; indexes : gmap string string }.

Definition empty_catalog : Catalog := mkCatalog ∅ ∅.

#[export] Instance Table_eq_dec : EqDecision Table.
Proof. solve_decision. Defined.

#[export] Instance Catalog_eq_dec : EqDecision Catalog.
Proof. solve_decision. Defined.

Definition col_names (t : Table) : list string := (t_columns t).*1.

Definition has_table (n : string) (c : Catalog) : Prop := is_Some (tables c !! n).
Definition has_column (n col : string) (c : Catalog) : Prop :=
  ∃ t, tables c !! n = Some t ∧ col ∈ col_names t.

#[export] Instance has_column_dec n col c : Decision (has_column n col c).
Proof.
  unfold has_column. destruct (tables c !! n) as [t|].
  - destruct (decide (col ∈ col_names t)); [left|right]; naive_solver.
  - right. naive_solver.
Defined.

(** Constraints of a table start with one of these words. *)
Definition is_constraint (def : list string) : bool :=
  match def with
  | w :: _ => bool_decide (ToUpper w ∈ ["PRIMARY"; "FOREIGN"; "UNIQUE"; "CHECK"; "CONSTRAINT"])
  | [] => false
  end.

Definition make_table (defs : list (list string)) : Table :=
  mkTable (omap (λ d, if is_constraint d then None else
                      match d with n :: d => Some (n, d) | [] => None end) defs)
    (filter (λ d, is_constraint d = true) defs).

(** ** Running a statement *)

Definition duplicate_column (col : string) : error :=
  ErrText ("duplicate column name: " +:+ col).

Definition run_ddl (s : ddl) (c : Catalog) : Result Catalog :=
  match s with
  | CreateTable n defs =>
      match tables c !! n with
      | Some _ => Ok c
      | None =>
          if decide (NoDup (col_names (make_table defs))) then
            Ok (mkCatalog (<[n := make_table defs]> (tables c)) (indexes c))
          else Err (ErrText "duplicate column name")
      end
  | AddColumn n col def =>
      match tables c !! n with
      | None => Err (ErrText ("no such table: " +:+ n))
      | Some t =>
          if decide (col ∈ col_names t) then Err (duplicate_column col)
          else Ok (mkCatalog (<[n := mkTable (t_columns t ++ [(col, def)]) (t_constraints t)]> (tables c))
                     (indexes c))
      end
  | DropTable n => Ok (mkCatalog (delete n (tables c)) (filter (λ '(_, t), t ≠ n) (indexes c)))
  | CreateIndex i n cols =>
      match indexes c !! i with
      | Some _ => Ok c
      | None =>
          match tables c !! n with
          | None => Err (ErrText ("no such table: main." +:+ n))
          | Some t =>
              if decide (Forall (λ d, default EmptyString (head d) ∈ col_names t) cols) then
                Ok (mkCatalog (tables c) (<[i := n]> (indexes c)))
              else Err (ErrText "no such column")
          end
      end
  end.

(** ** Growth

    Every statement but DROP TABLE only adds: a table keeps its columns, in
    order, and its constraints. *)

Definition extends (t t' : Table) : Prop :=
  t_columns t `prefix_of` t_columns t' ∧ t_constraints t = t_constraints t'.

Definition grows : relation Catalog := λ c c',
  (∀ n t, tables c !! n = Some t → ∃ t', tables c' !! n = Some t' ∧ extends t t') ∧
  indexes c ⊆ indexes c'.

#[export] Instance extends_preorder : PreOrder extends.
Proof.
  split; [done|]. intros x y z [Hxy Hc] [Hyz Hc']. split; [by etrans|congruence].
Qed.

#[export] Instance grows_preorder : PreOrder grows.
Proof.
  split; [intros c; split; [by eexists|done]|].
  intros x y z [Hxy Hi] [Hyz Hi']. split; [|by etrans].
  intros n t (t' & Ht' & He)%Hxy. apply Hyz in Ht' as (t'' & Ht'' & He'). exists t''.
  split; [done|by etrans].
Qed.

Lemma extends_columns t t' col : extends t t' → col ∈ col_names t → col ∈ col_names t'.
Proof.
  intros [[k Hk] _]. unfold col_names. rewrite Hk, fmap_app, elem_of_app. by left.
Qed.

Lemma grows_has_table n c c' : grows c c' → has_table n c → has_table n c'.
Proof. intros [Hg _] [t (t' & Ht' & _)%Hg]. by exists t'. Qed.

Lemma grows_has_column n col c c' : grows c c' → has_column n col c → has_column n col c'.
Proof.
  intros [Hg _] (t & (t' & Ht' & He)%Hg & Hcol). exists t'. split; [done|].
  by eapply extends_columns.
Qed.

Lemma grows_set_table n t c c' :
  (∀ t0, tables c !! n = Some t0 → extends t0 t) →
  tables c' = <[n := t]> (tables c) → indexes c' = indexes c → grows c c'.
Proof.
  intros He Ht Hi. split; [|by rewrite Hi]. intros n' t0 Ht0. rewrite Ht.
  destruct (decide (n = n')) as [->|].
  - rewrite lookup_insert_eq. eauto.
  - rewrite lookup_insert_ne by done. by exists t0.
Qed.

Definition adds (s : ddl) : Prop := match s with DropTable _ => False | _ => True end.

#[export] Instance adds_dec s : Decision (adds s).
Proof. destruct s; exact _. Defined.

Lemma run_ddl_grows s c c' : adds s → run_ddl s c = Ok c' → grows c c'.
Proof.
  destruct s as [n defs|n col def| |i n cols]; simpl; [|..|]; try done; intros _.
  - destruct (tables c !! n) as [t|] eqn:Hn; [by intros [= <-]|].
    case_decide; [|done]. intros [= <-]. eapply grows_set_table; [|done..]. intros t0. by rewrite Hn.
  - destruct (tables c !! n) as [t|] eqn:Hn; [|done]. case_decide; [done|]. intros [= <-].
    eapply grows_set_table; [|done..]. intros t0. rewrite Hn. intros [= <-].
    split; [by apply prefix_app_r|done].
  - destruct (indexes c !! i) eqn:Hi; [by intros [= <-]|]. destruct (tables c !! n); [|done].
    case_decide; [|done]. intros [= <-]. split; [by eexists|]. simpl. by apply insert_subseteq.
Qed.

(** ** What a statement has achieved

    Running it again changes nothing: the clause IF NOT EXISTS applies, or the
    column is reported as a duplicate. *)

Definition achieved (s : ddl) (c : Catalog) : Prop :=
  match s with
  | CreateTable n _ => has_table n c
  | AddColumn n col _ => has_column n col c
  | DropTable n => ¬ has_table n c
  | CreateIndex i _ _ => is_Some (indexes c !! i)
  end.

Lemma run_ddl_achieves s c c' : run_ddl s c = Ok c' → achieved s c'.
Proof.
  destruct s as [n defs|n col def|n|i n cols]; simpl.
  - destruct (tables c !! n) as [t|] eqn:Hn; [intros [= <-]; by exists t|].
    case_decide; [|done]. intros [= <-]. eexists. apply lookup_insert_eq.
  - destruct (tables c !! n) as [t|] eqn:Hn; [|done]. case_decide; [done|]. intros [= <-].
    eexists. split; [apply lookup_insert_eq|]. unfold col_names. simpl. rewrite fmap_app. set_solver.
  - intros [= <-] [t Ht]. simpl in Ht. by rewrite lookup_delete_eq in Ht.
  - destruct (indexes c !! i) eqn:Hi; [intros [= <-]; by rewrite Hi|].
    destruct (tables c !! n); [|done]. case_decide; [|done]. intros [= <-]. simpl.
    by rewrite lookup_insert_eq.
Qed.

Lemma achieved_grows s c c' : adds s → grows c c' → achieved s c → achieved s c'.
Proof.
  destruct s; simpl; intros Hs Hg; [by apply grows_has_table|by apply grows_has_column|done|].
  intros [t Ht]. exists t. destruct Hg as [_ Hi]. by eapply lookup_weaken.
Qed.

(** Statements that have nothing left to do. *)
Definition settled (s : ddl) (c : Catalog) : Prop :=
  run_ddl s c = Ok c ∨ ∃ col, run_ddl s c = Err (duplicate_column col).

Lemma achieved_settled s c : adds s → achieved s c → settled s c.
Proof.
  destruct s as [n defs|n col def|n|i n cols]; simpl; intros Hs; [..|done|]; unfold settled; simpl.
  - intros [t Ht]. rewrite Ht. by left.
  - intros (t & Ht & Hcol). rewrite Ht. right. exists col. by rewrite decide_True.
  - intros [t Ht]. rewrite Ht. by left.
Qed.
