(* ===== verification/Migrate.v ===== *)
(** * The migration tool (cmd/am-migrate)

    A separate program on the same database file: the migrations, with their SQL
    as the program has it, [splitStatements], and the actions up, down, status
    and create, on a state of the catalogue and the table [schema_migrations].
    Opening the database and every statement may fail ([io]).  Log lines are
    left out; what [status] prints is its result. *)

From S2P Require Import Prelude GoLib Ddl.
From Stdlib Require Import Ascii.

Record Migration := mkMigration {
  Version : Z; Name : string; UpSQL : string; DownSQL : string }.

#[export] Instance Migration_eq_dec : EqDecision Migration.
Proof. solve_decision. Defined.

Definition migration_1 : Migration := mkMigration 1 "initial_schema"
"
CREATE TABLE IF NOT EXISTS agents (
	id TEXT PRIMARY KEY,
	name TEXT NOT NULL,
	model TEXT NOT NULL DEFAULT '',
	personality TEXT NOT NULL DEFAULT '',
	specialty TEXT NOT NULL DEFAULT '',
	created_at TIMESTAMP DEFAULT CURRENT_TIMESTAMP
);

CREATE TABLE IF NOT EXISTS users (
	id TEXT PRIMARY KEY,
	username TEXT UNIQUE NOT NULL,
	password_hash TEXT NOT NULL,
	created_at TIMESTAMP DEFAULT CURRENT_TIMESTAMP
);

CREATE TABLE IF NOT EXISTS conversations (
	id TEXT PRIMARY KEY,
	user_id TEXT NOT NULL,
	agent_id TEXT NOT NULL,
	created_at TIMESTAMP DEFAULT CURRENT_TIMESTAMP,
	FOREIGN KEY (user_id) REFERENCES users(id),
	FOREIGN KEY (agent_id) REFERENCES agents(id)
);

CREATE TABLE IF NOT EXISTS device_tokens (
	user_id TEXT NOT NULL,
	device_token TEXT NOT NULL,
	platform TEXT NOT NULL DEFAULT 'ios',
	created_at TIMESTAMP DEFAULT CURRENT_TIMESTAMP,
	updated_at TIMESTAMP DEFAULT CURRENT_TIMESTAMP,
	PRIMARY KEY (user_id, device_token),
	FOREIGN KEY (user_id) REFERENCES users(id)
);

CREATE TABLE IF NOT EXISTS messages (
	id TEXT PRIMARY KEY,
	conversation_id TEXT NOT NULL,
	sender_type TEXT NOT NULL,
	sender_id TEXT NOT NULL,
	content TEXT NOT NULL,
	metadata TEXT,
	created_at TIMESTAMP DEFAULT CURRENT_TIMESTAMP,
	FOREIGN KEY (conversation_id) REFERENCES conversations(id)
);
"
"
DROP TABLE IF EXISTS messages;
DROP TABLE IF EXISTS device_tokens;
DROP TABLE IF EXISTS conversations;
DROP TABLE IF EXISTS users;
DROP TABLE IF EXISTS agents;
".

Definition migration_2 : Migration := mkMigration 2 "agent_metadata_columns"
"
ALTER TABLE agents ADD COLUMN model TEXT NOT NULL DEFAULT '';
ALTER TABLE agents ADD COLUMN personality TEXT NOT NULL DEFAULT '';
ALTER TABLE agents ADD COLUMN specialty TEXT NOT NULL DEFAULT '';
"
"
-- SQLite does not support DROP COLUMN before 3.35.0
-- These columns are harmless if left in place.
".

Definition migration_3 : Migration := mkMigration 3 "message_read_at"
"
ALTER TABLE messages ADD COLUMN read_at TIMESTAMP DEFAULT NULL;
"
"
-- SQLite does not support DROP COLUMN before 3.35.0
".

Definition migration_4 : Migration := mkMigration 4 "attachments_table"
"
CREATE TABLE IF NOT EXISTS attachments (
	id TEXT PRIMARY KEY,
	message_id TEXT,
	user_id TEXT NOT NULL,
	filename TEXT NOT NULL,
	content_type TEXT NOT NULL,
	size INTEGER NOT NULL,
	sha256 TEXT NOT NULL,
	storage_path TEXT NOT NULL,
	created_at TIMESTAMP DEFAULT CURRENT_TIMESTAMP,
	FOREIGN KEY (message_id) REFERENCES messages(id),
	FOREIGN KEY (user_id) REFERENCES users(id)
);
"
"
DROP TABLE IF EXISTS attachments;
".

Definition migration_5 : Migration := mkMigration 5 "e2e_encryption_tables"
"
CREATE TABLE IF NOT EXISTS key_bundles (
	id TEXT PRIMARY KEY,
	owner_id TEXT NOT NULL,
	owner_type TEXT NOT NULL,
	key_type TEXT NOT NULL,
	public_key TEXT NOT NULL,
	signature TEXT,
	key_id INTEGER,
	created_at TIMESTAMP DEFAULT CURRENT_TIMESTAMP,
	FOREIGN KEY (owner_id) REFERENCES users(id)
);

CREATE TABLE IF NOT EXISTS encrypted_messages (
	id TEXT PRIMARY KEY,
	conversation_id TEXT NOT NULL,
	sender_id TEXT NOT NULL,
	sender_type TEXT NOT NULL,
	ciphertext TEXT NOT NULL,
	iv TEXT NOT NULL,
	recipient_key_id TEXT NOT NULL,
	sender_key_id TEXT,
	algorithm TEXT NOT NULL,
	created_at TIMESTAMP DEFAULT CURRENT_TIMESTAMP,
	FOREIGN KEY (conversation_id) REFERENCES conversations(id)
);
"
"
DROP TABLE IF EXISTS encrypted_messages;
DROP TABLE IF EXISTS key_bundles;
".

Definition migration_6 : Migration := mkMigration 6 "reactions_and_tags_tables"
"
CREATE TABLE IF NOT EXISTS reactions (
	id TEXT PRIMARY KEY,
	message_id TEXT NOT NULL,
	user_id TEXT NOT NULL,
	emoji TEXT NOT NULL,
	created_at TIMESTAMP DEFAULT CURRENT_TIMESTAMP,
	FOREIGN KEY (message_id) REFERENCES messages(id),
	FOREIGN KEY (user_id) REFERENCES users(id),
	UNIQUE(message_id, user_id, emoji)
);

CREATE TABLE IF NOT EXISTS conversation_tags (
	id TEXT PRIMARY KEY,
	conversation_id TEXT NOT NULL,
	tag TEXT NOT NULL,
	created_at TIMESTAMP DEFAULT CURRENT_TIMESTAMP,
	FOREIGN KEY (conversation_id) REFERENCES conversations(id),
	UNIQUE(conversation_id, tag)
);
"
"
DROP TABLE IF EXISTS conversation_tags;
DROP TABLE IF EXISTS reactions;
".

Definition migration_7 : Migration := mkMigration 7 "message_edit_delete_columns"
"
ALTER TABLE messages ADD COLUMN edited_at TIMESTAMP DEFAULT NULL;
ALTER TABLE messages ADD COLUMN is_deleted BOOLEAN DEFAULT 0;
"
"
-- SQLite doesn't support DROP COLUMN easily; no-op for safety
".

Definition migration_8 : Migration := mkMigration 8 "rate_limit_tiers_table"
"
CREATE TABLE IF NOT EXISTS user_rate_limit_tiers (
	user_id TEXT NOT NULL PRIMARY KEY,
	tier_name TEXT NOT NULL DEFAULT 'free',
	updated_at TIMESTAMP DEFAULT CURRENT_TIMESTAMP,
	FOREIGN KEY (user_id) REFERENCES users(id) ON DELETE CASCADE
);
"
"
DROP TABLE IF EXISTS user_rate_limit_tiers;
".

Definition migrations : list Migration :=
  [migration_1; migration_2; migration_3; migration_4; migration_5; migration_6; migration_7;
   migration_8].

(** ** Text *)

(** [strings.Contains] *)
Fixpoint Contains (s sub : string) : bool :=
  HasPrefix s sub ||
  match s with
  | EmptyString => false
  | String _ s => Contains s sub
  end.

Definition semicolon : ascii := ascii_of_nat 59.

Definition splitStatements (sql : string) : list string :=
  filter (λ s, s ≠ EmptyString) (TrimSpace <$> Split sql semicolon).

(** The driver's other errors do not contain this text. *)
Definition isDuplicateColumnError (e : error) : bool :=
  match e with
  | ErrText t => Contains (ToLower t) "duplicate column name"
  | _ => false
  end.

(** ** State *)

(** [recorded] are the rows of [schema_migrations], which is one of the tables
    of the catalogue; [io] says which of the next statements fail. *)
Record MigrationDB := mkMigrationDB {
  catalog : Catalog; recorded : list (Z * string); io : list bool }.

Definition set_catalog (c : Catalog) (s : MigrationDB) : MigrationDB :=
  mkMigrationDB c (recorded s) (io s).
Definition set_recorded (r : list (Z * string)) (s : MigrationDB) : MigrationDB :=
  mkMigrationDB (catalog s) r (io s).
Definition set_io (l : list bool) (s : MigrationDB) : MigrationDB :=
  mkMigrationDB (catalog s) (recorded s) l.

Definition versions (s : MigrationDB) : list Z := (recorded s).*1.

Abbreviation MM := (St MigrationDB).

Definition io_fault : MM bool := λ s, (default false (head (io s)), set_io (tail (io s)) s).

(** One statement. *)
Definition run_parsed (d : ddl) : MM (Result unit) := λ s,
  match run_ddl d (catalog s) with
  | Ok c => (Ok tt, set_catalog c s)
  | Err e => (Err e, s)
  end.

Definition run_statement (t : list string) : MM (Result unit) :=
  f ← io_fault;
  if f : bool then mret (Err ErrIO) else
  match parse_ddl t with
  | None => mret (Err (ErrText "syntax error"))
  | Some d => run_parsed d
  end.

(** [db.Exec] of a text: its statements in order, up to the first that fails. *)
Fixpoint run_all (ts : list (list string)) : MM (Result unit) :=
  match ts with
  | [] => mret (Ok tt)
  | t :: ts =>
      r ← run_statement t;
      match r with Ok _ => run_all ts | Err e => mret (Err e) end
  end.

Definition exec_sql (sql : string) : MM (Result unit) := run_all (statements [] (words sql)).

(** Reading and changing the rows of [schema_migrations]. *)
Definition migrations_table : string := "schema_migrations".

Definition query_versions {A} (q : list (Z * string) → A) : MM (Result A) :=
  f ← io_fault;
  if f : bool then mret (Err ErrIO) else λ s,
  match tables (catalog s) !! migrations_table with
  | None => (Err (ErrText "no such table: schema_migrations"), s)
  | Some _ => (Ok (q (recorded s)), s)
  end.

Definition update_versions (u : list (Z * string) → Result (list (Z * string)))
    : MM (Result unit) :=
  f ← io_fault;
  if f : bool then mret (Err ErrIO) else λ s,
  match tables (catalog s) !! migrations_table with
  | None => (Err (ErrText "no such table: schema_migrations"), s)
  | Some _ =>
      match u (recorded s) with
      | Ok r => (Ok tt, set_recorded r s)
      | Err e => (Err e, s)
      end
  end.

(** [version] is the primary key. *)
Definition insert_version (v : Z) (n : string) (r : list (Z * string)) : Result (list (Z * string)) :=
  if decide (v ∈ r.*1) then Err ErrUnique else Ok (r ++ [(v, n)]).

Definition delete_version (v : Z) (r : list (Z * string)) : Result (list (Z * string)) :=
  Ok (filter (λ p, p.1 ≠ v) r).

Definition migrations_table_sql : string := "
		CREATE TABLE IF NOT EXISTS schema_migrations (
			version INTEGER NOT NULL,
			name TEXT NOT NULL,
			applied_at TIMESTAMP DEFAULT CURRENT_TIMESTAMP,
			PRIMARY KEY (version)
		);
	".

Definition ensureMigrationsTable : MM (Result unit) := exec_sql migrations_table_sql.

(** [COALESCE(MAX(version), 0)] *)
Definition max_version (r : list (Z * string)) : Z :=
  match r.*1 with [] => 0 | v :: vs => foldl Z.max v vs end.

Definition getCurrentVersion : MM (Result Z) := query_versions max_version.

Definition getAppliedMigrations : MM (Result (gmap Z string)) :=
  query_versions (foldl (λ m '(v, n), <[v := n]> m) ∅).

(** ** Errors of the actions *)

Inductive MigrateError :=
  | OpenDatabase (e : error)
  | EnsureTable (e : error)
  | CurrentVersion (e : error)
  | AppliedMigrations (e : error)
  | TargetExceeds (target available : Z)
  | StatementFailed (version : Z) (e : error)
  | RecordMigration (version : Z) (e : error)
  | RemoveRecord (version : Z) (e : error)
  | CreateDirectory (e : error)
  | WriteFile (e : error).

Definition Outcome (A : Type) : Type := A + MigrateError.

(** [if err != nil { return fmt.Errorf("...: %w", err) }] *)
Definition or_return {A B} (err : error → MigrateError) (m : MM (Result A))
    (k : A → MM (Outcome B)) : MM (Outcome B) :=
  r ← m; match r with Ok a => k a | Err e => mret (inr (err e)) end.

(** A call of the operating system or the driver without a result: opening the
    database, making a directory, writing a file. *)
Definition attempt : MM (Result unit) :=
  f ← io_fault; mret (if f : bool then Err ErrIO else Ok tt).

(** The steps the three actions on the database start with. *)
Definition with_current {A} (k : Z → MM (Outcome A)) : MM (Outcome A) :=
  or_return OpenDatabase attempt (λ _,
  or_return EnsureTable ensureMigrationsTable (λ _,
  or_return CurrentVersion getCurrentVersion k)).

(** [sort.Slice] by version, ascending and descending; no two migrations have
    the same version. *)
Definition by_version (m m' : Migration) : Prop := Version m ≤ Version m'.

#[export] Instance by_version_dec : RelDecision by_version.
Proof. intros m m'. unfold by_version. apply _. Defined.

Definition sorted_up : list Migration := merge_sort by_version migrations.
Definition sorted_down : list Migration := merge_sort (flip by_version) migrations.

Definition latest : Z := default 0 (Version <$> last sorted_up).

(** ** Up *)

(** The statements of a migration; a column that is there already is skipped. *)
Fixpoint up_statements (v : Z) (stmts : list string) : MM (Outcome unit) :=
  match stmts with
  | [] => mret (inl tt)
  | stmt :: stmts =>
      let stmt := TrimSpace stmt in
      if str_empty stmt then up_statements v stmts else
      r ← exec_sql stmt;
      match r with
      | Err e => if isDuplicateColumnError e then up_statements v stmts
                 else mret (inr (StatementFailed v e))
      | Ok _ => up_statements v stmts
      end
  end.

(** The loop, with the number of migrations it has applied. *)
Fixpoint up_loop (current target : Z) (applied : nat) (ms : list Migration) : MM (Outcome nat) :=
  match ms with
  | [] => mret (inl applied)
  | m :: ms =>
      if decide (Version m ≤ current) then up_loop current target applied ms
      else if decide (target < Version m) then mret (inl applied) else
      r ← up_statements (Version m) (splitStatements (UpSQL m));
      match r with
      | inr e => mret (inr e)
      | inl _ =>
          or_return (RecordMigration (Version m))
            (update_versions (insert_version (Version m) (Name m)))
            (λ _, up_loop current target (S applied) ms)
      end
  end.

(** The number of migrations applied, which is logged with the new version. *)
Definition migrateUp (targetVersion : Z) : MM (Outcome nat) :=
  with_current (λ current,
  let target := if decide (targetVersion < 0) then latest else targetVersion in
  if decide (latest < target) then mret (inr (TargetExceeds target latest)) else
  r ← up_loop current target 0 sorted_up;
  match r with
  | inr e => mret (inr e)
  | inl applied =>
      if decide (applied = O) then mret (inl O) else
      _ ← getCurrentVersion; mret (inl applied)
  end).

(** ** Down *)

(** Statements that fail are only logged. *)
Fixpoint down_statements (stmts : list string) : MM unit :=
  match stmts with
  | [] => mret tt
  | stmt :: stmts =>
      let stmt := TrimSpace stmt in
      if str_empty stmt || HasPrefix stmt "--" then down_statements stmts else
      _ ← exec_sql stmt; down_statements stmts
  end.

Fixpoint down_loop (current target : Z) (rolledBack : nat) (ms : list Migration)
    : MM (Outcome nat) :=
  match ms with
  | [] => mret (inl rolledBack)
  | m :: ms =>
      if decide (Version m ≤ target ∨ current < Version m)
      then down_loop current target rolledBack ms else
      _ ← down_statements (splitStatements (DownSQL m));
      or_return (RemoveRecord (Version m)) (update_versions (delete_version (Version m)))
        (λ _, down_loop current target (S rolledBack) ms)
  end.

Definition migrateDown (targetVersion : Z) : MM (Outcome nat) :=
  with_current (λ current,
  let target := if decide (targetVersion < 0) then 0 else targetVersion in
  if decide (current ≤ target) then mret (inl O) else
  r ← down_loop current target 0 sorted_down;
  match r with
  | inr e => mret (inr e)
  | inl rolledBack =>
      if decide (rolledBack = O) then mret (inl O) else
      _ ← getCurrentVersion; mret (inl rolledBack)
  end).

(** ** Status *)

Definition status_line (mark : string) (m : Migration) : string :=
  "  " +:+ mark +:+ " " +:+ FormatInt (Version m) +:+ ": " +:+ Name m.

(** The lines printed. *)
Definition status_report (dbPath : string) (current : Z) (applied : gmap Z string) : list string :=
  let sorted := sorted_up in
  let pending := filter (λ m, applied !! Version m = None) sorted in
  ["Database: " +:+ dbPath; "Current version: " +:+ FormatInt current;
   "Latest available: " +:+ FormatInt latest; EmptyString] ++
  (if decide (applied = ∅) then [] else
   "Applied migrations:" ::
   (status_line "✓" <$> filter (λ m, is_Some (applied !! Version m)) sorted)) ++
  (if decide (pending = []) then [] else
   "Pending migrations:" :: (status_line "○" <$> pending)) ++
  (if decide (pending = [] ∧ current = latest) then ["Database is up to date."] else []).

Definition showStatus (dbPath : string) : MM (Outcome (list string)) :=
  with_current (λ current,
  or_return AppliedMigrations getAppliedMigrations (λ applied,
  mret (inl (status_report dbPath current applied)))).

(** ** Create *)

Definition underscore : ascii := ascii_of_nat 95.

(** The next number after those of the files in the directory, which are given
    with whether they are directories; [strings.SplitN(name, "_", 2)[0]] is the
    part before the first underscore. *)
Fixpoint next_version (next : Z) (entries : list (string * bool)) : Z :=
  match entries with
  | [] => next
  | (name, isDir) :: entries =>
      if isDir : bool then next_version next entries else
      match Atoi (default EmptyString (head (Split name underscore))) with
      | Ok v => next_version (if decide (next ≤ v) then wrap64 (v + 1) else next) entries
      | Err _ => next_version next entries
      end
  end.

Definition stub_filename (v : Z) (name : string) : string :=
  FormatPadded 3 v +:+ "_" +:+ name +:+ ".sql".

Definition stub_content (v : Z) (name : string) : string :=
  let nl := String (ascii_of_nat 10) EmptyString in
  "-- Migration " +:+ FormatInt v +:+ ": " +:+ name +:+ nl +:+
  "-- Created: auto-generated" +:+ nl +:+ nl +:+ "-- Up" +:+ nl +:+ nl +:+ "-- Down" +:+ nl.

(** The file written in the directory [migrations] next to the database's; a
    directory that cannot be read has no entries. *)
Definition createMigrationStub (entries : list (string * bool)) (name : string)
    : MM (Outcome (string * string)) :=
  or_return CreateDirectory attempt (λ _,
  let v := next_version (Z.of_nat (length migrations) + 1) entries in
  or_return WriteFile attempt (λ _,
  mret (inl (stub_filename v name, stub_content v name)))).

(** ** The command *)

(** [main]: the exit status ([log.Fatal] exits with 1) and the lines printed. *)
Definition exit_status {A} (m : MM (Outcome A)) (print : A → list string) : MM (Z * list string) :=
  r ← m; mret (match r with inl a => (0, print a) | inr _ => (1, []) end).

Definition am_migrate (dbPath action : string) (target : Z) (name : string)
    (entries : list (string * bool)) : MM (Z * list string) :=
  if decide (action = "up") then exit_status (migrateUp target) (λ _, [])
  else if decide (action = "down") then exit_status (migrateDown target) (λ _, [])
  else if decide (action = "status") then exit_status (showStatus dbPath) id
  else if decide (action = "create") then
    if str_empty name then mret (1, []) else exit_status (createMigrationStub entries name) (λ _, [])
  else mret (1, []).
