(* ===== verification/Schema.v ===== *)
(** * The schema the server makes (dbdriver.go, main.go)

    [initSchema] on SQLite, with the SQL as the program has it, on the state of
    the migration tool: the tables, the record of the migrations that are built
    in, and the statements that bring an older database up to date.  The last
    step, loading the tiers, is part of the start of the process (System). *)

From S2P Require Import Prelude GoLib Ddl Migrate.

(** [initSchemaForDriver] for SQLite. *)
Definition sqliteSchema : string := "
CREATE TABLE IF NOT EXISTS users (
	id TEXT PRIMARY KEY,
	username TEXT NOT NULL UNIQUE,
	password_hash TEXT NOT NULL,
	created_at TIMESTAMP DEFAULT CURRENT_TIMESTAMP
);

CREATE TABLE IF NOT EXISTS agents (
	id TEXT NOT NULL PRIMARY KEY,
	name TEXT NOT NULL DEFAULT '',
	model TEXT NOT NULL DEFAULT '',
	personality TEXT NOT NULL DEFAULT '',
	specialty TEXT NOT NULL DEFAULT '',
	status TEXT NOT NULL DEFAULT 'offline',
	created_at TIMESTAMP DEFAULT CURRENT_TIMESTAMP
);

CREATE TABLE IF NOT EXISTS conversations (
	id TEXT PRIMARY KEY,
	user_id TEXT NOT NULL,
	agent_id TEXT NOT NULL,
	created_at TIMESTAMP DEFAULT CURRENT_TIMESTAMP,
	FOREIGN KEY (user_id) REFERENCES users(id),
	FOREIGN KEY (agent_id) REFERENCES agents(id)
);

CREATE TABLE IF NOT EXISTS device_tokens (
	user_id TEXT NOT NULL,
	device_token TEXT NOT NULL,
	platform TEXT NOT NULL DEFAULT 'ios',
	created_at TIMESTAMP DEFAULT CURRENT_TIMESTAMP,
	updated_at TIMESTAMP DEFAULT CURRENT_TIMESTAMP,
	PRIMARY KEY (user_id, device_token),
	FOREIGN KEY (user_id) REFERENCES users(id)
);

CREATE TABLE IF NOT EXISTS messages (
	id TEXT PRIMARY KEY,
	conversation_id TEXT NOT NULL,
	sender_type TEXT NOT NULL,
	sender_id TEXT NOT NULL,
	content TEXT NOT NULL,
	metadata TEXT,
	created_at TIMESTAMP DEFAULT CURRENT_TIMESTAMP,
	edited_at TIMESTAMP,
	is_deleted BOOLEAN DEFAULT 0,
	FOREIGN KEY (conversation_id) REFERENCES conversations(id)
);

CREATE TABLE IF NOT EXISTS attachments (
	id TEXT PRIMARY KEY,
	message_id TEXT,
	user_id TEXT NOT NULL,
	filename TEXT NOT NULL,
	content_type TEXT NOT NULL,
	size INTEGER NOT NULL,
	sha256 TEXT NOT NULL,
	storage_path TEXT NOT NULL,
	created_at TIMESTAMP DEFAULT CURRENT_TIMESTAMP,
	FOREIGN KEY (message_id) REFERENCES messages(id),
	FOREIGN KEY (user_id) REFERENCES users(id)
);

CREATE TABLE IF NOT EXISTS key_bundles (
	id TEXT PRIMARY KEY,
	owner_id TEXT NOT NULL,
	owner_type TEXT NOT NULL,
	key_type TEXT NOT NULL,
	public_key TEXT NOT NULL,
	signature TEXT,
	key_id INTEGER,
	created_at TIMESTAMP DEFAULT CURRENT_TIMESTAMP,
	FOREIGN KEY (owner_id) REFERENCES users(id)
);

CREATE TABLE IF NOT EXISTS encrypted_messages (
	id TEXT PRIMARY KEY,
	conversation_id TEXT NOT NULL,
	sender_id TEXT NOT NULL,
	sender_type TEXT NOT NULL,
	ciphertext TEXT NOT NULL,
	iv TEXT NOT NULL,
	recipient_key_id TEXT NOT NULL,
	sender_key_id TEXT,
	algorithm TEXT NOT NULL,
	created_at TIMESTAMP DEFAULT CURRENT_TIMESTAMP,
	FOREIGN KEY (conversation_id) REFERENCES conversations(id)
);

CREATE TABLE IF NOT EXISTS notification_preferences (
	user_id TEXT NOT NULL,
	conversation_id TEXT NOT NULL,
	muted INTEGER NOT NULL DEFAULT 0,
	created_at TIMESTAMP DEFAULT CURRENT_TIMESTAMP,
	PRIMARY KEY (user_id, conversation_id),
	FOREIGN KEY (user_id) REFERENCES users(id) ON DELETE CASCADE,
	FOREIGN KEY (conversation_id) REFERENCES conversations(id) ON DELETE CASCADE
);

CREATE TABLE IF NOT EXISTS offline_queue (
	id INTEGER PRIMARY KEY AUTOINCREMENT,
	recipient TEXT NOT NULL,
	data BLOB NOT NULL,
	queued_at DATETIME NOT NULL,
	sent_count INTEGER NOT NULL DEFAULT 0
);
CREATE INDEX IF NOT EXISTS idx_queue_recipient ON offline_queue(recipient);
".

(** The tables made one by one. *)
Definition reactions_sql : string := "
		CREATE TABLE IF NOT EXISTS reactions (
			id TEXT PRIMARY KEY,
			message_id TEXT NOT NULL,
			user_id TEXT NOT NULL,
			emoji TEXT NOT NULL,
			created_at TIMESTAMP DEFAULT CURRENT_TIMESTAMP,
			UNIQUE(message_id, user_id, emoji),
			FOREIGN KEY (message_id) REFERENCES messages(id) ON DELETE CASCADE,
			FOREIGN KEY (user_id) REFERENCES users(id) ON DELETE CASCADE
		);
	".

Definition conversation_tags_sql : string := "
		CREATE TABLE IF NOT EXISTS conversation_tags (
			id TEXT PRIMARY KEY,
			conversation_id TEXT NOT NULL,
			tag TEXT NOT NULL,
			created_at TIMESTAMP DEFAULT CURRENT_TIMESTAMP,
			UNIQUE(conversation_id, tag),
			FOREIGN KEY (conversation_id) REFERENCES conversations(id) ON DELETE CASCADE
		);
	".

Definition user_rate_limit_tiers_sql : string := "
		CREATE TABLE IF NOT EXISTS user_rate_limit_tiers (
			user_id TEXT NOT NULL PRIMARY KEY,
			tier_name TEXT NOT NULL DEFAULT 'free',
			updated_at TIMESTAMP DEFAULT CURRENT_TIMESTAMP,
			FOREIGN KEY (user_id) REFERENCES users(id) ON DELETE CASCADE
		);
	".

Definition notification_preferences_sql : string := "
		CREATE TABLE IF NOT EXISTS notification_preferences (
			user_id TEXT NOT NULL,
			conversation_id TEXT NOT NULL,
			muted BOOLEAN NOT NULL DEFAULT 0,
			created_at TIMESTAMP DEFAULT CURRENT_TIMESTAMP,
			PRIMARY KEY (user_id, conversation_id),
			FOREIGN KEY (user_id) REFERENCES users(id) ON DELETE CASCADE,
			FOREIGN KEY (conversation_id) REFERENCES conversations(id) ON DELETE CASCADE
		);
	".

Definition inlineMigrations : list (Z * string) :=
  [(1, "initial_schema");
   (2, "agent_metadata_columns");
   (3, "message_read_at");
   (4, "attachments_table");
   (5, "e2e_encryption_tables");
   (6, "reactions_and_tags_tables");
   (7, "message_edit_delete_columns");
   (8, "rate_limit_tiers_table")].

(** The columns added to older tables: for agents, read receipts, editing. *)
Definition alter_agents : list string :=
  ["ALTER TABLE agents ADD COLUMN model TEXT NOT NULL DEFAULT ''";
   "ALTER TABLE agents ADD COLUMN personality TEXT NOT NULL DEFAULT ''";
   "ALTER TABLE agents ADD COLUMN specialty TEXT NOT NULL DEFAULT ''"].

Definition migrations_read : list string :=
  ["ALTER TABLE messages ADD COLUMN read_at TIMESTAMP DEFAULT NULL"].

Definition migrations_edit : list string :=
  ["ALTER TABLE messages ADD COLUMN edited_at TIMESTAMP DEFAULT NULL";
   "ALTER TABLE messages ADD COLUMN is_deleted BOOLEAN DEFAULT 0"].

Definition schema_indexes : list string :=
  ["CREATE INDEX IF NOT EXISTS idx_reactions_message ON reactions(message_id)";
   "CREATE INDEX IF NOT EXISTS idx_tags_conversation ON conversation_tags(conversation_id)"].

(** [INSERT OR IGNORE] *)
Definition insert_or_ignore (v : Z) (n : string) (r : list (Z * string)) : Result (list (Z * string)) :=
  if decide (v ∈ r.*1) then Ok r else Ok (r ++ [(v, n)]).

(** Statements whose errors are ignored. *)
Fixpoint exec_each (sqls : list string) : MM unit :=
  match sqls with
  | [] => mret tt
  | sql :: sqls => _ ← exec_sql sql; exec_each sqls
  end.

Fixpoint record_each (ms : list (Z * string)) : MM unit :=
  match ms with
  | [] => mret tt
  | (v, n) :: ms => _ ← update_versions (insert_or_ignore v n); record_each ms
  end.

(** [if _, err := db.Exec(sql); err != nil { return err }] *)
Definition exec_then (sql : string) (k : MM (Result unit)) : MM (Result unit) :=
  r ← exec_sql sql; match r with Ok _ => k | Err e => mret (Err e) end.

(** A count that cannot be read stays 0. *)
Definition migration_count : MM nat :=
  r ← query_versions length; mret (match r with Ok n => n | Err _ => O end).

(** The columns and tables that came later. *)
Definition update_schema : MM (Result unit) :=
  _ ← exec_each alter_agents;
  _ ← exec_each migrations_read;
  _ ← exec_each migrations_edit;
  exec_then reactions_sql
  (exec_then conversation_tags_sql
  (_ ← exec_each schema_indexes;
   exec_then user_rate_limit_tiers_sql
  (exec_then notification_preferences_sql
   (mret (Ok tt))))).

Definition initSchema : MM (Result unit) :=
  exec_then sqliteSchema
  (exec_then migrations_table_sql
  (n ← migration_count;
   _ ← (if decide (n = O) then record_each inlineMigrations else mret tt);
   update_schema)).

(** [initQueueDB]: the queue's table once more; an error is only logged. *)
Definition queue_db_sql : string := "
CREATE TABLE IF NOT EXISTS offline_queue (
	id INTEGER PRIMARY KEY AUTOINCREMENT,
	recipient TEXT NOT NULL,
	data BLOB NOT NULL,
	queued_at DATETIME NOT NULL,
	sent_count INTEGER NOT NULL DEFAULT 0
);
CREATE INDEX IF NOT EXISTS idx_queue_recipient ON offline_queue(recipient)".

Definition initQueueDB : MM unit := _ ← exec_sql queue_db_sql; mret tt.
