(* ===== verification/MigrateProps.v ===== *)
(** * What the migrations do to a database *)

From S2P Require Import Prelude GoLib Ddl Migrate Schema.

(** ** The statements behind the texts

    Every statement of the migrations parses, so the loops can be followed on
    [ddl] values whatever the catalogue is. *)

Definition single (sql : string) : option ddl :=
  match statements [] (words sql) with [t] => parse_ddl t | _ => None end.

(** A statement as [splitStatements] returns it. *)
Definition clean (sql : string) : option ddl :=
  if decide (TrimSpace sql = sql ∧ sql ≠ EmptyString) then single sql else None.

Definition ups (m : Migration) : option (list ddl) := mapM clean (splitStatements (UpSQL m)).

Definition up_ddl (m : Migration) : list ddl := default [] (ups m).

(** The errors of a statement are told apart by [isDuplicateColumnError]. *)
Definition sane (d : ddl) : bool :=
  match d with
  | CreateTable _ defs => bool_decide (NoDup (col_names (make_table defs)))
  | AddColumn n _ _ => negb (isDuplicateColumnError (ErrText ("no such table: " +:+ n)))
  | _ => false
  end.

(** The tables whose columns a statement extends. *)
Definition altered (d : ddl) : list string :=
  match d with AddColumn n _ _ => [n] | _ => [] end.

Definition well_formed (m : Migration) : Prop :=
  is_Some (ups m) ∧ Forall (λ d, sane d = true ∧ altered d ⊆ ["agents"; "messages"]) (up_ddl m).

Lemma migrations_well_formed : Forall well_formed migrations.
Proof. apply (bool_decide_unpack _). vm_compute. exact I. Qed.

Lemma sorted_up_migrations : sorted_up = migrations.
Proof. vm_compute. reflexivity. Qed.

Lemma latest_8 : latest = 8.
Proof. vm_compute. reflexivity. Qed.

Lemma first_migration :
  ∃ m ms, migrations = m :: ms ∧ Version m = 1 ∧ (∀ m', m' ∈ ms → 1 < Version m') ∧
    Forall (λ d, altered d = []) (up_ddl m) ∧
    ∀ c, Forall (λ d, achieved d c) (up_ddl m) → has_table "agents" c ∧ has_table "messages" c.
Proof.
  eexists _, _. split; [unfold migrations; reflexivity|]. split; [done|]. split; [|split].
  - apply Forall_forall. apply (bool_decide_unpack _). vm_compute. exact I.
  - apply (bool_decide_unpack _). vm_compute. exact I.
  - intros c. vm_compute up_ddl. rewrite !Forall_cons. simpl. tauto.
Qed.

Lemma versions_increase : StronglySorted (λ m m', Version m < Version m') migrations.
Proof.
  apply Sorted_StronglySorted; [intros ?; lia|]. unfold migrations. repeat constructor.
Qed.

(** ** Frames

    What every step of [migrateUp] does but recording a migration. *)

Definition kept : relation MigrationDB := λ s s',
  grows (catalog s) (catalog s') ∧ recorded s' = recorded s ∧ (io s = [] → io s' = []).

#[export] Instance kept_preorder : PreOrder kept.
Proof.
  split; [done|]. intros x y z (Hg & Hr & Hi) (Hg' & Hr' & Hi').
  split_and!; [by etrans|congruence|auto].
Qed.

Definition faulty (s : MigrationDB) : Prop := io s ≠ [].

Lemma kept_faulty s s' : kept s s' → faulty s' → faulty s.
Proof. intros (_ & _ & Hi) Hf Hs. by apply Hf, Hi. Qed.

Lemma wp_io_fault (Q : bool → MigrationDB → Prop) s :
  (∀ s', kept s s' → catalog s' = catalog s → faulty s → Q true s') →
  (∀ s', kept s s' → catalog s' = catalog s → Q false s') → wp io_fault Q s.
Proof.
  intros Ht Hf. unfold wp, io_fault. simpl.
  assert (kept s (set_io (tail (io s)) s)) as Hk.
  { split_and!; [done..|]. intros Hi. simpl. by rewrite Hi. }
  destruct (io s) as [|[] l] eqn:Hi; simpl; [by apply Hf|apply Ht|by apply Hf]; try done.
  unfold faulty. by rewrite Hi.
Qed.

(** A statement that parses and its three outcomes. *)
Inductive ran (d : ddl) (s s' : MigrationDB) : Result unit → Prop :=
  | ran_done : achieved d (catalog s') → ran d s s' (Ok tt)
  | ran_again e : altered d ≠ [] → isDuplicateColumnError e = true → achieved d (catalog s') →
      ran d s s' (Err e)
  | ran_failed e : isDuplicateColumnError e = false →
      (faulty s ∨ ∃ n, n ∈ altered d ∧ ¬ has_table n (catalog s)) → ran d s s' (Err e).

Lemma duplicate_column_recognised col : isDuplicateColumnError (duplicate_column col) = true.
Proof. simpl. destruct (ToLower col); reflexivity. Qed.

Lemma wp_exec_sane sql d s :
  single sql = Some d → sane d = true →
  wp (exec_sql sql) (λ r s', kept s s' ∧ ran d s s' r) s.
Proof.
  unfold single, exec_sql. intros Hp Hd.
  destruct (statements [] (words sql)) as [|t [|]]; try done. simpl.
  apply wp_bind. unfold run_statement. apply wp_bind, wp_io_fault.
  { intros s' Hk _ Hf. split; [done|]. apply ran_failed; [done|by left]. }
  intros s' Hk Hc. rewrite Hp. unfold run_parsed, wp. rewrite Hc.
  destruct (run_ddl d (catalog s)) as [c|e] eqn:Hrun; simpl.
  - assert (adds d) as Ha by by destruct d. split.
    + etrans; [exact Hk|]. split_and!; [|done|done]. rewrite Hc. by apply (run_ddl_grows d).
    + apply ran_done. simpl. by eapply run_ddl_achieves.
  - split; [done|]. destruct d as [n defs|n col def| |]; simpl in *; try done.
    + destruct (tables (catalog s) !! n); [done|]. rewrite decide_True in Hrun; [done|].
      by apply bool_decide_eq_true in Hd.
    + destruct (tables (catalog s) !! n) as [t0|] eqn:Hn.
      * case_decide; [|done]. injection Hrun as <-.
        apply ran_again; [done|apply duplicate_column_recognised|]. rewrite Hc. by exists t0.
      * injection Hrun as <-. apply ran_failed; [by apply negb_true_iff|]. right. exists n.
        split; [set_solver|]. intros [t0 Ht0]. by rewrite Hn in Ht0.
Qed.

(** ** Up *)

(** The tables that the remaining statements extend exist. *)
Definition ready (ds : list ddl) (c : Catalog) : Prop :=
  Forall (λ d, Forall (λ n, has_table n c) (altered d)) ds.

Lemma ready_grows ds c c' : grows c c' → ready ds c → ready ds c'.
Proof.
  intros Hg Hr. eapply Forall_impl; [exact Hr|]. intros d Hd.
  eapply Forall_impl; [exact Hd|]. intros n. by apply grows_has_table.
Qed.

Definition in_effect (m : Migration) (c : Catalog) : Prop :=
  Forall (λ d, achieved d c) (up_ddl m).

Lemma in_effect_grows m c c' :
  Forall (λ d, sane d = true) (up_ddl m) → grows c c' → in_effect m c → in_effect m c'.
Proof.
  intros Hs Hg He. unfold in_effect in *. rewrite Forall_forall in *. intros d Hd.
  apply (achieved_grows _ c); [|done|by apply He]. specialize (Hs d Hd). by destruct d.
Qed.

Lemma up_statements_spec v stmts ds s :
  Forall2 (λ sql d, clean sql = Some d) stmts ds → Forall (λ d, sane d = true) ds →
  wp (up_statements v stmts) (λ r s', kept s s' ∧
    match r with
    | inl _ => Forall (λ d, achieved d (catalog s')) ds
    | inr _ => faulty s ∨ ¬ ready ds (catalog s)
    end) s.
Proof.
  intros Hp. revert s. induction Hp as [|sql d stmts ds Hsql Hp IH]; intros s Hs; simpl.
  { split; [done|constructor]. }
  apply Forall_cons in Hs as [Hd Hs]. unfold clean in Hsql. case_decide as Htrim; [|done].
  destruct Htrim as [Htrim Hne]. rewrite Htrim. apply str_empty_false in Hne. rewrite Hne.
  apply wp_bind. eapply wp_mono; [by eapply wp_exec_sane|]. intros r s1 [Hk Hran].
  assert (achieved d (catalog s1) → wp (up_statements v stmts) (λ r s', kept s s' ∧
    match r with
    | inl _ => Forall (λ d, achieved d (catalog s')) (d :: ds)
    | inr _ => faulty s ∨ ¬ ready (d :: ds) (catalog s)
    end) s1) as Hnext.
  { intros Ha. eapply wp_mono; [by apply IH|]. intros r' s2 [Hk2 Hr'].
    split; [by etrans|]. destruct r' as [u|e].
    - constructor; [|done]. eapply achieved_grows; [|apply Hk2|done]. by destruct d.
    - destruct Hr' as [Hf|Hr']; [left; by eapply kept_faulty|right].
      intros [_ Hr]%Forall_cons. apply Hr'. eapply ready_grows; [apply Hk|done]. }
  destruct Hran as [Ha|e _ Hdup Ha|e Hdup Hf]; rewrite ?Hdup; [by apply Hnext..|].
  apply wp_ret. split; [done|]. destruct Hf as [|(n & Hn & Hno)]; [by left|right].
  intros [Hr _]%Forall_cons. apply Hno. rewrite Forall_forall in Hr. by apply Hr.
Qed.

Lemma up_migration_spec m s :
  m ∈ migrations →
  wp (up_statements (Version m) (splitStatements (UpSQL m))) (λ r s', kept s s' ∧
    match r with
    | inl _ => in_effect m (catalog s')
    | inr _ => faulty s ∨ ¬ ready (up_ddl m) (catalog s)
    end) s.
Proof.
  intros Hm. pose proof migrations_well_formed as Hwf. rewrite Forall_forall in Hwf.
  apply Hwf in Hm as [[ds Hds] Hsane]. unfold in_effect, up_ddl in *. rewrite Hds in *. simpl in *.
  apply up_statements_spec; [by apply mapM_Some|].
  eapply Forall_impl; [exact Hsane|]. by intros d [].
Qed.

(** The rows of the record. *)
Definition row_of (m : Migration) : Z * string := (Version m, Name m).

Lemma wp_update_versions u (Q : Result unit → MigrationDB → Prop) s :
  (∀ e s', kept s s' →
    faulty s ∨ ¬ has_table migrations_table (catalog s) ∨ u (recorded s) = Err e → Q (Err e) s') →
  (∀ r s', u (recorded s) = Ok r → kept s s' → Q (Ok tt) (set_recorded r s')) →
  wp (update_versions u) Q s.
Proof.
  intros He Hok. unfold update_versions. apply wp_bind, wp_io_fault.
  { intros s' Hk _ Hf. apply He; [done|by left]. }
  intros s' Hk Hc. unfold wp. rewrite Hc. destruct (tables (catalog s) !! migrations_table) eqn:Ht.
  - assert (recorded s' = recorded s) as -> by apply Hk.
    destruct (u (recorded s)) as [r|e] eqn:Hu; simpl; [by apply Hok|apply He; auto].
  - apply He; [done|]. right. left. intros [t0 Ht0]. by rewrite Ht in Ht0.
Qed.

(** [filter] stops where the loop does. *)
Definition pending (current target : Z) (ms : list Migration) : list Migration :=
  filter (λ m, current < Version m ≤ target) ms.

Lemma pending_done current target m ms :
  StronglySorted (λ m m', Version m < Version m') (m :: ms) → target < Version m →
  pending current target (m :: ms) = [].
Proof.
  intros [_ Hm]%StronglySorted_inv Ht. apply filter_false. intros m' Hm'.
  apply elem_of_cons in Hm' as [->|Hm']; [lia|]. rewrite Forall_forall in Hm.
  apply Hm in Hm'. lia.
Qed.

(** What [migrateUp] has done when it returns: the migrations [done] are
    recorded and in effect, nothing else is recorded, nothing is dropped. *)
Definition upgraded (ms : list Migration) (s s' : MigrationDB) : Prop :=
  grows (catalog s) (catalog s') ∧ (io s = [] → io s' = []) ∧
  recorded s' = recorded s ++ (row_of <$> ms) ∧ Forall (λ m, in_effect m (catalog s')) ms.

Lemma upgraded_nil s s' : kept s s' → upgraded [] s s'.
Proof. intros (Hg & Hr & Hi). split_and!; [done..| |constructor]. simpl. by rewrite app_nil_r. Qed.

Lemma sane_of m : m ∈ migrations → Forall (λ d, sane d = true) (up_ddl m).
Proof.
  intros Hm. pose proof migrations_well_formed as Hwf. rewrite Forall_forall in Hwf.
  apply Hwf in Hm as [_ Hs]. eapply Forall_impl; [exact Hs|]. by intros d [].
Qed.

Lemma upgraded_cons m ms s s1 s2 :
  m ∈ migrations → kept s s1 → in_effect m (catalog s1) →
  upgraded ms (set_recorded (recorded s1 ++ [row_of m]) s1) s2 → upgraded (m :: ms) s s2.
Proof.
  intros Hm (Hg & Hr & Hi) He (Hg2 & Hi2 & Hr2 & He2). split_and!; [by etrans|auto| |].
  - rewrite Hr2. simpl. by rewrite Hr, <-app_assoc.
  - constructor; [|done]. eapply in_effect_grows; [by apply sane_of|exact Hg2|done].
Qed.

(** One migration of the loop. *)
Definition obstacle (m : Migration) (s : MigrationDB) : Prop :=
  faulty s ∨ ¬ ready (up_ddl m) (catalog s) ∨ ¬ has_table migrations_table (catalog s) ∨
  Version m ∈ versions s.

Lemma wp_up_loop_cons current target applied m ms (Q : Outcome nat → MigrationDB → Prop) s :
  m ∈ migrations → current < Version m ≤ target →
  (∀ e s', kept s s' → obstacle m s → Q (inr e) s') →
  (∀ s1, kept s s1 → in_effect m (catalog s1) →
    wp (up_loop current target (S applied) ms) Q (set_recorded (recorded s ++ [row_of m]) s1)) →
  wp (up_loop current target applied (m :: ms)) Q s.
Proof.
  intros Hm [Hc Ht] He Hok. simpl. rewrite decide_False by lia. rewrite decide_False by lia.
  apply wp_bind. eapply wp_mono; [by apply up_migration_spec|]. intros [[]|e] s1 [Hk Hr]; cycle 1.
  { apply wp_ret, He; [done|]. unfold obstacle. tauto. }
  unfold or_return. apply wp_bind. assert (recorded s1 = recorded s) as Hrec by apply Hk.
  apply wp_update_versions.
  - intros e s2 Hk2 Hob. apply wp_ret, He; [by etrans|]. destruct Hob as [Hf|[Hn|Hi]].
    + left. by eapply kept_faulty.
    + right. right. left. intros Hs. apply Hn. eapply grows_has_table; [apply Hk|done].
    + right. right. right. unfold insert_version in Hi. rewrite Hrec in Hi. by case_decide.
  - intros r s2 Hr2 Hk2. unfold insert_version in Hr2. case_decide; [done|].
    injection Hr2 as <-. rewrite Hrec. apply Hok; [by etrans|].
    eapply in_effect_grows; [by apply sane_of|apply Hk2|done].
Qed.

Lemma up_loop_spec current target applied ms s :
  (∀ m, m ∈ ms → m ∈ migrations) → StronglySorted (λ m m', Version m < Version m') ms →
  wp (up_loop current target applied ms) (λ r s', ∃ done,
    done `prefix_of` pending current target ms ∧ upgraded done s s' ∧
    ∀ n, r = inl n → done = pending current target ms ∧ n = (applied + length done)%nat) s.
Proof.
  revert applied s. induction ms as [|m ms IH]; intros applied s Hms Hsort.
  { apply wp_ret. exists []. split_and!; [done|by apply upgraded_nil|]. intros n [= <-]. split; [done|simpl; lia]. }
  assert (∀ m', m' ∈ ms → m' ∈ migrations) as Hms' by (intros; apply Hms; by right).
  pose proof (StronglySorted_inv Hsort) as [Hsort' _].
  destruct (decide (Version m ≤ current)) as [Hle|Hgt].
  { simpl. rewrite decide_True by done. unfold pending. rewrite filter_cons_False by (cbv beta; lia). by apply IH. }
  destruct (decide (target < Version m)) as [Htar|Htar].
  { simpl. rewrite decide_False by lia. rewrite decide_True by lia. rewrite pending_done by done.
    apply wp_ret. exists []. split_and!; [done|by apply upgraded_nil|]. intros n [= <-]. split; [done|simpl; lia]. }
  assert (pending current target (m :: ms) = m :: pending current target ms) as Hp.
  { unfold pending. by rewrite filter_cons_True by (cbv beta; lia). }
  rewrite Hp. apply wp_up_loop_cons; [apply Hms; left|lia|..].
  - intros e s' Hk _. exists []. split_and!; [apply prefix_nil|by apply upgraded_nil|done].
  - intros s1 Hk He. eapply wp_mono; [by apply IH|]. intros r s2 (don & Hpre & Hup & Hr).
    exists (m :: don). split_and!; [by apply prefix_cons| |].
    + eapply upgraded_cons; [apply Hms; left|exact Hk|done|]. by replace (recorded s1) with (recorded s) by (symmetry; apply Hk).
    + intros n [-> ->]%Hr. split; [done|]. simpl. lia.
Qed.

(** The loop runs to its end when no statement fails. *)
Definition runnable (current : Z) (s : MigrationDB) : Prop :=
  ¬ faulty s ∧ has_table migrations_table (catalog s) ∧
  has_table "agents" (catalog s) ∧ has_table "messages" (catalog s).

Lemma runnable_grows current s s' :
  grows (catalog s) (catalog s') → (io s = [] → io s' = []) → runnable current s → runnable current s'.
Proof.
  intros Hg Hi (Hf & Ht & Ha & Hm). split_and!; [|by eapply grows_has_table..].
  intros Hf'. apply Hf. intros Hs. by apply Hf', Hi.
Qed.

Lemma runnable_no_obstacle current m s :
  m ∈ migrations → runnable current s → Version m ∉ versions s → ¬ obstacle m s.
Proof.
  intros Hm (Hf & Ht & Ha & Hmsg) Hv [Ho|[Ho|[Ho|Ho]]]; try done. apply Ho.
  pose proof migrations_well_formed as Hwf. rewrite Forall_forall in Hwf.
  apply Hwf in Hm as [_ Hs]. eapply Forall_impl; [exact Hs|]. intros d [_ Hd].
  apply Forall_forall. intros n Hn%Hd. apply elem_of_cons in Hn as [->|Hn]; [done|].
  by apply list_elem_of_singleton in Hn as ->.
Qed.

Lemma up_loop_completes current target applied ms s :
  (∀ m, m ∈ ms → m ∈ migrations) → StronglySorted (λ m m', Version m < Version m') ms →
  runnable current s → (∀ m v, m ∈ pending current target ms → v ∈ versions s → v < Version m) →
  wp (up_loop current target applied ms) (λ r _, ∃ n, r = inl n) s.
Proof.
  revert applied s. induction ms as [|m ms IH]; intros applied s Hms Hsort Hrun Hv.
  { apply wp_ret. by exists applied. }
  assert (∀ m', m' ∈ ms → m' ∈ migrations) as Hms' by (intros; apply Hms; by right).
  pose proof (StronglySorted_inv Hsort) as [Hsort' Hlt]. rewrite Forall_forall in Hlt.
  assert (∀ m', m' ∈ pending current target ms → m' ∈ pending current target (m :: ms)) as Hsub.
  { intros m'. unfold pending. rewrite !list_elem_of_filter. intros [? ?]. split; [done|by right]. }
  destruct (decide (Version m ≤ current)) as [Hle|Hgt].
  { simpl. rewrite decide_True by done. apply IH; auto. }
  destruct (decide (target < Version m)) as [Htar|Htar].
  { simpl. rewrite decide_False by lia. rewrite decide_True by lia. apply wp_ret. by exists applied. }
  assert (m ∈ pending current target (m :: ms)) as Hm.
  { unfold pending. apply list_elem_of_filter. split; [lia|by left]. }
  apply wp_up_loop_cons; [apply Hms; left|lia|..].
  - intros e s' Hk Ho. exfalso. revert Ho. apply (runnable_no_obstacle current); [apply Hms; left|done|].
    intros Hin. specialize (Hv m _ Hm Hin). lia.
  - intros s1 Hk He. apply IH; [done|done| |].
    + eapply runnable_grows; [apply Hk..|done].
    + intros m' v Hm'. unfold versions. simpl. rewrite fmap_app, elem_of_app. intros [Hin|Hin].
      * by apply Hv; [apply Hsub|].
      * apply list_elem_of_singleton in Hin as ->. apply Hlt. by apply list_elem_of_filter in Hm' as [_ ?].
Qed.

Lemma wp_query_versions {A} (q : list (Z * string) → A) (Q : Result A → MigrationDB → Prop) s :
  (∀ e s', kept s s' → faulty s ∨ ¬ has_table migrations_table (catalog s) → Q (Err e) s') →
  (∀ s', kept s s' → Q (Ok (q (recorded s))) s') → wp (query_versions q) Q s.
Proof.
  intros He Hok. unfold query_versions. apply wp_bind, wp_io_fault.
  { intros s' Hk _ Hf. apply He; [done|by left]. }
  intros s' Hk Hc. unfold wp. rewrite Hc. assert (recorded s' = recorded s) as -> by apply Hk.
  destruct (tables (catalog s) !! migrations_table) eqn:Ht; [by apply Hok|].
  apply He; [done|]. right. intros [t0 Ht0]. by rewrite Ht in Ht0.
Qed.

Lemma migrations_table_single :
  ∃ defs, single migrations_table_sql = Some (CreateTable migrations_table defs) ∧
    sane (CreateTable migrations_table defs) = true.
Proof. eexists. split; [vm_compute; reflexivity|vm_compute; reflexivity]. Qed.

Lemma wp_with_current {A} (k : Z → MM (Outcome A)) Q s :
  (∀ e s', kept s s' → faulty s → Q (inr e) s') →
  (∀ s', kept s s' → has_table migrations_table (catalog s') →
    wp (k (max_version (recorded s))) Q s') →
  wp (with_current k) Q s.
Proof.
  intros He Hk. unfold with_current, or_return, attempt.
  apply wp_bind, wp_bind, wp_io_fault.
  { intros s1 H1 _ Hf. apply wp_ret. apply wp_ret. apply He; assumption. }
  intros s1 H1 _. apply wp_ret, wp_bind. destruct migrations_table_single as (defs & Hs & Hd).
  eapply wp_mono; [by eapply wp_exec_sane|]. intros r s2 [H2 Hran].
  assert (kept s s2) as H12 by by etrans.
  destruct Hran as [Ha|e Hn|e _ [Hf|(n & Hn & _)]]; [|exfalso; apply Hn; reflexivity| |
    exfalso; exact (not_elem_of_nil _ Hn)].
  2: { apply wp_ret, He; [exact H12|eapply kept_faulty; [exact H1|exact Hf]]. }
  apply wp_bind, wp_query_versions.
  - intros e s3 H3 [Hf|Hn]; [|exfalso; exact (Hn Ha)].
    apply wp_ret, He; [etrans; eassumption|eapply kept_faulty; eassumption].
  - intros s3 H3. assert (recorded s2 = recorded s) as -> by apply H12.
    apply Hk; [by etrans|]. eapply grows_has_table; [apply H3|exact Ha].
Qed.

(** The target a call asks for. *)
Definition target_of (targetVersion : Z) : Z :=
  if decide (targetVersion < 0) then 8 else targetVersion.

Definition due (targetVersion : Z) (s : MigrationDB) : list Migration :=
  pending (max_version (recorded s)) (target_of targetVersion) migrations.

Lemma migrateUp_spec t s :
  wp (migrateUp t) (λ r s', ∃ done, done `prefix_of` due t s ∧ upgraded done s s' ∧
    ∀ n, r = inl n → done = due t s ∧ n = length done ∧ target_of t ≤ 8 ∧
      has_table migrations_table (catalog s')) s.
Proof.
  unfold migrateUp. apply wp_with_current.
  - intros e s' Hk _. exists []. split_and!; [apply prefix_nil|by apply upgraded_nil|done].
  - intros s1 Hk Htab. cbv zeta. rewrite latest_8, sorted_up_migrations. fold (target_of t).
    case_decide as Ht.
    { apply wp_ret. exists []. split_and!; [apply prefix_nil|by apply upgraded_nil|done]. }
    apply wp_bind. eapply wp_mono; [apply up_loop_spec; [done|apply versions_increase]|].
    intros r s2 (don & Hpre & (Hg & Hi & Hrec & He) & Hr).
    assert (∀ s3, kept s2 s3 → upgraded don s s3) as Hup.
    { intros s3 (Hg3 & Hr3 & Hi3). destruct Hk as (Hg1 & Hr1 & Hi1). split_and!.
      - etrans; [done|]. by etrans.
      - auto.
      - by rewrite Hr3, Hrec, Hr1.
      - rewrite Forall_forall in *. intros m Hm. eapply in_effect_grows; [|exact Hg3|by apply He].
        apply sane_of. destruct Hpre as [k Hk]. unfold pending in Hk.
        assert (m ∈ don ++ k) as Hin by (rewrite elem_of_app; by left). rewrite <-Hk in Hin.
        by apply list_elem_of_filter in Hin as [_ ?]. }
    destruct r as [n|e].
    + destruct (Hr n eq_refl) as [Hd Hn]. simpl in Hn.
      assert (∀ s3, kept s2 s3 → ∃ done, done `prefix_of` due t s ∧ upgraded done s s3 ∧
        ∀ n', inl n = inl n' :> Outcome nat → done = due t s ∧ n' = length done ∧ target_of t ≤ 8 ∧
          has_table migrations_table (catalog s3)) as Hend.
      { intros s3 H3. exists don. split_and!; [done|by apply Hup|]. intros n' [= <-].
        split_and!; [done..|lia|]. eapply grows_has_table; [|exact Htab]. etrans; [exact Hg|apply H3]. }
      case_decide as Hz.
      * apply wp_ret. rewrite Hz in Hend. by apply Hend.
      * apply wp_bind, wp_query_versions; intros; by apply wp_ret, Hend.
    + apply wp_ret. exists don. split_and!; [done|by apply Hup|done].
Qed.

(** *** The record is faithful *)

(** Every migration up to the current version is in effect. *)
Definition faithful (s : MigrationDB) : Prop :=
  ∀ m, m ∈ migrations → Version m ≤ max_version (recorded s) → in_effect m (catalog s).

Lemma foldl_max_spec vs v0 : v0 ≤ foldl Z.max v0 vs ∧ (∀ v, v ∈ vs → v ≤ foldl Z.max v0 vs) ∧
  (foldl Z.max v0 vs = v0 ∨ foldl Z.max v0 vs ∈ vs).
Proof.
  revert v0. induction vs as [|v vs IH]; intros v0; simpl.
  { split_and!; [lia|by intros v ?%not_elem_of_nil|by left]. }
  destruct (IH (v0 `max` v)) as (H1 & H2 & H3). split_and!; [lia| |].
  - intros v'. rewrite elem_of_cons. intros [->|?]; [lia|by apply H2].
  - rewrite elem_of_cons. destruct H3 as [H3|H3]; [|by right; right]. rewrite H3.
    destruct (Z.max_spec v0 v) as [[_ ->]|[_ ->]]; auto.
Qed.

Lemma max_version_ge r v : v ∈ r.*1 → v ≤ max_version r.
Proof.
  unfold max_version. destruct r.*1 as [|v0 vs]; [by intros ?%not_elem_of_nil|].
  destruct (foldl_max_spec vs v0) as (H1 & H2 & _). rewrite elem_of_cons. intros [->|?]; auto.
Qed.

Lemma max_version_in r : r ≠ [] → max_version r ∈ r.*1.
Proof.
  intros Hr. unfold max_version. destruct r as [|[v0 n] r]; [done|]. simpl.
  apply elem_of_cons, foldl_max_spec.
Qed.

Lemma migrations_positive m : m ∈ migrations → 1 ≤ Version m ≤ 8.
Proof. revert m. apply Forall_forall. apply (bool_decide_unpack _). vm_compute. exact I. Qed.

Lemma elem_of_due t s m :
  m ∈ due t s ↔ (max_version (recorded s) < Version m ≤ target_of t) ∧ m ∈ migrations.
Proof. unfold due, pending. by rewrite list_elem_of_filter. Qed.

Lemma StronglySorted_filter {A} (R : relation A) (P : A → Prop) `{∀ x, Decision (P x)} l :
  StronglySorted R l → StronglySorted R (filter P l).
Proof.
  induction 1 as [|x l Hl IH Hx]; [constructor|]. destruct (decide (P x)).
  - rewrite filter_cons_True by done. constructor; [done|]. rewrite Forall_forall in *.
    intros y [_ Hy]%list_elem_of_filter. by apply Hx.
  - by rewrite filter_cons_False by done.
Qed.

Lemma due_sorted t s : StronglySorted (λ m m', Version m < Version m') (due t s).
Proof. apply StronglySorted_filter, versions_increase. Qed.

Lemma StronglySorted_app_lt {A} (R : relation A) l1 l2 x y :
  StronglySorted R (l1 ++ l2) → x ∈ l1 → y ∈ l2 → R x y.
Proof.
  induction l1 as [|z l1 IH]; simpl; [by intros _ ?%not_elem_of_nil|].
  intros [Hs Hz]%StronglySorted_inv. rewrite elem_of_cons. intros [->|Hx] Hy; [|by apply IH].
  rewrite Forall_forall in Hz. apply Hz. rewrite elem_of_app. by right.
Qed.

(** A migration that is due and not done is above the new version. *)
Lemma due_not_done t s s' don m :
  don `prefix_of` due t s → recorded s' = recorded s ++ (row_of <$> don) →
  m ∈ due t s → m ∉ don → max_version (recorded s') < Version m.
Proof.
  intros [rest Hrest] Hrec Hm Hnot. pose proof (due_sorted t s) as Hsort.
  rewrite Hrest in Hsort, Hm. apply elem_of_app in Hm as [Hm|Hm]; [done|].
  assert (m ∈ due t s) as [[Hlt _] _]%elem_of_due by (rewrite Hrest, elem_of_app; by right).
  destruct (decide (recorded s' = [])) as [Hnil|Hne].
  { rewrite Hrec in Hnil. apply app_eq_nil in Hnil as [Hnil Hnil'].
    rewrite Hrec, Hnil, Hnil'. by rewrite Hnil in Hlt. }
  apply max_version_in in Hne. revert Hne. rewrite Hrec at 2. rewrite fmap_app, elem_of_app.
  intros [Hin%max_version_ge|Hin]; [lia|]. rewrite <-list_fmap_compose in Hin.
  apply list_elem_of_fmap in Hin as (m' & Heq & Hm'). simpl in Heq. rewrite Heq.
  exact (StronglySorted_app_lt _ _ _ _ _ Hsort Hm' Hm).
Qed.

Lemma max_version_upgraded ms s s' :
  upgraded ms s s' → recorded s ≠ [] → max_version (recorded s) ≤ max_version (recorded s').
Proof.
  intros (_ & _ & Hrec & _) Hne. apply max_version_ge. rewrite Hrec, fmap_app, elem_of_app.
  left. by apply max_version_in.
Qed.

Lemma upgraded_faithful t s s' don :
  don `prefix_of` due t s → upgraded don s s' → faithful s → faithful s'.
Proof.
  intros Hpre (Hg & _ & Hrec & He) Hf m Hm Hv.
  destruct (decide (Version m ≤ max_version (recorded s))) as [Hle|Hgt].
  { eapply in_effect_grows; [by apply sane_of|exact Hg|by apply Hf]. }
  destruct (decide (m ∈ don)) as [Hd|Hd]; [rewrite Forall_forall in He; by apply He|].
  destruct (decide (Version m ≤ target_of t)) as [Ht|Ht].
  - assert (m ∈ due t s) as Hdue by (apply elem_of_due; split; [lia|done]).
    pose proof (due_not_done _ _ _ _ _ Hpre Hrec Hdue Hd). lia.
  - exfalso. assert (recorded s' ≠ []) as Hne%max_version_in.
    { intros Hnil. assert (recorded s = []) as Hs by (rewrite Hrec in Hnil; by apply app_eq_nil in Hnil as [? _]).
      rewrite Hnil in Hv. rewrite Hs in Hgt. lia. }
    revert Hne. rewrite Hrec at 2. rewrite fmap_app, elem_of_app.
    intros [Hin%max_version_ge|Hin]; [lia|]. rewrite <-list_fmap_compose in Hin.
    apply list_elem_of_fmap in Hin as (m' & Heq & Hm'). simpl in Heq.
    destruct Hpre as [rest Hrest].
    assert (m' ∈ due t s) as [[_ Hm''] _]%elem_of_due by (rewrite Hrest, elem_of_app; by left). lia.
Qed.

(** Without failures, on a faithful record, everything that is due is done. *)
Lemma migrateUp_completes t s :
  io s = [] → faithful s → target_of t ≤ 8 →
  wp (migrateUp t) (λ r _, ∃ n, r = inl n) s.
Proof.
  intros Hio Hf Ht. assert (∀ s', kept s s' → ¬ faulty s') as Hnf.
  { intros s' (_ & _ & Hi) Hf'. by apply Hf', Hi. }
  unfold migrateUp. apply wp_with_current.
  { intros e s' _ Hf'. destruct (Hnf s); done. }
  intros s1 Hk Htab. cbv zeta. rewrite latest_8, sorted_up_migrations. fold (target_of t).
  rewrite decide_False by lia. apply wp_bind.
  assert (recorded s1 = recorded s) as Hrec by apply Hk.
  assert (∀ m v, m ∈ pending (max_version (recorded s)) (target_of t) migrations →
    v ∈ versions s1 → v < Version m) as Hv.
  { intros m v [[Hm _] _]%list_elem_of_filter Hin. unfold versions in Hin. rewrite Hrec in Hin.
    apply max_version_ge in Hin. lia. }
  cut (wp (up_loop (max_version (recorded s)) (target_of t) 0 migrations) (λ r _, ∃ n, r = inl n) s1).
  { intros Hloop. eapply wp_mono; [exact Hloop|]. intros r s2 [n ->].
    case_decide; [by apply wp_ret; exists O|]. apply wp_bind, wp_query_versions; intros; apply wp_ret; eauto. }
  destruct first_migration as (m1 & ms & Hms & H1 & Hrest & Halt & Htables).
  assert (m1 ∈ migrations) as Hm1 by (rewrite Hms; left).
  assert (∀ m, m ∈ ms → m ∈ migrations) as Hsub by (intros m Hm; rewrite Hms; by right).
  pose proof versions_increase as Hsort. rewrite Hms in Hsort.
  destruct (decide (1 ≤ max_version (recorded s))) as [Hge|Hlt].
  { apply up_loop_completes; [done|apply versions_increase| |done].
    destruct (Htables (catalog s)) as [Ha Hmsg]; [apply Hf; [done|lia]|].
    split_and!; [by apply Hnf|done|eapply grows_has_table; [apply Hk|done]..]. }
  rewrite Hms. destruct (decide (target_of t < 1)) as [Ht0|Ht1].
  { simpl. rewrite decide_False by lia. rewrite decide_True by lia. apply wp_ret. by exists O. }
  apply wp_up_loop_cons; [done|lia|..].
  - intros e s2 _ Ho. exfalso. destruct Ho as [Ho|[Ho|[Ho|Ho]]]; [by destruct (Hnf s1)| |done|].
    + apply Ho. eapply Forall_impl; [exact Halt|]. intros d ->. constructor.
    + unfold versions in Ho. rewrite Hrec in Ho. apply max_version_ge in Ho. lia.
  - intros s2 Hk2 He2. destruct (Htables _ He2) as [Ha Hmsg].
    apply up_loop_completes; [done|by apply StronglySorted_inv in Hsort as []| |].
    + split_and!; simpl; [|eapply grows_has_table; [apply Hk2|done]|done..].
      unfold faulty. simpl. apply Hnf. by etrans.
    + intros m v [_ Hm]%list_elem_of_filter. unfold versions. simpl.
      rewrite fmap_app, elem_of_app, Hrec. specialize (Hrest m Hm).
      intros [Hin%max_version_ge| ->%list_elem_of_singleton]; simpl; lia.
Qed.


Lemma up_loop_noop current target applied ms s :
  StronglySorted (λ m m', Version m < Version m') ms → pending current target ms = [] →
  up_loop current target applied ms s = (inl applied, s).
Proof.
  induction ms as [|m ms IH]; simpl; [done|]. intros [Hs Hm]%StronglySorted_inv Hp.
  unfold pending in Hp. rewrite filter_cons in Hp. case_decide; [done|].
  case_decide; [by apply IH|]. rewrite decide_True by lia. done.
Qed.

Lemma with_current_noop {A} (k : Z → MM (Outcome A)) s :
  io s = [] → has_table migrations_table (catalog s) →
  with_current k s = k (max_version (recorded s)) s.
Proof.
  intros Hio [tb Htab]. unfold with_current, or_return, attempt, exec_sql, ensureMigrationsTable.
  destruct migrations_table_single as (defs & Hs & _). unfold single in Hs. unfold exec_sql.
  destruct (statements [] (words migrations_table_sql)) as [|ts [|]]; try done.
  destruct s as [c r l]. simpl in *. subst l.
  unfold mbind, St_bind, run_all, run_statement, io_fault, getCurrentVersion, query_versions. simpl.
  unfold mbind, St_bind. simpl. rewrite Hs. unfold run_parsed. simpl. rewrite Htab. simpl.
  by rewrite Htab.
Qed.

(** A completed upgrade is stable: repeating it applies nothing
    and changes neither the catalogue nor the record. *)
Theorem migrateUp_idempotent t s :
  io s = [] → faithful s → target_of t ≤ 8 →
  wp (migrateUp t) (λ r s', r = inl (length (due t s)) ∧ migrateUp t s' = (inl O, s')) s.
Proof.
  intros Hio Hf Ht. eapply wp_mono; [apply wp_conj; [apply migrateUp_spec|by apply migrateUp_completes]|].
  intros r s' [(don & Hpre & Hup & Hr) [n ->]]. destruct (Hr n eq_refl) as (Hd & Hn & _ & Htab).
  split; [congruence|]. pose proof Hup as (_ & Hio' & Hrec & _).
  assert (due t s' = []) as Hnone.
  { destruct (due t s') as [|m l] eqn:Hl; [done|].
    assert (m ∈ due t s') as [[Hv Hle] Hm]%elem_of_due by (rewrite Hl; left). exfalso.
    destruct (decide (m ∈ due t s)) as [Hin|Hnot].
    - assert (Version m ∈ (recorded s').*1) as Hmax%max_version_ge; [|lia].
      rewrite Hrec, fmap_app, elem_of_app, <-list_fmap_compose. right.
      apply list_elem_of_fmap. exists m. by rewrite Hd.
    - destruct (decide (Version m ≤ max_version (recorded s))) as [Hlow|Hhigh].
      + destruct (decide (recorded s = [])) as [Hnil|Hne].
        * rewrite Hnil in Hlow. pose proof (migrations_positive m Hm). change (max_version []) with 0 in Hlow. lia.
        * pose proof (max_version_upgraded _ _ _ Hup Hne). lia.
      + apply Hnot, elem_of_due. split; [lia|done]. }
  unfold migrateUp. rewrite with_current_noop by auto. cbv zeta.
  rewrite latest_8, sorted_up_migrations. fold (target_of t). rewrite decide_False by lia.
  unfold mbind, St_bind. rewrite up_loop_noop by (exact Hnone || apply versions_increase). done.
Qed.

(** ** Down *)

(** The table a statement of a rollback drops. *)
Definition drop_target (sql : string) : option string :=
  match single sql with Some (DropTable n) => Some n | _ => None end.

Definition dropped (m : Migration) : list string := omap drop_target (splitStatements (DownSQL m)).

(** A rollback only drops tables: its other statements are comments, or do not
    parse. *)
Definition drops_only (sql : string) : Prop :=
  match statements [] (words sql) with
  | [t] => match parse_ddl t with Some (DropTable _) | None => True | _ => False end
  | _ => False
  end.

#[export] Instance drops_only_dec sql : Decision (drops_only sql).
Proof. unfold drops_only. repeat case_match; apply _. Defined.

Definition rollback_well_formed (m : Migration) : Prop :=
  Forall (λ sql, TrimSpace sql = sql ∧ (HasPrefix sql "--" = true ∨ drops_only sql))
    (splitStatements (DownSQL m)).

Lemma rollbacks_well_formed : Forall rollback_well_formed migrations.
Proof. apply (bool_decide_unpack _). vm_compute. exact I. Qed.

Definition table_of (d : ddl) : string :=
  match d with CreateTable n _ | AddColumn n _ _ | DropTable n | CreateIndex _ n _ => n end.

(** No rollback drops a table of an earlier migration. *)
Lemma rollbacks_apart_by_version :
  Forall (λ p', Forall (λ p, p.1 < p'.1 → Forall (λ n, n ∉ p'.2) p.2)
      ((λ m, (Version m, table_of <$> up_ddl m)) <$> migrations))
    ((λ m, (Version m, dropped m)) <$> migrations).
Proof. apply (bool_decide_unpack _). vm_compute. exact I. Qed.

Lemma rollbacks_apart m m' d :
  m ∈ migrations → m' ∈ migrations → Version m < Version m' → d ∈ up_ddl m →
  table_of d ∉ dropped m'.
Proof.
  intros Hm Hm' Hlt Hd. pose proof rollbacks_apart_by_version as H.
  apply (proj1 (Forall_forall _ _)) with (x := (Version m', dropped m')) in H;
    [|by apply (list_elem_of_fmap_2 (λ m, (Version m, dropped m)))].
  apply (proj1 (Forall_forall _ _)) with (x := (Version m, table_of <$> up_ddl m)) in H;
    [|by apply (list_elem_of_fmap_2 (λ m, (Version m, table_of <$> up_ddl m)))].
  specialize (H Hlt). apply (proj1 (Forall_forall _ _)) with (x := table_of d) in H; [exact H|].
  by apply list_elem_of_fmap_2.
Qed.

Lemma sorted_down_migrations : sorted_down = reverse migrations.
Proof. vm_compute. reflexivity. Qed.

(** The tables outside of [l] are as they were. *)
Definition same_outside (l : list string) : relation MigrationDB := λ s s',
  recorded s' = recorded s ∧ (io s = [] → io s' = []) ∧
  ∀ n, n ∉ l → tables (catalog s') !! n = tables (catalog s) !! n.

Lemma same_outside_trans l s s1 s2 :
  same_outside l s s1 → same_outside l s1 s2 → same_outside l s s2.
Proof.
  intros (H1 & Hi & Ht) (H2 & Hi' & Ht'). split_and!; [congruence|auto|].
  intros n Hn. by rewrite Ht', Ht.
Qed.

Lemma same_outside_mono l l' s s' : (∀ n, n ∈ l → n ∈ l') → same_outside l s s' → same_outside l' s s'.
Proof. intros Hl (H1 & Hi & Ht). split_and!; [done..|]. intros n Hn. apply Ht. auto. Qed.

Lemma same_outside_kept l s s' : kept s s' → catalog s' = catalog s → same_outside l s s'.
Proof. intros (_ & Hr & Hi) Hc. split_and!; [done..|]. by rewrite Hc. Qed.

Lemma wp_exec_drop sql s :
  drops_only sql →
  wp (exec_sql sql) (λ _ s', same_outside (option_list (drop_target sql)) s s') s.
Proof.
  unfold drops_only, exec_sql, drop_target, single.
  destruct (statements [] (words sql)) as [|t [|]]; try done. intros Hp. simpl.
  apply wp_bind. unfold run_statement. apply wp_bind, wp_io_fault.
  { intros s' Hk Hc _. by apply same_outside_kept. }
  intros s' Hk Hc. destruct (parse_ddl t) as [[| |n|]|]; try done; [|by apply same_outside_kept].
  unfold run_parsed, wp. simpl. destruct Hk as (_ & Hr & Hi). split_and!; [done..|].
  intros n' Hn'. simpl. rewrite Hc. apply lookup_delete_ne. set_solver.
Qed.

Lemma down_statements_spec stmts s :
  Forall (λ sql, TrimSpace sql = sql ∧ (HasPrefix sql "--" = true ∨ drops_only sql)) stmts →
  wp (down_statements stmts) (λ _ s', same_outside (omap drop_target stmts) s s') s.
Proof.
  revert s. induction stmts as [|sql stmts IH]; intros s; [done|].
  intros [[Htrim Hsql] Hs]%Forall_cons. simpl. rewrite Htrim.
  assert (∀ n, n ∈ omap drop_target stmts → n ∈ omap drop_target (sql :: stmts)) as Hsub.
  { intros n. rewrite !list_elem_of_omap. set_solver. }
  destruct (str_empty sql || HasPrefix sql "--") eqn:Hskip.
  { eapply wp_mono; [by apply IH|]. intros r s' Hsame. by eapply same_outside_mono. }
  apply orb_false_iff in Hskip as [_ Hpre]. destruct Hsql as [Hsql|Hsql]; [congruence|].
  apply wp_bind. eapply wp_mono; [by apply wp_exec_drop|]. intros r s1 H1.
  eapply wp_mono; [by apply IH|]. intros r2 s2 H2.
  eapply (same_outside_trans _ _ s1); [|by eapply same_outside_mono].
  eapply same_outside_mono; [|exact H1]. intros n. simpl.
  destruct (drop_target sql); simpl; [set_solver|by intros ?%not_elem_of_nil].
Qed.

(** The migrations up to a version, in a state where tables of later ones may
    have been dropped. *)
Definition keeps_up_to (target : Z) : relation MigrationDB := λ s s',
  ∀ m, m ∈ migrations → Version m ≤ target → in_effect m (catalog s) → in_effect m (catalog s').

#[export] Instance keeps_up_to_preorder target : PreOrder (keeps_up_to target).
Proof. split; [by intros s m|]. intros x y z H1 H2 m Hm Hv He. by apply H2, H1. Qed.

Lemma achieved_same_table d c c' :
  sane d = true → tables c' !! table_of d = tables c !! table_of d → achieved d c → achieved d c'.
Proof. destruct d; simpl; try done; unfold has_table, has_column; by intros _ ->. Qed.

Lemma same_outside_keeps target m s s' :
  m ∈ migrations → target < Version m → same_outside (dropped m) s s' → keeps_up_to target s s'.
Proof.
  intros Hm Hv (_ & _ & Ht) m0 Hm0 Hv0 He. pose proof (sane_of m0 Hm0) as Hsane.
  unfold in_effect in *. rewrite Forall_forall in He, Hsane. apply Forall_forall. intros d Hd.
  apply (achieved_same_table _ (catalog s)); [by apply Hsane| |by apply He].
  apply Ht. apply (rollbacks_apart m0); [done..|lia|done].
Qed.

Lemma kept_keeps target s s' : kept s s' → keeps_up_to target s s'.
Proof.
  intros (Hg & _ & _) m Hm _ He. eapply in_effect_grows; [by apply sane_of|exact Hg|done].
Qed.

(** The rows that a rollback of [ms] removes. *)
Definition without (ms : list Migration) (r : list (Z * string)) : list (Z * string) :=
  filter (λ p, p.1 ∉ Version <$> ms) r.

Lemma without_cons m ms r : without ms (filter (λ p, p.1 ≠ Version m) r) = without (m :: ms) r.
Proof.
  unfold without. rewrite list_filter_filter. apply list_filter_iff. intros p. simpl.
  rewrite not_elem_of_cons. tauto.
Qed.

Definition rolled (current target : Z) (ms : list Migration) : list Migration :=
  filter (λ m, target < Version m ≤ current) ms.

Lemma down_loop_spec current target n ms s :
  (∀ m, m ∈ ms → m ∈ migrations) →
  wp (down_loop current target n ms) (λ r s', keeps_up_to target s s' ∧ ∃ undone,
    undone `prefix_of` rolled current target ms ∧ recorded s' = without undone (recorded s) ∧
    ∀ k, r = inl k → undone = rolled current target ms) s.
Proof.
  assert (∀ r, without [] r = r) as Hnil by (intros r; by apply filter_true; intros p _ ?%not_elem_of_nil).
  revert n s. induction ms as [|m ms IH]; intros n s Hms.
  { apply wp_ret. split; [done|]. exists []. by rewrite Hnil. }
  assert (∀ m', m' ∈ ms → m' ∈ migrations) as Hms' by (intros; apply Hms; by right).
  assert (m ∈ migrations) as Hm by (apply Hms; left). simpl.
  destruct (decide (Version m ≤ target ∨ current < Version m)) as [Hskip|Hin].
  { unfold rolled. rewrite filter_cons_False by (cbv beta; lia). by apply IH. }
  assert (rolled current target (m :: ms) = m :: rolled current target ms) as Hrolled.
  { unfold rolled. by rewrite filter_cons_True by (cbv beta; lia). }
  rewrite Hrolled. pose proof rollbacks_well_formed as Hwf. rewrite Forall_forall in Hwf.
  apply wp_bind. eapply wp_mono; [by apply down_statements_spec, Hwf|]. intros u1 s1 H1.
  assert (keeps_up_to target s s1) as Hk1 by (apply (same_outside_keeps _ m); [done|lia|exact H1]).
  unfold or_return. apply wp_bind, wp_update_versions.
  - intros e s2 H2 _. apply wp_ret. split; [etrans; [done|by apply kept_keeps]|].
    exists []. split_and!; [apply prefix_nil| |done]. rewrite Hnil.
    assert (recorded s1 = recorded s) as <- by apply H1. apply H2.
  - intros r s2 Hr H2. unfold delete_version in Hr. injection Hr as <-.
    eapply wp_mono; [by apply IH|]. intros r s3 [Hk3 (und & Hpre & Hrec & Hall)].
    split; [etrans; [exact Hk1|etrans; [by apply (kept_keeps _ s1 s2)|exact Hk3]]|].
    exists (m :: und). split_and!; [by apply prefix_cons| |by intros k ->%Hall].
    assert (recorded s1 = recorded s) as Hs1 by apply H1.
    rewrite Hrec. simpl. rewrite Hs1. apply without_cons.
Qed.

(** C34: rolling back to a version, whatever fails on the way, leaves
    the migrations up to that version in effect and recorded; the rows it has
    removed are those of a run of later migrations from the current one down,
    and of all of them when it succeeds. *)
Theorem migrateDown_exact t s :
  let target := Z.max 0 t in
  let above := rolled (max_version (recorded s)) target (reverse migrations) in
  wp (migrateDown t) (λ r s', keeps_up_to target s s' ∧ ∃ undone,
    undone `prefix_of` above ∧ recorded s' = without undone (recorded s) ∧
    (∀ n, r = inl n → undone = above)) s.
Proof.
  intros target above.
  assert (∀ r, without [] r = r) as Hnil by (intros r; by apply filter_true; intros p _ ?%not_elem_of_nil).
  unfold migrateDown. apply wp_with_current.
  - intros e s' Hk _. split; [by apply kept_keeps|]. exists [].
    split_and!; [apply prefix_nil| |done]. rewrite Hnil. apply Hk.
  - intros s1 Hk _. cbv zeta. assert ((if decide (t < 0) then 0 else t) = target) as ->.
    { unfold target. case_decide; lia. }
    assert (recorded s1 = recorded s) as Hrec by apply Hk.
    case_decide as Hcur.
    { apply wp_ret. split; [by apply kept_keeps|]. exists []. split_and!; [apply prefix_nil|by rewrite Hnil|].
      intros _ _. symmetry. apply filter_false. intros m _. cbv beta. lia. }
    rewrite sorted_down_migrations. apply wp_bind. eapply wp_mono;
      [apply down_loop_spec; intros m; by rewrite elem_of_reverse|].
    intros r s2 [Hk2 (und & Hpre & Hund & Hall)].
    assert (∀ s3, kept s2 s3 → keeps_up_to target s s3 ∧ recorded s3 = without und (recorded s)) as Hend.
    { intros s3 H3. split.
      - etrans; [by apply (kept_keeps _ s s1)|]. etrans; [exact Hk2|by apply kept_keeps].
      - assert (recorded s3 = recorded s2) as -> by apply H3. congruence. }
    destruct r as [n|e].
    + case_decide; [|apply wp_bind, wp_query_versions; intros].
      all: apply wp_ret; split; [by apply Hend|]; exists und; split_and!; [done|by apply Hend|];
        intros _ _; by apply (Hall n).
    + apply wp_ret. split; [by apply Hend|]. exists und. split_and!; [done|by apply Hend|done].
Qed.

(** ** The theorems on a new database *)

Definition fresh : MigrationDB := mkMigrationDB empty_catalog [] [].

Lemma faithful_fresh l : faithful (set_io l fresh).
Proof.
  intros m Hm Hv. pose proof (migrations_positive m Hm). change (Version m ≤ 0) in Hv. lia.
Qed.

(** The disk fills up in the middle of the first migration. *)
Definition interrupted : MigrationDB := set_io [false; false; false; false; false; true] fresh.


Lemma migrateUp_idempotent_witness :
  io fresh = [] ∧ faithful fresh ∧ length (due (-1) fresh) = 8%nat ∧
  wp (migrateUp (-1)) (λ r s', r = inl (length (due (-1) fresh)) ∧
    migrateUp (-1) s' = (inl O, s')) fresh.
Proof.
  split; [reflexivity|]. split; [apply (faithful_fresh [])|]. split; [vm_compute; reflexivity|].
  apply (migrateUp_idempotent (-1) fresh); [reflexivity|apply (faithful_fresh [])|].
  vm_compute. discriminate.
Defined.
