(* ===== verification/SchemaProps.v ===== *)
(** * The server's schema and the migration tool on one database

    [initSchema] against the migrations, the two programs run one after the
    other, rollbacks followed by upgrades, and the numbering of new files. *)

From S2P Require Import Prelude GoLib Ddl Migrate Schema MigrateProps.
From Stdlib Require Import Ascii DecimalPos DecimalString.

(** ** Texts of several statements *)

Definition parsed (sql : string) : option (list ddl) := mapM parse_ddl (statements [] (words sql)).

Lemma run_all_spec ts ds s :
  mapM parse_ddl ts = Some ds → Forall adds ds →
  wp (run_all ts) (λ r s', kept s s' ∧ (r = Ok tt → Forall (λ d, achieved d (catalog s')) ds)) s.
Proof.
  intros Hp%mapM_Some. revert s. induction Hp as [|t d ts ds Ht Hp IH]; intros s.
  { intros _. by apply wp_ret. }
  intros [Hd Hs]%Forall_cons. simpl. apply wp_bind. unfold run_statement. apply wp_bind, wp_io_fault.
  { intros s1 Hk _ _. split; [done|]. discriminate. }
  intros s1 Hk Hc. rewrite Ht. unfold run_parsed, wp at 1.
  destruct (run_ddl d (catalog s1)) as [c|e] eqn:Hrun; cbn [fst snd]; [|by split].
  eapply wp_mono; [by apply IH|]. intros r s2 [Hk2 Hr]. split.
  - etrans; [exact Hk|]. etrans; [|exact Hk2]. split_and!; [|done..].
    by apply (run_ddl_grows d).
  - intros Hok. constructor; [|by apply Hr]. apply (achieved_grows d c); [done|apply Hk2|].
    by eapply run_ddl_achieves.
Qed.

Lemma wp_exec_parsed sql ds (Q : Result unit → MigrationDB → Prop) s :
  parsed sql = Some ds → Forall adds ds →
  (∀ e s', kept s s' → Q (Err e) s') →
  (∀ s', kept s s' → Forall (λ d, achieved d (catalog s')) ds → Q (Ok tt) s') →
  wp (exec_sql sql) Q s.
Proof.
  intros Hp Ha He Hok. eapply wp_mono; [by eapply run_all_spec|].
  intros [[]|e] s' [Hk Hr]; [by apply Hok; [|apply Hr]|by apply He].
Qed.

Definition adding (sql : string) : bool :=
  match parsed sql with Some ds => bool_decide (Forall adds ds) | None => false end.

Definition parsed_of (sql : string) : list ddl := default [] (parsed sql).

Lemma adding_parsed sql :
  adding sql = true → parsed sql = Some (parsed_of sql) ∧ Forall adds (parsed_of sql).
Proof.
  unfold adding, parsed_of. destruct (parsed sql); [|done]. by intros Hd%bool_decide_eq_true.
Qed.

Lemma wp_exec_then sql k (Q : Result unit → MigrationDB → Prop) s :
  adding sql = true →
  (∀ e s', kept s s' → Q (Err e) s') →
  (∀ s', kept s s' → Forall (λ d, achieved d (catalog s')) (parsed_of sql) → wp k Q s') →
  wp (exec_then sql k) Q s.
Proof.
  intros [Hp Ha]%adding_parsed He Hk. unfold exec_then. apply wp_bind.
  eapply wp_exec_parsed; [exact Hp|exact Ha|..].
  - intros e s' H'. by apply wp_ret, He.
  - intros s' H' Hall. by apply Hk.
Qed.

Lemma wp_exec_each sqls s :
  Forall (λ sql, adding sql = true) sqls → wp (exec_each sqls) (λ _ s', kept s s') s.
Proof.
  revert s. induction sqls as [|sql sqls IH]; intros s; [done|].
  intros [[Hp Ha]%adding_parsed Hs]%Forall_cons. simpl. apply wp_bind.
  eapply wp_exec_parsed; [exact Hp|exact Ha|..].
  - intros e s' Hk. eapply wp_mono; [by apply IH|]. intros r s2 Hk2. by etrans.
  - intros s' Hk _. eapply wp_mono; [by apply IH|]. intros r s2 Hk2. by etrans.
Qed.

(** Columns added where the errors are ignored are there afterwards. *)
Lemma wp_exec_each_columns sqls ds s :
  Forall2 (λ sql d, single sql = Some d ∧ sane d = true) sqls ds →
  io s = [] → ready ds (catalog s) →
  wp (exec_each sqls) (λ _ s', kept s s' ∧ Forall (λ d, achieved d (catalog s')) ds) s.
Proof.
  intros Hp. revert s. induction Hp as [|sql d sqls ds [Hsql Hd] Hp IH]; intros s Hio Hready; [done|].
  apply Forall_cons in Hready as [Hn Hready]. simpl. apply wp_bind.
  eapply wp_mono; [by eapply wp_exec_sane|]. intros r s1 [Hk Hran].
  assert (achieved d (catalog s1)) as Hach.
  { destruct Hran as [|e _ _|e _ [Hf|(n & Hin & Hno)]]; [done..|]. exfalso. apply Hno.
    rewrite Forall_forall in Hn. by apply Hn. }
  eapply wp_mono; [apply IH; [by apply Hk|eapply ready_grows; [apply Hk|done]]|].
  intros r2 s2 [Hk2 Hall]. split; [by etrans|]. constructor; [|done].
  apply (achieved_grows d (catalog s1)); [by destruct d|apply Hk2|done].
Qed.

(** ** [initSchema] *)

Definition server_alters : list string := alter_agents ++ migrations_read ++ migrations_edit.

Definition server_texts : list string :=
  [sqliteSchema; migrations_table_sql; reactions_sql; conversation_tags_sql;
   user_rate_limit_tiers_sql; notification_preferences_sql].

Lemma server_texts_adding :
  Forall (λ sql, adding sql = true) (server_texts ++ schema_indexes ++ server_alters).
Proof. apply (bool_decide_unpack _). vm_compute. exact I. Qed.

Lemma schema_indexes_adding : Forall (λ sql, adding sql = true) schema_indexes.
Proof. apply (bool_decide_unpack _). vm_compute. exact I. Qed.

Definition columns_of (sqls : list string) : list ddl := omap single sqls.

Lemma server_alters_sane :
  Forall (λ l, Forall2 (λ sql d, single sql = Some d ∧ sane d = true) l (columns_of l) ∧
               Forall (λ d, altered d ⊆ ["agents"; "messages"]) (columns_of l))
    [alter_agents; migrations_read; migrations_edit].
Proof. apply (bool_decide_unpack _). vm_compute. exact I. Qed.

(** What [update_schema] makes. *)
Definition update_ddl : list ddl :=
  columns_of alter_agents ++ columns_of migrations_read ++ columns_of migrations_edit ++
  parsed_of reactions_sql ++ parsed_of conversation_tags_sql ++
  parsed_of user_rate_limit_tiers_sql ++ parsed_of notification_preferences_sql.

(** Everything [initSchema] makes, but the indexes. *)
Definition server_ddl : list ddl :=
  (parsed_of sqliteSchema ++ parsed_of migrations_table_sql) ++ update_ddl.

(** The two programs make the same tables and columns. *)
Definition same_object (d d' : ddl) : Prop :=
  match d, d' with
  | CreateTable n _, CreateTable n' _ => n = n'
  | AddColumn n c _, AddColumn n' c' _ => n = n' ∧ c = c'
  | _, _ => False
  end.

#[export] Instance same_object_dec d d' : Decision (same_object d d').
Proof. destruct d, d'; simpl; apply _. Defined.

Lemma same_object_achieved d d' c : same_object d d' → achieved d' c → achieved d c.
Proof. destruct d, d'; simpl; try done; [by intros ->|by intros [-> ->]]. Qed.

Lemma migrations_covered :
  Forall (λ m, Forall (λ d, Exists (same_object d) server_ddl) (up_ddl m)) migrations.
Proof. apply (bool_decide_unpack _). vm_compute. exact I. Qed.

(** The texts have been evaluated. *)
#[local] Opaque sqliteSchema migrations_table_sql reactions_sql conversation_tags_sql
  user_rate_limit_tiers_sql notification_preferences_sql alter_agents migrations_read
  migrations_edit schema_indexes migrations inlineMigrations parsed_of.

Lemma covered_in_effect c :
  Forall (λ d, achieved d c) server_ddl → ∀ m, m ∈ migrations → in_effect m c.
Proof.
  intros Hall m Hm. pose proof (proj1 (Forall_forall _ _) migrations_covered m Hm) as Hcov.
  eapply Forall_impl; [exact Hcov|]. intros d (d' & Hd' & Hsame)%Exists_exists.
  apply (same_object_achieved d d'); [exact Hsame|]. exact (proj1 (Forall_forall _ _) Hall d' Hd').
Qed.

Definition creates (n : string) (d : ddl) : Prop :=
  match d with CreateTable n' _ => n' = n | _ => False end.

#[export] Instance creates_dec n d : Decision (creates n d).
Proof. destruct d; simpl; apply _. Defined.

Lemma schema_creates :
  Forall (λ n, Exists (creates n) (parsed_of sqliteSchema)) ["agents"; "messages"] ∧
  Exists (creates migrations_table) (parsed_of migrations_table_sql).
Proof. apply (bool_decide_unpack _). vm_compute. exact I. Qed.

Lemma created_table n ds c :
  Exists (creates n) ds → Forall (λ d, achieved d c) ds → has_table n c.
Proof.
  intros (d & Hd & Hn)%Exists_exists Hall. pose proof (proj1 (Forall_forall _ _) Hall d Hd) as Ha.
  destruct d; simpl in *; try done. by subst.
Qed.

Lemma schema_tables c :
  Forall (λ d, achieved d c) (parsed_of sqliteSchema) →
  ∀ n, n ∈ ["agents"; "messages"] → has_table n c.
Proof.
  intros Hall n Hn. eapply created_table; [|exact Hall].
  exact (proj1 (Forall_forall _ _) (proj1 schema_creates) n Hn).
Qed.

Lemma server_text_adding sql : sql ∈ server_texts ++ schema_indexes ++ server_alters → adding sql = true.
Proof. pose proof server_texts_adding as H. rewrite Forall_forall in H. apply H. Qed.

(** Recording the built-in migrations in an empty table. *)
Lemma record_each_kept_tables ms s :
  io s = [] → has_table migrations_table (catalog s) →
  record_each ms s = (tt, set_recorded
    (foldl (λ r '(v, n), if decide (v ∈ r.*1) then r else r ++ [(v, n)]) (recorded s) ms) s).
Proof.
  revert s. induction ms as [|[v n] ms IH]; intros [c r l] Hio [t Ht]; simpl in *; [done|]. subst l.
  unfold mbind, St_bind, update_versions, io_fault, mbind, St_bind. simpl. rewrite Ht. unfold insert_or_ignore.
  case_decide; simpl; rewrite IH; simpl; try done; by exists t.
Qed.

Lemma inline_recorded :
  foldl (λ r '(v, n), if decide (v ∈ r.*1) then r else r ++ [(v, n)]) [] inlineMigrations =
  row_of <$> migrations.
Proof. vm_compute. reflexivity. Qed.

Definition recorded_after (s : MigrationDB) : list (Z * string) :=
  if decide (recorded s = []) then row_of <$> migrations else recorded s.

Lemma wp_migration_count s (Q : nat → MigrationDB → Prop) :
  io s = [] → has_table migrations_table (catalog s) →
  (∀ s', kept s s' → Q (length (recorded s)) s') → wp migration_count Q s.
Proof.
  intros Hio Ht HQ. unfold migration_count. apply wp_bind, wp_query_versions.
  - intros e s' _ [Hf|Hn]; [by destruct Hf|by destruct Hn].
  - intros s' Hk. by apply wp_ret, HQ.
Qed.

Lemma wp_record_inline s (Q : unit → MigrationDB → Prop) :
  io s = [] → has_table migrations_table (catalog s) →
  (∀ s', catalog s' = catalog s → io s' = [] → recorded s' = recorded_after s → Q tt s') →
  wp (if decide (length (recorded s) = O) then record_each inlineMigrations else mret tt) Q s.
Proof.
  intros Hio Ht HQ. case_decide as Hlen.
  - unfold wp. rewrite record_each_kept_tables by done. apply HQ; [done..|].
    apply nil_length_inv in Hlen. unfold recorded_after. rewrite decide_True by done.
    simpl. by rewrite Hlen, inline_recorded.
  - apply wp_ret, HQ; [done..|]. unfold recorded_after. rewrite decide_False; [done|].
    intros Hnil. by rewrite Hnil in Hlen.
Qed.

(** From [s0] on, the statements [acc] have been run with success. *)
Definition built (acc : list ddl) : relation MigrationDB := λ s0 s,
  kept s0 s ∧ Forall adds acc ∧ Forall (λ d, achieved d (catalog s)) acc.

Lemma built_nil s : built [] s s.
Proof. done. Qed.

Lemma all_achieved_grows ds c c' :
  Forall adds ds → grows c c' → Forall (λ d, achieved d c) ds → Forall (λ d, achieved d c') ds.
Proof.
  rewrite !Forall_forall. intros Ha Hg Hall d Hd. apply (achieved_grows d c); auto.
Qed.

Lemma built_kept acc s0 s s' : built acc s0 s → kept s s' → built acc s0 s'.
Proof.
  intros (Hk & Ha & Hall) Hk'. split_and!; [by etrans|done|].
  by eapply all_achieved_grows; [|apply Hk'|].
Qed.

Lemma built_app acc ds s0 s s' :
  built acc s0 s → kept s s' → Forall adds ds → Forall (λ d, achieved d (catalog s')) ds →
  built (acc ++ ds) s0 s'.
Proof.
  intros Hb Hk Ha Hds. destruct (built_kept _ _ _ _ Hb Hk) as (Hk0 & Ha0 & Hall).
  split_and!; [done|by apply Forall_app|by apply Forall_app].
Qed.

Lemma wp_then_built acc sql k (Q : Result unit → MigrationDB → Prop) s0 s :
  built acc s0 s → adding sql = true → (∀ e s', Q (Err e) s') →
  (∀ s', built (acc ++ parsed_of sql) s0 s' → wp k Q s') → wp (exec_then sql k) Q s.
Proof.
  intros Hb Hsql He Hk. apply wp_exec_then; [done|by intros|]. intros s' Hks Hall.
  apply Hk. eapply built_app; [exact Hb|exact Hks|by apply adding_parsed|exact Hall].
Qed.

Lemma columns_add l :
  l ∈ [alter_agents; migrations_read; migrations_edit] → Forall adds (columns_of l).
Proof.
  intros Hl. destruct (proj1 (Forall_forall _ _) server_alters_sane l Hl) as [Hs _]. clear Hl.
  induction Hs as [|sql d sqls ds [_ Hd] _ IH]; constructor; [by destruct d|done].
Qed.

Lemma wp_alters acc l (Q : unit → MigrationDB → Prop) s0 s :
  built acc s0 s → l ∈ [alter_agents; migrations_read; migrations_edit] → io s0 = [] →
  (∀ n, n ∈ ["agents"; "messages"] → has_table n (catalog s0)) →
  (∀ s', built (acc ++ columns_of l) s0 s' → Q tt s') → wp (exec_each l) Q s.
Proof.
  intros Hb Hl Hio Ht HQ.
  destruct (proj1 (Forall_forall _ _) server_alters_sane l Hl) as [Hs Hsub].
  destruct Hb as (Hk0 & Hb). eapply wp_mono; [apply wp_exec_each_columns; [exact Hs|by apply Hk0|]|].
  - eapply Forall_impl; [exact Hsub|]. intros d Hd. apply Forall_forall. intros n Hn%Hd.
    eapply grows_has_table; [apply Hk0|by apply Ht].
  - intros [] s' [Hk Hall]. apply HQ.
    by eapply built_app; [split; [exact Hk0|exact Hb]|exact Hk|apply columns_add|].
Qed.

Lemma update_schema_spec s :
  io s = [] → (∀ n, n ∈ ["agents"; "messages"] → has_table n (catalog s)) →
  wp update_schema (λ r s', r = Ok tt → built update_ddl s s') s.
Proof.
  intros Hio Ht. unfold update_schema. pose proof (built_nil s) as Hb.
  apply wp_bind. apply (wp_alters _ _ _ _ _ Hb); [left|done..|]. clear Hb. intros s1 Hb.
  apply wp_bind. apply (wp_alters _ _ _ _ _ Hb); [right; left|done..|]. clear Hb. intros s2 Hb.
  apply wp_bind. apply (wp_alters _ _ _ _ _ Hb); [right; right; left|done..|]. clear Hb. intros s3 Hb.
  apply (wp_then_built _ _ _ _ _ _ Hb); [apply server_text_adding; set_solver|discriminate|].
  clear Hb. intros s4 Hb.
  apply (wp_then_built _ _ _ _ _ _ Hb); [apply server_text_adding; set_solver|discriminate|].
  clear Hb. intros s5 Hb.
  apply wp_bind. eapply wp_mono; [apply wp_exec_each, schema_indexes_adding|]. intros [] s6 H6.
  eapply built_kept in Hb; [|exact H6].
  apply (wp_then_built _ _ _ _ _ _ Hb); [apply server_text_adding; set_solver|discriminate|].
  clear Hb. intros s7 Hb.
  apply (wp_then_built _ _ _ _ _ _ Hb); [apply server_text_adding; set_solver|discriminate|].
  clear Hb. intros s8 Hb. apply wp_ret. intros _. unfold update_ddl. by rewrite <-!app_assoc in Hb.
Qed.

Lemma initSchema_spec s :
  io s = [] →
  wp initSchema (λ r s', r = Ok tt →
    grows (catalog s) (catalog s') ∧ (∀ m, m ∈ migrations → in_effect m (catalog s')) ∧
    recorded s' = recorded_after s ∧ io s' = [] ∧ has_table migrations_table (catalog s')) s.
Proof.
  intros Hio. unfold initSchema. pose proof (built_nil s) as Hb.
  apply (wp_then_built _ _ _ _ _ _ Hb); [apply server_text_adding; set_solver|discriminate|].
  clear Hb. intros s1 Hb.
  apply (wp_then_built _ _ _ _ _ _ Hb); [apply server_text_adding; set_solver|discriminate|].
  clear Hb. intros s2 Hb. pose proof Hb as (_ & _ & Hall). rewrite !Forall_app in Hall.
  destruct Hall as [[_ A1] A2].
  assert (has_table migrations_table (catalog s2)) as Hmt.
  { eapply created_table; [apply schema_creates|exact A2]. }
  assert (io s2 = []) as Hio2 by (apply Hb; exact Hio).
  apply wp_bind, wp_migration_count; [exact Hio2|exact Hmt|]. intros s3 H3.
  assert (recorded s3 = recorded s2) as Hr3 by apply H3. rewrite <-Hr3.
  apply wp_bind, wp_record_inline; [by apply H3|eapply grows_has_table; [apply H3|exact Hmt]|].
  intros s4 Hc4 Hio4 Hr4. eapply built_kept in Hb; [|exact H3].
  eapply wp_mono; [apply update_schema_spec; [exact Hio4|]|].
  { intros n Hn. rewrite Hc4. eapply grows_has_table; [apply H3|by apply (schema_tables _ A1)]. }
  intros r s5 Hr Hok. destruct (Hr Hok) as (K & _ & Hupd). destruct Hb as (H0 & Hadds & Hsch).
  assert (grows (catalog s3) (catalog s5)) as G by (rewrite <-Hc4; apply K). split_and!.
  - etrans; [apply H0|exact G].
  - apply covered_in_effect. apply Forall_app. split; [|exact Hupd].
    eapply all_achieved_grows; [exact Hadds|exact G|exact Hsch].
  - assert (recorded s5 = recorded s4) as -> by apply K. rewrite Hr4. unfold recorded_after.
    by assert (recorded s3 = recorded s) as -> by apply H0.
  - apply K. exact Hio4.
  - eapply grows_has_table; [etrans; [apply H3|exact G]|exact Hmt].
Qed.

Lemma second_start :
  let s1 := (initSchema fresh).2 in (initSchema fresh).1 = Ok tt ∧ initSchema s1 = (Ok tt, s1).
Proof. vm_compute. split; reflexivity. Qed.

(** C35: on an empty database [initSchema] succeeds, and at the next
    start it succeeds again and changes nothing.  Whatever the database was, when
    it succeeds and no statement has failed, every migration is in effect,
    nothing is dropped, and an empty record holds all of them afterwards: what
    the server writes into [schema_migrations] is true of the database. *)
Theorem initSchema_current s :
  io s = [] →
  wp initSchema (λ r s', r = Ok tt →
    grows (catalog s) (catalog s') ∧ (∀ m, m ∈ migrations → in_effect m (catalog s')) ∧
    recorded s' = recorded_after s ∧ io s' = [] ∧ has_table migrations_table (catalog s')) s ∧
  let s1 := (initSchema fresh).2 in
  (initSchema fresh).1 = Ok tt ∧ initSchema s1 = (Ok tt, s1).
Proof.
  intros Hio. split; [by apply initSchema_spec|]. exact second_start.
Qed.

(** The queue's table is part of the schema: making it again changes nothing. *)
Example initQueueDB_settled :
  let s1 := (initSchema fresh).2 in initQueueDB s1 = (tt, s1).
Proof. vm_compute. reflexivity. Qed.

(** ** The server, then the tool *)

Lemma max_version_rows : max_version (row_of <$> migrations) = 8.
Proof. vm_compute. reflexivity. Qed.

Lemma status_all_applied dbPath :
  status_report dbPath 8 (foldl (λ m '(v, n), <[v := n]> m) ∅ (row_of <$> migrations)) =
  ["Database: " +:+ dbPath; "Current version: 8"; "Latest available: 8"; EmptyString;
   "Applied migrations:"] ++ (status_line "✓" <$> migrations) ++ ["Database is up to date."].
Proof. vm_compute. reflexivity. Qed.

(** On a database that the server has made, the tool agrees that
    it is at the latest version: an upgrade applies nothing and leaves the
    schema and the record alone, and the status lists all eight migrations as
    applied and says that the database is up to date. *)
Theorem server_then_tool dbPath s :
  io s = [] → recorded s = [] →
  wp initSchema (λ r s', r = Ok tt →
    faithful s' ∧ migrateUp (-1) s' = (inl O, s') ∧
    showStatus dbPath s' = (inl (
      ["Database: " +:+ dbPath; "Current version: 8"; "Latest available: 8"; EmptyString;
       "Applied migrations:"] ++ (status_line "✓" <$> migrations) ++
      ["Database is up to date."]), s')) s.
Proof.
  intros Hio Hnil. eapply wp_mono; [by apply initSchema_spec|].
  intros r [c rec l] Hr Hok. destruct (Hr Hok) as (_ & Heff & Hrec & Hio' & [t Ht]). simpl in *.
  subst l. unfold recorded_after in Hrec. rewrite Hnil in Hrec. simpl in Hrec. subst rec.
  split; [by intros m Hm _; apply Heff|]. split.
  - unfold migrateUp. rewrite with_current_noop by (done || by exists t). simpl.
    rewrite max_version_rows, latest_8, sorted_up_migrations. simpl. unfold mbind, St_bind.
    rewrite up_loop_noop; [done|apply versions_increase|]. apply filter_false.
    intros m Hm. pose proof (migrations_positive m Hm). simpl. lia.
  - unfold showStatus. rewrite with_current_noop by (done || by exists t). simpl.
    rewrite max_version_rows. unfold or_return, getAppliedMigrations, query_versions, io_fault.
    unfold mbind, St_bind. simpl. rewrite Ht. simpl. by rewrite status_all_applied.
Qed.

(** ** Rolling back and upgrading again *)

(** The schema of a new database after all migrations. *)
Definition migrated : MigrationDB := (migrateUp (-1) fresh).2.

(** Rolling back to [t] and upgrading again succeeds and leads back to [s0]. *)
Definition restored (t : Z) (s0 : MigrationDB) : Prop :=
  wp (migrateDown t) (λ r s, (∃ n, r = inl n) ∧
    wp (migrateUp (-1)) (λ r' s', (∃ n, r' = inl n) ∧
      catalog s' = catalog s0 ∧ recorded s' = recorded s0) s) s0.

Definition round_trips (s0 : MigrationDB) (t : Z) : bool :=
  let '(r, s) := migrateDown t s0 in
  let '(r', s') := migrateUp (-1) s in
  match r, r' with
  | inl _, inl _ => bool_decide (catalog s' = catalog s0 ∧ recorded s' = recorded s0)
  | _, _ => false
  end.

Lemma round_trips_restored s0 t t' :
  migrateDown t s0 = migrateDown t' s0 → round_trips s0 t' = true → restored t s0.
Proof.
  intros Heq. unfold round_trips, restored, wp at 1. rewrite Heq.
  destruct (migrateDown t' s0) as [r s]. unfold wp. cbn [fst snd].
  destruct (migrateUp (-1) s) as [r' s'].
  destruct r as [n|]; [|discriminate]. destruct r' as [n'|]; [|discriminate].
  intros Hb%bool_decide_eq_true. cbn [fst snd]. split; [by exists n|]. split; [by exists n'|exact Hb].
Qed.

Lemma migrateDown_negative t s : t < 0 → migrateDown t s = migrateDown 0 s.
Proof. intros Ht. unfold migrateDown. by rewrite (decide_True (P := t < 0)) by done. Qed.

Lemma migrateDown_nothing t s :
  io s = [] → has_table migrations_table (catalog s) → 0 ≤ t → max_version (recorded s) ≤ t →
  migrateDown t s = (inl O, s).
Proof.
  intros Hio Ht Hpos Hle. unfold migrateDown. rewrite with_current_noop by done. cbv zeta.
  rewrite (decide_False (P := t < 0)) by lia. rewrite decide_True by exact Hle. reflexivity.
Qed.

(** The versions are finitely many. *)
Lemma restored_all s0 :
  io s0 = [] → has_table migrations_table (catalog s0) → max_version (recorded s0) = 8 →
  Forall (λ t, round_trips s0 t = true) [0; 1; 2; 3; 4; 5; 6; 7; 8] → ∀ t, restored t s0.
Proof.
  intros Hio Ht Hv Hall t. rewrite Forall_forall in Hall.
  destruct (decide (t < 0)) as [Hneg|Hpos].
  { apply (round_trips_restored _ _ 0); [by apply migrateDown_negative|]. apply Hall. left. }
  destruct (decide (8 ≤ t)) as [Hge|Hlt].
  { apply (round_trips_restored _ _ 8); [|apply Hall; set_solver].
    rewrite (migrateDown_nothing t), (migrateDown_nothing 8); try assumption; try lia. reflexivity. }
  apply (round_trips_restored _ _ t); [done|]. apply Hall.
  assert (t = 0 ∨ t = 1 ∨ t = 2 ∨ t = 3 ∨ t = 4 ∨ t = 5 ∨ t = 6 ∨ t = 7) as Hc by lia. set_solver.
Qed.

Lemma migrated_state :
  io migrated = [] ∧ has_table migrations_table (catalog migrated) ∧
  max_version (recorded migrated) = 8.
Proof.
  split; [vm_compute; reflexivity|]. split; [eexists; vm_compute; reflexivity|].
  vm_compute. reflexivity.
Qed.

Lemma migrated_round_trips : Forall (λ t, round_trips migrated t = true) [0; 1; 2; 3; 4; 5; 6; 7; 8].
Proof. apply (bool_decide_unpack _). vm_compute. exact I. Qed.

(** Rolling a migrated database back to any version and upgrading
    it again succeeds and restores its schema and its record, although the
    rollbacks of added columns do nothing. *)
Theorem down_up_round_trip t :
  wp (migrateDown t) (λ r s, (∃ n, r = inl n) ∧
    wp (migrateUp (-1)) (λ r' s', (∃ n, r' = inl n) ∧
      catalog s' = catalog migrated ∧ recorded s' = recorded migrated) s) migrated.
Proof. apply restored_all; [apply migrated_state..|exact migrated_round_trips]. Qed.

(** ** Where the two programs disagree *)

(** The server makes [agents] with a column [status], which [handleGetPresence]
    reads; the migrations make it without, and nothing adds it later. *)
Example migrated_agents_lack_status :
  (initSchema fresh).1 = Ok tt ∧ has_column "agents" "status" (catalog (initSchema fresh).2) ∧
  (initSchema migrated).1 = Ok tt ∧
  ¬ has_column "agents" "status" (catalog (initSchema migrated).2).
Proof.
  split; [vm_compute; reflexivity|]. split; [apply (bool_decide_unpack _); vm_compute; exact I|].
  split; [vm_compute; reflexivity|]. apply (bool_decide_unpack _). vm_compute. exact I.
Qed.

(** The semicolon in the comment of the seventh rollback ends a statement: the
    rest of the comment is sent to the database. *)
Example comment_is_executed :
  omap (λ m, last (splitStatements (DownSQL m))) (filter (λ m, Version m = 7) migrations) =
    ["no-op for safety"] ∧
  (exec_sql "no-op for safety" migrated).1 = Err (ErrText "syntax error").
Proof. vm_compute. split; reflexivity. Qed.

(** A rollback is not a transaction: when the row cannot be deleted the table is
    gone, the version is still recorded, and upgrading does not bring it back. *)
Example interrupted_rollback :
  let '(r, s) := migrateDown 7 (set_io [false; false; false; false; true] migrated) in
  let '(r', s') := migrateUp (-1) s in
  r = inr (RemoveRecord 8 ErrIO) ∧ r' = inl O ∧ max_version (recorded s') = 8 ∧
  tables (catalog s') !! "user_rate_limit_tiers" = None.
Proof. vm_compute. repeat split. Qed.

(** ** The theorems on a new database *)

Lemma initSchema_current_witness :
  io fresh = [] ∧ (initSchema fresh).1 = Ok tt ∧
  wp initSchema (λ r s', r = Ok tt →
    grows (catalog fresh) (catalog s') ∧ (∀ m, m ∈ migrations → in_effect m (catalog s')) ∧
    recorded s' = recorded_after fresh ∧ io s' = [] ∧
    has_table migrations_table (catalog s')) fresh.
Proof.
  split; [reflexivity|]. destruct (initSchema_current fresh eq_refl) as [Hwp [Hok _]].
  split; [exact Hok|exact Hwp].
Defined.

Lemma server_then_tool_witness :
  io fresh = [] ∧ recorded fresh = [] ∧ (initSchema fresh).1 = Ok tt ∧
  wp initSchema (λ r s', r = Ok tt →
    faithful s' ∧ migrateUp (-1) s' = (inl O, s') ∧
    showStatus "chat.db" s' = (inl (
      ["Database: " +:+ "chat.db"; "Current version: 8"; "Latest available: 8"; EmptyString;
       "Applied migrations:"] ++ (status_line "✓" <$> migrations) ++
      ["Database is up to date."]), s')) fresh.
Proof.
  split; [reflexivity|]. split; [reflexivity|]. split; [vm_compute; reflexivity|].
  exact (server_then_tool "chat.db" fresh eq_refl eq_refl).
Defined.
