(* ===== verification/StubProps.v ===== *)
(** * The numbering of new migration files *)

From S2P Require Import Prelude GoLib Numerals Ddl Migrate.
From Stdlib Require Import Ascii.

(** ** The next number *)

(** A file of the directory whose name starts with the number [v]. *)
Definition numbered (v : Z) (entry : string * bool) : Prop :=
  entry.2 = false ∧ Atoi (default EmptyString (head (Split entry.1 underscore))) = Ok v.

Lemma next_version_spec entries next :
  0 ≤ next ≤ max_int64 → Forall (λ e, ∀ v, numbered v e → v < max_int64) entries →
  next ≤ next_version next entries ≤ max_int64 ∧
  Forall (λ e, ∀ v, numbered v e → v < next_version next entries) entries.
Proof.
  revert next. induction entries as [|[name isDir] entries IH]; intros next Hn He.
  { split; [simpl; lia|constructor]. }
  apply Forall_cons in He as [Hv He]. unfold numbered in Hv. simpl in *. destruct isDir.
  { destruct (IH next Hn He) as [Hge Hall]. split; [done|]. constructor; [|done].
    intros v [? _]. done. }
  destruct (Atoi _) as [v|e] eqn:Ha.
  - specialize (Hv v (conj eq_refl eq_refl)).
    assert (∀ n, 0 ≤ n ≤ max_int64 → next ≤ n → v < n →
      next ≤ next_version n entries ≤ max_int64 ∧
      Forall (λ e, ∀ v, numbered v e → v < next_version n entries) ((name, false) :: entries)) as Hnext.
    { intros n Hr Hle Hlt. destruct (IH n Hr He) as [Hge Hall]. split; [lia|].
      constructor; [|done]. intros v' [_ Hv']. simpl in Hv'. rewrite Ha in Hv'. injection Hv' as <-. lia. }
    case_decide; [|apply Hnext; lia].
    rewrite wrap64_id by (unfold int64_range, min_int64, max_int64 in *; lia). apply Hnext; lia.
  - destruct (IH next Hn He) as [Hge Hall]. split; [done|]. constructor; [|done].
    intros v [_ Hv']. simpl in Hv'. congruence.
Qed.

Lemma Split_head a c t : c ∉ chars a → Split (a +:+ String c t) c = a :: Split t c.
Proof.
  unfold chars. induction a as [|d a IH]; simpl_str.
  { by rewrite decide_True by done. }
  rewrite not_elem_of_cons. intros [Hd Ha]. rewrite decide_False by done. by rewrite IH.
Qed.

Lemma stub_filename_numbered v name :
  0 ≤ v ≤ max_int64 → Atoi (default EmptyString (head (Split (stub_filename v name) underscore))) = Ok v.
Proof.
  intros Hv. destruct (Atoi_FormatPadded 3 v Hv) as [Ha Hd]. unfold stub_filename.
  assert (underscore ∉ chars (FormatPadded 3 v)) as Hn.
  { intros Hin. unfold digits in Hd. rewrite Forall_forall in Hd. apply Hd in Hin. vm_compute in Hin. lia. }
  change ("_" +:+ name +:+ ".sql") with (String underscore (name +:+ ".sql")).
  rewrite Split_head by exact Hn. exact Ha.
Qed.

(** A new migration file gets a number that no numbered file of
    the directory has, after the migrations that are built in, so writing it
    replaces no file (unless a file has the greatest 64-bit number). *)
Theorem createMigrationStub_fresh entries name s :
  Forall (λ e, ∀ v, numbered v e → v < max_int64) entries →
  wp (createMigrationStub entries name) (λ r _, ∀ file content, r = inl (file, content) →
    (file, false) ∉ entries ∧
    ∃ v, file = stub_filename v name ∧ content = stub_content v name ∧
      Z.of_nat (length migrations) < v ∧ numbered v (file, false) ∧
      Forall (λ e, ∀ v', numbered v' e → v' < v) entries) s.
Proof.
  intros He. destruct (next_version_spec entries 9) as [Hv Hall]; [vm_compute; split; discriminate|done|].
  assert (∀ file content, (file, content) = (stub_filename (next_version 9 entries) name,
      stub_content (next_version 9 entries) name) → (file, false) ∉ entries ∧
    ∃ v, file = stub_filename v name ∧ content = stub_content v name ∧
      Z.of_nat (length migrations) < v ∧ numbered v (file, false) ∧
      Forall (λ e, ∀ v', numbered v' e → v' < v) entries) as Hnew.
  { intros file content [= -> ->].
    assert (numbered (next_version 9 entries) (stub_filename (next_version 9 entries) name, false)) as Hnum.
    { split; [done|]. apply stub_filename_numbered. lia. }
    split.
    - intros Hin. rewrite Forall_forall in Hall. pose proof (Hall _ Hin _ Hnum). lia.
    - eexists. split_and!; [done..| |exact Hnum|exact Hall].
      assert (Z.of_nat (length migrations) = 8) as -> by reflexivity. lia. }
  unfold createMigrationStub, or_return, attempt. apply wp_bind, wp_bind. unfold wp at 1.
  destruct (io_fault s) as [[] s1]; cbn [fst snd]; apply wp_ret; [by apply wp_ret|].
  cbv zeta. change (Z.of_nat (length migrations) + 1) with 9.
  apply wp_bind, wp_bind. unfold wp at 1. destruct (io_fault s1) as [[] s2]; cbn [fst snd]; apply wp_ret; [by apply wp_ret|].
  apply wp_ret. intros file content Heq. apply Hnew. by injection Heq as <- <-.
Qed.

Lemma createMigrationStub_fresh_witness :
  let entries := [("009_indexes.sql", false); ("012_more.sql", false); ("README", false)] in
  let s := mkMigrationDB empty_catalog [] [] in
  (createMigrationStub entries "next" s).1 = inl ("013_next.sql", stub_content 13 "next") ∧
  wp (createMigrationStub entries "next") (λ r _, ∀ file content, r = inl (file, content) →
    (file, false) ∉ entries ∧
    ∃ v, file = stub_filename v "next" ∧ content = stub_content v "next" ∧
      Z.of_nat (length migrations) < v ∧ numbered v (file, false) ∧
      Forall (λ e, ∀ v', numbered v' e → v' < v) entries) s.
Proof.
  split; [vm_compute; reflexivity|]. apply createMigrationStub_fresh.
  repeat constructor; intros v [_ Hv]; vm_compute in Hv; injection Hv as <- || discriminate; reflexivity.
Defined.
