(* ===== verification/PgSchema.v ===== *)
(** * The PostgreSQL schema (dbdriver.go)

    The text the server runs instead of [sqliteSchema] when its driver is
    PostgreSQL, and the schema it leads to: the two databases end up with the
    same tables, columns and constraints, and differ only in how some columns are
    typed. *)

From S2P Require Import Prelude GoLib Ddl Migrate Schema MigrateProps.

Definition pgSchema : string := "
CREATE TABLE IF NOT EXISTS users (
	id TEXT PRIMARY KEY,
	username TEXT NOT NULL UNIQUE,
	password_hash TEXT NOT NULL,
	created_at TIMESTAMP DEFAULT CURRENT_TIMESTAMP
);

CREATE TABLE IF NOT EXISTS agents (
	id TEXT PRIMARY KEY,
	name TEXT NOT NULL DEFAULT '',
	model TEXT NOT NULL DEFAULT '',
	personality TEXT NOT NULL DEFAULT '',
	specialty TEXT NOT NULL DEFAULT '',
	status TEXT NOT NULL DEFAULT 'offline',
	created_at TIMESTAMP DEFAULT CURRENT_TIMESTAMP
);

CREATE TABLE IF NOT EXISTS conversations (
	id TEXT PRIMARY KEY,
	user_id TEXT NOT NULL,
	agent_id TEXT NOT NULL,
	created_at TIMESTAMP DEFAULT CURRENT_TIMESTAMP,
	FOREIGN KEY (user_id) REFERENCES users(id),
	FOREIGN KEY (agent_id) REFERENCES agents(id)
);

CREATE TABLE IF NOT EXISTS device_tokens (
	user_id TEXT NOT NULL,
	device_token TEXT NOT NULL,
	platform TEXT NOT NULL DEFAULT 'ios',
	created_at TIMESTAMP DEFAULT CURRENT_TIMESTAMP,
	updated_at TIMESTAMP DEFAULT CURRENT_TIMESTAMP,
	PRIMARY KEY (user_id, device_token),
	FOREIGN KEY (user_id) REFERENCES users(id)
);

CREATE TABLE IF NOT EXISTS messages (
	id TEXT PRIMARY KEY,
	conversation_id TEXT NOT NULL,
	sender_type TEXT NOT NULL,
	sender_id TEXT NOT NULL,
	content TEXT NOT NULL,
	metadata TEXT,
	created_at TIMESTAMP DEFAULT CURRENT_TIMESTAMP,
	edited_at TIMESTAMP,
	is_deleted BOOLEAN DEFAULT FALSE,
	FOREIGN KEY (conversation_id) REFERENCES conversations(id)
);

CREATE TABLE IF NOT EXISTS attachments (
	id TEXT PRIMARY KEY,
	message_id TEXT,
	user_id TEXT NOT NULL,
	filename TEXT NOT NULL,
	content_type TEXT NOT NULL,
	size BIGINT NOT NULL,
	sha256 TEXT NOT NULL,
	storage_path TEXT NOT NULL,
	created_at TIMESTAMP DEFAULT CURRENT_TIMESTAMP,
	FOREIGN KEY (message_id) REFERENCES messages(id),
	FOREIGN KEY (user_id) REFERENCES users(id)
);

CREATE TABLE IF NOT EXISTS key_bundles (
	id TEXT PRIMARY KEY,
	owner_id TEXT NOT NULL,
	owner_type TEXT NOT NULL,
	key_type TEXT NOT NULL,
	public_key TEXT NOT NULL,
	signature TEXT,
	key_id INTEGER,
	created_at TIMESTAMP DEFAULT CURRENT_TIMESTAMP,
	FOREIGN KEY (owner_id) REFERENCES users(id)
);

CREATE TABLE IF NOT EXISTS encrypted_messages (
	id TEXT PRIMARY KEY,
	conversation_id TEXT NOT NULL,
	sender_id TEXT NOT NULL,
	sender_type TEXT NOT NULL,
	ciphertext TEXT NOT NULL,
	iv TEXT NOT NULL,
	recipient_key_id TEXT NOT NULL,
	sender_key_id TEXT,
	algorithm TEXT NOT NULL,
	created_at TIMESTAMP DEFAULT CURRENT_TIMESTAMP,
	FOREIGN KEY (conversation_id) REFERENCES conversations(id)
);

CREATE TABLE IF NOT EXISTS notification_preferences (
	user_id TEXT NOT NULL,
	conversation_id TEXT NOT NULL,
	muted BOOLEAN DEFAULT FALSE,
	created_at TIMESTAMP DEFAULT CURRENT_TIMESTAMP,
	PRIMARY KEY (user_id, conversation_id),
	FOREIGN KEY (user_id) REFERENCES users(id) ON DELETE CASCADE,
	FOREIGN KEY (conversation_id) REFERENCES conversations(id) ON DELETE CASCADE
);

CREATE TABLE IF NOT EXISTS offline_queue (
	id SERIAL PRIMARY KEY,
	recipient TEXT NOT NULL,
	data BYTEA NOT NULL,
	queued_at TIMESTAMP NOT NULL,
	sent_count INTEGER NOT NULL DEFAULT 0
);
CREATE INDEX IF NOT EXISTS idx_queue_recipient ON offline_queue(recipient);

CREATE TABLE IF NOT EXISTS reactions (
	id TEXT PRIMARY KEY,
	message_id TEXT NOT NULL,
	user_id TEXT NOT NULL,
	emoji TEXT NOT NULL,
	created_at TIMESTAMP DEFAULT CURRENT_TIMESTAMP,
	UNIQUE(message_id, user_id, emoji),
	FOREIGN KEY (message_id) REFERENCES messages(id) ON DELETE CASCADE,
	FOREIGN KEY (user_id) REFERENCES users(id) ON DELETE CASCADE
);

CREATE TABLE IF NOT EXISTS conversation_tags (
	id TEXT PRIMARY KEY,
	conversation_id TEXT NOT NULL,
	tag TEXT NOT NULL,
	created_at TIMESTAMP DEFAULT CURRENT_TIMESTAMP,
	UNIQUE(conversation_id, tag),
	FOREIGN KEY (conversation_id) REFERENCES conversations(id) ON DELETE CASCADE
);

CREATE TABLE IF NOT EXISTS user_rate_limit_tiers (
	user_id TEXT NOT NULL PRIMARY KEY,
	tier_name TEXT NOT NULL DEFAULT 'free',
	updated_at TIMESTAMP DEFAULT CURRENT_TIMESTAMP,
	FOREIGN KEY (user_id) REFERENCES users(id) ON DELETE CASCADE
);

CREATE TABLE IF NOT EXISTS notification_preferences (
	user_id TEXT NOT NULL,
	conversation_id TEXT NOT NULL,
	muted BOOLEAN DEFAULT FALSE,
	created_at TIMESTAMP DEFAULT CURRENT_TIMESTAMP,
	PRIMARY KEY (user_id, conversation_id),
	FOREIGN KEY (user_id) REFERENCES users(id) ON DELETE CASCADE,
	FOREIGN KEY (conversation_id) REFERENCES conversations(id) ON DELETE CASCADE
);

CREATE TABLE IF NOT EXISTS schema_migrations (
	version INTEGER NOT NULL,
	name TEXT NOT NULL,
	applied_at TIMESTAMP DEFAULT CURRENT_TIMESTAMP,
	PRIMARY KEY (version)
);
".

(** [initSchemaForDriver] *)
Definition initSchemaForDriver (postgres : bool) : string :=
  if postgres then pgSchema else sqliteSchema.

(** The statements of [initSchema] that define data, for either driver; the
    record of the migrations is left out. *)
Definition make_schema (postgres : bool) : MM (Result unit) :=
  exec_then (initSchemaForDriver postgres) (exec_then migrations_table_sql update_schema).

(** ** The two schemas *)

(** How a column is declared. *)
Definition declared (n col : string) (c : Catalog) : option (list string) :=
  t ← tables c !! n; snd <$> head (filter (λ p, p.1 = col) (t_columns t)).

(** The columns that are declared differently. *)
Definition differing : list (string * string) :=
  [("agents", "id"); ("messages", "is_deleted"); ("attachments", "size");
   ("notification_preferences", "muted"); ("offline_queue", "id"); ("offline_queue", "data");
   ("offline_queue", "queued_at")].

Definition pg_catalog : Catalog := catalog (make_schema true fresh).2.
Definition sqlite_catalog : Catalog := catalog (make_schema false fresh).2.

(** All columns of a catalogue. *)
Definition all_columns (c : Catalog) : list (string * string) :=
  map_to_list (tables c) ≫= λ '(n, t), (λ col, (n, col)) <$> col_names t.

Lemma all_columns_spec n col c : (n, col) ∈ all_columns c ↔ has_column n col c.
Proof.
  unfold all_columns, has_column. rewrite list_elem_of_bind. split.
  - intros ([n' t] & Hc & Ht). apply list_elem_of_fmap in Hc as (col' & [= -> ->] & Hcol).
    exists t. split; [by apply elem_of_map_to_list|done].
  - intros (t & Ht & Hcol). exists (n, t). split; [|by apply elem_of_map_to_list].
    apply list_elem_of_fmap. eauto.
Qed.

Definition same_declarations (c c' : Catalog) : bool :=
  forallb (λ '(n, col), bool_decide ((n, col) ∈ differing)
                        || bool_decide (declared n col c = declared n col c')) (all_columns c').

Lemma columns_agree : same_declarations pg_catalog sqlite_catalog = true.
Proof. vm_compute. reflexivity. Qed.

