(* ===== verification/Admin.v ===== *)
(** * The administration tool (cmd/am-admin)

    A separate program on the database of the server: its commands read answers
    from the standard input, run one statement and print.  Unlike the server it
    does not switch [foreign_keys] on.  Random identifiers are an input, a
    failing source of randomness is not modelled; [Exit] is [os.Exit]. *)

From S2P Require Import Prelude GoLib FixedWindow RateLimit Tiers Sql Queue Hub Store World.
From Stdlib Require Import Ascii.

(** ** State and control *)

(** [admin_clock] is the time, [entropy] what the next [rand.Read] give in
    hexadecimal, [admin_faults] which of the next database calls fail. *)
Record Admin := mkAdmin {
  admin_db : DB; stdin : string; stdout : string; stderr : string; admin_clock : Z;
  entropy : list string; admin_faults : list bool }.

Definition set_admin_db (d : DB) (s : Admin) : Admin :=
  mkAdmin d (stdin s) (stdout s) (stderr s) (admin_clock s) (entropy s) (admin_faults s).
Definition set_stdin (i : string) (s : Admin) : Admin :=
  mkAdmin (admin_db s) i (stdout s) (stderr s) (admin_clock s) (entropy s) (admin_faults s).
Definition add_stdout (t : string) (s : Admin) : Admin :=
  mkAdmin (admin_db s) (stdin s) (stdout s +:+ t) (stderr s) (admin_clock s) (entropy s)
    (admin_faults s).
Definition add_stderr (t : string) (s : Admin) : Admin :=
  mkAdmin (admin_db s) (stdin s) (stdout s) (stderr s +:+ t) (admin_clock s) (entropy s)
    (admin_faults s).
Definition set_entropy (e : list string) (s : Admin) : Admin :=
  mkAdmin (admin_db s) (stdin s) (stdout s) (stderr s) (admin_clock s) e (admin_faults s).
Definition set_admin_faults (l : list bool) (s : Admin) : Admin :=
  mkAdmin (admin_db s) (stdin s) (stdout s) (stderr s) (admin_clock s) (entropy s) l.

Inductive Control (A : Type) :=
  | Next (a : A)
  | Exit (code : Z).
Arguments Next {A} a.
Arguments Exit {A} code.

Definition AM (A : Type) : Type := Admin → Control A * Admin.

Definition anext {A} (a : A) : AM A := λ s, (Next a, s).

Definition abind {A B} (m : AM A) (k : A → AM B) : AM B := λ s,
  match m s with
  | (Next a, s) => k a s
  | (Exit code, s) => (Exit code, s)
  end.

Notation "x <~ m ; k" := (abind m (λ x, k))
  (at level 20, m at level 100, k at level 200, right associativity, only parsing).

Definition newline : string := String (ascii_of_nat 10) EmptyString.

(** [fmt.Print], [fmt.Println], and a message on the standard error followed by
    [os.Exit(1)]. *)
Definition printf (t : string) : AM unit := λ s, (Next tt, add_stdout t s).
Definition println (t : string) : AM unit := printf (t +:+ newline).
Definition fail_with {A} (t : string) : AM A := λ s, (Exit 1, add_stderr (t +:+ newline) s).

Fixpoint print_each {A} (f : A → AM unit) (l : list A) : AM unit :=
  match l with
  | [] => anext tt
  | x :: l => _ <~ f x; print_each f l
  end.

(** A line that is printed if its value is not empty. *)
Definition print_if (v t : string) : AM unit := if str_empty v then anext tt else println t.

(** [reader.ReadString('\n')] with its error ignored: the text up to the end of
    the line, or of the input. *)
Fixpoint split_line (s : string) : string * string :=
  match s with
  | EmptyString => (EmptyString, EmptyString)
  | String c s =>
      if decide (nat_of_ascii c = 10%nat) then (String c EmptyString, s)
      else let '(l, r) := split_line s in (String c l, r)
  end.

Definition read_line : AM string := λ s,
  let '(l, r) := split_line (stdin s) in (Next l, set_stdin r s).

(** A call of the database. *)
Definition db_call {A} (f : DB → Result (DB * A)) : AM (Result A) := λ s,
  let s' := set_admin_faults (tail (admin_faults s)) s in
  if default false (head (admin_faults s)) then (Next (Err ErrIO), s')
  else match f (admin_db s) with
       | Ok (d, a) => (Next (Ok a), set_admin_db d s')
       | Err e => (Next (Err e), s')
       end.

(** A statement without result. *)
Definition no_result (stmt : DB → Result DB) : DB → Result (DB * unit) := λ d,
  (λ d', (d', tt)) <$> stmt d.

(** [DELETE FROM agents WHERE id = ?] without foreign keys, with the number of
    rows. *)
Definition delete_agent_rows (aid : string) (d : DB) : Result (DB * Z) :=
  let l := filter (λ a, a_id a ≠ aid) (agents d) in
  Ok (set_agents (λ _, l) d, Z.of_nat (length (agents d) - length l)).

(** [fmt.Sprintf("%-15s", s)] of UTF-8 text: the width is in characters. *)
Definition rune_count (s : string) : nat :=
  length (filter (λ c, (nat_of_ascii c / 64)%nat ≠ 2%nat) (chars s)).

Definition spaces (n : nat) : string := String.string_of_list_ascii (replicate n (ascii_of_nat 32)).

Definition pad_right (w : nat) (s : string) : string := s +:+ spaces (w - rune_count s).

Definition dashes : string := String.string_of_list_ascii (replicate 60 (ascii_of_nat 45)).

Section admin.
Context `{Env}.

(** [prompt] *)
Definition prompt (label defaultVal : string) : AM string :=
  _ <~ printf (if str_empty defaultVal then label +:+ ": "
               else label +:+ " [" +:+ defaultVal +:+ "]: ");
  line <~ read_line;
  let text := TrimSpace line in
  anext (if str_empty text then defaultVal else text).

(** An answer that must be given. *)
Definition required (label message : string) : AM string :=
  v <~ prompt label EmptyString;
  if str_empty v then fail_with message else anext v.

Definition generateID (prefix : string) : AM string := λ s,
  (Next (prefix +:+ "_" +:+ default EmptyString (head (entropy s))), set_entropy (tail (entropy s)) s).

Definition openDB : AM unit :=
  r <~ db_call (no_result Ok);
  match r with
  | Ok _ => anext tt
  | Err e => fail_with ("Error opening database: " +:+ Error e)
  end.

(** [CURRENT_TIMESTAMP], the default of [created_at]. *)
Definition created_now : AM Z := λ s, (Next (admin_clock s / Second * Second), s).

Definition createAgent : AM unit :=
  agentID <~ required "Agent ID" "Agent ID is required";
  name <~ prompt "Agent Name" agentID;
  model <~ prompt "Model (optional)" EmptyString;
  personality <~ prompt "Personality (optional)" EmptyString;
  specialty <~ prompt "Specialty (optional)" EmptyString;
  _ <~ openDB;
  t <~ created_now;
  r <~ db_call (no_result (insert_agent
         (mkAgent agentID name model personality specialty "offline" t)));
  match r with
  | Err e => fail_with ("Error creating agent: " +:+ Error e)
  | Ok _ =>
      _ <~ printf newline;
      _ <~ println "✅ Agent created successfully!";
      _ <~ println ("   ID:          " +:+ agentID);
      _ <~ println ("   Name:        " +:+ name);
      _ <~ print_if model ("   Model:       " +:+ model);
      _ <~ print_if personality ("   Personality: " +:+ personality);
      _ <~ print_if specialty ("   Specialty:   " +:+ specialty);
      _ <~ printf newline;
      _ <~ println "ℹ️  Agents authenticate with AGENT_SECRET, not per-agent keys.";
      _ <~ println "   Set AGENT_SECRET env var on the server and connect via:";
      println ("   ws://host:8080/agent/connect?agent_id=" +:+ agentID +:+
               "&agent_secret=<YOUR_SECRET>")
  end.

Definition createUser : AM unit :=
  username <~ required "Username" "Username is required";
  password <~ required "Password" "Password is required";
  userID <~ generateID "user";
  t <~ (λ s, (Next (admin_clock s), s));
  match bcrypt_generate password t with
  | Err e => fail_with ("Error hashing password: " +:+ Error e)
  | Ok hash =>
      _ <~ openDB;
      t <~ created_now;
      r <~ db_call (no_result (insert_user (mkUser userID username hash t)));
      match r with
      | Err e => fail_with ("Error creating user: " +:+ Error e)
      | Ok _ =>
          _ <~ printf newline;
          _ <~ println "✅ User created successfully!";
          _ <~ println ("   ID:       " +:+ userID);
          println ("   Username: " +:+ username)
      end
  end.

(** The footer of the two lists; every row can be read. *)
Definition print_total (count : nat) (none : string) : AM unit :=
  _ <~ (if decide (count = O) then println none else anext tt);
  _ <~ println dashes;
  println ("Total: " +:+ FormatInt (Z.of_nat count)).

Definition print_agent (a : AgentRow) : AM unit :=
  _ <~ printf ("  " +:+ pad_right 15 (a_id a) +:+ "  " +:+ a_name a);
  _ <~ (if str_empty (a_model a) then anext tt else printf ("  [" +:+ a_model a +:+ "]"));
  _ <~ printf newline;
  _ <~ print_if (a_personality a) ("    Personality: " +:+ a_personality a);
  _ <~ print_if (a_specialty a) ("    Specialty:  " +:+ a_specialty a);
  println ("    Created:    " +:+ rfc3339nano (a_created_at a)).

Definition listAgents : AM unit :=
  _ <~ openDB;
  rows <~ db_call (λ d, Ok (d, order_by (key_asc a_created_at) (agents d)));
  match rows with
  | Err e => fail_with ("Error querying agents: " +:+ Error e)
  | Ok rows =>
      _ <~ printf newline;
      _ <~ println "Registered Agents:";
      _ <~ println dashes;
      _ <~ print_each print_agent rows;
      print_total (length rows) "  (no agents registered)"
  end.

Definition print_user (u : UserRow) : AM unit :=
  println ("  " +:+ pad_right 15 (u_username u) +:+ "  " +:+ u_id u +:+ "  (" +:+
           rfc3339nano (u_created_at u) +:+ ")").

Definition listUsers : AM unit :=
  _ <~ openDB;
  rows <~ db_call (λ d, Ok (d, order_by (key_asc u_created_at) (users d)));
  match rows with
  | Err e => fail_with ("Error querying users: " +:+ Error e)
  | Ok rows =>
      _ <~ printf newline;
      _ <~ println "Registered Users:";
      _ <~ println dashes;
      _ <~ print_each print_user rows;
      print_total (length rows) "  (no users registered)"
  end.

Definition deleteAgent : AM unit :=
  agentID <~ required "Agent ID to delete" "Agent ID is required";
  _ <~ openDB;
  r <~ db_call (delete_agent_rows agentID);
  match r with
  | Err e => fail_with ("Error deleting agent: " +:+ Error e)
  | Ok n =>
      if decide (n = 0) then fail_with ("Agent " +:+ agentID +:+ " not found") else
      _ <~ printf newline;
      println ("✅ Agent " +:+ agentID +:+ " deleted")
  end.

(** [main] after the flags; the usage text is an argument. *)
Definition am_admin (usage : string) (args : list string) : AM unit :=
  match args with
  | [] => _ <~ println usage; (λ s, (Exit 1, s))
  | cmd :: _ =>
      if decide (cmd = "create-agent") then createAgent
      else if decide (cmd = "create-user") then createUser
      else if decide (cmd = "list-agents") then listAgents
      else if decide (cmd = "list-users") then listUsers
      else if decide (cmd = "delete-agent") then deleteAgent
      else λ s, abind (println usage) (λ _ s, (Exit 1, s))
                  (add_stderr ("Unknown command: " +:+ cmd +:+ newline) s)
  end.
End admin.
