(* ===== verification/AdminProps.v ===== *)
(** * What the administration tool does to the database *)

From S2P Require Import Prelude GoLib FixedWindow RateLimit Tiers Sql Queue Hub Store StoreInv World Auth.
From S2P Require Import Conversations Routing Protocol Messages Reactions E2E Push Middleware.
From S2P Require Import Admits System Effects Demo Admin.
From Stdlib Require Import Ascii.

(** ** Frames *)

(** Steps that leave the database alone and exit with 1 if they exit; steps that
    do not exit; and commands that exit only with the database as it was. *)
Definition harmless {A} (m : AM A) : Prop := ∀ s,
  admin_db (m s).2 = admin_db s ∧ match (m s).1 with Exit code => code = 1 | Next _ => True end.

Definition returns {A} (m : AM A) : Prop := ∀ s, ∃ a, (m s).1 = Next a.

Definition all_or_nothing {A} (m : AM A) : Prop := ∀ s,
  match (m s).1 with Exit code => code = 1 ∧ admin_db (m s).2 = admin_db s | Next _ => True end.

Lemma abind_next {A B} (m : AM A) (k : A → AM B) s a s1 :
  m s = (Next a, s1) → abind m k s = k a s1.
Proof. unfold abind. by intros ->. Qed.

Lemma abind_inv {A B} (m : AM A) (k : A → AM B) s b s' :
  abind m k s = (Next b, s') → ∃ a s1, m s = (Next a, s1) ∧ k a s1 = (Next b, s').
Proof. unfold abind. destruct (m s) as [[a|code] s1]; [eauto|done]. Qed.

Lemma harmless_bind {A B} (m : AM A) (k : A → AM B) :
  harmless m → (∀ a, harmless (k a)) → harmless (abind m k).
Proof.
  intros Hm Hk s. specialize (Hm s). unfold abind. destruct (m s) as [[a|code] s1]; [|exact Hm].
  destruct Hm as [Hd _], (Hk a s1) as [Hd' Hc]. split; [by etrans|done].
Qed.

Lemma returns_bind {A B} (m : AM A) (k : A → AM B) :
  returns m → (∀ a, returns (k a)) → returns (abind m k).
Proof.
  intros Hm Hk s. destruct (Hm s) as [a Ha]. unfold abind.
  destruct (m s) as [c s1]. simpl in Ha. subst. apply Hk.
Qed.

Lemma harmless_all {A} (m : AM A) : harmless m → all_or_nothing m.
Proof. intros Hm s. destruct (Hm s) as [Hd Hc]. by destruct (m s).1. Qed.

Lemma returns_all {A} (m : AM A) : returns m → all_or_nothing m.
Proof. intros Hm s. destruct (Hm s) as [a Ha]. by rewrite Ha. Qed.

Lemma all_bind {A B} (m : AM A) (k : A → AM B) :
  harmless m → (∀ a, all_or_nothing (k a)) → all_or_nothing (abind m k).
Proof.
  intros Hm Hk s. specialize (Hm s). unfold abind. destruct (m s) as [[a|code] s1].
  - specialize (Hk a s1). destruct Hm as [Hd _]. simpl in Hd.
    destruct (k a s1) as [[b|code] s2]; simpl in *; [done|]. destruct Hk as [-> Hd']. by rewrite Hd', Hd.
  - destruct Hm as [Hd ->]. done.
Qed.

(** The statement of a command: nothing is changed when it fails, and what comes
    after a success does not exit, unless the statement changed nothing. *)
Lemma all_db_call {A B} (f : DB → Result (DB * A)) (k : Result A → AM B) :
  (∀ e, all_or_nothing (k (Err e))) →
  (∀ d d' a, f d = Ok (d', a) → returns (k (Ok a)) ∨ (d' = d ∧ all_or_nothing (k (Ok a)))) →
  all_or_nothing (abind (db_call f) k).
Proof.
  intros He Hok s. unfold abind, db_call.
  set (s' := set_admin_faults (tail (admin_faults s)) s).
  destruct (default false (head (admin_faults s))); [exact (He ErrIO s')|].
  destruct (f (admin_db s)) as [[d a]|e] eqn:Hf; [|exact (He e s')].
  destruct (Hok _ _ _ Hf) as [Hr|[-> Hall]].
  - destruct (Hr (set_admin_db d s')) as [b Hb]. by rewrite Hb.
  - exact (Hall (set_admin_db (admin_db s) s')).
Qed.

Section commands.
Context `{Env}.

Lemma harmless_printf t : harmless (printf t).
Proof. done. Qed.

Lemma harmless_read : harmless read_line.
Proof. intros s. unfold read_line. by destruct (split_line (stdin s)). Qed.

Lemma harmless_prompt label d : harmless (prompt label d).
Proof.
  apply harmless_bind; [done|intros _]. apply harmless_bind; [apply harmless_read|done].
Qed.

Lemma harmless_required label msg : harmless (required label msg).
Proof. apply harmless_bind; [apply harmless_prompt|]. intros v. by destruct (str_empty v). Qed.

Lemma harmless_query {A} (q : DB → A) : harmless (db_call (λ d, Ok (d, q d))).
Proof. intros s. unfold db_call. by destruct (default false (head (admin_faults s))). Qed.

Lemma harmless_open : harmless openDB.
Proof.
  unfold openDB. apply harmless_bind.
  - intros s. unfold db_call. by destruct (default false (head (admin_faults s))).
  - by intros [].
Qed.

Lemma returns_print_if v t : returns (print_if v t).
Proof. intros s. unfold print_if. destruct (str_empty v); by eexists. Qed.

Lemma returns_printf t : returns (printf t).
Proof. intros s. by eexists. Qed.

Lemma returns_println t : returns (println t).
Proof. intros s. by eexists. Qed.

Lemma harmless_print_if v t : harmless (print_if v t).
Proof. unfold print_if. by destruct (str_empty v). Qed.

Lemma harmless_print_each {A} (f : A → AM unit) l : (∀ x, harmless (f x)) → harmless (print_each f l).
Proof. intros Hf. induction l as [|x l IH]; [done|]. by apply harmless_bind. Qed.
End commands.

Create HintDb admin.
#[export] Hint Resolve harmless_printf harmless_prompt harmless_required harmless_query harmless_open
  harmless_print_if harmless_print_each returns_print_if returns_printf returns_println : admin.

(** Follows a command: the questions are harmless, the answers printed return. *)
Ltac admin_walk :=
  repeat first
    [ progress intros
    | solve [auto 2 with admin]
    | done
    | lazymatch goal with
      | |- harmless (abind _ _) => apply harmless_bind
      | |- harmless (print_each _ _) => apply harmless_print_each
      | |- returns (abind _ _) => apply returns_bind
      | |- returns (if ?b then _ else _) => destruct b
      | |- harmless (if ?b then _ else _) => destruct b
      | |- harmless (match ?x with _ => _ end) => destruct x
      | |- all_or_nothing (fail_with _) => apply harmless_all; done
      | |- all_or_nothing (abind (db_call _) _) => apply all_db_call
      | |- all_or_nothing (abind _ _) => apply all_bind
      | |- all_or_nothing (match ?x with _ => _ end) => destruct x
      end ].

Section properties.
Context `{Env}.

Lemma listAgents_harmless : harmless listAgents.
Proof. unfold listAgents, print_total, print_agent, println. admin_walk. Qed.

Lemma listUsers_harmless : harmless listUsers.
Proof. unfold listUsers, print_total, print_user, println. admin_walk. Qed.

Lemma delete_none aid d d' n : delete_agent_rows aid d = Ok (d', n) → n = 0 → d' = d.
Proof.
  unfold delete_agent_rows. intros [= <- <-] Hn.
  assert (filter (λ a, a_id a ≠ aid) (agents d) = agents d) as ->; [|by destruct d].
  apply filter_true. intros a Ha Heq.
  assert (length (filter (λ a, a_id a ≠ aid) (agents d)) < length (agents d))%nat; [|lia].
  apply (length_filter_lt _ _ a); [done|]. by intros Hne.
Qed.

Lemma createAgent_all : all_or_nothing createAgent.
Proof. unfold createAgent, println. admin_walk. left. admin_walk. Qed.

Lemma createUser_all : all_or_nothing createUser.
Proof. unfold createUser, println. admin_walk. left. admin_walk. Qed.

Lemma deleteAgent_all : all_or_nothing deleteAgent.
Proof.
  unfold deleteAgent, println. admin_walk. case_decide as Hn.
  - right. split; [by eapply delete_none|]. by apply harmless_all.
  - left. admin_walk.
Qed.


(** ** New users *)

(** What the answers to the questions of a command are. *)
Definition answer (s : Admin) : string := TrimSpace (split_line (stdin s)).1.

Lemma prompt_run label s :
  ∃ out, prompt label EmptyString s = (Next (answer s), set_stdin (split_line (stdin s)).2 (add_stdout out s)).
Proof.
  unfold prompt, abind, printf, read_line, answer. simpl. eexists.
  destruct (split_line (stdin s)) as [l r]. simpl. destruct (str_empty (TrimSpace l)) eqn:Hl; [|done].
  apply str_empty_true in Hl. by rewrite Hl.
Qed.

Lemma required_run label msg s b s' :
  required label msg s = (Next b, s') →
  b = answer s ∧ b ≠ EmptyString ∧ admin_db s' = admin_db s ∧ stdin s' = (split_line (stdin s)).2.
Proof.
  unfold required. intros (v & s1 & Hv & Hk)%abind_inv. destruct (prompt_run label s) as [out Hp].
  rewrite Hp in Hv. injection Hv as <- <-. destruct (str_empty (answer s)) eqn:He; [done|].
  injection Hk as <- <-. apply str_empty_false in He. done.
Qed.

Lemma harmless_run {A} (m : AM A) s a s1 : harmless m → m s = (Next a, s1) → admin_db s1 = admin_db s.
Proof. intros Hm Hr. destruct (Hm s) as [Hd _]. by rewrite Hr in Hd. Qed.

Lemma db_call_run {A} (f : DB → Result (DB * A)) s a s' :
  db_call f s = (Next (Ok a), s') → f (admin_db s) = Ok (admin_db s', a).
Proof.
  unfold db_call. destruct (default false (head (admin_faults s))); [done|].
  destruct (f (admin_db s)) as [[d b]|e] eqn:Hf; intros [= <- <-]. done.
Qed.

Lemma createUser_run s s' :
  createUser s = (Next tt, s') →
  ∃ username password uid hash t t',
    username = answer s ∧ password = answer (set_stdin (split_line (stdin s)).2 s) ∧
    password ≠ EmptyString ∧ username ≠ EmptyString ∧
    bcrypt_generate password t = Ok hash ∧
    insert_user (mkUser uid username hash t') (admin_db s) = Ok (admin_db s').
Proof.
  unfold createUser, println. intros (username & s1 & H1 & Hk)%abind_inv.
  apply required_run in H1 as (-> & Hu & Hd1 & Hi1).
  apply abind_inv in Hk as (password & s2 & H2 & Hk).
  apply required_run in H2 as (-> & Hp & Hd2 & _).
  apply abind_inv in Hk as (uid & s3 & H3 & Hk). injection H3 as <- <-.
  apply abind_inv in Hk as (t & s4 & H4 & Hk). injection H4 as <- <-.
  destruct (bcrypt_generate _ _) as [hash|] eqn:Hhash; [|done].
  apply abind_inv in Hk as ([] & s5 & H5 & Hk). apply harmless_run in H5; [|apply harmless_open].
  apply abind_inv in Hk as (t' & s6 & H6 & Hk). injection H6 as <- <-.
  apply abind_inv in Hk as ([[]|e] & s7 & H7 & Hk); [|done].
  apply db_call_run in H7. unfold no_result in H7. apply fmap_Ok in H7 as (d & Hins & Hd). injection Hd as ->.
  assert (admin_db s' = admin_db s7) as Hend.
  { revert Hk. apply harmless_run. admin_walk. }
  simpl in Hins, H5. exists (answer s), (answer s1). eexists _, hash, _, _.
  split_and!; [done| |done..|].
  - unfold answer. by rewrite Hi1.
  - rewrite Hend. simpl in *. rewrite <-Hins, H5, <-Hd1, <-Hd2. done.
Qed.

Lemma insert_user_found u d d' :
  insert_user u d = Ok d' → query_row (λ v, u_username v = u_username u) (users d') = Ok u.
Proof.
  unfold insert_user. case_decide as Hid; [done|]. case_decide as Hname; [done|]. intros [= <-].
  simpl. apply query_row_unique; [set_solver|done|].
  intros v. rewrite elem_of_app, list_elem_of_singleton. intros [Hv| ->]; [|done].
  intros Heq. destruct Hname. rewrite <-Heq. by apply list_elem_of_fmap_2.
Qed.


(** ** Deleted agents *)

Lemma required_ok label msg s :
  answer s ≠ EmptyString →
  ∃ out, required label msg s =
    (Next (answer s), set_stdin (split_line (stdin s)).2 (add_stdout out s)).
Proof.
  intros He. destruct (prompt_run label s) as [out Hp]. exists out. unfold required.
  rewrite (abind_next _ _ _ _ _ Hp). apply str_empty_false in He. by rewrite He.
Qed.

Lemma db_call_ok {A} (f : DB → Result (DB * A)) s d a :
  admin_faults s = [] → f (admin_db s) = Ok (d, a) →
  db_call f s = (Next (Ok a), set_admin_db d (set_admin_faults [] s)).
Proof. intros Hf Ha. unfold db_call. rewrite Hf. simpl. by rewrite Ha. Qed.

Lemma openDB_ok s : admin_faults s = [] →
  openDB s = (Next tt, set_admin_db (admin_db s) (set_admin_faults [] s)).
Proof.
  intros Hf. unfold openDB.
  by rewrite (abind_next _ _ _ _ _ (db_call_ok (no_result Ok) s (admin_db s) tt Hf eq_refl)).
Qed.

(** The tool deletes an agent without looking at what refers to
    it: when the agent of a conversation is deleted the command succeeds, the
    conversation stays, and the foreign key that the server maintains is
    violated. *)
Theorem deleteAgent_dangles s c :
  c ∈ conversations (admin_db s) → answer s = ConvAgentID c → ConvAgentID c ≠ EmptyString →
  db_ok (admin_db s) → admin_faults s = [] →
  ∃ s', deleteAgent s = (Next tt, s') ∧
    c ∈ conversations (admin_db s') ∧ ConvAgentID c ∉ a_id <$> agents (admin_db s') ∧
    ¬ db_ok (admin_db s').
Proof.
  intros Hc Hans Hne Hok Hf.
  assert (∃ a, a ∈ agents (admin_db s) ∧ a_id a = ConvAgentID c) as (a & Ha & Hid).
  { pose proof (ok_conversations_agent _ Hok) as Href. unfold refers in Href.
    rewrite Forall_forall in Href. apply Href, list_elem_of_fmap in Hc as (a & -> & Ha). eauto. }
  set (l := filter (λ a, a_id a ≠ ConvAgentID c) (agents (admin_db s))).
  assert (length l < length (agents (admin_db s)))%nat as Hlt.
  { apply (length_filter_lt _ _ a); [done|]. by intros Hn. }
  destruct (required_ok "Agent ID to delete" "Agent ID is required" s) as [out Hreq].
  { by rewrite Hans. }
  unfold deleteAgent. rewrite (abind_next _ _ _ _ _ Hreq), Hans.
  erewrite abind_next; [|apply openDB_ok; exact Hf].
  erewrite abind_next; [|apply db_call_ok; [reflexivity|reflexivity]].
  cbv beta iota. simpl. fold l. rewrite decide_False by lia.
  eexists. split; [reflexivity|]. simpl.
  assert (ConvAgentID c ∉ a_id <$> l) as Hnot.
  { intros (a' & Heq & Ha')%list_elem_of_fmap. apply list_elem_of_filter in Ha' as [Hn _]. by destruct Hn. }
  split_and!; [done|exact Hnot|]. intros Hok'. pose proof (ok_conversations_agent _ Hok') as Href.
  unfold refers in Href. rewrite Forall_forall in Href. by apply Hnot, Href.
Qed.
End properties.

(** ** The theorems on a concrete server *)

#[local] Existing Instance demo_env.

Definition typed (lines : list string) : Admin :=
  mkAdmin demo_db (String.concat EmptyString ((λ l, l +:+ newline) <$> lines)) EmptyString EmptyString
    0 ["5eed"] [].

Definition demo_login : Request :=
  demo_request MethodPost "/auth/login" [] [] [("username", "eve"); ("password", "secret")].


Lemma deleteAgent_dangles_witness :
  let s := typed ["a1"] in
  let c := mkConversation "c1" "u1" "a1" 0 in
  c ∈ conversations (admin_db s) ∧ db_ok (admin_db s) ∧
  ∃ s', deleteAgent s = (Next tt, s') ∧
    c ∈ conversations (admin_db s') ∧ ConvAgentID c ∉ a_id <$> agents (admin_db s') ∧
    ¬ db_ok (admin_db s').
Proof.
  split; [left|]. split; [exact demo_db_ok|].
  apply (deleteAgent_dangles (typed ["a1"]) (mkConversation "c1" "u1" "a1" 0));
    [left|vm_compute; reflexivity|discriminate|exact demo_db_ok|reflexivity].
Defined.
