(* ===== verification/Duration.v ===== *)
(** * [time.ParseDuration] on 64-bit integers

    The durations an operator writes in the environment ("30s", "1h30m",
    "1.5s").  The accumulator is an unsigned 64-bit integer that wraps, the
    fraction is computed in binary64, as the Standard Library of Go does; the
    errors carry no information the server looks at. *)

From S2P Require Import Prelude GoLib.
From Stdlib Require Import Ascii SpecFloat.

Definition wrapu64 (z : Z) : Z := z `mod` 2 ^ 64.

Lemma wrapu64_range z : 0 ≤ wrapu64 z < 2 ^ 64.
Proof. apply Z.mod_pos_bound. lia. Qed.

Definition duration_error {A} : Result A := Err (ErrText "time: invalid duration").

(** ** Numbers *)

(** [leadingInt]: the digits at the front, or [None] when the value is above 2^63. *)
Fixpoint leadingInt (s : string) (x : Z) : option (Z * string) :=
  match s with
  | String c t =>
      match digit_of c with
      | Some d =>
          if decide (2 ^ 63 / 10 < x) then None
          else if decide (2 ^ 63 < x * 10 + d) then None
          else leadingInt t (x * 10 + d)
      | None => Some (x, s)
      end
  | EmptyString => Some (x, s)
  end.

(** binary64: the nearest number to an integer, the product, the quotient, and
    truncation to an unsigned integer. *)
Definition f64 (z : Z) : spec_float := binary_normalize 53 1024 z 0 false.
Definition f64_mul : spec_float → spec_float → spec_float := SFmul 53 1024.
Definition f64_div : spec_float → spec_float → spec_float := SFdiv 53 1024.

Definition f64_trunc (x : spec_float) : Z :=
  match x with
  | S754_finite false m e => wrapu64 (Z.shiftl (Zpos m) e)
  | _ => 0
  end.

(** [leadingFraction]: digits that no longer fit are skipped. *)
Fixpoint leadingFraction (s : string) (x : Z) (scale : spec_float) (overflow : bool)
    : Z * spec_float * string :=
  match s with
  | String c t =>
      match digit_of c with
      | Some d =>
          if overflow then leadingFraction t x scale true
          else if decide ((2 ^ 63 - 1) / 10 < x) then leadingFraction t x scale true
          else if decide (2 ^ 63 < x * 10 + d) then leadingFraction t x scale true
          else leadingFraction t (x * 10 + d) (f64_mul scale (f64 10)) false
      | None => (x, scale, s)
      end
  | EmptyString => (x, scale, s)
  end.

(** ** Units *)

(** The bytes of "µs" with U+00B5 and with U+03BC. *)
Definition bytes (l : list nat) : string := String.string_of_list_ascii (ascii_of_nat <$> l).

Definition unit_of (u : string) : option Z :=
  snd <$> head (filter (λ p, p.1 = u)
    [("ns", 1); ("us", 10 ^ 3); (bytes [194; 181; 115]%nat, 10 ^ 3);
     (bytes [206; 188; 115]%nat, 10 ^ 3); ("ms", 10 ^ 6); ("s", 10 ^ 9); ("m", 60 * 10 ^ 9);
     ("h", 3600 * 10 ^ 9)]).

(** The bytes up to the next digit or period. *)
Fixpoint unit_prefix (s : string) : string * string :=
  match s with
  | String c t =>
      if bool_decide (c = dot) || bool_decide (is_Some (digit_of c)) then (EmptyString, s)
      else let '(u, rest) := unit_prefix t in (String c u, rest)
  | EmptyString => (EmptyString, EmptyString)
  end.

(** ** The elements *)

(** The number of one element: its integer part, its fraction with the scale,
    and what follows. *)
Definition element (s : string) : option (Z * Z * spec_float * string) :=
  '(v, s1) ← leadingInt s 0;
  let pre := negb (bool_decide (String.length s1 = String.length s)) in
  match s1 with
  | String "." s2 =>
      let '(f, scale, s3) := leadingFraction s2 0 (f64 1) false in
      let post := negb (bool_decide (String.length s3 = String.length s2)) in
      if pre || post then Some (v, f, scale, s3) else None
  | _ => if pre then Some (v, 0, f64 1, s1) else None
  end%char.

(** [v * unit] plus the fraction, or [None] above 2^63. *)
Definition scaled (v f : Z) (scale : spec_float) (unit : Z) : option Z :=
  if decide (2 ^ 63 / unit < v) then None else
  let v := wrapu64 (v * unit) in
  if decide (0 < f) then
    let v := wrapu64 (v + f64_trunc (f64_mul (f64 f) (f64_div (f64 unit) scale))) in
    if decide (2 ^ 63 < v) then None else Some v
  else Some v.

(** The loop; every round takes at least one byte. *)
Fixpoint elements_loop (fuel : nat) (s : string) (d : Z) : option Z :=
  if str_empty s then Some d else
  match fuel with
  | O => None
  | S fuel =>
      '(v, f, scale, s1) ← element s;
      let '(u, s2) := unit_prefix s1 in
      if str_empty u then None else
      unit ← unit_of u;
      v ← scaled v f scale unit;
      let d := wrapu64 (d + v) in
      if decide (2 ^ 63 < d) then None else elements_loop fuel s2 d
  end.

Definition ParseDuration (orig : string) : Result Z :=
  let '(neg, s) :=
    match orig with
    | String "-" t => (true, t)
    | String "+" t => (false, t)
    | _ => (false, orig)
    end%char in
  if bool_decide (s = "0") then Ok 0 else
  if str_empty s then duration_error else
  match elements_loop (String.length s) s 0 with
  | None => duration_error
  | Some d =>
      if neg : bool then Ok (wrap64 (- wrap64 d))
      else if decide (2 ^ 63 - 1 < d) then duration_error
      else Ok d
  end.

Example ParseDuration_ex :
  ParseDuration "30s" = Ok (30 * Second) ∧ ParseDuration "1h30m" = Ok (90 * Minute) ∧
  ParseDuration "1.5h" = Ok (90 * Minute) ∧ ParseDuration "-.5s" = Ok (- 500000000) ∧
  ParseDuration "30" = duration_error ∧ ParseDuration "s" = duration_error ∧
  ParseDuration "9223372036854775807ns" = Ok max_int64 ∧
  ParseDuration "9223372036854775808ns" = duration_error ∧
  ParseDuration "0.000000001s" = Ok 1 ∧ ParseDuration "0.3ns" = Ok 0.
Proof. split_and!; vm_compute; reflexivity. Qed.

(** ** Termination and range *)

Lemma leadingInt_length s x v t :
  leadingInt s x = Some (v, t) → (String.length t ≤ String.length s)%nat.
Proof.
  revert x. induction s as [|c s IH]; intros x; simpl; [by intros [= <- <-]|].
  destruct (digit_of c); [|by intros [= <- <-]].
  do 2 (case_decide; [done|]). intros Ht%IH. lia.
Qed.

Lemma leadingFraction_length s x scale o f scale' t :
  leadingFraction s x scale o = (f, scale', t) → (String.length t ≤ String.length s)%nat.
Proof.
  revert x scale o. induction s as [|c s IH]; intros x scale o; simpl; [by intros [= <- <- <-]|].
  destruct (digit_of c); [|by intros [= <- <- <-]].
  destruct o; [intros Ht%IH; lia|]. do 2 (case_decide; [intros Ht%IH; lia|]). intros Ht%IH. lia.
Qed.

Lemma unit_prefix_length s u t :
  unit_prefix s = (u, t) → (String.length t ≤ String.length s)%nat.
Proof.
  revert u. induction s as [|c s IH]; intros u; simpl; [by intros [= <- <-]|].
  destruct (_ || _); [by intros [= <- <-]|].
  destruct (unit_prefix s) as [u' t'] eqn:Hu. intros [= <- <-]. specialize (IH _ eq_refl). lia.
Qed.

(** An element has at least one digit. *)
Lemma element_length s v f scale t :
  element s = Some (v, f, scale, t) → (String.length t < String.length s)%nat.
Proof.
  unfold element. intros ([v1 s1] & Hi & He)%bind_Some. apply leadingInt_length in Hi.
  assert (∀ (b : bool) x, (if b && negb (bool_decide (String.length s1 = String.length s))
    then Some (v1, x, f64 1, s1) else None) = Some (v, f, scale, t) →
    (String.length t < String.length s)%nat) as Hpre.
  { intros b x. case_bool_decide; rewrite ?andb_false_r; simpl; [done|].
    rewrite andb_true_r. destruct b; [|done]. intros [= <- <- <- <-]. lia. }
  destruct s1 as [|c s2]; [by apply (Hpre true 0)|].
  destruct (decide (c = dot)) as [->|Hc].
  - destruct (leadingFraction s2 0 (f64 1) false) as [[f' scale'] s3] eqn:Hf.
    apply leadingFraction_length in Hf. simpl in *.
    destruct (_ || _); [|done]. injection He as <- <- <- <-. lia.
  - assert (∀ A (x y : A), match c with "."%char => x | _ => y end = y) as Hm.
    { intros A x y. destruct c as [[] [] [] [] [] [] [] []]; try done. }
    rewrite Hm in He. by apply (Hpre true 0).
Qed.

Lemma elements_fuel n m s d :
  (String.length s ≤ n)%nat → (String.length s ≤ m)%nat →
  elements_loop n s d = elements_loop m s d.
Proof.
  revert m s d. induction n as [|n IH]; intros m s d Hn Hm.
  { destruct s; [by destruct m|simpl in Hn; lia]. }
  destruct m as [|m]; [destruct s; [done|simpl in Hm; lia]|].
  cbn [elements_loop]. destruct (str_empty s); [done|].
  destruct (element s) as [[[[v f] scale] s1]|] eqn:He; [|done]. apply element_length in He.
  cbn [mbind option_bind]. destruct (unit_prefix s1) as [u s2] eqn:Hu.
  apply unit_prefix_length in Hu. destruct (str_empty u); [done|].
  destruct (unit_of u) as [unit|]; [|done]. cbn [mbind option_bind].
  destruct (scaled v f scale unit) as [v'|]; [|done]. cbn [mbind option_bind].
  case_decide; [done|]. apply IH; lia.
Qed.

Lemma elements_range fuel s d d' :
  0 ≤ d ≤ 2 ^ 63 → elements_loop fuel s d = Some d' → 0 ≤ d' ≤ 2 ^ 63.
Proof.
  revert s d. induction fuel as [|fuel IH]; intros s d Hd; cbn [elements_loop];
    (destruct (str_empty s); [by intros [= <-]|]); [done|].
  intros ([[[v f] scale] s1] & _ & He)%bind_Some.
  destruct (unit_prefix s1) as [u s2]. destruct (str_empty u); [done|].
  apply bind_Some in He as (unit & _ & (v' & _ & He)%bind_Some).
  case_decide; [done|]. eapply IH; [|exact He].
  pose proof (wrapu64_range (d + v')). lia.
Qed.

Lemma ParseDuration_range s :
  match ParseDuration s with Ok d => int64_range d | Err _ => True end.
Proof.
  unfold ParseDuration.
  destruct (match s with String "-" _ => _ | _ => _ end) as [neg t]. cbn beta iota zeta.
  case_bool_decide; [by split|]. destruct (str_empty t); [done|].
  destruct (elements_loop (String.length t) t 0) as [d|] eqn:He; [|done].
  apply elements_range in He; [|lia]. destruct neg; [apply wrap64_range|].
  case_decide; [done|]. unfold int64_range, min_int64, max_int64. lia.
Qed.

(** Parsing a duration terminates within one round per byte of its
    argument (more rounds change nothing), and what it returns is always a
    64-bit integer, although the accumulator wraps. *)
Theorem ParseDuration_total s :
  (∀ fuel d, (String.length s ≤ fuel)%nat →
     elements_loop fuel s d = elements_loop (String.length s) s d) ∧
  match ParseDuration s with Ok d => int64_range d | Err _ => True end.
Proof.
  split; [intros fuel d Hf; by apply elements_fuel|apply ParseDuration_range].
Qed.
