(* ===== verification/Size.v ===== *)
(** * Sizes: [strconv.ParseFloat] and [parseSize] (main.go)

    MAX_UPLOAD_SIZE is written like "50MB".  The number in front of the unit is a
    binary64, read as the Standard Library of Go reads it (decimal or hexadecimal,
    with underscores between digits), rounded to nearest even, multiplied by the
    unit and truncated to a 64-bit integer.  A conversion whose result does not fit
    is what the processor makes of it, a parameter here. *)

From S2P Require Import Prelude GoLib Duration.
From Stdlib Require Import Ascii SpecFloat.

(** ** Strings *)

(** [strings.ToUpper]: ASCII, and the two other letters whose upper case is in
    ASCII, U+0131 and U+017F; a byte of another letter stays outside ASCII. *)
Fixpoint ToUpper (s : string) : string :=
  match s with
  | EmptyString => EmptyString
  | String c t =>
      match nat_of_ascii c, t with
      | 196%nat, String d t' =>
          if decide (nat_of_ascii d = 177%nat) then String "I" (ToUpper t')
          else String c (ToUpper t)
      | 197%nat, String d t' =>
          if decide (nat_of_ascii d = 191%nat) then String "S" (ToUpper t')
          else String c (ToUpper t)
      | _, _ => String (upper_ascii c) (ToUpper t)
      end
  end.

Definition TrimSuffix (s suf : string) : string :=
  if HasSuffix s suf then take_str (String.length s - String.length suf) s else s.

(** ** [strconv.ParseFloat(s, 64)] *)

(** [c | 0x20], how the reader of numbers compares letters. *)
Definition lower_bit (c : ascii) : nat := Z.to_nat (Z.lor (Z.of_nat (nat_of_ascii c)) 32).

Definition hex_of (c : ascii) : option Z :=
  match digit_of c with
  | Some d => Some d
  | None =>
      let n := lower_bit c in
      if decide (97 ≤ n ∧ n ≤ 102)%nat then Some (Z.of_nat n - 87) else None
  end.

Definition digit_in (hex : bool) : ascii → option Z := if hex then hex_of else digit_of.
Definition base_of (hex : bool) : Z := if hex then 16 else 10.

Definition underscore : ascii := ascii_of_nat 95.

(** [underscoreOK]: an underscore stands between two digits, or after the prefix.
    [saw] is the kind of the last character. *)
Inductive saw := SawStart | SawDigit | SawUnderscore | SawOther.

Fixpoint underscores_from (hex : bool) (s : string) (last : saw) : bool :=
  match s with
  | EmptyString => match last with SawUnderscore => false | _ => true end
  | String c t =>
      match digit_in hex c with
      | Some _ => underscores_from hex t SawDigit
      | None =>
          if decide (c = underscore) then
            match last with SawDigit => underscores_from hex t SawUnderscore | _ => false end
          else
            match last with SawUnderscore => false | _ => underscores_from hex t SawOther end
      end
  end.

Definition strip_sign (s : string) : bool * string :=
  match s with
  | String "-" t => (true, t)
  | String "+" t => (false, t)
  | _ => (false, s)
  end%char.

Definition underscoreOK (s : string) : bool :=
  let s := (strip_sign s).2 in
  match s with
  | String "0" (String c t) =>
      let n := lower_bit c in
      if decide (n = 98 ∨ n = 111 ∨ n = 120)%nat
      then underscores_from (bool_decide (n = 120%nat)) t SawDigit
      else underscores_from false s SawStart
  | _ => underscores_from false s SawStart
  end%char.

(** The digits of [readFloat]: all of them as one integer, the power of the base
    it is divided by, and whether there was a period, a digit, an underscore. *)
Record Digits := mkDigits {
  mant : Z; frac : Z; sawdot : bool; sawdigits : bool; underscores : bool }.

Fixpoint read_digits (hex : bool) (s : string) (d : Digits) : Digits * string :=
  match s with
  | EmptyString => (d, s)
  | String c t =>
      if decide (c = underscore) then
        read_digits hex t (mkDigits (mant d) (frac d) (sawdot d) (sawdigits d) true)
      else if decide (c = dot) then
        if sawdot d then (d, s)
        else read_digits hex t (mkDigits (mant d) (frac d) true (sawdigits d) (underscores d))
      else
        match digit_in hex c with
        | Some x =>
            read_digits hex t (mkDigits (mant d * base_of hex + x)
              (if sawdot d then frac d + 1 else frac d) (sawdot d) true (underscores d))
        | None => (d, s)
        end
  end.

(** The digits of the exponent stop adding up at five. *)
Fixpoint read_exponent (s : string) (e : Z) (us : bool) : Z * bool * string :=
  match s with
  | EmptyString => (e, us, s)
  | String c t =>
      if decide (c = underscore) then read_exponent t e true else
      match digit_of c with
      | Some x => read_exponent t (if decide (e < 10000) then e * 10 + x else e) us
      | None => (e, us, s)
      end
  end.

(** What [readFloat] finds, the number [mant * base^(- frac) * b^exp] where [b] is
    10, or 2 in hexadecimal, where the exponent is obligatory. *)
Record Number := mkNumber { neg : bool; is_hex : bool; digits_of : Digits; exp : Z }.

Definition hex_prefix (s : string) : bool * string :=
  match s with
  | String z (String c (String c' t)) =>
      if decide (nat_of_ascii z = 48%nat ∧ lower_bit c = 120%nat) then (true, String c' t)
      else (false, s)
  | _ => (false, s)
  end.

Definition readFloat (s : string) : option Number :=
  let '(neg, s1) := strip_sign s in
  let '(hex, s2) := hex_prefix s1 in
  let '(d, s3) := read_digits hex s2 (mkDigits 0 0 false false false) in
  if negb (sawdigits d) then None else
  let finish (e : Z) (us : bool) (rest : string) :=
    if negb (str_empty rest) then None
    else if (underscores d || us) && negb (underscoreOK s) then None
    else Some (mkNumber neg hex d e) in
  match s3 with
  | EmptyString => if hex : bool then None else finish 0 false EmptyString
  | String c s4 =>
      if decide (lower_bit c = if hex : bool then 112 else 101)%nat then
        let '(eneg, s5) := strip_sign s4 in
        match s5 with
        | String c' _ =>
            if decide (is_Some (digit_of c')) then
              let '(e, us, rest) := read_exponent s5 0 false in
              finish (if eneg : bool then - e else e) us rest
            else None
        | EmptyString => None
        end
      else None
  end.

(** The nearest binary64. *)
Definition pos_ratio (n d : positive) : spec_float :=
  SFdiv 53 1024 (S754_finite false n 0) (S754_finite false d 0).

Definition to_f64 (x : Number) : spec_float :=
  let d := digits_of x in
  let r :=
    match mant d with
    | Zpos m =>
        if is_hex x then binary_normalize 53 1024 (Zpos m) (exp x - 4 * frac d) false
        else
          let e := exp x - frac d in
          if decide (0 ≤ e) then binary_normalize 53 1024 (Zpos m * 10 ^ e) 0 false
          else pos_ratio m (Z.to_pos (10 ^ (- e)))
    | _ => S754_zero false
    end in
  if neg x then SFopp r else r.

(** "inf", "infinity" and "nan" in any case; no sign before "nan". *)
Definition special (s : string) : option spec_float :=
  let '(neg, t) := strip_sign s in
  let t := ToLower t in
  if bool_decide (t = "inf") || bool_decide (t = "infinity") then Some (S754_infinity neg)
  else if bool_decide (ToLower s = "nan") then Some S754_nan
  else None.

(** A number that rounds to an infinity is out of range. *)
Definition ParseFloat (s : string) : Result spec_float :=
  match special s with
  | Some x => Ok x
  | None =>
      match readFloat s with
      | None => Err (ErrText "invalid syntax")
      | Some n =>
          match to_f64 n with
          | S754_infinity _ => Err (ErrText "value out of range")
          | x => Ok x
          end
      end
  end.

Example ParseFloat_ex :
  ParseFloat "1.5" = Ok (f64_div (f64 3) (f64 2)) ∧
  ParseFloat "0.1" = Ok (S754_finite false 7205759403792794 (-56)) ∧
  ParseFloat "-1_000e-3" = Ok (SFopp (f64 1)) ∧ ParseFloat "0x1.8p1" = Ok (f64 3) ∧
  ParseFloat "1__0" = Err (ErrText "invalid syntax") ∧
  ParseFloat "." = Err (ErrText "invalid syntax") ∧
  ParseFloat "1e" = Err (ErrText "invalid syntax") ∧
  ParseFloat "1e400" = Err (ErrText "value out of range") ∧
  ParseFloat "1e-400" = Ok (S754_zero false) ∧
  ParseFloat "4.9e-324" = Ok (S754_finite false 1 (-1074)) ∧
  ParseFloat "-Inf" = Ok (S754_infinity true).
Proof. split_and!; vm_compute; reflexivity. Qed.

(** ** [parseSize] *)

Section size.
(** [int64(f)] where the integral part of [f] is not a 64-bit integer, or [f] is
    an infinity or no number. *)
Variable int64_overflow : spec_float → Z.

(** [int64(f)] cuts the fraction off. *)
Definition f64_to_int64 (x : spec_float) : Z :=
  match x with
  | S754_zero _ => 0
  | S754_finite s m e =>
      let z := Z.shiftl (Zpos m) e in
      let z := if s : bool then - z else z in
      if decide (int64_range z) then z else int64_overflow x
  | _ => int64_overflow x
  end.

Definition multipliers : list (string * Z) :=
  [("TB", 2 ^ 40); ("GB", 2 ^ 30); ("MB", 2 ^ 20); ("KB", 2 ^ 10); ("B", 1)].

Definition parseSize (s : string) : Result Z :=
  let s := TrimSpace s in
  if str_empty s then Err (ErrText "empty size") else
  let upper := ToUpper s in
  match ParseInt s with
  | Ok v => Ok v
  | Err _ =>
      match head (filter (λ m, HasSuffix upper m.1 = true) multipliers) with
      | Some (suffix, mult) =>
          match ParseFloat (TrimSpace (TrimSuffix upper suffix)) with
          | Err _ => Err (ErrText ("invalid size: " +:+ s))
          | Ok v => Ok (f64_to_int64 (f64_mul v (f64 mult)))
          end
      | None => Err (ErrText ("invalid size format: " +:+ s +:+ " (use B, KB, MB, GB, TB)"))
      end
  end.

Example parseSize_ex :
  parseSize "50MB" = Ok 52428800 ∧ parseSize " 1.5 gb " = Ok 1610612736 ∧
  parseSize "1024" = Ok 1024 ∧ parseSize "0.3B" = Ok 0 ∧ parseSize "-5MB" = Ok (-5242880) ∧
  parseSize "1e3kb" = Ok 1024000 ∧ parseSize "0x1p4B" = Ok 16 ∧
  parseSize "100M" = Err (ErrText "invalid size format: 100M (use B, KB, MB, GB, TB)") ∧
  parseSize "MB" = Err (ErrText "invalid size: MB") ∧
  parseSize "99999999999999999999" =
    Err (ErrText "invalid size format: 99999999999999999999 (use B, KB, MB, GB, TB)").
Proof. split_and!; vm_compute; reflexivity. Qed.

Variable Getenv : string → string.

(** [MaxUploadSize] and what the environment makes of it. *)
Definition MaxUploadSize : Z := Z.shiftl 50 20.

Definition max_upload_size : Z :=
  let v := Getenv "MAX_UPLOAD_SIZE" in
  if str_empty v then MaxUploadSize else
  match parseSize v with Ok size => size | Err _ => MaxUploadSize end.

(** The largest frame a socket accepts. *)
Definition defaultMaxMessageSize : Z := 65536.

Definition maxMessageSize : Z :=
  let v := Getenv "MAX_WS_MESSAGE_SIZE" in
  if str_empty v then defaultMaxMessageSize else
  match ParseInt v with
  | Ok n => if decide (0 < n) then n else defaultMaxMessageSize
  | Err _ => defaultMaxMessageSize
  end.
End size.
