(* ===== verification/SizeProps.v ===== *)
(** * Sizes: exact arithmetic on binary64 and the correctness of [parseSize] *)

From S2P Require Import Prelude GoLib Numerals Duration Size.
From Stdlib Require Import Ascii SpecFloat.

(** ** Exact results of binary64 *)

Lemma digits2_log2 m : Zpos (digits2_pos m) = Z.log2 (Zpos m) + 1.
Proof.
  induction m as [m IH|m IH|]; [..|done]; cbn [digits2_pos]; rewrite Pos2Z.inj_succ, IH.
  - rewrite Pos2Z.inj_xI. rewrite Z.log2_succ_double by lia. lia.
  - rewrite Pos2Z.inj_xO. rewrite Z.log2_double by lia. lia.
Qed.

Lemma iter_pos_iter {A} (f : A → A) p x : iter_pos f p x = Pos.iter f x p.
Proof.
  revert x. induction p as [p IH|p IH|]; intros x; simpl; rewrite ?IH; [|done..].
  by rewrite !Pos.iter_swap.
Qed.

(** Shifting a multiple of the power of two loses nothing. *)
Lemma shr_exact p m e :
  shr {| shr_m := Zpos m * 2 ^ Zpos p; shr_r := false; shr_s := false |} e (Zpos p) =
  ({| shr_m := Zpos m; shr_r := false; shr_s := false |}, e + Zpos p).
Proof.
  unfold shr. f_equal. rewrite iter_pos_iter.
  revert m. induction p as [|p IH] using Pos.peano_ind; intros m.
  - rewrite Z.pow_1_r, Z.mul_comm. done.
  - rewrite Pos2Z.inj_succ, Z.pow_succ_r, Z.mul_assoc by lia.
    rewrite Pos.iter_succ, (Z.mul_comm (Zpos m)). change (2 * Zpos m) with (Zpos m~0).
    by rewrite IH.
Qed.

Abbreviation fexp64 := (fexp 53 1024).

Lemma shiftl_pow m a b : 0 ≤ a → 0 ≤ a + b → Z.shiftl (m * 2 ^ a) b = m * 2 ^ (a + b).
Proof.
  intros Ha Hb. rewrite <- Z.shiftl_mul_pow2, Z.shiftl_shiftl by done.
  by apply Z.shiftl_mul_pow2.
Qed.

Lemma mul_pow_pos m j : 0 ≤ j → ∃ q, Zpos m * 2 ^ j = Zpos q ∧ Z.log2 (Zpos q) = Z.log2 (Zpos m) + j.
Proof.
  intros Hj. assert (0 < Zpos m * 2 ^ j) as Hp by nia.
  destruct (Zpos m * 2 ^ j) as [|q|q] eqn:Hq; [lia| |lia].
  exists q. split; [done|]. rewrite <- Hq. rewrite Z.log2_mul_pow2 by lia. lia.
Qed.

(** A product or an aligned integer of at most 53 significant bits, within range,
    is not rounded. *)
Lemma round_exact sx m j e :
  let l := Z.log2 (Zpos m) in
  l < 53 ≤ l + 1 + j → 0 ≤ j → 0 ≤ l + j + e < 1023 →
  ∃ q, binary_round_aux 53 1024 sx (Zpos m * 2 ^ j) e loc_Exact =
      S754_finite sx q (l + j + e - 52) ∧
    Zpos q = Zpos m * 2 ^ (52 - l).
Proof.
  intros l [Hm Hd] Hj He. pose proof (Z.log2_nonneg (Zpos m)) as Hl0. fold l in Hl0.
  assert (Hfexp : ∀ x, 1 ≤ x → fexp64 x = x - 53) by (intros; unfold fexp, emin; lia).
  set (n := l + j - 52).
  destruct (mul_pow_pos m (j - n)) as (q & Hq & Hlq); [lia|]. fold l in Hlq.
  exists q. split; [|rewrite <- Hq; f_equal; f_equal; lia].
  assert (Hlog : ∀ z, Zdigits2 (Zpos z) = Z.log2 (Zpos z) + 1) by apply digits2_log2.
  assert (shr_fexp 53 1024 (Zpos m * 2 ^ j) e loc_Exact =
    ({| shr_m := Zpos q; shr_r := false; shr_s := false |}, e + n)) as H1.
  { destruct (mul_pow_pos m j Hj) as (r & Hr & Hlr). unfold shr_fexp. rewrite Hr, Hlog, Hlr.
    fold l. rewrite Hfexp by lia. replace (l + j + 1 + e - 53 - e) with n by lia.
    simpl shr_record_of_loc. destruct n as [|p|p] eqn:Hn; [|..|lia].
    - simpl. rewrite Z.sub_0_r in Hq. rewrite <- Hr, Hq. f_equal. lia.
    - rewrite <- Hr. replace (Zpos m * 2 ^ j) with (Zpos q * 2 ^ Zpos p); [apply shr_exact|].
      rewrite <- Hq, <- Z.mul_assoc, <- Z.pow_add_r by lia. f_equal. f_equal. lia. }
  unfold binary_round_aux. rewrite H1. cbn [shr_m loc_of_shr_record round_nearest_even].
  unfold shr_fexp. rewrite Hlog, Hfexp by lia.
  replace (Z.log2 (Zpos q) + 1 + (e + n) - 53 - (e + n)) with 0 by lia. simpl.
  rewrite (proj2 (Z.leb_le _ _)) by lia. f_equal. lia.
Qed.

Lemma iter_xO m d : Zpos (Pos.iter xO m d) = Zpos m * 2 ^ Zpos d.
Proof.
  induction d as [|d IH] using Pos.peano_ind; [rewrite Z.pow_1_r; simpl; lia|].
  rewrite Pos.iter_succ, Pos2Z.inj_xO, IH, Pos2Z.inj_succ, Z.pow_succ_r by lia. lia.
Qed.

(** The integers below 2^53 are binary64 numbers ... *)
Lemma f64_exact p : let l := Z.log2 (Zpos p) in
  l < 53 → ∃ q, f64 (Zpos p) = S754_finite false q (l - 52) ∧ Zpos q = Zpos p * 2 ^ (52 - l).
Proof.
  intros l Hl. pose proof (Z.log2_nonneg (Zpos p)) as Hl0. fold l in Hl0.
  unfold f64. cbn [binary_normalize]. unfold binary_round. rewrite digits2_log2, Z.add_0_r.
  fold l. replace (fexp64 (l + 1)) with (l - 52) by (unfold fexp, emin; lia).
  assert ((let '(mz, ez) := shl_align p 0 (l - 52) in (Zpos mz, ez)) =
    (Zpos p * 2 ^ (52 - l), l - 52)) as Ha.
  { unfold shl_align. rewrite Z.sub_0_r. destruct (l - 52) as [|d|d] eqn:Hd; [|lia|].
    - replace (52 - l) with 0 by lia. f_equal. lia.
    - rewrite iter_xO. replace (52 - l) with (Zpos d) by lia. done. }
  destruct (shl_align p 0 (l - 52)) as [mz ez]. injection Ha as -> ->.
  destruct (round_exact false p (52 - l) (l - 52)) as (q & Hq & Hv); fold l; [lia|lia|lia|].
  fold l in Hq, Hv. exists q. split; [|done]. rewrite Hq. f_equal. lia.
Qed.

(** ... and so are their products with the powers of two of the units. *)
Lemma f64_mul_pow2 p t : 0 ≤ t ≤ 52 → Z.log2 (Zpos p) < 53 →
  ∃ q e, f64_mul (f64 (Zpos p)) (f64 (2 ^ t)) = S754_finite false q e ∧
    Z.shiftl (Zpos q) e = Zpos p * 2 ^ t.
Proof.
  intros Ht Hp. destruct (f64_exact p Hp) as (q & -> & Hq).
  set (l := Z.log2 (Zpos p)) in *. pose proof (Z.log2_nonneg (Zpos p)) as Hl0. fold l in Hl0.
  destruct (2 ^ t) as [|r|r] eqn:Hr; [lia| |lia].
  assert (Z.log2 (Zpos r) = t) as Hlr by (rewrite <- Hr; apply Z.log2_pow2; lia).
  destruct (f64_exact r) as (q' & -> & Hq'); [lia|].
  unfold f64_mul, SFmul. rewrite Pos2Z.inj_mul, Hq, Hq', Hlr, <- Hr.
  replace (Zpos p * 2 ^ (52 - l) * (2 ^ t * 2 ^ (52 - t))) with (Zpos p * 2 ^ (104 - l))
    by (rewrite <- !Z.mul_assoc, <- !Z.pow_add_r by lia; f_equal; f_equal; lia).
  destruct (round_exact (xorb false false) p (104 - l) (l - 52 + (t - 52))) as (q2 & H2 & Hv2);
    fold l; [lia|lia|lia|]. fold l in H2, Hv2.
  eexists q2, _. split; [exact H2|]. rewrite Hv2, shiftl_pow by lia. f_equal. f_equal. lia.
Qed.

(** ** Strings that start with a digit and end with a letter *)

(** A byte at which no encoding of a space starts or ends. *)
Definition solid (c : ascii) : Prop := (33 ≤ nat_of_ascii c ≤ 127)%nat.

Lemma trim_solid seqs fuel l c :
  Forall (λ p, ∃ y, head p = Some y ∧ (y < 33 ∨ 127 < y)%nat) seqs →
  head l = Some (nat_of_ascii c) → solid c → trim_with seqs fuel l = l.
Proof.
  intros Hs Hl Hc. destruct l as [|x l]; [done|]. injection Hl as ->.
  destruct fuel as [|fuel]; [done|]. simpl.
  assert (omap (λ p, strip_prefix p (nat_of_ascii c :: l)) seqs = []) as ->; [|done].
  induction Hs as [|p seqs (y & Hp & Hy) _ IH]; [done|]. destruct p as [|z p]; [done|].
  injection Hp as ->. simpl. unfold solid in Hc. rewrite decide_False by lia. exact IH.
Qed.

Lemma head_map {A B} (f : A → B) l : head (f <$> l) = f <$> head l.
Proof. by destruct l. Qed.

Ltac solve_encodings :=
  repeat (apply List.Forall_cons; [eexists; split; [reflexivity|lia]|]); apply List.Forall_nil.

Lemma TrimSpace_solid s c d :
  head (chars s) = Some c → last (chars s) = Some d → solid c → solid d → TrimSpace s = s.
Proof.
  intros Hc Hd Hsc Hsd. unfold TrimSpace. fold (chars s).
  rewrite (trim_solid space_encodings _ _ c); [|by solve_encodings|by rewrite head_map, Hc|done].
  rewrite (trim_solid (reverse <$> space_encodings) _ _ d); [|by solve_encodings| |done].
  - rewrite reverse_involutive, <- list_fmap_compose.
    rewrite (list_fmap_ext (ascii_of_nat ∘ nat_of_ascii) id), list_fmap_id.
    + apply String.string_of_list_ascii_of_string.
    + intros i x _. apply ascii_nat_embedding.
  - rewrite <- fmap_reverse, head_map, head_reverse, Hd. done.
Qed.

Lemma digits_solid s : digits s → Forall solid (chars s).
Proof. intros Hs. eapply Forall_impl; [exact Hs|]. unfold solid. simpl. lia. Qed.

Lemma chars_inj s t : chars s = chars t → s = t.
Proof.
  intros Hs. rewrite <- (String.string_of_list_ascii_of_string s).
  rewrite <- (String.string_of_list_ascii_of_string t). by f_equal.
Qed.

Lemma ToUpper_ascii s :
  Forall (λ c, nat_of_ascii c < 128)%nat (chars s) → chars (ToUpper s) = upper_ascii <$> chars s.
Proof.
  unfold chars. induction s as [|c s IH]; simpl; [done|]. intros [Hc Hs]%Forall_cons.
  assert (ToUpper (String c s) = String (upper_ascii c) (ToUpper s)) as Hu.
  { simpl. destruct c as [[] [] [] [] [] [] [] []]; vm_compute in Hc; try lia; reflexivity. }
  simpl in Hu. rewrite Hu. simpl. by rewrite (IH Hs).
Qed.

Lemma upper_digit c : is_digit c → upper_ascii c = c.
Proof. intros Hc. unfold upper_ascii, is_digit in *. by rewrite decide_False by lia. Qed.

Lemma HasSuffix_len s t u :
  String.length t = String.length u → HasSuffix (s +:+ t) u = bool_decide (t = u).
Proof.
  intros Hl. unfold HasSuffix. rewrite str_app_length, <- Hl.
  replace (String.length s + String.length t - String.length t)%nat with (String.length s) by lia.
  by rewrite drop_str_app.
Qed.

Lemma TrimSuffix_app s t : TrimSuffix (s +:+ t) t = s.
Proof.
  unfold TrimSuffix. rewrite HasSuffix_len, bool_decide_true by done. rewrite str_app_length.
  replace (String.length s + String.length t - String.length t)%nat with (String.length s) by lia.
  apply take_str_app.
Qed.

(** ** Whole numbers *)

Lemma digit_of_digit c d : digit_of c = Some d → is_digit c ∧ c ≠ underscore ∧ c ≠ dot.
Proof.
  unfold digit_of, is_digit. case_decide as Hc; [|done]. intros _.
  split; [done|split; intros ->; vm_compute in Hc; lia].
Qed.

Lemma read_digits_whole s v acc b :
  digits_val s acc = Some v →
  read_digits false s (mkDigits acc 0 false b false) =
    (mkDigits v 0 false (b || negb (str_empty s)) false, EmptyString).
Proof.
  revert acc b. induction s as [|c s IH]; intros acc b; simpl.
  { intros [= ->]. by rewrite orb_false_r. }
  intros (d & Hd & Hv)%bind_Some. pose proof (digit_of_digit c d Hd) as (_ & Hu & Hdot).
  rewrite !decide_False by done. cbn [digit_in base_of mant frac sawdot underscores].
  rewrite Hd, Z.mul_comm, (IH _ true Hv), orb_true_r. done.
Qed.

Lemma readFloat_whole c s v :
  digits (String c s) → digits_val (String c s) 0 = Some v →
  readFloat (String c s) = Some (mkNumber false false (mkDigits v 0 false true false) 0).
Proof.
  intros [Hc Hs]%Forall_cons Hv.
  assert (strip_sign (String c s) = (false, String c s)) as Hsign.
  { unfold is_digit in Hc. destruct c as [[] [] [] [] [] [] [] []]; try reflexivity; vm_compute in Hc; lia. }
  unfold readFloat. rewrite Hsign. cbn beta iota.
  assert (hex_prefix (String c s) = (false, String c s)) as ->.
  { destruct s as [|d [|e s]]; try done. apply Forall_cons in Hs as [Hd _]. unfold hex_prefix.
    rewrite decide_False; [done|]. intros [_ Hx]. revert Hx Hd. clear. unfold lower_bit.
    destruct d as [[] [] [] [] [] [] [] []]; vm_compute; intros; lia. }
  rewrite (read_digits_whole _ _ _ _ Hv). reflexivity.
Qed.

Lemma special_digit c s : is_digit c → special (String c s) = None.
Proof.
  unfold is_digit. intros Hc.
  destruct c as [[] [] [] [] [] [] [] []]; try reflexivity; vm_compute in Hc; lia.
Qed.

Lemma f64_whole n : 0 ≤ n < 2 ^ 53 → ∀ s, f64 n ≠ S754_infinity s.
Proof.
  intros Hn s. destruct n as [|p|p]; [done| |lia].
  destruct (f64_exact p) as (q & -> & _); [|done]. apply Z.log2_lt_pow2; lia.
Qed.

Lemma ParseFloat_whole c s n :
  digits (String c s) → digits_val (String c s) 0 = Some n → 0 ≤ n < 2 ^ 53 →
  ParseFloat (String c s) = Ok (f64 n).
Proof.
  intros Hd Hv Hn. unfold ParseFloat.
  rewrite special_digit, (readFloat_whole _ _ _ Hd Hv) by (by apply Forall_cons in Hd as [? _]).
  assert (to_f64 (mkNumber false false (mkDigits n 0 false true false) 0) = f64 n) as ->.
  { unfold to_f64. destruct n as [|p|p]; [done| |lia]. simpl. by rewrite Pos.mul_1_r. }
  pose proof (f64_whole n Hn) as Hf. destruct (f64 n); try done. by destruct (Hf s0).
Qed.

(** [u] is [suffix] in any case. *)
Definition spells (u suffix : string) : Prop := upper_ascii <$> chars u = chars suffix.

Definition letter (c : ascii) : Prop := (65 ≤ nat_of_ascii c ≤ 90)%nat.

Lemma upper_letter c : letter (upper_ascii c) → solid c ∧ ¬ is_digit c ∧ (nat_of_ascii c < 128)%nat.
Proof.
  unfold letter, solid, is_digit, upper_ascii. case_decide as Hc; [|lia]. intros _. lia.
Qed.

Lemma multipliers_letters suffix mult :
  (suffix, mult) ∈ multipliers → Forall letter (chars suffix) ∧ suffix ≠ EmptyString.
Proof.
  unfold multipliers. rewrite !elem_of_cons, elem_of_nil.
  intros Hin. destruct_or! Hin; simplify_eq; (split; [|done]);
    repeat (apply List.Forall_cons; [vm_compute; lia|]); by apply List.Forall_nil.
Qed.

Lemma multipliers_pow2 suffix mult :
  (suffix, mult) ∈ multipliers → ∃ t, 0 ≤ t ≤ 52 ∧ mult = 2 ^ t.
Proof.
  unfold multipliers. rewrite !elem_of_cons, elem_of_nil.
  intros Hin. destruct_or! Hin; simplify_eq;
    [exists 40|exists 30|exists 20|exists 10|exists 0]; split; [lia|done|lia|done|lia|done|lia|done|lia|done].
Qed.

(** A numeral followed by the unit in any case. *)
Section spelled.
Variables (n : Z) (u suffix : string) (mult : Z).
Hypotheses (Hn : 0 ≤ n < 2 ^ 53) (Hm : (suffix, mult) ∈ multipliers) (Hu : spells u suffix).

Lemma numeral_cons :
  ∃ c s, FormatInt n = String c s ∧ digits (String c s) ∧ digits_val (String c s) 0 = Some n.
Proof.
  destruct (FormatInt_digits n ltac:(lia)) as [Hd Hv].
  destruct (FormatInt n) as [|c s] eqn:Hf; [|eauto].
  exfalso. simpl in Hv. injection Hv as Hv. rewrite <- Hv in Hf. vm_compute in Hf. discriminate.
Qed.

Lemma unit_letters : Forall (λ c, solid c ∧ ¬ is_digit c ∧ (nat_of_ascii c < 128)%nat) (chars u).
Proof.
  destruct (multipliers_letters _ _ Hm) as [Hl _]. rewrite <- Hu in Hl.
  rewrite Forall_fmap in Hl. eapply Forall_impl; [exact Hl|]. intros c. apply upper_letter.
Qed.

Lemma unit_not_empty : u ≠ EmptyString.
Proof.
  destruct (multipliers_letters _ _ Hm) as [_ Hne]. intros He. apply Hne, chars_inj.
  rewrite <- Hu, He. done.
Qed.

Lemma spelled_trim : TrimSpace (FormatInt n +:+ u) = FormatInt n +:+ u.
Proof.
  destruct numeral_cons as (c & s & -> & Hd & _). pose proof unit_letters as Hl.
  destruct (exists_last (l := chars u)) as (l & d & Hlast).
  { intros He. apply unit_not_empty, chars_inj. by rewrite He. }
  rewrite Hlast in Hl. apply Forall_app in Hl as [_ [Hd' _]%Forall_cons].
  apply (TrimSpace_solid _ c d); [done| | |tauto].
  - rewrite chars_app, Hlast, app_assoc. apply last_snoc.
  - apply Forall_cons in Hd as [Hc _]. unfold solid. simpl in Hc. lia.
Qed.

Lemma spelled_upper : ToUpper (FormatInt n +:+ u) = FormatInt n +:+ suffix.
Proof.
  destruct numeral_cons as (c & s & -> & Hd & _). apply chars_inj.
  rewrite ToUpper_ascii, !chars_app, fmap_app, <- Hu.
  - f_equal. unfold digits in Hd. induction Hd as [|x l Hx _ IH]; [done|]. cbn [fmap list_fmap].
    rewrite IH. f_equal. by apply upper_digit.
  - rewrite chars_app. apply Forall_app. split.
    + eapply Forall_impl; [exact Hd|]. simpl. lia.
    + eapply Forall_impl; [exact unit_letters|]. simpl. tauto.
Qed.

Lemma spelled_not_plain : ∃ e, ParseInt (FormatInt n +:+ u) = Err e.
Proof.
  destruct numeral_cons as (c & s & -> & Hd & _). pose proof unit_letters as Hl.
  pose proof unit_not_empty as Hne. simpl_str. apply Forall_cons in Hd as [Hc _].
  rewrite ParseInt_unsigned by done. destruct u as [|d t]; [done|].
  apply Forall_cons in Hl as [(_ & Hnd & _) _].
  assert (digit_of d = None) as Hd by (unfold digit_of; by rewrite decide_False).
  rewrite <- str_app_cons, (digits_val_bad _ _ _ _ Hd). eauto.
Qed.

Lemma spelled_unit :
  head (filter (λ m, HasSuffix (FormatInt n +:+ suffix) m.1 = true) multipliers) =
    Some (suffix, mult).
Proof.
  destruct numeral_cons as (c & s & Hf & Hd & _). rewrite Hf.
  assert (∃ p d, String c s = p +:+ String d EmptyString ∧ is_digit d) as (p & d & -> & Hdd).
  { destruct (exists_last (l := chars (String c s))) as (l & d & Hl); [done|].
    exists (String.string_of_list_ascii l), d. split.
    - apply chars_inj. by rewrite Hl, chars_app, chars_of_list.
    - unfold digits in Hd. rewrite Hl in Hd. by apply Forall_app in Hd as [_ [? _]%Forall_cons]. }
  revert Hm. unfold multipliers. rewrite !elem_of_cons, elem_of_nil.
  intros Hin. destruct_or! Hin; simplify_eq; cbn [filter list_filter fst];
    repeat (rewrite HasSuffix_len by done); try done.
  rewrite <- str_app_assoc. simpl_str.
  assert (∀ x, x ∈ ["T"; "G"; "M"; "K"]%char → String d "B" ≠ String x "B") as Hx.
  { intros x Hx [= ->]. unfold is_digit in Hdd. rewrite !elem_of_cons, elem_of_nil in Hx.
    destruct_or! Hx; subst; vm_compute in Hdd; lia. }
  repeat (rewrite HasSuffix_len by done). rewrite !bool_decide_false by (apply Hx; set_solver).
  change (p +:+ String d "B") with (p +:+ (String d EmptyString +:+ "B")).
  rewrite str_app_assoc, HasSuffix_len by done. done.
Qed.
End spelled.


