(* ===== verification/Flag.v ===== *)
(** * The command line: the package [flag]

    The three programs read their flags with [flag.Parse], which exits with
    status 2 on a mistake and 0 after printing the help. *)

From S2P Require Import Prelude GoLib Numerals Duration Size SizeProps.
From Stdlib Require Import Ascii.
From Stdlib Require Decimal DecimalN DecimalFacts.

Module Flag.

(** The kinds of flags the programs use, and their values. *)
Inductive Kind := StringFlag | BoolFlag | IntFlag.
Inductive Value := VString (s : string) | VBool (b : bool) | VInt (z : Z).

(** A set of flags: its names with their kinds and values (a value has the kind of
    its flag), the defaults first. *)
Record Flag := mkFlag { fname : string; value : Value }.

Definition kind_of (v : Value) : Kind :=
  match v with VString _ => StringFlag | VBool _ => BoolFlag | VInt _ => IntFlag end.

(** [strconv.ParseBool] *)
Definition ParseBool (s : string) : Result bool :=
  if decide (s ∈ ["1"; "t"; "T"; "TRUE"; "true"; "True"]) then Ok true
  else if decide (s ∈ ["0"; "f"; "F"; "FALSE"; "false"; "False"]) then Ok false
  else Err (ErrText "parse error").

(** [strconv.ParseInt(s, 0, 64)]: the base by the prefix, underscores between the
    digits. *)
Definition strip_base (s : string) : Z * string :=
  match s with
  | String z (String c t) =>
      if decide (z = "0"%char) then
        let l := lower_bit c in
        if str_empty t then (8, String c t)
        else if decide (l = 98%nat) then (2, t)
        else if decide (l = 111%nat) then (8, t)
        else if decide (l = 120%nat) then (16, t)
        else (8, String c t)
      else (10, s)
  | _ => (10, s)
  end.

Fixpoint digits_in (base : Z) (s : string) (acc : Z) : option Z :=
  match s with
  | EmptyString => Some acc
  | String c t =>
      if decide (c = underscore) then digits_in base t acc else
      match hex_of c with
      | Some d => if decide (d < base) then digits_in base t (base * acc + d) else None
      | None => None
      end
  end.

Definition ParseInt0 (s : string) : Result Z :=
  let '(neg, t) := strip_sign s in
  if str_empty t then Err (ErrText "parse error") else
  let '(base, ds) := strip_base t in
  match digits_in base ds 0 with
  | None => Err (ErrText "parse error")
  | Some v =>
      if bool_decide (underscore ∈ chars t) && negb (underscoreOK t)
      then Err (ErrText "parse error") else
      let z := if neg : bool then - v else v in
      if decide (int64_range z) then Ok z else Err (ErrText "value out of range")
  end.

(** [Value.Set] *)
Definition parse_value (k : Kind) (s : string) : Result Value :=
  match k with
  | StringFlag => Ok (VString s)
  | BoolFlag => VBool <$> ParseBool s
  | IntFlag => VInt <$> ParseInt0 s
  end.

Fixpoint set_value (name : string) (v : Value) (fs : list Flag) : list Flag :=
  match fs with
  | [] => []
  | f :: fs => if decide (fname f = name) then mkFlag name v :: fs else f :: set_value name v fs
  end.

Definition find_flag (name : string) (fs : list Flag) : option Flag :=
  head (filter (λ f, fname f = name) fs).

(** How a parse ends: with the values and the arguments that are left, or with an
    exit of the program. *)
Inductive Parsed := Done (fs : list Flag) (rest : list string) | Exits (status : Z).

Definition minus : ascii := ascii_of_nat 45.
Definition equals : ascii := ascii_of_nat 61.

(** What one argument is: no flag, the end of the flags, a mistake, or a name with
    the value behind "=". *)
Inductive Arg := NotFlag | Terminator | BadSyntax | Named (name : string) (v : option string).

(** The name is never empty, so a "=" at its front is a mistake. *)
Definition split_name (s : string) : Arg :=
  match s with
  | EmptyString => BadSyntax
  | String c _ =>
      if decide (c = minus ∨ c = equals) then BadSyntax else
      match Index s equals with
      | Some i => Named (take_str i s) (Some (drop_str (S i) s))
      | None => Named s None
      end
  end.

Definition classify (s : string) : Arg :=
  match s with
  | String c (String d t) =>
      if negb (bool_decide (c = minus)) then NotFlag
      else if bool_decide (d = minus) then
        if str_empty t then Terminator else split_name t
      else split_name (String d t)
  | _ => NotFlag
  end.

Definition is_bool (f : Flag) : bool :=
  match value f with VBool _ => true | _ => false end.

(** [FlagSet.Parse] of [flag.CommandLine]. *)
Fixpoint parse (fs : list Flag) (args : list string) : Parsed :=
  match args with
  | [] => Done fs []
  | s :: args' =>
      match classify s with
      | NotFlag => Done fs args
      | Terminator => Done fs args'
      | BadSyntax => Exits 2
      | Named name v =>
          match find_flag name fs with
          | None => if decide (name = "help" ∨ name = "h") then Exits 0 else Exits 2
          | Some f =>
              if is_bool f then
                let s := default "true" v in
                match parse_value BoolFlag s with
                | Ok x => parse (set_value name x fs) args'
                | Err _ => Exits 2
                end
              else
                match v, args' with
                | Some s, _ =>
                    match parse_value (kind_of (value f)) s with
                    | Ok x => parse (set_value name x fs) args'
                    | Err _ => Exits 2
                    end
                | None, s :: args'' =>
                    match parse_value (kind_of (value f)) s with
                    | Ok x => parse (set_value name x fs) args''
                    | Err _ => Exits 2
                    end
                | None, [] => Exits 2
                end
          end
      end
  end.

(** ** Printing and parsing *)

Lemma to_uint_lead p d : Pos.to_uint p ≠ Decimal.D0 d.
Proof.
  intros Hd. pose proof (DecimalN.Unsigned.to_of (Pos.to_uint p)) as Hn.
  pose proof (DecimalN.Unsigned.of_to (Npos p)) as Ho. simpl in Ho. rewrite Ho in Hn. simpl in Hn.
  rewrite Hd in Hn. unfold Decimal.unorm in Hn.
  destruct (Decimal.nzhead (Decimal.D0 d)) as [|u| | | | | | | | |] eqn:Hz; try done.
  - injection Hn as ->. rewrite Hd in Ho. done.
  - by apply (DecimalFacts.nzhead_nonzero _ _ Hz).
Qed.

Lemma FormatInt_lead p : ∃ c s, FormatInt (Zpos p) = String c s ∧ is_digit c ∧ c ≠ "0"%char.
Proof.
  destruct (FormatInt_digits (Zpos p) ltac:(lia)) as [Hd Hv].
  assert (FormatInt (Zpos p) = DecimalString.NilZero.string_of_uint (Pos.to_uint p)) as Hf by done.
  pose proof (to_uint_lead p) as Hl. rewrite Hf in *.
  destruct (Pos.to_uint p) as [|u|u|u|u|u|u|u|u|u|u] eqn:Hu; [|by destruct (Hl u)|..];
    eexists _, _; (split; [reflexivity|]); unfold is_digit; (split; [vm_compute; lia|done]).
Qed.

Lemma digits_in_decimal s acc v :
  digits_val s acc = Some v → digits_in 10 s acc = Some v ∧ underscore ∉ chars s.
Proof.
  unfold chars. revert acc. induction s as [|c s IH]; intros acc; simpl.
  { intros Hv. split; [done|apply not_elem_of_nil]. }
  intros (d & Hd & Hv)%bind_Some. pose proof (digit_of_digit c d Hd) as (_ & Hu & _).
  rewrite decide_False by done. unfold hex_of. rewrite Hd. destruct (IH _ Hv) as [H1 H2].
  rewrite decide_True by (unfold digit_of in Hd; case_decide; simplify_eq; lia).
  split; [done|]. rewrite not_elem_of_cons. done.
Qed.

(** What is printed in decimal is read back, whatever the base could have been. *)
Lemma ParseInt0_FormatInt z : int64_range z → ParseInt0 (FormatInt z) = Ok z.
Proof.
  intros Hz. destruct (decide (z = 0)) as [->|Hnz]; [reflexivity|].
  assert (∃ (neg : bool) p, z = (if neg then - Zpos p else Zpos p) ∧
    strip_sign (FormatInt z) = (neg, FormatInt (Zpos p))) as (neg & p & Hp & Hsign).
  { destruct z as [|p|p]; [done| |by exists true, p]. exists false, p. split; [done|].
    destruct (FormatInt_lead p) as (c & s & -> & Hc & _). unfold is_digit in Hc.
    destruct c as [[] [] [] [] [] [] [] []]; try reflexivity; vm_compute in Hc; lia. }
  unfold ParseInt0. rewrite Hsign. cbn beta iota.
  destruct (FormatInt_digits (Zpos p) ltac:(lia)) as [_ Hv].
  destruct (FormatInt_lead p) as (c & s & Hf & _ & Hc). rewrite Hf in *.
  destruct (digits_in_decimal _ _ _ Hv) as [Hin Hus].
  assert (strip_base (String c s) = (10, String c s)) as ->.
  { unfold strip_base. destruct s; [done|]. by rewrite decide_False. }
  cbn beta iota. rewrite Hin, (bool_decide_false _ Hus). simpl.
  destruct neg; rewrite <- Hp, decide_True by done; done.
Qed.

Definition print_value (v : Value) : string :=
  match v with
  | VString s => s
  | VBool b => if b then "true" else "false"
  | VInt z => FormatInt z
  end.

Definition print_flag (f : Flag) : string := "-" +:+ fname f +:+ "=" +:+ print_value (value f).

(** The name of a flag starts neither with a minus nor with an equals sign and has
    no equals sign in it; an integer has 64 bits. *)
Definition flag_ok (f : Flag) : Prop :=
  equals ∉ chars (fname f) ∧ (∃ c s, fname f = String c s ∧ c ≠ minus) ∧
  match value f with VInt z => int64_range z | _ => True end.

(** The same flag with another value of its kind. *)
Definition same_flag (f g : Flag) : Prop := fname f = fname g ∧ kind_of (value f) = kind_of (value g).

Lemma Index_app t u : equals ∉ chars t → Index (t +:+ String equals u) equals = Some (String.length t).
Proof.
  unfold chars. induction t as [|d t IH]; simpl_str; simpl; [done|].
  rewrite not_elem_of_cons. intros [Hd Ht]. rewrite decide_False by done. by rewrite (IH Ht).
Qed.

Lemma drop_after t c u : drop_str (S (String.length t)) (t +:+ String c u) = u.
Proof. induction t as [|d t IH]; [done|]. exact IH. Qed.

Lemma split_name_eq n v c s :
  n = String c s → c ≠ minus → equals ∉ chars n →
  split_name (n +:+ String equals v) = Named n (Some v).
Proof.
  intros Hn Hc He. assert (c ≠ equals) as Hce by (intros ->; apply He; rewrite Hn; left).
  assert (split_name (n +:+ String equals v) =
    match Index (n +:+ String equals v) equals with
    | Some i => Named (take_str i (n +:+ String equals v)) (Some (drop_str (S i) (n +:+ String equals v)))
    | None => Named (n +:+ String equals v) None
    end) as ->.
  { rewrite Hn. simpl_str. unfold split_name. by rewrite decide_False by tauto. }
  by rewrite Index_app, take_str_app, drop_after by done.
Qed.

Lemma classify_print f :
  flag_ok f → classify (print_flag f) = Named (fname f) (Some (print_value (value f))).
Proof.
  intros (He & (c & s & Hn & Hc) & _). rewrite <- (split_name_eq _ _ _ _ Hn Hc He).
  unfold print_flag. rewrite Hn. simpl_str. unfold classify.
  change (bool_decide ("-"%char = minus)) with true. cbn [negb].
  by rewrite (bool_decide_false (c = minus)) by done.
Qed.

Lemma parse_print_value v :
  match v with VInt z => int64_range z | _ => True end → parse_value (kind_of v) (print_value v) = Ok v.
Proof.
  destruct v as [s|[]|z]; intros Hv; [done|vm_compute; reflexivity..|]. simpl.
  by rewrite ParseInt0_FormatInt.
Qed.

Lemma find_flag_split fs1 f fs2 :
  fname f ∉ fname <$> fs1 → find_flag (fname f) (fs1 ++ f :: fs2) = Some f ∧
  ∀ v, set_value (fname f) v (fs1 ++ f :: fs2) = fs1 ++ mkFlag (fname f) v :: fs2.
Proof.
  unfold find_flag. induction fs1 as [|g fs1 IH]; simpl.
  - intros _. rewrite filter_cons_True by done. split; [done|]. intros v. by rewrite decide_True.
  - rewrite not_elem_of_cons. intros [Hg Hf]. destruct (IH Hf) as [H1 H2].
    rewrite filter_cons_False by congruence. split; [done|]. intros v.
    rewrite decide_False by congruence. by rewrite H2.
Qed.

(** Every setting of a program's flags can be written on its command line: printed as
    -name=value, in the order of the flags and followed by arguments of which the
    first is no flag, it is parsed back, and the arguments are left. *)
Lemma parse_print fs vs rest :
  NoDup (fname <$> fs) → Forall2 same_flag fs vs → Forall flag_ok vs →
  (∀ s, head rest = Some s → classify s = NotFlag) →
  parse fs ((print_flag <$> vs) ++ rest) = Done vs rest.
Proof.
  intros Hnd Hsame Hok Hrest.
  assert (∀ done todo vs', Forall2 same_flag todo vs' → Forall flag_ok vs' →
    NoDup (fname <$> (done ++ todo)) →
    parse (done ++ todo) ((print_flag <$> vs') ++ rest) = Done (done ++ vs') rest) as Hgen;
    [|exact (Hgen [] fs vs Hsame Hok Hnd)].
  clear fs vs Hnd Hsame Hok. intros done todo vs' Hsame. revert done.
  induction Hsame as [|f g todo vs' [Hname Hkind] _ IH]; intros done Hok Hnd.
  - simpl. rewrite !app_nil_r. destruct rest as [|s rest]; [done|]. simpl.
    by rewrite (Hrest s eq_refl).
  - apply Forall_cons in Hok as [Hg Hok]. pose proof Hg as (_ & _ & Hrange).
    assert (fname f ∉ fname <$> done) as Hnew.
    { rewrite fmap_app in Hnd. apply NoDup_app in Hnd as (_ & Hd & _). intros Hin.
      apply (Hd _ Hin). left. }
    destruct (find_flag_split done f todo Hnew) as [Hfind Hset].
    assert (parse (done ++ mkFlag (fname g) (value g) :: todo) ((print_flag <$> vs') ++ rest) =
      Done (done ++ g :: vs') rest) as Hnext.
    { destruct g as [n v]. simpl in *. rewrite (cons_middle _ done todo), (cons_middle _ done vs').
      rewrite !app_assoc. apply IH; [done|]. rewrite <- app_assoc. simpl. rewrite <- Hname in *.
      rewrite fmap_app in *. exact Hnd. }
    cbn [fmap list_fmap app parse]. rewrite (classify_print _ Hg), <- Hname, Hfind. simpl default.
    rewrite Hkind. pose proof (parse_print_value _ Hrange) as Hp.
    destruct (is_bool f) eqn:Hb.
    + replace BoolFlag with (kind_of (value g)); [rewrite Hp, Hset, Hname; exact Hnext|].
      rewrite <- Hkind. unfold is_bool in Hb. by destruct (value f).
    + rewrite Hp, Hset, Hname. exact Hnext.
Qed.
End Flag.
