(* ===== verification/Startup.v ===== *)
(** * The configuration of the process (main.go, dbdriver.go, push.go, tracing.go)

    What the command line and the environment decide: the database driver and its
    pool, the log level, the heartbeat monitor, the push clients and the tracing
    exporter.  [Getenv] reads an unset variable as the empty string, as
    [os.Getenv] does.  Log lines are left out, except that [secret_warnings] is
    the list of insecure defaults the start warns of. *)

From S2P Require Import Prelude GoLib Sql Queue Hub Store World Auth Push Duration.

(** ** Reading the environment *)

Section env.
Variable Getenv : string → string.

Definition getEnvOrDefault (key defaultValue : string) : string :=
  let v := Getenv key in if str_empty v then defaultValue else v.

Definition envIntOrDefault (key : string) (defaultVal : Z) : Z :=
  let v := Getenv key in
  if str_empty v then defaultVal else
  match Atoi v with Ok i => i | Err _ => defaultVal end.

Definition envDurationOrDefault (key : string) (defaultVal : Z) : Z :=
  let v := Getenv key in
  if str_empty v then defaultVal else
  match ParseDuration v with Ok d => d | Err _ => defaultVal end.

(** ** The database *)

Definition DriverSQLite : string := "sqlite3".
Definition DriverPostgreSQL : string := "postgres".

(** The flag [-db-driver], then [DB_DRIVER], then whether there is a
    [DATABASE_URL]. *)
Definition resolve_driver (flag : string) : string :=
  if negb (str_empty flag) then flag else
  let v := Getenv "DB_DRIVER" in
  if negb (str_empty v) then v else
  if negb (str_empty (Getenv "DATABASE_URL")) then DriverPostgreSQL else DriverSQLite.

Definition resolve_db_path (flag : string) : string :=
  if negb (str_empty flag) then flag else
  let v := Getenv "DATABASE_URL" in
  if negb (str_empty v) then v else
  let v := Getenv "DB_PATH" in
  if negb (str_empty v) then v else "./data/agent-messenger.db".

(** What [openDatabase] sets on the pool; 0 is no limit, and SQLite's pragmas. *)
Record Pool := mkPool {
  MaxOpenConns : Z;
  MaxIdleConns : Z;
  ConnMaxLifetime : Z;
  ConnMaxIdleTime : Z;
  pragmas : list string
}.

(** [sql.Open] fails for a name that no driver registered or a malformed source;
    only PostgreSQL is pinged. *)
Definition openDatabase (Open : string → string → Result unit) (Ping : Result unit)
    (driver dsn : string) : Result Pool :=
  match Open driver dsn with
  | Err e => Err e
  | Ok _ =>
      if decide (driver = DriverPostgreSQL) then
        let pool :=
          mkPool (envIntOrDefault "DB_MAX_OPEN_CONNS" 25) (envIntOrDefault "DB_MAX_IDLE_CONNS" 5)
            (envDurationOrDefault "DB_CONN_MAX_LIFETIME" (30 * Minute))
            (envDurationOrDefault "DB_CONN_MAX_IDLE_TIME" (5 * Minute)) [] in
        match Ping with Err e => Err e | Ok _ => Ok pool end
      else
        Ok (mkPool 1 1 0 0
          ["PRAGMA journal_mode=WAL"; "PRAGMA foreign_keys=ON"; "PRAGMA busy_timeout=5000"])
  end.

(** [Placeholder] and [Placeholders]. *)
Definition Placeholder (currentDriver : string) (n : Z) : string :=
  if decide (currentDriver = DriverPostgreSQL) then "$" +:+ FormatInt n else "?".

Definition Placeholders (currentDriver : string) (start : Z) (count : nat) : string :=
  String.concat ", " ((λ i, Placeholder currentDriver (start + Z.of_nat i)) <$> seq 0 count).

(** ** Logging and secrets *)

Inductive LogLevel := LogDebug | LogInfo | LogWarn | LogError.

Definition log_level : LogLevel :=
  let l := ToLower (Getenv "LOG_LEVEL") in
  if decide (l = "debug") then LogDebug
  else if decide (l = "info") then LogInfo
  else if decide (l = "warn" ∨ l = "warning") then LogWarn
  else if decide (l = "error") then LogError
  else LogInfo.

Definition secret_warnings : list string :=
  (if str_empty (Getenv "JWT_SECRET") then ["JWT_SECRET"] else []) ++
  (if str_empty (Getenv "AGENT_SECRET")
      || bool_decide (Getenv "AGENT_SECRET" = "dev-agent-secret-change-me")
   then ["AGENT_SECRET"] else []) ++
  (if str_empty (Getenv "ADMIN_SECRET") || bool_decide (Getenv "ADMIN_SECRET" = "admin-dev-secret")
   then ["ADMIN_SECRET"] else []).

(** The values in use ([jwtSecret], [getAgentSecret], [getAdminSecret]). *)
Definition jwtSecret : string := getEnvOrDefault "JWT_SECRET" "agent-messenger-dev-secret-change-me".

Definition getAgentSecret : string :=
  let s := Getenv "AGENT_SECRET" in if str_empty s then "dev-agent-secret-change-me" else s.

Definition getAdminSecret : string :=
  let s := Getenv "ADMIN_SECRET" in if str_empty s then "admin-dev-secret" else s.

(** [resetAgentSecret] and [resetAdminSecret] read the variables again, whatever the
    globals were; only tests call them. *)
Definition resetAgentSecret (agentSecret : string) : string := getAgentSecret.
Definition resetAdminSecret (adminSecret : string) : string := getAdminSecret.

(** ** The heartbeat monitor *)

Record Heartbeat := mkHeartbeat { enabled : bool; interval : Z; timeout : Z }.

(** A positive duration, or what was there before. *)
Definition positive_duration (key : string) (cur : Z) : Z :=
  let v := Getenv key in
  if str_empty v then cur else
  match ParseDuration v with
  | Ok d => if decide (0 < d) then d else cur
  | Err _ => cur
  end.

(** The timeout is raised to twice the interval, on 64-bit integers. *)
Definition heartbeat_config : Heartbeat :=
  let interval0 := 30 * Second in
  let timeout0 := 90 * Second in
  if decide (Getenv "AGENT_HEARTBEAT_ENABLED" = "true") then
    let interval := positive_duration "AGENT_HEARTBEAT_INTERVAL" interval0 in
    let timeout := positive_duration "AGENT_HEARTBEAT_TIMEOUT" timeout0 in
    if decide (timeout < wrap64 (interval * 2)) then mkHeartbeat true interval (wrap64 (interval * 2))
    else mkHeartbeat true interval timeout
  else mkHeartbeat false interval0 timeout0.

(** ** Push clients *)

(** Whether a file is there, and whether the third-party clients can be made from
    it: [certificate.FromP12File], [firebase.NewApp] and [app.Messaging]. *)
Record PushWorld := mkPushWorld {
  Stat : string → bool;
  FromP12File : string → string → bool;
  NewApp : string → bool;
  Messaging : string → bool
}.

(** A client of APNs talks to one of two gateways. *)
Inductive APNsGateway := Production | Development.

Record PushNotificationConfig := mkPushConfig {
  APNSEnabled : bool;
  CertPath : string;
  Password : string;
  KeyID : string;
  TeamID : string;
  BundleID : string;
  Environment : string;
  FCMEnabled : bool;
  FCMCredentials : string;
  apnsClient : option APNsGateway;
  fcmClient : bool
}.

Definition set_apns (en : bool) (client : option APNsGateway) (c : PushNotificationConfig)
    : PushNotificationConfig :=
  mkPushConfig en (CertPath c) (Password c) (KeyID c) (TeamID c) (BundleID c) (Environment c)
    (FCMEnabled c) (FCMCredentials c) client (fcmClient c).

Definition set_fcm (en client : bool) (c : PushNotificationConfig) : PushNotificationConfig :=
  mkPushConfig (APNSEnabled c) (CertPath c) (Password c) (KeyID c) (TeamID c) (BundleID c)
    (Environment c) en (FCMCredentials c) (apnsClient c) client.

Definition initAPNs (f : PushWorld) (c : PushNotificationConfig) : PushNotificationConfig :=
  if negb (APNSEnabled c) then c else
  if str_empty (CertPath c) then c else
  if negb (Stat f (CertPath c)) then set_apns false (apnsClient c) c else
  if negb (FromP12File f (CertPath c) (Password c)) then set_apns false (apnsClient c) c else
  set_apns (APNSEnabled c)
    (Some (if decide (Environment c = "production") then Production else Development)) c.

Definition initFCM (f : PushWorld) (c : PushNotificationConfig) : PushNotificationConfig :=
  if negb (FCMEnabled c) then c else
  if str_empty (FCMCredentials c) then c else
  if negb (Stat f (FCMCredentials c)) then set_fcm false (fcmClient c) c else
  if negb (NewApp f (FCMCredentials c)) then set_fcm false (fcmClient c) c else
  if negb (Messaging f (FCMCredentials c)) then set_fcm false (fcmClient c) c else
  set_fcm (FCMEnabled c) true c.

Definition initPushNotifications (f : PushWorld) : PushNotificationConfig :=
  initFCM f (initAPNs f
    (mkPushConfig (bool_decide (Getenv "APNS_ENABLED" = "true")) (Getenv "APNS_CERT_PATH")
       (Getenv "APNS_CERT_PASSWORD") (Getenv "APNS_KEY_ID") (Getenv "APNS_TEAM_ID")
       (getEnvOrDefault "APNS_BUNDLE_ID" "com.agentmessenger.ios")
       (getEnvOrDefault "APNS_ENVIRONMENT" "development")
       (bool_decide (Getenv "FCM_ENABLED" = "true")) (Getenv "FCM_CREDENTIALS_PATH") None false)).

(** ** Sending *)

Record APNsNotification := mkAPNs {
  DeviceToken : string;
  Topic : string;
  AlertTitle : string;
  AlertBody : string;
  Badge : Z;
  Sound : string;
  Custom : list (string * string)
}.

Record FCMMessage := mkFCM {
  Token : string;
  Data : list (string * string);
  Title : string;
  Text : string;
  Priority : string;
  ChannelID : string
}.

(** What is handed to the services. *)
Inductive Sent :=
  | ToAPNs (g : APNsGateway) (n : APNsNotification)
  | ToFCM (m : FCMMessage).

(** [sendAPNSNotification]: a push that the gateway rejects is only logged, so the
    one error is that of [Push] itself. *)
Definition sendAPNSNotification (c : PushNotificationConfig) (Push : APNsNotification → Result Z)
    (deviceToken title body conversationID : string) : list Sent * Result unit :=
  match apnsClient c with
  | Some g =>
      if negb (APNSEnabled c) then ([], Ok tt) else
      let n := mkAPNs deviceToken (BundleID c) title body 1 "default"
                 (if str_empty conversationID then [] else [("conversation_id", conversationID)]) in
      ([ToAPNs g n], match Push n with Err e => Err e | Ok _ => Ok tt end)
  | None => ([], Ok tt)
  end.

Definition sendFCMNotification (c : PushNotificationConfig) (Send : FCMMessage → Result unit)
    (deviceToken title body conversationID : string) : list Sent * Result unit :=
  if negb (FCMEnabled c) || negb (fcmClient c) then ([], Ok tt) else
  let m := mkFCM deviceToken
             [("body", body); ("conversation_id", conversationID); ("title", title)]
             title body "high" "agent_messenger_messages" in
  ([ToFCM m], match Send m with Err _ => Err (ErrText "FCM send failed") | Ok _ => Ok tt end).

(** [sendPushNotification], and the loop of [notifyUser] over the calls that
    Push.v computes: an error is logged and the loop goes on. *)
Definition sendPushNotification (c : PushNotificationConfig) (Push : APNsNotification → Result Z)
    (Send : FCMMessage → Result unit) (call : PushCall) : list Sent * Result unit :=
  match pc_service call with
  | APNs => sendAPNSNotification c Push (pc_token call) (pc_title call) (pc_body call)
              (pc_conversation call)
  | FCM => sendFCMNotification c Send (pc_token call) (pc_title call) (pc_body call)
              (pc_conversation call)
  end.

Definition send_all_calls (c : PushNotificationConfig) (Push : APNsNotification → Result Z)
    (Send : FCMMessage → Result unit) (calls : list PushCall) : list Sent :=
  calls ≫= λ call, (sendPushNotification c Push Send call).1.

(** ** Tracing *)

Inductive Protocol := HTTP | GRPC.

Record Exporter := mkExporter {
  protocol : Protocol;
  endpoint : string;
  insecure : bool;
  service_name : string
}.

(** [tracingMu], [tracingEnabled] and the exporter behind [tp]. *)
Record Tracing := mkTracing {
  once : bool;
  tracingEnabled : bool;
  exporter : option Exporter
}.

Definition no_tracing : Tracing := mkTracing false false None.

Definition trace_endpoint : string :=
  let e := Getenv "OTEL_EXPORTER_OTLP_ENDPOINT" in
  if str_empty e then Getenv "OTEL_EXPORTER_OTLP_HTTP_ENDPOINT" else e.

Definition trace_exporter : Exporter :=
  let e := trace_endpoint in
  let service := getEnvOrDefault "OTEL_SERVICE_NAME" "agent-messenger" in
  if decide (getEnvOrDefault "OTEL_EXPORTER_OTLP_PROTOCOL" "grpc" = "http")
  then mkExporter HTTP e (HasPrefix e "http://") service
  else mkExporter GRPC e (negb (HasSuffix e ":443") && negb (HasPrefix e "https://")) service.

(** [InitTracing]: [New] and [Merge] are the third-party constructors that can
    fail; the sampling rate is not part of the model. *)
Definition InitTracing (New : Exporter → Result unit) (Merge : Result unit) (t : Tracing)
    : Result unit * Tracing :=
  if once t then (Ok tt, t) else
  let t := mkTracing true (tracingEnabled t) (exporter t) in
  if negb (bool_decide (Getenv "OTEL_ENABLED" = "true")) then (Ok tt, t) else
  if str_empty trace_endpoint then (Ok tt, t) else
  match New trace_exporter with
  | Err _ => (Err (ErrText "failed to create OTLP exporter"), t)
  | Ok _ =>
      match Merge with
      | Err _ => (Err (ErrText "failed to create resource"), t)
      | Ok _ => (Ok tt, mkTracing true true (Some trace_exporter))
      end
  end.
End env.
