(* ===== verification/StartupProps.v ===== *)
(** * What the configuration guarantees

    Whatever the environment says, the heartbeat monitor gets a positive interval
    and timeout; a push service is called just when its client was made at the
    start. *)

From S2P Require Import Prelude GoLib Sql Queue Hub Store World Auth Push Duration Startup.

(** ** The heartbeat monitor *)

Definition positive (z : Z) : Prop := 0 < z ≤ max_int64.

Lemma positive_duration_ok Getenv key cur :
  positive cur → positive (positive_duration Getenv key cur).
Proof.
  intros Hc. unfold positive_duration. destruct (str_empty _); [done|].
  pose proof (ParseDuration_range (Getenv key)) as Hr.
  destruct (ParseDuration (Getenv key)) as [d|]; [|done]. case_decide; [|done].
  unfold positive, int64_range in *. lia.
Qed.

Lemma heartbeat_positive Getenv :
  let c := heartbeat_config Getenv in positive (interval c) ∧ positive (timeout c).
Proof.
  assert (positive (30 * Second) ∧ positive (90 * Second)) as [H30 H90] by by vm_compute.
  pose proof (positive_duration_ok Getenv "AGENT_HEARTBEAT_INTERVAL" _ H30) as Hi.
  pose proof (positive_duration_ok Getenv "AGENT_HEARTBEAT_TIMEOUT" _ H90) as Ht.
  unfold heartbeat_config. case_decide as He; [|split; by vm_compute].
  pose proof (wrap64_range (positive_duration Getenv "AGENT_HEARTBEAT_INTERVAL" (30 * Second) * 2)) as Hr.
  unfold int64_range, positive in *. case_decide; simpl; lia.
Qed.

(** The configuration of the heartbeat monitor is well formed for every
    environment: interval and timeout are positive 64-bit integers (so the
    ticker can be made), they are the defaults when the monitor is off, and the
    timeout is at least twice the interval whenever that product does not
    overflow. *)
Theorem heartbeat_config_ok Getenv :
  let c := heartbeat_config Getenv in
  positive (interval c) ∧ positive (timeout c) ∧
  (enabled c = true ↔ Getenv "AGENT_HEARTBEAT_ENABLED" = "true") ∧
  (enabled c = false → interval c = 30 * Second ∧ timeout c = 90 * Second) ∧
  (2 * interval c ≤ max_int64 → 2 * interval c ≤ timeout c).
Proof.
  assert (positive (30 * Second) ∧ positive (90 * Second)) as [H30 H90] by by vm_compute.
  pose proof (positive_duration_ok Getenv "AGENT_HEARTBEAT_INTERVAL" _ H30) as Hi.
  pose proof (positive_duration_ok Getenv "AGENT_HEARTBEAT_TIMEOUT" _ H90) as Ht.
  unfold heartbeat_config. case_decide as He; [|split_and!; try done; by vm_compute].
  set (i := positive_duration _ "AGENT_HEARTBEAT_INTERVAL" _) in *.
  set (t := positive_duration _ "AGENT_HEARTBEAT_TIMEOUT" _) in *.
  assert (2 * i ≤ max_int64 → wrap64 (i * 2) = 2 * i) as Hw.
  { intros Hle. rewrite Z.mul_comm, wrap64_id; [done|].
    unfold positive, int64_range, min_int64 in *. lia. }
  pose proof (wrap64_range (i * 2)) as Hr. unfold int64_range in Hr. unfold positive in *.
  case_decide; simpl; (split_and!; [lia..|done|done|]); intros Hle; rewrite Hw in * by done; lia.
Qed.

(** The product does overflow: with an interval of 2000000 hours the timeout stays
    at 90 seconds, and every agent is found stale. *)
Definition env_of (l : list (string * string)) (k : string) : string :=
  default EmptyString (snd <$> head (filter (λ p, p.1 = k) l)).

Example heartbeat_overflow :
  let c := heartbeat_config (env_of [("AGENT_HEARTBEAT_ENABLED", "true");
                                     ("AGENT_HEARTBEAT_INTERVAL", "2000000h")]) in
  interval c = 2000000 * Hour ∧ timeout c = 90 * Second.
Proof. split; vm_compute; reflexivity. Qed.

(** ** Secrets *)

(** The start warns of a secret just when the value in use is the built-in one;
    for JWT_SECRET it does so only when the variable is unset. *)
Lemma secret_warnings_exact Getenv :
  ("AGENT_SECRET" ∈ secret_warnings Getenv ↔ getAgentSecret Getenv = "dev-agent-secret-change-me") ∧
  ("ADMIN_SECRET" ∈ secret_warnings Getenv ↔ getAdminSecret Getenv = "admin-dev-secret") ∧
  ("JWT_SECRET" ∈ secret_warnings Getenv → jwtSecret Getenv = "agent-messenger-dev-secret-change-me").
Proof.
  unfold secret_warnings, getAgentSecret, getAdminSecret, jwtSecret, getEnvOrDefault.
  rewrite !elem_of_app.
  destruct (str_empty (Getenv "JWT_SECRET")), (str_empty (Getenv "AGENT_SECRET")),
    (str_empty (Getenv "ADMIN_SECRET")); simpl; repeat case_bool_decide; set_solver.
Qed.

(** ** Push services *)

Section push.
Variables (Getenv : string → string) (f : PushWorld).

Definition apns_ready : Prop :=
  Getenv "APNS_ENABLED" = "true" ∧ Getenv "APNS_CERT_PATH" ≠ EmptyString ∧
  Stat f (Getenv "APNS_CERT_PATH") = true ∧
  FromP12File f (Getenv "APNS_CERT_PATH") (Getenv "APNS_CERT_PASSWORD") = true.

Definition fcm_ready : Prop :=
  Getenv "FCM_ENABLED" = "true" ∧ Getenv "FCM_CREDENTIALS_PATH" ≠ EmptyString ∧
  Stat f (Getenv "FCM_CREDENTIALS_PATH") = true ∧
  NewApp f (Getenv "FCM_CREDENTIALS_PATH") = true ∧
  Messaging f (Getenv "FCM_CREDENTIALS_PATH") = true.

Lemma apns_client :
  let c := initPushNotifications Getenv f in
  (is_Some (apnsClient c) ↔ apns_ready) ∧ (is_Some (apnsClient c) → APNSEnabled c = true).
Proof.
  simpl. unfold initPushNotifications. set (c0 := mkPushConfig _ _ _ _ _ _ _ _ _ _ _).
  assert (∀ c, apnsClient (initFCM f c) = apnsClient c ∧ APNSEnabled (initFCM f c) = APNSEnabled c)
    as Hf by (intros c; unfold initFCM; repeat case_match; done).
  destruct (Hf (initAPNs f c0)) as [-> ->]. unfold initAPNs, apns_ready. simpl.
  case_bool_decide as He; simpl; [|by split; [split; [by intros []|naive_solver]|intros []]].
  destruct (str_empty _) eqn:Hp; simpl.
  { apply str_empty_true in Hp. by split; [split; [by intros []|naive_solver]|intros []]. }
  apply str_empty_false in Hp.
  destruct (Stat f _) eqn:Hs; simpl; [|by split; [split; [by intros []|naive_solver]|intros []]].
  destruct (FromP12File f _ _) eqn:Hc; simpl;
    [|by split; [split; [by intros []|naive_solver]|intros []]].
  split; [split|]; [by intros _|by eauto|by intros _].
Qed.

Lemma fcm_client :
  let c := initPushNotifications Getenv f in
  (fcmClient c = true ↔ fcm_ready) ∧ (fcmClient c = true → FCMEnabled c = true).
Proof.
  simpl. unfold initPushNotifications. set (c0 := mkPushConfig _ _ _ _ _ _ _ _ _ _ _).
  assert (fcmClient (initAPNs f c0) = false ∧
    FCMEnabled (initAPNs f c0) = bool_decide (Getenv "FCM_ENABLED" = "true") ∧
    FCMCredentials (initAPNs f c0) = Getenv "FCM_CREDENTIALS_PATH") as (H1 & H2 & H3)
    by (unfold initAPNs; repeat case_match; done).
  unfold initFCM, fcm_ready. rewrite H2, H3.
  case_bool_decide as He; simpl; [|rewrite H1; naive_solver].
  destruct (str_empty _) eqn:Hp; simpl.
  { apply str_empty_true in Hp. rewrite H1. naive_solver. }
  apply str_empty_false in Hp.
  destruct (Stat f _) eqn:Hs; simpl; [|rewrite H1; naive_solver].
  destruct (NewApp f _) eqn:Hn; simpl; [|rewrite H1; naive_solver].
  destruct (Messaging f _) eqn:Hm; simpl; [|rewrite H1; naive_solver].
  by split_and!.
Qed.

(** A call is made to a push service just when its client could be made
    at the start, which needs the service switched on, the path of its
    credentials set and the file loadable; then every notification for that
    service is handed over, in order, with the token and the texts it came
    with. *)
Theorem push_exact Push Send calls :
  let c := initPushNotifications Getenv f in
  (is_Some (apnsClient c) ↔ apns_ready) ∧ (fcmClient c = true ↔ fcm_ready) ∧
  send_all_calls c Push Send calls = calls ≫= λ call,
    match pc_service call, apnsClient c with
    | APNs, Some g =>
        [ToAPNs g (mkAPNs (pc_token call) (BundleID c) (pc_title call) (pc_body call) 1 "default"
          (if str_empty (pc_conversation call) then []
           else [("conversation_id", pc_conversation call)]))]
    | APNs, None => []
    | FCM, _ =>
        if fcmClient c then
          [ToFCM (mkFCM (pc_token call)
             [("body", pc_body call); ("conversation_id", pc_conversation call);
              ("title", pc_title call)]
             (pc_title call) (pc_body call) "high" "agent_messenger_messages")]
        else []
    end.
Proof.
  intros c. destruct apns_client as [Ha Hae], fcm_client as [Hf Hfe]. fold c in Ha, Hae, Hf, Hfe.
  split; [done|]. split; [done|].
  induction calls as [|call calls IH]; [done|]. unfold send_all_calls in *. rewrite !bind_cons, IH.
  f_equal. unfold sendPushNotification, sendAPNSNotification, sendFCMNotification.
  destruct (pc_service call).
  - destruct (apnsClient c); [|done]. by rewrite Hae.
  - destruct (fcmClient c); [by rewrite Hfe|]. by rewrite orb_true_r.
Qed.
End push.

(** The variables that README.md and docs/MANUAL.md name for the push services are
    not the ones the code reads. *)
Example documented_push_is_off f Push Send calls :
  let c := initPushNotifications
             (env_of [("APNS_KEY_PATH", "/secrets/apns.p8"); ("APNS_KEY_ID", "K");
                      ("APNS_TEAM_ID", "T"); ("FCM_SERVICE_ACCOUNT", "/secrets/fcm.json")]) f in
  send_all_calls c Push Send calls = [].
Proof.
  simpl. induction calls as [|call calls IH]; [done|]. unfold send_all_calls in *.
  rewrite bind_cons, IH. unfold sendPushNotification. by destruct (pc_service call).
Qed.

(** ** Tracing *)

(** The second call changes nothing, and tracing is on just with an exporter. *)
Lemma InitTracing_once Getenv New Merge New' Merge' :
  let t := (InitTracing Getenv New Merge no_tracing).2 in
  InitTracing Getenv New' Merge' t = (Ok tt, t) ∧
  (tracingEnabled t = true ↔ is_Some (exporter t)) ∧
  (tracingEnabled t = true → Getenv "OTEL_ENABLED" = "true").
Proof.
  simpl. unfold InitTracing. simpl. case_bool_decide; simpl; [|split_and!; try done; by intros []].
  destruct (str_empty _); simpl; [split_and!; try done; by intros []|].
  destruct (New _); simpl; [|split_and!; try done; by intros []].
  destruct Merge; simpl; split_and!; try done; by intros [].
Qed.
