(* ===== verification/Profile.v ===== *)
(** * The profiling endpoint (profile_handler.go, profile.go)

    [cpuProfileState] is guarded by its mutex, so a request is one step.  The Go
    runtime runs at most one CPU profile, which may also be one that
    /debug/pprof/profile (net/http/pprof) started; the files written are kept as
    the list of their paths and the set of open handles.  What the operating
    system and the runtime answer is the input of a request. *)

From S2P Require Import Prelude GoLib Path Sql Queue Hub Store World.

(** [runtime.MemStats], as much as [MemoryStats] reports, with [NumGoroutine]. *)
Record MemStats := mkMemStats {
  Alloc : Z;
  TotalAlloc : Z;
  Sys : Z;
  HeapAlloc : Z;
  HeapSys : Z;
  HeapObjects : Z;
  StackInuse : Z;
  NumGC : Z;
  NumGoroutine : Z;
  NextGC : Z;
  PauseTotalNs : Z;
  LastGC : Z
}.

Definition MemoryStats (m : MemStats) : json :=
  JObj [("alloc_bytes", JInt (Alloc m)); ("gc_pause_total_ns", JInt (PauseTotalNs m));
        ("goroutines", JInt (NumGoroutine m)); ("heap_alloc_bytes", JInt (HeapAlloc m));
        ("heap_objects", JInt (HeapObjects m)); ("heap_sys_bytes", JInt (HeapSys m));
        ("last_gc_ns", JInt (LastGC m)); ("next_gc_bytes", JInt (NextGC m));
        ("num_gc", JInt (NumGC m)); ("stack_inuse_bytes", JInt (StackInuse m));
        ("sys_bytes", JInt (Sys m)); ("total_alloc_bytes", JInt (TotalAlloc m))].

(** ** State and inputs *)

(** The profile the runtime runs: none, ours into an open file, or another. *)
Inductive CPUProfile := NoProfile | Ours (handle : nat) | Foreign.

(** [stopFunc] is the closure over its file. *)
Record Profiler := mkProfiler {
  active : bool;
  stopFunc : option nat;
  runtime : CPUProfile;
  next_handle : nat;
  open_handles : gset nat;
  written : list string;
  nil_call : bool
}.

Definition new_profiler : Profiler := mkProfiler false None NoProfile O ∅ [] false.

(** [PROFILING_DIR] and [os.TempDir()] (clean paths), the formatted times, the
    errors of [MkdirAll], [Create] and of writing a profile, two readings of the
    memory statistics and the count of [ForceGC]. *)
Record Inputs := mkInputs {
  PROFILING_DIR : string;
  TempDir : string;
  ts : string;
  timestamp : string;
  mkdir_err : option string;
  create_err : option string;
  write_err : option string;
  before : MemStats;
  after : MemStats;
  gc_cycles : Z
}.

Definition profile_dir (i : Inputs) : string :=
  if str_empty (PROFILING_DIR i) then Path.Join [TempDir i; "agent-messenger-profiles"]
  else PROFILING_DIR i.

Definition profile_path (kind : string) (i : Inputs) : string :=
  Path.Join [profile_dir i; kind +:+ ts i +:+ ".prof"].

(** ** Responses *)

Definition writeProfileJSON (data : json) : Response :=
  mkResponse StatusOK (set_header content_type application_json ∅) (JSONBody data).

Definition writeProfileError (context : string) (err : option string) : Response :=
  mkResponse StatusInternalServerError (set_header content_type application_json ∅)
    (JSONBody (JObj [("context", JStr context); ("detail", JStr (default EmptyString err));
                     ("status", JStr "error")])).

(** [http.Error] *)
Definition http_error (code : Z) (message : string) : Response :=
  mkResponse code (set_header "X-Content-Type-Options" "nosniff"
    (set_header content_type "text/plain; charset=utf-8" ∅)) (TextBody message).

(** ** Files and the runtime *)

Definition add_file (path : string) (p : Profiler) : Profiler :=
  mkProfiler (active p) (stopFunc p) (runtime p) (next_handle p) (open_handles p)
    (written p ++ [path]) (nil_call p).

(** [os.Create], one write, and the deferred [Close]: the file stays when the write
    fails.  [WriteHeapProfile] and [WriteGoroutineProfile] differ in what they
    write. *)
Definition write_profile (path : string) (i : Inputs) (p : Profiler) : option string * Profiler :=
  match create_err i with
  | Some e => (Some e, p)
  | None => (write_err i, add_file path p)
  end.

(** [StartCPUProfile]: the runtime refuses a second profile, and the new file is
    closed again. *)
Definition StartCPUProfile (path : string) (i : Inputs) (p : Profiler)
    : (string + nat) * Profiler :=
  match create_err i with
  | Some e => (inl e, p)
  | None =>
      let p := add_file path p in
      match runtime p with
      | NoProfile =>
          let h := next_handle p in
          (inr h, mkProfiler (active p) (stopFunc p) (Ours h) (S h) ({[h]} ∪ open_handles p)
             (written p) (nil_call p))
      | _ => (inl "cpu profiling already in use", p)
      end
  end.

(** The closure: [pprof.StopCPUProfile] ends whatever profile runs, then the file
    is closed.  Calling the nil function panics. *)
Definition call_stop (p : Profiler) : Profiler :=
  match stopFunc p with
  | Some h =>
      mkProfiler (active p) (stopFunc p) NoProfile (next_handle p) (open_handles p ∖ {[h]})
        (written p) (nil_call p)
  | None =>
      mkProfiler (active p) (stopFunc p) (runtime p) (next_handle p) (open_handles p)
        (written p) true
  end.

Definition set_state (a : bool) (f : option nat) (p : Profiler) : Profiler :=
  mkProfiler a f (runtime p) (next_handle p) (open_handles p) (written p) (nil_call p).

(** ** Handlers *)

(** [handleHeapProfile] and [handleGoroutineProfile]: the directory, the file, the
    answer. *)
Definition handleHeapProfile (i : Inputs) (p : Profiler) : Response * Profiler :=
  match mkdir_err i with
  | Some e => (writeProfileError "create dir" (Some e), p)
  | None =>
      let path := profile_path "heap_" i in
      match write_profile path i p with
      | (Some e, p) => (writeProfileError "write heap profile" (Some e), p)
      | (None, p) =>
          (writeProfileJSON (JObj [("action", JStr "heap"); ("file", JStr path);
             ("memory", MemoryStats (before i)); ("status", JStr "ok");
             ("timestamp", JStr (timestamp i))]), p)
      end
  end.

Definition handleGoroutineProfile (i : Inputs) (p : Profiler) : Response * Profiler :=
  match mkdir_err i with
  | Some e => (writeProfileError "create dir" (Some e), p)
  | None =>
      let path := profile_path "goroutine_" i in
      match write_profile path i p with
      | (Some e, p) => (writeProfileError "write goroutine profile" (Some e), p)
      | (None, p) =>
          (writeProfileJSON (JObj [("action", JStr "goroutine"); ("file", JStr path);
             ("goroutines", JInt (NumGoroutine (before i))); ("status", JStr "ok");
             ("timestamp", JStr (timestamp i))]), p)
      end
  end.

Definition handleCPUProfileStart (i : Inputs) (p : Profiler) : Response * Profiler :=
  if active p then (writeProfileError "cpu profile already active" None, p) else
  match mkdir_err i with
  | Some e => (writeProfileError "create dir" (Some e), p)
  | None =>
      let path := profile_path "cpu_" i in
      match StartCPUProfile path i p with
      | (inl e, p) => (writeProfileError "start cpu profile" (Some e), p)
      | (inr stop, p) =>
          (writeProfileJSON (JObj [("action", JStr "cpu"); ("file", JStr path);
             ("message", JStr "CPU profiling started. POST /admin/profile?action=cpu_stop to stop.");
             ("status", JStr "profiling"); ("timestamp", JStr (timestamp i))]),
           set_state true (Some stop) p)
      end
  end.

Definition handleCPUProfileStop (i : Inputs) (p : Profiler) : Response * Profiler :=
  if negb (active p) then (writeProfileError "no cpu profile active" None, p) else
  let p := set_state false None (call_stop p) in
  (writeProfileJSON (JObj [("action", JStr "cpu_stop"); ("memory", MemoryStats (before i));
     ("status", JStr "stopped"); ("timestamp", JStr (timestamp i))]), p).

(** [before["alloc_bytes"].(uint64) - after["alloc_bytes"].(uint64)] *)
Definition freed_bytes (before after : MemStats) : Z := (Alloc before - Alloc after) `mod` 2 ^ 64.

Definition handleForceGC (i : Inputs) : Response :=
  writeProfileJSON (JObj [("action", JStr "gc"); ("after", MemoryStats (after i));
    ("before", MemoryStats (before i)); ("freed_bytes", JInt (freed_bytes (before i) (after i)));
    ("gc_cycles", JInt (gc_cycles i)); ("status", JStr "ok"); ("timestamp", JStr (timestamp i))]).

Definition handleMemoryStats (i : Inputs) : Response :=
  writeProfileJSON (JObj [("action", JStr "stats"); ("memory", MemoryStats (before i));
    ("status", JStr "ok"); ("timestamp", JStr (timestamp i))]).

(** The action is in the query, or else in the JSON body of a POST. *)
Definition decode_action (j : json) : Result string :=
  ms ← struct_members j; decode_field decode_string "action" EmptyString ms.

Definition profile_action (r : Request) : string :=
  let action := QueryGet r "action" in
  if str_empty action && bool_decide (Method r = MethodPost) then
    match Body r ≫= decode_action with
    | Ok a => if str_empty a then action else a
    | Err _ => action
    end
  else action.

Definition handleAdminProfile (r : Request) (i : Inputs) (p : Profiler) : Response * Profiler :=
  if negb (bool_decide (Method r = MethodPost)) && negb (bool_decide (Method r = MethodGet)) then
    (http_error StatusMethodNotAllowed "method not allowed", p) else
  let action := profile_action r in
  if decide (action = "heap") then handleHeapProfile i p
  else if decide (action = "goroutine") then handleGoroutineProfile i p
  else if decide (action = "cpu") then handleCPUProfileStart i p
  else if decide (action = "cpu_stop") then handleCPUProfileStop i p
  else if decide (action = "gc") then (handleForceGC i, p)
  else if decide (action = "stats" ∨ action = EmptyString) then (handleMemoryStats i, p)
  else (http_error StatusBadRequest
    ("unknown action: " +:+ action +:+ " (valid: heap, goroutine, cpu, cpu_stop, gc, stats)"), p).

(** ** Snapshots and the settings of the collector *)

(** [ForceGC]: the count of collections after one. *)
Definition ForceGC (m : MemStats) : Z := NumGC m.

(** The time of a snapshot in the two forms it is used in is in the inputs; a file
    that could not be written is left out. *)
Record ProfileSnapshot := mkSnapshot {
  Timestamp : string;
  Memory : json;
  HeapFile : string;
  GoroutineFile : string
}.

Definition captured (path : string) (i : Inputs) (p : Profiler) : string * Profiler :=
  let '(err, p) := write_profile path i p in
  (match err with None => path | Some _ => EmptyString end, p).

(** The two files are written with [i] and [i']; an error of [MkdirAll] is not
    looked at. *)
Definition CaptureProfile (dir : string) (i i' : Inputs) (p : Profiler)
    : ProfileSnapshot * Profiler :=
  if str_empty dir then (mkSnapshot (timestamp i) (MemoryStats (before i)) EmptyString EmptyString, p)
  else
    let '(heap, p) := captured (dir +:+ "/heap_" +:+ ts i +:+ ".prof") i p in
    let '(goroutine, p) := captured (dir +:+ "/goroutine_" +:+ ts i +:+ ".prof") i' p in
    (mkSnapshot (timestamp i) (MemoryStats (before i)) heap goroutine, p).

(** [debug.SetGCPercent] and [debug.SetMemoryLimit] return what was set before; a
    negative limit only reads it. *)
Record GCSettings := mkGC { gc_percent : Z; memory_limit : Z }.

Definition SetGCPercent (percent : Z) (g : GCSettings) : Z * GCSettings :=
  (gc_percent g, mkGC (if decide (percent < 0) then -1 else percent) (memory_limit g)).

Definition SetMemoryLimit (limit : Z) (g : GCSettings) : Z * GCSettings :=
  (memory_limit g, if decide (limit < 0) then g else mkGC (gc_percent g) limit).

(** ** The life of the profiler *)

(** The end of [main]: an active profile is flushed. *)
Definition profile_shutdown (p : Profiler) : Profiler :=
  if active p && bool_decide (is_Some (stopFunc p)) then set_state false None (call_stop p) else p.

(** /debug/pprof/profile starts a profile of its own and stops it after a while;
    when one is running it does nothing. *)
Definition debug_start (p : Profiler) : Profiler :=
  match runtime p with
  | NoProfile =>
      mkProfiler (active p) (stopFunc p) Foreign (next_handle p) (open_handles p) (written p)
        (nil_call p)
  | _ => p
  end.

Definition debug_stop (p : Profiler) : Profiler :=
  match runtime p with
  | Foreign =>
      mkProfiler (active p) (stopFunc p) NoProfile (next_handle p) (open_handles p) (written p)
        (nil_call p)
  | _ => p
  end.

Inductive profile_event :=
  | PRequest (r : Request) (i : Inputs)
  | PDebugStart
  | PDebugStop
  | PShutdown.

Definition profile_step (e : profile_event) (p : Profiler) : Profiler :=
  match e with
  | PRequest r i => (handleAdminProfile r i p).2
  | PDebugStart => debug_start p
  | PDebugStop => debug_stop p
  | PShutdown => profile_shutdown p
  end.

Definition profile_run (es : list profile_event) (p : Profiler) : Profiler :=
  foldl (λ p e, profile_step e p) p es.
