(* ===== verification/ProfileProps.v ===== *)
(** * What the profiling endpoint guarantees

    The flag, the stop function, the runtime's profile and the open file of a CPU
    profile always agree, so the nil function is never called and the end of the
    process leaves no profile running and no file open. *)

From S2P Require Import Prelude GoLib Sql Queue Hub Store World Profile.

(** The three states of the machine. *)
Definition idle (p : Profiler) : Prop :=
  active p = false ∧ stopFunc p = None ∧ open_handles p = ∅ ∧ ∀ h, runtime p ≠ Ours h.

Definition profiling (p : Profiler) : Prop :=
  ∃ h, active p = true ∧ stopFunc p = Some h ∧ runtime p = Ours h ∧ open_handles p = {[h]}.

Definition prof_ok (p : Profiler) : Prop := nil_call p = false ∧ (idle p ∨ profiling p).

Lemma prof_ok_new : prof_ok new_profiler.
Proof. split; [done|]. left. by split_and!. Qed.

(** What a computation leaves alone. *)
Definition same_cpu (p p' : Profiler) : Prop :=
  active p' = active p ∧ stopFunc p' = stopFunc p ∧ runtime p' = runtime p ∧
  open_handles p' = open_handles p ∧ nil_call p' = nil_call p.

Lemma same_cpu_ok p p' : same_cpu p p' → prof_ok p → prof_ok p'.
Proof.
  intros (Ha & Hs & Hr & Ho & Hn). unfold prof_ok, idle, profiling. by rewrite Ha, Hs, Hr, Ho, Hn.
Qed.

Lemma write_profile_cpu path i p : same_cpu p (write_profile path i p).2.
Proof. unfold write_profile. by destruct (create_err i). Qed.

Lemma heap_cpu i p : same_cpu p (handleHeapProfile i p).2.
Proof.
  unfold handleHeapProfile. destruct (mkdir_err i); [by split_and!|].
  pose proof (write_profile_cpu (profile_path "heap_" i) i p) as Hw.
  by destruct (write_profile _ _ _) as [[] ?].
Qed.

Lemma goroutine_cpu i p : same_cpu p (handleGoroutineProfile i p).2.
Proof.
  unfold handleGoroutineProfile. destruct (mkdir_err i); [by split_and!|].
  pose proof (write_profile_cpu (profile_path "goroutine_" i) i p) as Hw.
  by destruct (write_profile _ _ _) as [[] ?].
Qed.

(** Ending our own profile. *)
Lemma stop_idle p : prof_ok p → active p = true → prof_ok (set_state false None (call_stop p)) ∧
  idle (set_state false None (call_stop p)).
Proof.
  intros [Hn [(Ha & _)|(h & Ha & Hs & Hr & Ho)]] Hact; [congruence|].
  unfold call_stop. rewrite Hs.
  assert (idle (set_state false None (mkProfiler (active p) (Some h) NoProfile (next_handle p)
    (open_handles p ∖ {[h]}) (written p) (nil_call p)))) as Hi.
  { split_and!; [done|done| |done]. simpl. rewrite Ho. set_solver. }
  split; [|done]. by split; [|left].
Qed.

Lemma cpu_start_ok i p : prof_ok p → prof_ok (handleCPUProfileStart i p).2.
Proof.
  intros Hp. unfold handleCPUProfileStart. destruct (active p) eqn:Ha; [done|].
  destruct (mkdir_err i); [done|]. unfold StartCPUProfile. destruct (create_err i); [done|].
  destruct Hp as [Hn [(_ & Hs & Ho & Hr)|(h & ? & _)]]; [|congruence]. simpl.
  destruct (runtime p) eqn:Hrt.
  - split; [done|]. right. exists (next_handle p). split_and!; try done. simpl. rewrite Ho. set_solver.
  - by destruct (Hr handle).
  - split; [done|]. left. split_and!; try done. simpl. congruence.
Qed.

Lemma cpu_stop_ok i p : prof_ok p → prof_ok (handleCPUProfileStop i p).2.
Proof.
  intros Hp. unfold handleCPUProfileStop. destruct (active p) eqn:Ha; [|done]. simpl.
  by apply stop_idle.
Qed.

Lemma profile_step_ok e p : prof_ok p → prof_ok (profile_step e p).
Proof.
  intros Hp. destruct e as [r i| | |]; simpl.
  - unfold handleAdminProfile. destruct (_ && _); [done|]. repeat case_decide; try done.
    + by eapply same_cpu_ok; [apply heap_cpu|].
    + by eapply same_cpu_ok; [apply goroutine_cpu|].
    + by apply cpu_start_ok.
    + by apply cpu_stop_ok.
  - unfold debug_start. destruct (runtime p) eqn:Hr; [|done..]. destruct Hp as [Hn Hp].
    split; [done|]. left. destruct Hp as [(? & ? & ? & ?)|(h & ? & ? & ? & ?)]; [by split_and!|].
    congruence.
  - unfold debug_stop. destruct (runtime p) eqn:Hr; [done..|]. destruct Hp as [Hn Hp].
    split; [done|]. left. destruct Hp as [(? & ? & ? & ?)|(h & ? & ? & ? & ?)]; [by split_and!|].
    congruence.
  - unfold profile_shutdown. destruct (active p) eqn:Ha; simpl; [|done].
    case_bool_decide; [|done]. by apply stop_idle.
Qed.

Lemma profile_run_ok es p : prof_ok p → prof_ok (profile_run es p).
Proof.
  revert p. induction es as [|e es IH]; intros p Hp; [done|]. by apply IH, profile_step_ok.
Qed.

(** C40: after any sequence of requests to the profiling endpoint, of
    profiles taken through /debug/pprof and of shutdowns, the machine is idle or
    runs its own profile into its one open file, and no nil stop function was
    called; a start while a profile is active and a stop while none is are
    refused with 500 and change nothing; and a shutdown leaves it idle. *)
Theorem cpu_profile_machine es i :
  let p := profile_run es new_profiler in
  nil_call p = false ∧ (idle p ∨ profiling p) ∧
  (active p = true → handleCPUProfileStart i p =
     (writeProfileError "cpu profile already active" None, p)) ∧
  (active p = false → handleCPUProfileStop i p =
     (writeProfileError "no cpu profile active" None, p)) ∧
  idle (profile_shutdown p).
Proof.
  intros p. pose proof (profile_run_ok es _ prof_ok_new : prof_ok p) as Hp.
  split; [apply Hp|]. split; [apply Hp|]. split; [|split].
  - intros Ha. unfold handleCPUProfileStart. by rewrite Ha.
  - intros Ha. unfold handleCPUProfileStop. by rewrite Ha.
  - pose proof Hp as [_ [Hi|(h & Ha & Hs & _)]]; unfold profile_shutdown.
    + pose proof Hi as (-> & _). done.
    + rewrite Ha, Hs. simpl. by apply stop_idle.
Qed.

(** [freed_bytes] is right just when the heap did not grow between the readings; a
    heap that grew by [n] bytes is reported as [2^64 - n] freed ones. *)
Lemma freed_bytes_exact b a :
  0 ≤ Alloc b < 2 ^ 64 → 0 ≤ Alloc a < 2 ^ 64 →
  freed_bytes b a = if decide (Alloc a ≤ Alloc b) then Alloc b - Alloc a
                    else 2 ^ 64 - (Alloc a - Alloc b).
Proof.
  intros Hb Ha. unfold freed_bytes. case_decide.
  - apply Z.mod_small. lia.
  - symmetry. apply (Z.mod_unique _ _ (-1)); lia.
Qed.

(** A snapshot names just the files that were written, and leaves the CPU profile
    alone. *)
Lemma CaptureProfile_files dir i i' p :
  let '(s, p') := CaptureProfile dir i i' p in
  (∀ f, f ∈ [HeapFile s; GoroutineFile s] → f ≠ EmptyString → f ∈ written p') ∧
  (dir = EmptyString → p' = p) ∧ runtime p' = runtime p ∧ active p' = active p ∧
  stopFunc p' = stopFunc p ∧ open_handles p' = open_handles p.
Proof.
  unfold CaptureProfile. destruct (str_empty dir) eqn:Hd.
  { split_and!; try done. intros f. rewrite !elem_of_cons, elem_of_nil. intros [->|[->|[]]]; done. }
  unfold captured, write_profile.
  destruct (create_err i), (create_err i'), (write_err i), (write_err i'); simpl;
    (split; [|by split; [intros ->; simpl in Hd|]]);
    intros f; rewrite !elem_of_cons, elem_of_nil; intros Hf Hne;
    destruct Hf as [->|[->|[]]]; rewrite ?elem_of_app, ?list_elem_of_singleton; tauto.
Qed.
