(* ===== verification/Logger.v ===== *)
(** * The structured logger (logger.go)

    A logger has a level and fields of its own; an entry is a map that is
    marshalled to one line.  A field's value is a JSON document, or [None] when
    [json.Marshal] cannot encode it.  The level is an [int]: the code compares,
    and does not check, it. *)

From S2P Require Import Prelude GoLib.

Abbreviation Fields := (gmap string (option json)).

Definition LogDebug : Z := 0.
Definition LogInfo : Z := 1.
Definition LogWarn : Z := 2.
Definition LogError : Z := 3.

(** [LogLevel.String] *)
Definition level_string (l : Z) : string :=
  if decide (l = LogDebug) then "debug"
  else if decide (l = LogInfo) then "info"
  else if decide (l = LogWarn) then "warn"
  else if decide (l = LogError) then "error"
  else "unknown".

(** The writer is shared with the loggers made by [WithFields], so what was
    written is kept apart. *)
Record Logger := mkLogger { level : Z; fields : Fields }.

Definition NewLogger (l : Z) : Logger := mkLogger l ∅.
Definition SetLevel (l : Z) (lg : Logger) : Logger := mkLogger l (fields lg).

(** Copying a map into another: the source wins. *)
Definition copy_into (src dst : Fields) : Fields := src ∪ dst.

Definition WithFields (fs : Fields) (lg : Logger) : Logger :=
  mkLogger (level lg) (copy_into fs (copy_into (fields lg) ∅)).

(** [mergeOpt]: the later maps win. *)
Definition mergeOpt (fss : list Fields) : Fields := foldl (λ acc m, copy_into m acc) ∅ fss.

(** The entry of [logEntry]. *)
Definition entry (lg : Logger) (l : Z) (ts msg : string) (fs : Fields) : Fields :=
  copy_into fs (copy_into (fields lg)
    (<["msg" := Some (JStr msg)]> (<["level" := Some (JStr (level_string l))]>
      (<["ts" := Some (JStr ts)]> ∅)))).

(** [json.Marshal] of a map: keys in order, and an error when one value has none. *)
Definition key_le (p q : string * option json) : Prop := String.leb p.1 q.1 = true.

#[export] Instance key_le_dec p q : Decision (key_le p q).
Proof. unfold key_le. apply _. Defined.

Definition marshal_map (m : Fields) : option json :=
  JObj <$> mapM (λ p, v ← p.2; Some (p.1, v)) (merge_sort key_le (map_to_list m)).

(** What one call writes: nothing below the level, the entry, or the plain
    fallback through package log. *)
Inductive Output := Line (j : json) | Fallback (msg : string).

Definition logEntry (lg : Logger) (l : Z) (ts msg : string) (fs : Fields) : list Output :=
  if decide (l < level lg) then [] else
  match marshal_map (entry lg l ts msg fs) with
  | Some j => [Line j]
  | None => [Fallback msg]
  end.

Definition Debug (lg : Logger) (ts msg : string) (fss : list Fields) : list Output :=
  logEntry lg LogDebug ts msg (mergeOpt fss).
Definition Info (lg : Logger) (ts msg : string) (fss : list Fields) : list Output :=
  logEntry lg LogInfo ts msg (mergeOpt fss).
Definition Warn (lg : Logger) (ts msg : string) (fss : list Fields) : list Output :=
  logEntry lg LogWarn ts msg (mergeOpt fss).
Definition Error (lg : Logger) (ts msg : string) (fss : list Fields) : list Output :=
  logEntry lg LogError ts msg (mergeOpt fss).

Example Warn_ex :
  Warn (WithFields {["id" := Some (JInt 7)]} (NewLogger LogWarn)) "t" "m" [{["b" := Some JNull]}]
    = [Line (JObj [("b", JNull); ("id", JInt 7); ("level", JStr "warn"); ("msg", JStr "m");
                   ("ts", JStr "t")])] ∧
  Info (NewLogger LogWarn) "t" "m" [] = [].
Proof. split; vm_compute; reflexivity. Qed.

(** ** Facts *)

Lemma mapM_fields (l : list (string * option json)) :
  (∃ r, mapM (λ p, v ← p.2; Some (p.1, v)) l = Some r) ↔ ∀ k, (k, None) ∉ l.
Proof.
  induction l as [|[k [v|]] l IH]; simpl.
  - split; [intros _ k; apply not_elem_of_nil|eauto].
  - split.
    + intros [r Hr] k' [Hk|Hk]%elem_of_cons; [done|]. revert k' Hk. apply IH.
      destruct (mapM _ l); [eauto|done].
    + intros Hn. destruct (proj2 IH) as [r Hr]; [intros k' Hk; apply (Hn k'); by right|].
      rewrite Hr. by eexists.
  - split; [by intros []|]. intros Hn. destruct (Hn k). left.
Qed.

(** An entry is written as a line just when its level is not below the logger's
    and every one of its values can be encoded; the value of a key is the call's,
    or else the logger's, or else the built-in one, so a field called [level],
    [msg] or [ts] hides it. *)
Lemma logEntry_line lg l ts msg fs :
  (∃ j, logEntry lg l ts msg fs = [Line j]) ↔
  level lg ≤ l ∧ ∀ k, entry lg l ts msg fs !! k ≠ Some None.
Proof.
  unfold logEntry, marshal_map. pose proof (mapM_fields
    (merge_sort key_le (map_to_list (entry lg l ts msg fs)))) as Hm.
  assert (∀ k, (k, None) ∈ merge_sort key_le (map_to_list (entry lg l ts msg fs)) ↔
    entry lg l ts msg fs !! k = Some None) as Hin.
  { intros k. by rewrite merge_sort_Permutation, elem_of_map_to_list. }
  setoid_rewrite Hin in Hm. case_decide.
  - split; [by intros [? ?]|]. lia.
  - destruct (mapM _ _) as [r|]; simpl.
    + split; [|by eauto]. intros _. split; [lia|]. apply Hm. eauto.
    + split; [by intros [? ?]|]. intros [_ Hn]. destruct (proj2 Hm Hn) as [? ?]. done.
Qed.

Lemma entry_lookup lg l ts msg fs k v :
  entry lg l ts msg fs !! k = Some v ↔
  fs !! k = Some v ∨ (fs !! k = None ∧ (fields lg !! k = Some v ∨ (fields lg !! k = None ∧
    ((k = "msg" ∧ v = Some (JStr msg)) ∨ (k = "level" ∧ v = Some (JStr (level_string l))) ∨
     (k = "ts" ∧ v = Some (JStr ts)))))).
Proof.
  unfold entry, copy_into. rewrite !lookup_union_Some_raw, !lookup_insert_Some, lookup_empty.
  naive_solver.
Qed.
