(* ===== verification/Metrics.v ===== *)
(** * Health and metrics (metrics.go, metrics_handler.go, [handleHealth])

    The counters are atomic 64-bit integers that the other components only add
    to; the gauges read the hub and the offline queue.  What the runtime reports
    is an input.  Memory in megabytes is a binary64 number; how JSON prints one is
    a parameter, the text format prints it without a fraction. *)

From S2P Require Import Prelude GoLib FixedWindow RateLimit Tiers Sql Queue Hub Store World Auth Duration.
From Stdlib Require Import Ascii SpecFloat.

(** ** Counters *)

Record Metrics := mkMetrics {
  MessagesIn : Z;
  MessagesOut : Z;
  ConnectionsTotal : Z;
  ErrorsTotal : Z;
  RateLimited : Z;
  StartTime : Z;
  Version : string
}.

Definition NewMetrics (now : Z) : Metrics := mkMetrics 0 0 0 0 0 now "0.2.0".

(** [Add(1)] on an [atomic.Int64] wraps. *)
Inductive Counter := InCounter | OutCounter | ConnCounter | ErrCounter | RateCounter.

Definition count (c : Counter) (m : Metrics) : Metrics :=
  let up (k : Z) (b : bool) := if b then wrap64 (k + 1) else k in
  mkMetrics
    (up (MessagesIn m) (match c with InCounter => true | _ => false end))
    (up (MessagesOut m) (match c with OutCounter => true | _ => false end))
    (up (ConnectionsTotal m) (match c with ConnCounter => true | _ => false end))
    (up (ErrorsTotal m) (match c with ErrCounter => true | _ => false end))
    (up (RateLimited m) (match c with RateCounter => true | _ => false end))
    (StartTime m) (Version m).

(** What the runtime says: goroutines, allocated and system memory in bytes. *)
Record RuntimeStats := mkRuntime { goroutines : Z; alloc_bytes : Z; sys_bytes : Z }.

(** ** Numbers with a fraction *)

(** [float64(n) / 1024 / 1024] *)
Definition megabytes (n : Z) : spec_float := f64_div (f64_div (f64 n) (f64 1024)) (f64 1024).

(** [fmt.Sprintf("%.0f", x)] for a number that is not negative: the nearest
    integer, the even one of two. *)
Definition round_even (x : spec_float) : Z :=
  match x with
  | S754_finite false m (Zneg k) =>
      let d := 2 ^ Zpos k in
      let q := Zpos m / d in
      let r := 2 * (Zpos m `mod` d) in
      if decide (r < d) then q else if decide (d < r) then q + 1
      else if Z.even q then q else q + 1
  | S754_finite false m e => Zpos m * 2 ^ e
  | _ => 0
  end.

Definition FormatFloat0 (x : spec_float) : string := FormatInt (round_even x).

Section metrics.
Context `{Env} (FormatJSONFloat : spec_float → string) (ServerVersion : string) (tracing : bool).

(** ** The snapshot *)

Record Snapshot := mkSnapshot {
  sn_version : string;
  sn_uptime_seconds : Z;
  sn_start_time : string;
  sn_messages_in : Z;
  sn_messages_out : Z;
  sn_connections_total : Z;
  sn_agents_connected : Z;
  sn_clients_connected : Z;
  sn_client_conns_total : Z;
  sn_errors_total : Z;
  sn_rate_limited : Z;
  sn_goroutines : Z;
  sn_memory_alloc_mb : spec_float;
  sn_memory_sys_mb : spec_float;
  sn_offline_queue_depth : Z;
  sn_stale_agents : Z
}.

Definition take_snapshot (m : Metrics) (rt : RuntimeStats) : M Snapshot :=
  t ← now;
  h ← gets hub;
  q ← gets offlineQueue;
  mret (mkSnapshot (Version m) (Seconds_int (t - StartTime m)) (rfc3339 (StartTime m))
    (MessagesIn m) (MessagesOut m) (ConnectionsTotal m)
    (AgentCount h) (ClientCount h) (ClientConnCount h) (ErrorsTotal m) (RateLimited m)
    (goroutines rt) (megabytes (alloc_bytes rt)) (megabytes (sys_bytes rt))
    (TotalDepth q) (StaleAgentCount h)).

(** ** /health *)

Definition snapshot_json (s : Snapshot) (db_status status : string) : json :=
  JObj [("agent_heartbeat", JObj [("enabled", JBool agentPresenceEnabled);
          ("interval_s", JInt (Seconds_int agentPresenceInterval));
          ("stale_agents", JInt (sn_stale_agents s));
          ("timeout_s", JInt (Seconds_int agentPresenceTimeout))]);
        ("agents_connected", JInt (sn_agents_connected s));
        ("client_conns_total", JInt (sn_client_conns_total s));
        ("clients_connected", JInt (sn_clients_connected s));
        ("connections_total", JInt (sn_connections_total s));
        ("db", JStr db_status);
        ("errors_total", JInt (sn_errors_total s));
        ("goroutines", JInt (sn_goroutines s));
        ("memory_alloc_mb", JNum (FormatJSONFloat (sn_memory_alloc_mb s)));
        ("memory_sys_mb", JNum (FormatJSONFloat (sn_memory_sys_mb s)));
        ("messages_in", JInt (sn_messages_in s));
        ("messages_out", JInt (sn_messages_out s));
        ("offline_queue_depth", JInt (sn_offline_queue_depth s));
        ("rate_limited", JInt (sn_rate_limited s));
        ("start_time", JStr (sn_start_time s));
        ("status", JStr status);
        ("tracing_enabled", JBool tracing);
        ("uptime_seconds", JInt (sn_uptime_seconds s));
        ("version", JStr ServerVersion)].

(** The database and the metrics are there once the server serves. *)
Definition handleHealth (m : Metrics) (rt : RuntimeStats) : HandlerFunc := λ h r,
  if negb (method_is MethodGet r) then
    reject StatusMethodNotAllowed "method not allowed" h else
  ping ← exec Ok;
  s ← take_snapshot m rt;
  match ping with
  | Err e => mret (writeJSON StatusServiceUnavailable
      (snapshot_json s ("error: " +:+ Error e) "degraded") h)
  | Ok _ => mret (writeJSON StatusOK (snapshot_json s "ok" "ok") h)
  end.

(** ** /metrics *)

Definition newline : string := String (ascii_of_nat 10) EmptyString.

Definition writeMetric (name mtype help value : string) : string :=
  "# HELP agent_messenger_" +:+ name +:+ " " +:+ help +:+ newline +:+
  "# TYPE agent_messenger_" +:+ name +:+ " " +:+ mtype +:+ newline +:+
  "agent_messenger_" +:+ name +:+ " " +:+ value +:+ newline.

(** [boolToInt] *)
Definition boolToInt (b : bool) : Z := if b then 1 else 0.

(** Multiplied back to bytes. *)
Definition mb_bytes (x : spec_float) : string :=
  FormatFloat0 (f64_mul (f64_mul x (f64 1024)) (f64 1024)).

(** The name, type, help and value of each metric, in the order of the text.  The
    quotes of the version's help are [dq]. *)
Definition dq : string := String (ascii_of_nat 34) EmptyString.

Definition metric_list (s : Snapshot) : list (string * string * string * string) :=
  [("messages_in_total", "counter", "Total messages received", FormatInt (sn_messages_in s));
   ("messages_out_total", "counter", "Total messages sent", FormatInt (sn_messages_out s));
   ("connections_total", "counter", "Total connections since startup",
      FormatInt (sn_connections_total s));
   ("agents_connected", "gauge", "Currently connected agents", FormatInt (sn_agents_connected s));
   ("clients_connected", "gauge", "Currently connected unique client users",
      FormatInt (sn_clients_connected s));
   ("client_conns_total", "gauge", "Total client connections including multi-device",
      FormatInt (sn_client_conns_total s));
   ("errors_total", "counter", "Total errors", FormatInt (sn_errors_total s));
   ("rate_limited_total", "counter", "Total rate-limited messages",
      FormatInt (sn_rate_limited s));
   ("uptime_seconds", "gauge", "Server uptime in seconds", FormatInt (sn_uptime_seconds s));
   ("version", "gauge", "Server version (encoded as 1=" +:+ dq +:+ "0.2.0" +:+ dq +:+ ")", "1");
   ("goroutines", "gauge", "Number of goroutines", FormatInt (sn_goroutines s));
   ("memory_alloc_bytes", "gauge", "Allocated memory in bytes", mb_bytes (sn_memory_alloc_mb s));
   ("memory_sys_bytes", "gauge", "System memory in bytes", mb_bytes (sn_memory_sys_mb s));
   ("offline_queue_depth", "gauge", "Messages queued for offline recipients",
      FormatInt (sn_offline_queue_depth s));
   ("agent_heartbeat_enabled", "gauge",
      "Whether agent heartbeat monitoring is enabled (1=on, 0=off)",
      FormatInt (boolToInt agentPresenceEnabled));
   ("stale_agents", "gauge", "Number of agents that missed heartbeat timeout",
      FormatInt (sn_stale_agents s))].

Definition metrics_text (s : Snapshot) : string :=
  foldr (λ '(n, t, d, v) sb, writeMetric n t d v +:+ sb) EmptyString (metric_list s).

Definition handleMetrics (m : Metrics) (rt : RuntimeStats) : HandlerFunc := λ h r,
  if negb (method_is MethodGet r) then
    reject StatusMethodNotAllowed "method not allowed" h else
  s ← take_snapshot m rt;
  mret (mkResponse StatusOK
    (set_header content_type "text/plain; version=0.0.4; charset=utf-8" h)
    (TextBody (metrics_text s))).
End metrics.

Example megabytes_ex :
  mb_bytes (megabytes 123456789) = "123456789" ∧ mb_bytes (megabytes 1) = "1" ∧
  FormatFloat0 (f64_div (f64 5) (f64 2)) = "2".
Proof. split_and!; vm_compute; reflexivity. Qed.
