(* ===== verification/MetricsProps.v ===== *)
(** * What a collector reads from /metrics

    The text of [handleMetrics] is read back by the rules of the exposition
    format: lines, of which those that start with a hash are comments, and a
    name and a value separated by a space. *)

From S2P Require Import Prelude GoLib FixedWindow RateLimit Tiers Sql Queue Hub Store World Auth Duration.
From S2P Require Import Admits Effects Demo Metrics.
From Stdlib Require Import Ascii SpecFloat.

Definition nl : ascii := ascii_of_nat 10.
Definition blank : ascii := ascii_of_nat 32.

Definition parse_line (l : string) : option (string * string) :=
  if HasPrefix l "#" then None else
  match Split l blank with [n; v] => Some (n, v) | _ => None end.

Definition parse_metrics (t : string) : list (string * string) := omap parse_line (Split t nl).

(** ** Lines *)

(** What a metric may consist of. *)
Definition metric_ok (m : string * string * string * string) : Prop :=
  let '(n, t, d, v) := m in
  nl ∉ chars n ∧ nl ∉ chars t ∧ nl ∉ chars d ∧ nl ∉ chars v ∧
  blank ∉ chars n ∧ blank ∉ chars v.

Lemma not_in_app c s t : c ∉ chars s → c ∉ chars t → c ∉ chars (s +:+ t).
Proof. intros Hs Ht. rewrite chars_app. apply not_elem_of_app. by split. Qed.

Ltac literal := apply (bool_decide_unpack _); vm_compute; exact I.

Lemma writeMetric_lines n t d v rest :
  writeMetric n t d v +:+ rest =
    ("# HELP agent_messenger_" +:+ n +:+ " " +:+ d) +:+ String nl
      (("# TYPE agent_messenger_" +:+ n +:+ " " +:+ t) +:+ String nl
        (("agent_messenger_" +:+ n +:+ " " +:+ v) +:+ String nl rest)).
Proof.
  assert (∀ x, String nl x = newline +:+ x) as Hnl by done. rewrite !Hnl.
  unfold writeMetric. by rewrite <-!str_app_assoc.
Qed.

Lemma comment_line s : parse_line ("# " +:+ s) = None.
Proof. reflexivity. Qed.

Lemma value_line n v :
  blank ∉ chars n → blank ∉ chars v →
  parse_line ("agent_messenger_" +:+ n +:+ " " +:+ v) = Some ("agent_messenger_" +:+ n, v).
Proof.
  intros Hn Hv. unfold parse_line. rewrite str_app_assoc.
  change (HasPrefix (("agent_messenger_" +:+ n) +:+ " " +:+ v) "#") with false. cbv iota.
  change (" " +:+ v) with (String blank v). rewrite Split_line.
  - by rewrite Split_absent.
  - apply not_in_app; [literal|done].
Qed.

Lemma parse_writeMetric n t d v rest :
  metric_ok (n, t, d, v) →
  parse_metrics (writeMetric n t d v +:+ rest) =
    ("agent_messenger_" +:+ n, v) :: parse_metrics rest.
Proof.
  intros (Hn & Ht & Hd & Hv & Hbn & Hbv). rewrite writeMetric_lines. unfold parse_metrics.
  rewrite !Split_line by (repeat apply not_in_app; solve [done|literal]).
  cbn [omap list_omap].
  change (parse_line ("# HELP agent_messenger_" +:+ n +:+ " " +:+ d)) with (@None (string * string)).
  change (parse_line ("# TYPE agent_messenger_" +:+ n +:+ " " +:+ t)) with (@None (string * string)).
  by rewrite value_line.
Qed.

Lemma parse_all l :
  Forall metric_ok l →
  parse_metrics (foldr (λ '(n, t, d, v) sb, writeMetric n t d v +:+ sb) EmptyString l) =
    (λ '(n, _, _, v), ("agent_messenger_" +:+ n, v)) <$> l.
Proof.
  induction 1 as [|[[[n t] d] v] l Hm _ IH]; [reflexivity|]. cbn [foldr].
  rewrite parse_writeMetric by done. by rewrite IH.
Qed.

(** ** The list of metrics *)

Lemma number_clean z c : ¬ number_char c → c ∉ chars (FormatInt z).
Proof. intros Hc Hin. by apply FormatInt_chars in Hin. Qed.

Lemma nl_number z : nl ∉ chars (FormatInt z).
Proof.
  apply number_clean. intros [Hc|Hc]; [discriminate|]. change (nat_of_ascii nl) with 10%nat in Hc. lia.
Qed.

Lemma blank_number z : blank ∉ chars (FormatInt z).
Proof.
  apply number_clean. intros [Hc|Hc]; [discriminate|]. change (nat_of_ascii blank) with 32%nat in Hc. lia.
Qed.

Section metrics.
Context `{Env}.

Lemma metric_list_ok s : Forall metric_ok (metric_list s).
Proof.
  unfold metric_list, mb_bytes, FormatFloat0.
  repeat (apply Forall_cons; split; [split_and!; try literal; apply nl_number || apply blank_number|]).
  constructor.
Qed.

(** A GET of /metrics changes nothing, and what a collector reads
    from its answer is sixteen metrics with different names: the counters, the
    sizes of the hub's maps, the stale agents and the depth of the offline queue
    as they are, the memory, and the time since the start. *)
Theorem handleMetrics_readable m rt h r w :
  Method r = MethodGet →
  let '(res, w') := handleMetrics m rt h r w in
  StatusCode res = StatusOK ∧ db w' = db w ∧ hub w' = hub w ∧ offlineQueue w' = offlineQueue w ∧
  ∃ text, ResBody res = TextBody text ∧ NoDup (parse_metrics text).*1 ∧
  parse_metrics text =
    [("agent_messenger_messages_in_total", FormatInt (MessagesIn m));
     ("agent_messenger_messages_out_total", FormatInt (MessagesOut m));
     ("agent_messenger_connections_total", FormatInt (ConnectionsTotal m));
     ("agent_messenger_agents_connected", FormatInt (AgentCount (hub w)));
     ("agent_messenger_clients_connected", FormatInt (ClientCount (hub w)));
     ("agent_messenger_client_conns_total", FormatInt (ClientConnCount (hub w)));
     ("agent_messenger_errors_total", FormatInt (ErrorsTotal m));
     ("agent_messenger_rate_limited_total", FormatInt (RateLimited m));
     ("agent_messenger_uptime_seconds", FormatInt (Seconds_int ((now w).1 - StartTime m)));
     ("agent_messenger_version", "1");
     ("agent_messenger_goroutines", FormatInt (goroutines rt));
     ("agent_messenger_memory_alloc_bytes", mb_bytes (megabytes (alloc_bytes rt)));
     ("agent_messenger_memory_sys_bytes", mb_bytes (megabytes (sys_bytes rt)));
     ("agent_messenger_offline_queue_depth", FormatInt (TotalDepth (offlineQueue w)));
     ("agent_messenger_agent_heartbeat_enabled", FormatInt (boolToInt agentPresenceEnabled));
     ("agent_messenger_stale_agents", FormatInt (StaleAgentCount (hub w)))].
Proof.
  intros Hm. unfold handleMetrics, method_is. rewrite Hm, bool_decide_true by done.
  cbn [negb]. unfold take_snapshot. rewrite !run_bind. unfold gets, mret, St_ret. cbn [fst snd].
  split; [reflexivity|]. split; [reflexivity|]. split; [reflexivity|]. split; [reflexivity|].
  eexists. split; [reflexivity|]. unfold metrics_text. rewrite parse_all by apply metric_list_ok.
  split; [|reflexivity]. unfold metric_list. cbn [fmap list_fmap fst].
  literal.
Qed.
End metrics.

Lemma handleMetrics_readable_witness :
  let r := demo_request "GET" "/metrics" [] [] [] in
  Method r = MethodGet ∧
  ∃ text, ResBody (@handleMetrics demo_env (NewMetrics 0) (mkRuntime 7 1048576 2097152) ∅ r
                     demo_world).1 = TextBody text ∧
    parse_metrics text !! 11%nat = Some ("agent_messenger_memory_alloc_bytes", "1048576").
Proof.
  split; [reflexivity|].
  pose proof (@handleMetrics_readable demo_env (NewMetrics 0) (mkRuntime 7 1048576 2097152) ∅
    (demo_request "GET" "/metrics" [] [] []) demo_world eq_refl) as Hm.
  destruct (handleMetrics _ _ _ _ _) as [res w'].
  destruct Hm as (_ & _ & _ & _ & text & Ht & _ & Hp). exists text. split; [exact Ht|].
  rewrite Hp. vm_compute. reflexivity.
Defined.
