(* ===== verification/Lifecycle.v ===== *)
(** * The hub's goroutines and their shutdown (hub.go)

    The goroutine of [run], the heartbeat monitor, the read pumps and the callers
    of [Stop] share three channels that are only ever closed ([done], [runDone],
    [monitorDone]) and two unbuffered ones ([register], [unregister]).  A state
    holds the program counter of each goroutine; an event is one step of one of
    them.  A receive from an unbuffered channel is one step of both sides.  The
    sections under [h.mu] never block, so each of them is one step. *)

From S2P Require Import Prelude GoLib Hub HubInv HubProps.

(** ** States *)

(** [run]: not scheduled yet, in its select, returned with the deferred call
    still to do, over. *)
Inductive run_pc := NotStarted | Loop | Exiting | Exited.

(** [monitorAgentHeartbeats]: [NoMonitor] when presence is disabled, [Entered]
    before the test of the interval, [Select], [Checking rs] with the stale
    connections still to hand over, [Returning] before the deferred close. *)
Inductive mon_pc := NoMonitor | Entered | Select | Checking (rs : list ref) | Returning | Over.

(** [Stop]: about to close [done], to look whether [run] was started, to close
    [runDone] in its place, to wait for either goroutine, back at its caller. *)
Inductive stop_pc := Called | Closed | NeverStarted | WaitRun | WaitMonitor | Returned.

Record Life := mkLife {
  hub : Hub;
  done : bool;
  runDone : bool;
  monitorDone : bool;
  stopOnce : bool;
  runDoneOnce : bool;
  runStarted : bool;
  run : run_pc;
  mon : mon_pc;
  reading : gset ref;
  leaving : gset ref;
  stops : list stop_pc;
  panicked : bool
}.

Definition set_hub (h : Hub) (s : Life) : Life :=
  mkLife h (done s) (runDone s) (monitorDone s) (stopOnce s) (runDoneOnce s) (runStarted s)
    (run s) (mon s) (reading s) (leaving s) (stops s) (panicked s).

Definition set_pumps (reading leaving : gset ref) (s : Life) : Life :=
  mkLife (hub s) (done s) (runDone s) (monitorDone s) (stopOnce s) (runDoneOnce s)
    (runStarted s) (run s) (mon s) reading leaving (stops s) (panicked s).

Definition set_run (pc : run_pc) (s : Life) : Life :=
  mkLife (hub s) (done s) (runDone s) (monitorDone s) (stopOnce s) (runDoneOnce s)
    (runStarted s) pc (mon s) (reading s) (leaving s) (stops s) (panicked s).

Definition set_mon (pc : mon_pc) (s : Life) : Life :=
  mkLife (hub s) (done s) (runDone s) (monitorDone s) (stopOnce s) (runDoneOnce s)
    (runStarted s) (run s) pc (reading s) (leaving s) (stops s) (panicked s).

Definition set_stop (i : nat) (pc : stop_pc) (s : Life) : Life :=
  mkLife (hub s) (done s) (runDone s) (monitorDone s) (stopOnce s) (runDoneOnce s)
    (runStarted s) (run s) (mon s) (reading s) (leaving s) (<[i := pc]> (stops s)) (panicked s).

Definition set_started (s : Life) : Life :=
  mkLife (hub s) (done s) (runDone s) (monitorDone s) (stopOnce s) (runDoneOnce s)
    true (run s) (mon s) (reading s) (leaving s) (stops s) (panicked s).

Definition call_stop (s : Life) : Life :=
  mkLife (hub s) (done s) (runDone s) (monitorDone s) (stopOnce s) (runDoneOnce s)
    (runStarted s) (run s) (mon s) (reading s) (leaving s) (stops s ++ [Called]) (panicked s).

Definition crash (s : Life) : Life :=
  mkLife (hub s) (done s) (runDone s) (monitorDone s) (stopOnce s) (runDoneOnce s)
    (runStarted s) (run s) (mon s) (reading s) (leaving s) (stops s) true.

(** [close(h.done)], [close(h.runDone)] and [close(h.monitorDone)]: closing a
    closed channel panics. *)
Definition close_done (s : Life) : Life :=
  if done s then crash s
  else mkLife (hub s) true (runDone s) (monitorDone s) (stopOnce s) (runDoneOnce s)
    (runStarted s) (run s) (mon s) (reading s) (leaving s) (stops s) (panicked s).

Definition close_runDone (s : Life) : Life :=
  if runDone s then crash s
  else mkLife (hub s) (done s) true (monitorDone s) (stopOnce s) (runDoneOnce s)
    (runStarted s) (run s) (mon s) (reading s) (leaving s) (stops s) (panicked s).

Definition close_monitorDone (s : Life) : Life :=
  if monitorDone s then crash s
  else mkLife (hub s) (done s) (runDone s) true (stopOnce s) (runDoneOnce s)
    (runStarted s) (run s) (mon s) (reading s) (leaving s) (stops s) (panicked s).

(** [h.stopOnce.Do(func() { close(h.done) })] and the same for [runDoneOnce]. *)
Definition stop_once (s : Life) : Life :=
  if stopOnce s then s
  else close_done (mkLife (hub s) (done s) (runDone s) (monitorDone s) true (runDoneOnce s)
    (runStarted s) (run s) (mon s) (reading s) (leaving s) (stops s) (panicked s)).

Definition run_done_once (s : Life) : Life :=
  if runDoneOnce s then s
  else close_runDone (mkLife (hub s) (done s) (runDone s) (monitorDone s) (stopOnce s) true
    (runStarted s) (run s) (mon s) (reading s) (leaving s) (stops s) (panicked s)).

(** An operation of the hub that may panic. *)
Definition on_hub (h : option Hub) (s : Life) : Life :=
  match h with Some h => set_hub h s | None => crash s end.

(** ** Steps *)

Section lifecycle.
Variables (agentPresenceEnabled : bool) (agentPresenceInterval agentPresenceTimeout : Z).

(** [newHub]: the monitor is started, or its channel closed at once. *)
Definition start_hub : Life :=
  mkLife newHub false false (negb agentPresenceEnabled) false false false NotStarted
    (if agentPresenceEnabled then Entered else NoMonitor) ∅ ∅ [] false.

Inductive event :=
  | RunStart
  | RunRegister (t now : Z) (ct : ConnType) (i dev version : string)
  | RunUnregister (r : ref)
  | RunStale
  | RunBroadcast (d : json)
  | RunSeesDone
  | RunDeferred
  | MonitorStart
  | MonitorTick (now : Z)
  | MonitorNext
  | MonitorSeesDone
  | MonitorDeferred
  | ReadFails (r : ref)
  | HubCall (e : hub_event)
  | StopCalled
  | StopStep (i : nat).

(** One case of [run]'s select.  A connect handler hands its new connection over
    and then starts the connection's pumps. *)
Definition run_step (e : event) (s : Life) : option Life :=
  match e, run s with
  | RunStart, NotStarted => Some (set_run Loop (set_started s))
  | RunRegister t now ct i dev v, Loop =>
      let s' := on_hub (connect now (newConnection ct i dev t v) (hub s)) s in
      Some (set_pumps ({[next_ref (hub s)]} ∪ reading s) (leaving s) s')
  | RunUnregister r, Loop =>
      if decide (r ∈ leaving s)
      then Some (set_pumps (reading s) (leaving s ∖ {[r]}) (on_hub (unregister r (hub s)) s))
      else None
  | RunStale, Loop =>
      match mon s with
      | Checking (r :: rs) => Some (set_mon (Checking rs) (on_hub (unregister r (hub s)) s))
      | _ => None
      end
  | RunBroadcast d, Loop => Some (set_hub (broadcast d (hub s)) s)
  | RunSeesDone, Loop => if done s then Some (set_run Exiting s) else None
  | RunDeferred, Exiting => Some (set_run Exited (run_done_once s))
  | _, _ => None
  end.

(** [monitorAgentHeartbeats] and the loops of [checkStaleAgents]. *)
Definition monitor_step (e : event) (s : Life) : option Life :=
  match e, mon s with
  | MonitorStart, Entered =>
      Some (set_mon (if decide (agentPresenceInterval = 0) then Returning else Select) s)
  | MonitorTick now, Select =>
      let '(rs, h) := collect_stale agentPresenceTimeout now (hub s) in
      Some (set_mon (Checking rs) (set_hub h s))
  | MonitorNext, Checking [] => Some (set_mon Select s)
  | MonitorSeesDone, Select => if done s then Some (set_mon Returning s) else None
  | MonitorDeferred, Returning => Some (set_mon Over (close_monitorDone s))
  | _, _ => None
  end.

(** [Stop], for the caller [i]. *)
Definition stop_step (i : nat) (s : Life) : option Life :=
  match stops s !! i with
  | Some Called => Some (set_stop i Closed (stop_once s))
  | Some Closed => Some (set_stop i (if runStarted s then WaitRun else NeverStarted) s)
  | Some NeverStarted => Some (set_stop i WaitRun (run_done_once s))
  | Some WaitRun => if runDone s then Some (set_stop i WaitMonitor s) else None
  | Some WaitMonitor => if monitorDone s then Some (set_stop i Returned s) else None
  | _ => None
  end.

(** The sections of the other goroutines under [h.mu]: sends, heartbeats, status
    changes, and the write pumps. *)
Definition hub_call (e : hub_event) (s : Life) : option Life :=
  match e with
  | ESend _ _ | EBroadcastClients _ | EHeartbeat _ _ | ESetStatus _ _ | EWritePump _ =>
      Some (on_hub (hub_step e (hub s)) s)
  | _ => None
  end.

Definition fire (e : event) (s : Life) : option Life :=
  if panicked s then None
  else match e with
  | MonitorStart | MonitorTick _ | MonitorNext | MonitorSeesDone | MonitorDeferred =>
      monitor_step e s
  | ReadFails r =>
      if decide (r ∈ reading s)
      then Some (set_pumps (reading s ∖ {[r]}) ({[r]} ∪ leaving s) s) else None
  | HubCall e => hub_call e s
  | StopCalled => Some (call_stop s)
  | StopStep i => stop_step i s
  | _ => run_step e s
  end.

Fixpoint fires (es : list event) (s : Life) : option Life :=
  match es with
  | [] => Some s
  | e :: es => s ← fire e s; fires es s
  end.
End lifecycle.
