(* ===== verification/LifecycleProps.v ===== *)
(** * What the hub's goroutines guarantee

    No schedule closes a channel twice or disconnects a connection twice, in the
    hub or in its shutdown; a call of [Stop] can return from every reachable
    state but one kind, in which the monitor hands a stale connection to a
    [run] that has gone. *)

From S2P Require Import Prelude GoLib Hub HubInv HubProps Lifecycle.

(** ** The heap only grows *)

Lemma mark_and_close_dom r h h' r' :
  mark_and_close r h = Some h' → is_Some (heap h !! r') → is_Some (heap h' !! r').
Proof.
  unfold mark_and_close. intros Hm Hr. destruct (heap h !! r) as [c|]; [|done]. simpl in Hm.
  destruct (close_send (MarkClosed c)) as [c'|]; [|done]. simpl in Hm. simplify_eq. simpl.
  rewrite lookup_insert_is_Some. destruct (decide (r = r')); auto.
Qed.

Lemma register_dom now r h h' r' :
  register now r h = Some h' → is_Some (heap h !! r') → is_Some (heap h' !! r').
Proof.
  unfold register. intros Hreg Hr. destruct (heap h !! r) as [c|]; [|done]. simpl in Hreg.
  assert (is_Some (alter (set_heartbeat now) r (heap h) !! r')) as Ha
    by by apply lookup_alter_is_Some.
  destruct (connType c).
  - destruct (agents h !! id c); simpl in Hreg.
    + destruct (mark_and_close _ _) as [h1|] eqn:Hm; [|done]. simpl in Hreg. simplify_eq.
      unfold broadcastPresence. rewrite (frame_dom _ _ (frame_send_all _ _ _)).
      simpl. eapply mark_and_close_dom; [exact Hm|done].
    + simplify_eq. unfold broadcastPresence. by rewrite (frame_dom _ _ (frame_send_all _ _ _)).
  - destruct (find_device _ _ _); simpl in Hreg; [|by simplify_eq].
    destruct (devices _ _ !! _); [|done]. simpl in Hreg.
    destruct (mark_and_close _ _) as [h1|] eqn:Hm; [|done]. simpl in Hreg. simplify_eq.
    simpl. eapply mark_and_close_dom; [exact Hm|done].
Qed.

Lemma connect_dom now c h h' r :
  connect now c h = Some h' →
  is_Some (heap h !! r) ∨ r = next_ref h → is_Some (heap h' !! r).
Proof.
  intros Hc Hr. eapply register_dom; [exact Hc|]. simpl. rewrite lookup_insert_is_Some.
  destruct (decide (next_ref h = r)); naive_solver.
Qed.

Lemma hub_step_dom e h h' r :
  wf h → hub_step e h = Some h' → is_Some (heap h !! r) → is_Some (heap h' !! r).
Proof.
  intros Hwf He Hr. destruct e; simpl in He; simplify_eq;
    try (by rewrite frame_dom by eauto with hub).
  - eapply connect_dom; eauto.
  - case_decide as Hd; [|by simplify_eq].
    destruct (unregister_spec _ _ Hwf Hd) as (h1 & Hu & _ & _ & _ & Hdom).
    simplify_eq. by apply Hdom.
Qed.

(** ** The invariant of the goroutines *)

#[global] Instance mon_pc_eq_dec : EqDecision mon_pc.
Proof. solve_decision. Defined.

Definition refs_ok (h : Hub) (P : ref → Prop) : Prop := ∀ r, P r → is_Some (heap h !! r).

Definition stale_list (pc : mon_pc) : list ref :=
  match pc with Checking rs => rs | _ => [] end.

(** The connections a goroutine holds a pointer to. *)
Definition known (s : Life) (r : ref) : Prop :=
  r ∈ stale_list (mon s) ∨ r ∈ reading s ∨ r ∈ leaving s.

(** What a caller of [Stop] knows at each point. *)
Definition stop_ok (s : Life) (pc : stop_pc) : Prop :=
  match pc with
  | Called => True
  | Closed | NeverStarted | WaitRun => done s = true
  | WaitMonitor => done s = true ∧ runDone s = true
  | Returned => done s = true ∧ runDone s = true ∧ monitorDone s = true
  end.

Record life_ok (s : Life) : Prop := {
  life_wf : wf (hub s);
  life_known : refs_ok (hub s) (known s);
  life_done : done s = stopOnce s;
  life_run_done : runDone s = runDoneOnce s;
  life_monitor_done : monitorDone s = bool_decide (mon s = NoMonitor ∨ mon s = Over);
  life_exited : run s = Exited → runDone s = true;
  life_stops : Forall (stop_ok s) (stops s);
  life_panicked : panicked s = false
}.

Section lifecycle.
Variables (agentPresenceEnabled : bool) (agentPresenceInterval agentPresenceTimeout : Z).

Abbreviation start := (start_hub agentPresenceEnabled).
Abbreviation fire := (fire agentPresenceInterval agentPresenceTimeout).
Abbreviation fires := (fires agentPresenceInterval agentPresenceTimeout).

Lemma start_ok : life_ok start.
Proof.
  split; try reflexivity.
  - apply wf_newHub.
  - unfold known. simpl. intros r. destruct agentPresenceEnabled; simpl; set_solver.
  - by destruct agentPresenceEnabled.
  - discriminate.
  - constructor.
Qed.

(** An operation of the hub on behalf of some goroutine. *)
Lemma on_hub_ok s h' :
  life_ok s → wf h' → (∀ r, is_Some (heap (hub s) !! r) → is_Some (heap h' !! r)) →
  life_ok (on_hub (Some h') s).
Proof.
  intros [] Hwf Hd. split; try done. intros r Hr. by apply Hd, life_known0.
Qed.

Lemma known_ok s s' :
  life_ok s → hub s' = hub s → (∀ r, known s' r → known s r) → refs_ok (hub s') (known s').
Proof. intros Hs -> Hk r Hr. by apply (life_known _ Hs), Hk. Qed.

Lemma hub_call_ok e s s' : life_ok s → hub_call e s = Some s' → life_ok s'.
Proof.
  intros Hs He. pose proof (life_wf _ Hs) as Hwf.
  destruct (hub_step_spec e (hub s) (live (hub s), next_ref (hub s)) Hwf) as (h' & Hh & Hwf' & _);
    [done|].
  assert (s' = on_hub (Some h') s) as -> by (destruct e; simpl in He; simplify_eq; by rewrite <-Hh).
  apply on_hub_ok; [done..|]. intros r. by eapply hub_step_dom.
Qed.

Lemma stop_ok_mono s s' pc :
  (done s = true → done s' = true) → (runDone s = true → runDone s' = true) →
  (monitorDone s = true → monitorDone s' = true) → stop_ok s pc → stop_ok s' pc.
Proof. destruct pc; simpl; naive_solver. Qed.

(** A step that moves program counters and pumps and touches no channel. *)
Lemma move_ok s s' :
  life_ok s → hub s' = hub s → (∀ r, known s' r → known s r) →
  done s' = done s → runDone s' = runDone s → monitorDone s' = monitorDone s →
  stopOnce s' = stopOnce s → runDoneOnce s' = runDoneOnce s → panicked s' = panicked s →
  bool_decide (mon s' = NoMonitor ∨ mon s' = Over) =
    bool_decide (mon s = NoMonitor ∨ mon s = Over) →
  (run s' = Exited → run s = Exited ∨ runDone s = true) →
  Forall (stop_ok s) (stops s') → life_ok s'.
Proof.
  intros Hs Hh Hk Hd Hr Hm Hso Hro Hp Hmon Hrun Hst.
  split; rewrite ?Hh, ?Hd, ?Hr, ?Hm, ?Hso, ?Hro, ?Hp; try apply Hs.
  - rewrite <-Hh. by apply (known_ok s).
  - rewrite Hmon. apply Hs.
  - intros [?|?]%Hrun; [by apply Hs|done].
  - eapply Forall_impl; [exact Hst|]. intros pc. apply stop_ok_mono; congruence.
Qed.

(** The two [sync.Once] blocks: the channel is closed by the first caller only. *)
Lemma stop_once_ok s :
  life_ok s → life_ok (stop_once s) ∧ done (stop_once s) = true ∧
    run (stop_once s) = run s ∧ mon (stop_once s) = mon s ∧ stops (stop_once s) = stops s ∧
    runDone (stop_once s) = runDone s ∧ hub (stop_once s) = hub s ∧
    monitorDone (stop_once s) = monitorDone s.
Proof.
  intros Hs. unfold stop_once, close_done. pose proof (life_done _ Hs) as Hd.
  destruct (stopOnce s) eqn:Ho; [by split_and!|]. simpl. rewrite Hd.
  split_and!; try reflexivity. split; simpl; try apply Hs; [reflexivity|].
  eapply Forall_impl; [apply Hs|]. intros pc. by apply stop_ok_mono.
Qed.

Lemma run_done_once_ok s :
  life_ok s → life_ok (run_done_once s) ∧ runDone (run_done_once s) = true ∧
    run (run_done_once s) = run s ∧ mon (run_done_once s) = mon s ∧
    stops (run_done_once s) = stops s ∧ done (run_done_once s) = done s ∧
    hub (run_done_once s) = hub s ∧ monitorDone (run_done_once s) = monitorDone s.
Proof.
  intros Hs. unfold run_done_once, close_runDone. pose proof (life_run_done _ Hs) as Hd.
  destruct (runDoneOnce s) eqn:Ho; [by split_and!|]. simpl. rewrite Hd.
  split_and!; try reflexivity. split; simpl; try apply Hs; [reflexivity|reflexivity|].
  eapply Forall_impl; [apply Hs|]. intros pc. by apply stop_ok_mono.
Qed.

Lemma tick_ok now s :
  life_ok s → mon s = Select →
  life_ok (set_mon (Checking (collect_stale agentPresenceTimeout now (hub s)).1)
             (set_hub (collect_stale agentPresenceTimeout now (hub s)).2 s)).
Proof.
  intros Hs Hm. pose proof (life_wf _ Hs) as Hwf. destruct Hs. split; try done.
  - simpl. by apply (wf_frame (hub s)); [split|].
  - intros r. unfold known. simpl. intros [Hr|Hr].
    + apply list_elem_of_filter in Hr as [_ (a & dev & Hl)%elem_of_agent_refs]; [|done].
      apply live_Some in Hl as (c & ? & _). eauto.
    + apply life_known0. by right.
  - simpl. by rewrite life_monitor_done0, Hm.
Qed.

Lemma deferred_ok s :
  life_ok s → mon s = Returning → life_ok (set_mon Over (close_monitorDone s)).
Proof.
  intros Hs Hm. pose proof (life_monitor_done _ Hs) as Hd. rewrite Hm in Hd.
  unfold close_monitorDone. rewrite Hd. simpl. destruct Hs. split; try done.
  - intros r [Hr|Hr]; [set_solver|]. apply life_known0. by right.
  - eapply Forall_impl; [eassumption|]. intros pc. by apply stop_ok_mono.
Qed.

Lemma monitor_step_ok e s s' :
  life_ok s → monitor_step agentPresenceInterval agentPresenceTimeout e s = Some s' → life_ok s'.
Proof.
  intros Hs He. pose proof (life_monitor_done _ Hs) as Hm.
  destruct e; simpl in He; try discriminate;
    destruct (mon s) as [| | |[|r rs]| |] eqn:Hmon; try discriminate.
  - injection He as <-. apply (move_ok s); try reflexivity; try apply Hs.
    + intros r. unfold known. simpl. rewrite Hmon. by destruct (decide (_ = 0)).
    + simpl. rewrite Hmon. by destruct (decide (_ = 0)).
    + auto.
  - injection He as <-. by apply (tick_ok now).
  - injection He as <-. apply (move_ok s); try reflexivity; try apply Hs; [|by rewrite Hmon|auto].
    intros r. unfold known. by rewrite Hmon.
  - destruct (done s); [|done]. injection He as <-.
    apply (move_ok s); try reflexivity; try apply Hs; [|by rewrite Hmon|auto].
    intros r. unfold known. by rewrite Hmon.
  - injection He as <-. by apply deferred_ok.
Qed.

Lemma stop_step_ok i s s' : life_ok s → stop_step i s = Some s' → life_ok s'.
Proof.
  intros Hs. unfold stop_step. destruct (stops s !! i) as [pc|] eqn:Hi; [|done].
  pose proof (proj1 (Forall_lookup _ _) (life_stops _ Hs) _ _ Hi) as Hpc.
  assert (∀ s1 pc', life_ok s1 → stops s1 = stops s → stop_ok s1 pc' →
    life_ok (set_stop i pc' s1)) as Hset.
  { intros s1 pc' Hs1 Hst Hpc'. apply (move_ok s1); try reflexivity; try done; [auto|].
    apply Forall_insert; [apply Hs1|done]. }
  destruct (stop_once_ok s Hs) as (Hs1 & Hd1 & _ & _ & Hst1 & _).
  destruct (run_done_once_ok s Hs) as (Hs2 & _ & _ & _ & Hst2 & Hd2 & _).
  destruct pc; simpl in Hpc; try case_match; intros; simplify_eq; apply Hset; try done.
  - simpl. congruence.
  - simpl. naive_solver.
Qed.

Lemma on_hub_panics s h' : panicked (on_hub (Some h') s) = panicked s.
Proof. reflexivity. Qed.

Lemma unregister_ok r s :
  life_ok s → is_Some (heap (hub s) !! r) →
  life_ok (on_hub (unregister r (hub s)) s) ∧ ∃ h', unregister r (hub s) = Some h'.
Proof.
  intros Hs Hr. destruct (unregister_spec r (hub s) (life_wf _ Hs) Hr)
    as (h' & -> & Hwf & _ & _ & Hd). split; [|eauto].
  apply on_hub_ok; [done..|]. intros r'. apply Hd.
Qed.

Lemma run_step_ok e s s' : life_ok s → run_step e s = Some s' → life_ok s'.
Proof.
  intros Hs He. pose proof (life_wf _ Hs) as Hwf.
  destruct e; simpl in He; destruct (run s) eqn:Hrun; try discriminate.
  - injection He as <-. apply (move_ok s); try reflexivity; try done; try apply Hs.
  - injection He as <-.
    destruct (connect_spec now t ct i dev version (hub s) Hwf) as (h' & Hc & Hwf' & _).
    rewrite Hc. pose proof (λ r, connect_dom now _ _ _ r Hc) as Hn.
    destruct Hs. split; try done. intros r. unfold known. simpl. intros Hr. apply Hn.
    destruct (decide (r = next_ref (hub s))); [by right|left; apply life_known0].
    unfold known. set_solver.
  - case_decide as Hr; [|done]. injection He as <-.
    destruct (unregister_ok r s Hs) as [Hs' [h' Hh]]; [apply (life_known _ Hs); unfold known; auto|].
    apply (move_ok _ _ Hs'); try (by rewrite Hh); [..|apply Hs'].
    + rewrite Hh. unfold known. set_solver.
    + rewrite Hh. simpl. congruence.
  - destruct (mon s) as [| | |[|r rs]| |] eqn:Hm; try discriminate. injection He as <-.
    destruct (unregister_ok r s Hs) as [Hs' [h' Hh]].
    { apply (life_known _ Hs). left. rewrite Hm. left. }
    apply (move_ok _ _ Hs'); try (by rewrite Hh); [..|apply Hs'].
    + rewrite Hh. unfold known. simpl. rewrite Hm. set_solver.
    + rewrite Hh. simpl. by rewrite Hm.
    + rewrite Hh. simpl. congruence.
  - injection He as <-. apply (on_hub_ok s _ Hs).
    + eapply wf_frame; [apply frame_broadcast|done].
    + intros r. by rewrite (frame_dom _ _ (frame_broadcast d (hub s))).
  - destruct (done s) eqn:Hd; [|done]. injection He as <-.
    apply (move_ok s); try reflexivity; try done; try apply Hs.
  - injection He as <-. destruct (run_done_once_ok s Hs) as (Hs1 & Hr & _).
    apply (move_ok _ _ Hs1); try reflexivity; try done; try apply Hs1. auto.
Qed.

Lemma fire_ok e s s' : life_ok s → fire e s = Some s' → life_ok s'.
Proof.
  intros Hs. unfold Lifecycle.fire. rewrite (life_panicked _ Hs).
  destruct e; try apply run_step_ok; try apply monitor_step_ok; try done.
  - case_decide; [|done]. intros [= <-]. apply (move_ok s); try reflexivity; try done;
      try apply Hs; [|auto]. unfold known. set_solver.
  - by apply hub_call_ok.
  - intros [= <-]. apply (move_ok s); try reflexivity; try done; [auto|].
    apply Forall_app. split; [apply Hs|by repeat constructor].
  - by apply stop_step_ok.
Qed.

Lemma fires_ok es s s' : life_ok s → fires es s = Some s' → life_ok s'.
Proof.
  revert s. induction es as [|e es IH]; intros s Hs; [by intros [= <-]|].
  intros (s1 & He & Hes)%bind_Some. eapply IH; [by eapply fire_ok|done].
Qed.

(** C15: whatever the schedule of the goroutine of [run], the monitor,
    the pumps and the callers of [Stop], no channel is closed twice and the hub
    stays an implementation of the directory; [done] and [runDone] are closed
    just when their [sync.Once] has run, and [monitorDone] just when there is no
    monitor. *)
Theorem goroutines_never_panic es s :
  fires es start = Some s →
  panicked s = false ∧ wf (hub s) ∧ done s = stopOnce s ∧ runDone s = runDoneOnce s ∧
  (monitorDone s = true ↔ mon s = NoMonitor ∨ mon s = Over).
Proof.
  intros Hes. destruct (fires_ok es _ _ start_ok Hes) as [? _ ? ? Hm _ _ ?].
  split_and!; try done. rewrite Hm. by rewrite bool_decide_eq_true.
Qed.

(** ** Can a call of [Stop] still return? *)

Definition can (P : Life → Prop) (s : Life) : Prop :=
  ∃ es s', fires es s = Some s' ∧ P s'.

Lemma can_now (P : Life → Prop) s : P s → can P s.
Proof. intros HP. by exists [], s. Qed.

Lemma can_step e s1 (P : Life → Prop) s :
  life_ok s → fire e s = Some s1 → (life_ok s1 → can P s1) → can P s.
Proof.
  intros Hs He HP. destruct (HP (fire_ok _ _ _ Hs He)) as (es & s' & Hes & Hs').
  exists (e :: es), s'. split; [|done]. simpl. by rewrite He.
Qed.

Definition at_stop (i : nat) (pc : stop_pc) (s : Life) : Prop := stops s !! i = Some pc.

(** The caller [i] waits for the goroutines. *)
Definition waits (i : nat) (s : Life) : Prop := at_stop i WaitRun s ∨ at_stop i WaitMonitor s.

(** The monitor has a stale connection to hand over. *)
Definition handing_over (s : Life) : Prop := ∃ r rs, mon s = Checking (r :: rs).

(** ... and [run], the only receiver, has returned. *)
Definition doomed (s : Life) : Prop := (run s = Exiting ∨ run s = Exited) ∧ handing_over s.

Ltac fire_now :=
  unfold Lifecycle.fire, stop_step;
  match goal with H : life_ok ?s |- context [panicked ?s] => rewrite (life_panicked _ H) end;
  simpl; unfold at_stop in *;
  repeat match goal with
  | H : run _ = _ |- _ => rewrite H
  | H : mon _ = _ |- _ => rewrite H
  | H : done _ = _ |- _ => rewrite H
  | H : runDone _ = _ |- _ => rewrite H
  | H : monitorDone _ = _ |- _ => rewrite H
  | H : stops _ !! _ = _ |- _ => rewrite H
  end; reflexivity.

Tactic Notation "fire_one" constr(e) constr(s') :=
  apply (can_step e s'); [assumption|fire_now|intros ?].

Lemma waits_done i s : life_ok s → waits i s → done s = true.
Proof.
  intros Hs Hw. pose proof (proj1 (Forall_lookup _ _) (life_stops _ Hs)) as Hst.
  destruct Hw as [Hw|Hw]; by destruct (Hst _ _ Hw).
Qed.

Lemma can_finish i s :
  life_ok s → waits i s → run s = Exited → monitorDone s = true → can (at_stop i Returned) s.
Proof.
  intros Hs Hw Hr Hm. pose proof (life_exited _ Hs Hr) as Hrd.
  assert (∀ s1, life_ok s1 → at_stop i WaitMonitor s1 → monitorDone s1 = true →
    can (at_stop i Returned) s1) as Hlast.
  { intros s1 Hs1 Hi Hm1. fire_one (StopStep i) (set_stop i Returned s1).
    apply can_now. unfold at_stop. simpl. rewrite list_lookup_insert_eq; [done|].
    by eapply lookup_lt_Some. }
  destruct Hw as [Hi|Hi]; [|by apply Hlast].
  fire_one (StopStep i) (set_stop i WaitMonitor s). apply Hlast; [done| |done].
  unfold at_stop. simpl. rewrite list_lookup_insert_eq; [done|]. by eapply lookup_lt_Some.
Qed.

(** The monitor leaves, once [done] is closed and nothing is left to hand over. *)
Lemma can_leave i s :
  life_ok s → waits i s → run s = Exited → ¬ handing_over s → can (at_stop i Returned) s.
Proof.
  intros Hs Hw Hr Hh. pose proof (life_monitor_done _ Hs) as Hmd.
  assert (∀ s1, life_ok s1 → waits i s1 → run s1 = Exited → mon s1 = Returning →
    can (at_stop i Returned) s1) as Hret.
  { intros s1 Hs1 Hw1 Hr1 Hm1. pose proof (life_monitor_done _ Hs1) as Hmd1. rewrite Hm1 in Hmd1.
    fire_one MonitorDeferred (set_mon Over (close_monitorDone s1)).
    unfold close_monitorDone in *. rewrite Hmd1 in *. by apply can_finish. }
  assert (∀ s1, life_ok s1 → waits i s1 → run s1 = Exited → mon s1 = Select →
    can (at_stop i Returned) s1) as Hsel.
  { intros s1 Hs1 Hw1 Hr1 Hm1. pose proof (waits_done _ _ Hs1 Hw1) as Hd.
    fire_one MonitorSeesDone (set_mon Returning s1). by apply Hret. }
  destruct (mon s) as [| | |[|r rs]| |] eqn:Hm; rewrite ?Hm in Hmd.
  - by apply can_finish.
  - fire_one MonitorStart
      (set_mon (if decide (agentPresenceInterval = 0) then Returning else Select) s).
    destruct (decide (agentPresenceInterval = 0)); [by apply Hret|by apply Hsel].
  - by apply Hsel.
  - fire_one MonitorNext (set_mon Select s). by apply Hsel.
  - destruct Hh. unfold handing_over. eauto.
  - by apply Hret.
  - by apply can_finish.
Qed.

(** [run] sees [done] and returns. *)
Lemma can_exit i s :
  life_ok s → waits i s → run s = Loop ∨ run s = Exiting → ¬ handing_over s →
  can (at_stop i Returned) s.
Proof.
  intros Hs Hw Hr Hh. pose proof (waits_done _ _ Hs Hw) as Hd.
  assert (∀ s1, life_ok s1 → waits i s1 → run s1 = Exiting → ¬ handing_over s1 →
    can (at_stop i Returned) s1) as Hex.
  { intros s1 Hs1 Hw1 Hr1 Hh1. destruct (run_done_once_ok s1) as (_ & _ & _ & Hm & Hst & _); [done|].
    fire_one RunDeferred (set_run Exited (run_done_once s1)). apply can_leave; [done| |done|].
    - unfold waits, at_stop. simpl. by rewrite Hst.
    - unfold handing_over. simpl. by rewrite Hm. }
  destruct Hr as [Hr|Hr]; [|by apply Hex].
  fire_one RunSeesDone (set_run Exiting s). by apply Hex.
Qed.

(** [run] takes what the monitor hands over first. *)
Lemma can_drain i s rs :
  life_ok s → waits i s → run s = Loop → mon s = Checking rs → can (at_stop i Returned) s.
Proof.
  revert s. induction rs as [|r rs IH]; intros s Hs Hw Hr Hm.
  - apply can_exit; [by auto..|]. unfold handing_over. rewrite Hm. by intros (? & ? & ?).
  - destruct (unregister_ok r s Hs) as [_ [h' Hh]].
    { apply (life_known _ Hs). left. rewrite Hm. left. }
    apply (can_step RunStale (set_mon (Checking rs) (set_hub h' s))); [done| |].
    + unfold Lifecycle.fire. rewrite (life_panicked _ Hs). simpl. by rewrite Hr, Hm, Hh.
    + intros Hs'. by apply IH.
Qed.

Lemma can_wait i s : life_ok s → waits i s → ¬ doomed s → can (at_stop i Returned) s.
Proof.
  intros Hs Hw Hd.
  assert (∀ s1, life_ok s1 → waits i s1 → run s1 = Loop → can (at_stop i Returned) s1) as Hloop.
  { intros s1 Hs1 Hw1 Hr1. destruct (mon s1) eqn:Hm; try (by eapply can_drain);
      (apply can_exit; [by auto..|]; unfold handing_over; rewrite Hm; by intros (? & ? & ?)). }
  destruct (run s) eqn:Hr.
  - fire_one RunStart (set_run Loop (set_started s)). by apply Hloop.
  - by apply Hloop.
  - apply can_exit; [by auto..|]. intros Hh. apply Hd. by split; [left|].
  - apply can_leave; [by auto..|]. intros Hh. apply Hd. by split; [right|].
Qed.

(** The caller gets to the point where it waits by itself. *)
Lemma can_stop i pc s :
  life_ok s → at_stop i pc s → ¬ doomed s → can (at_stop i Returned) s.
Proof.
  assert (∀ s1 s2 pc1 pc2, at_stop i pc1 s1 → stops s2 = stops s1 →
    at_stop i pc2 (set_stop i pc2 s2)) as Hset.
  { intros s1 s2 pc1 pc2 Hi Hst. unfold at_stop. simpl. rewrite Hst, list_lookup_insert_eq; [done|].
    by eapply lookup_lt_Some. }
  assert (∀ s1, life_ok s1 → at_stop i NeverStarted s1 → ¬ doomed s1 →
    can (at_stop i Returned) s1) as Hnever.
  { intros s1 Hs1 Hi Hd. destruct (run_done_once_ok s1 Hs1) as (_ & _ & Hr & Hm & Hst & _).
    fire_one (StopStep i) (set_stop i WaitRun (run_done_once s1)). apply can_wait; [done| |].
    - left. by eapply Hset.
    - unfold doomed, handing_over. simpl. by rewrite Hr, Hm. }
  assert (∀ s1, life_ok s1 → at_stop i Closed s1 → ¬ doomed s1 →
    can (at_stop i Returned) s1) as Hclosed.
  { intros s1 Hs1 Hi Hd.
    fire_one (StopStep i) (set_stop i (if runStarted s1 then WaitRun else NeverStarted) s1).
    destruct (runStarted s1); [apply can_wait; [done| |done]; left; by eapply Hset|].
    apply Hnever; [done| |done]. by eapply Hset. }
  intros Hs Hi Hd. destruct pc.
  - destruct (stop_once_ok s Hs) as (_ & _ & Hr & Hm & Hst & _).
    fire_one (StopStep i) (set_stop i Closed (stop_once s)). apply Hclosed; [done| |].
    + by eapply Hset.
    + unfold doomed, handing_over. simpl. by rewrite Hr, Hm.
  - by apply Hclosed.
  - by apply Hnever.
  - apply can_wait; [done|by left|done].
  - apply can_wait; [done|by right|done].
  - by apply can_now.
Qed.

Lemma run_done_once_frame s :
  mon (run_done_once s) = mon s ∧ leaving (run_done_once s) = leaving s ∧
  run (run_done_once s) = run s.
Proof. unfold run_done_once, close_runDone. simpl. repeat case_match; by split_and!. Qed.

Lemma stop_step_frame i s s' :
  stop_step i s = Some s' → mon s' = mon s ∧ leaving s' = leaving s ∧ run s' = run s.
Proof.
  unfold stop_step. pose proof (run_done_once_frame s).
  destruct (stops s !! i) as [[]|]; try done; try case_match; intros; simplify_eq; try done.
  unfold stop_once, close_done. simpl. repeat case_match; by split_and!.
Qed.

Lemma hub_call_frame e s s' :
  hub_call e s = Some s' → mon s' = mon s ∧ leaving s' = leaving s ∧ run s' = run s.
Proof. unfold hub_call, on_hub. repeat case_match; intros; by simplify_eq. Qed.

Lemma monitor_step_frame e s s' :
  monitor_step agentPresenceInterval agentPresenceTimeout e s = Some s' →
  leaving s' = leaving s ∧ run s' = run s ∧ ¬ handing_over s ∧ mon s ≠ NoMonitor.
Proof.
  unfold handing_over. destruct e; simpl; try done;
    destruct (mon s) as [| | |[|r rs]| |] eqn:Hm; try done; intros He.
  - simplify_eq. split_and!; [done..| |done]. by intros (? & ? & ?).
  - simplify_eq. split_and!; [done..| |done]. by intros (? & ? & ?).
  - simplify_eq. split_and!; [done..| |done]. by intros (? & ? & ?).
  - destruct (done s); simplify_eq. split_and!; [done..| |done]. by intros (? & ? & ?).
  - simplify_eq. unfold close_monitorDone.
    destruct (monitorDone s); (split_and!; [done..| |done]; by intros (? & ? & ?)).
Qed.

(** Once [run] has returned nothing takes a connection off [unregister] again:
    the monitor and the read pumps that wait with one wait for ever. *)
Lemma run_gone_fire e s s' :
  fire e s = Some s' → run s = Exiting ∨ run s = Exited →
  (run s' = Exiting ∨ run s' = Exited) ∧ leaving s ⊆ leaving s' ∧
  (handing_over s → handing_over s').
Proof.
  unfold Lifecycle.fire. destruct (panicked s); [done|]. intros He Hr.
  assert (∀ s', run_step e s = Some s' →
    (run s' = Exiting ∨ run s' = Exited) ∧ leaving s ⊆ leaving s' ∧
    (handing_over s → handing_over s')) as Hrun.
  { intros s1. destruct e; simpl; destruct Hr as [Hr|Hr]; rewrite ?Hr; try done.
    intros [= <-]. destruct (run_done_once_frame s) as (Hm & Hl & _). unfold handing_over. simpl.
    rewrite Hm, Hl. auto. }
  destruct e; try (by apply Hrun);
    try (apply monitor_step_frame in He as (-> & -> & ? & _); by auto).
  - case_match; [|done]. injection He as <-. simpl. split_and!; [done|set_solver|done].
  - apply hub_call_frame in He as (Hm & -> & ->). unfold handing_over. rewrite Hm. auto.
  - injection He as <-. auto.
  - apply stop_step_frame in He as (Hm & -> & ->). unfold handing_over. rewrite Hm. auto.
Qed.

Lemma doomed_for_ever es s s' :
  life_ok s → doomed s → fires es s = Some s' → life_ok s' ∧ doomed s'.
Proof.
  revert s. induction es as [|e es IH]; intros s Hs Hd; [by intros [= <-]|].
  intros (s1 & He & Hes)%bind_Some. eapply IH; [by eapply fire_ok| |done].
  destruct Hd as [Hr Hh]. destruct (run_gone_fire _ _ _ He Hr) as (? & _ & ?). split; auto.
Qed.

Lemma doomed_waits i s : life_ok s → doomed s → ¬ at_stop i Returned s.
Proof.
  intros Hs [_ (r & rs & Hm)] Hi. pose proof (life_monitor_done _ Hs) as Hmd. rewrite Hm in Hmd.
  destruct (proj1 (Forall_lookup _ _) (life_stops _ Hs) _ _ Hi) as (_ & _ & Hd). simpl in *.
  congruence.
Qed.

Lemma unmonitored_fire e s s' : fire e s = Some s' → mon s = NoMonitor → mon s' = NoMonitor.
Proof.
  unfold Lifecycle.fire. destruct (panicked s); [done|]. intros He Hm.
  destruct e; simpl in He; rewrite ?Hm in He; try discriminate;
    try (destruct (run s); try discriminate; [idtac]).
  - by injection He as <-.
  - injection He as <-. by destruct (connect _ _ _).
  - case_decide; [|done]. injection He as <-. by destruct (unregister _ _).
  - by destruct (run s).
  - by injection He as <-.
  - destruct (done s); by simplify_eq.
  - injection He as <-. simpl. by destruct (run_done_once_frame s) as (-> & _).
  - case_decide; by simplify_eq.
  - by destruct (hub_call_frame _ _ _ He) as (-> & _).
  - by injection He as <-.
  - by destruct (stop_step_frame _ _ _ He) as (-> & _).
Qed.

Lemma unmonitored_fires es s s' : fires es s = Some s' → mon s = NoMonitor → mon s' = NoMonitor.
Proof.
  revert s. induction es as [|e es IH]; intros s; [by intros [= <-]|].
  intros (s1 & He & Hes)%bind_Some Hm. eapply IH; [done|]. by eapply unmonitored_fire.
Qed.

(** C14: in every reachable state a call of [Stop] still has a way to return,
    unless [run] has returned while the monitor has a stale connection to hand
    over: from there it returns in no schedule.  Without presence monitoring that
    state is not reachable. *)
Theorem Stop_returns_iff es s i pc :
  fires es start = Some s → stops s !! i = Some pc →
  ((∃ es' s', fires es' s = Some s' ∧ stops s' !! i = Some Returned) ↔ ¬ doomed s) ∧
  (agentPresenceEnabled = false → ¬ doomed s).
Proof.
  intros Hes Hi. pose proof (fires_ok _ _ _ start_ok Hes) as Hs. split; [split|].
  - intros (es' & s' & Hes' & Hret) Hd. destruct (doomed_for_ever _ _ _ Hs Hd Hes') as [Hs' Hd'].
    by apply (doomed_waits i s').
  - by apply (can_stop i pc).
  - intros Hen [_ (r & rs & Hm)]. assert (mon s = NoMonitor) as Hno; [|congruence].
    apply (unmonitored_fires es start); [done|]. by rewrite Hen.
Qed.

(** ** One pass of the monitor *)

Lemma fires_app es1 es2 s : fires (es1 ++ es2) s = fires es1 s ≫= fires es2.
Proof.
  revert s. induction es1 as [|e es1 IH]; intros s; [done|]. simpl.
  destruct (fire e s) as [s1|]; [|done]. simpl. apply IH.
Qed.

Lemma hand_over_all rs s :
  life_ok s → run s = Loop → mon s = Checking rs →
  ∃ s', fires (replicate (length rs) RunStale) s = Some s' ∧ life_ok s' ∧ mon s' = Checking [] ∧
    run s' = Loop ∧ unregister_all rs (hub s) = Some (hub s').
Proof.
  revert s. induction rs as [|r rs IH]; intros s Hs Hr Hm; [by exists s|].
  destruct (unregister_ok r s Hs) as [_ [h' Hh]].
  { apply (life_known _ Hs). left. rewrite Hm. left. }
  assert (fire RunStale s = Some (set_mon (Checking rs) (set_hub h' s))) as He.
  { unfold Lifecycle.fire. rewrite (life_panicked _ Hs). simpl. by rewrite Hr, Hm, Hh. }
  destruct (IH _ (fire_ok _ _ _ Hs He)) as (s' & Hes & ?); [done..|].
  exists s'. simpl. rewrite He, Hh. by split.
Qed.

End lifecycle.

(** An agent connects and goes silent; the monitor finds it stale, the server is
    stopped, and [run] sees [done] before it sees the connection. *)
Definition silent_agent : list event :=
  [RunStart; MonitorStart; RunRegister 0 0 Agent "weather" "" "v1"; MonitorTick 100; StopCalled;
   StopStep 0].

Lemma Stop_returns_iff_witness :
  (∃ s, fires 30 60 silent_agent (start_hub true) = Some s ∧
     ∃ es' s', fires 30 60 es' s = Some s' ∧ stops s' !! 0%nat = Some Returned) ∧
  (∃ s, fires 30 60 (silent_agent ++ [RunSeesDone]) (start_hub true) = Some s ∧
     ¬ ∃ es' s', fires 30 60 es' s = Some s' ∧ stops s' !! 0%nat = Some Returned).
Proof.
  split.
  - assert (∃ s, fires 30 60 silent_agent (start_hub true) = Some s ∧ run s = Loop ∧
      stops s !! 0%nat = Some Closed) as (s & Hs & Hr & Hi)
      by (eexists; split; [vm_compute; reflexivity|split; reflexivity]).
    exists s. split; [exact Hs|].
    destruct (Stop_returns_iff true 30 60 silent_agent s 0 Closed Hs Hi) as [[_ Hret] _].
    apply Hret. intros [[Hx|Hx] _]; congruence.
  - assert (∃ s, fires 30 60 (silent_agent ++ [RunSeesDone]) (start_hub true) = Some s ∧
      run s = Exiting ∧ mon s = Checking [0%nat] ∧ stops s !! 0%nat = Some Closed)
      as (s & Hs & Hr & Hm & Hi)
      by (eexists; split; [vm_compute; reflexivity|split_and!; reflexivity]).
    exists s. split; [exact Hs|]. intros Hret.
    destruct (Stop_returns_iff true 30 60 _ s 0 Closed Hs Hi) as [[Hno _] _].
    apply (Hno Hret). split; [left; exact Hr|]. exists 0%nat, []. exact Hm.
Defined.


Lemma goroutines_never_panic_witness :
  ∃ s, fires 30 60 (silent_agent ++ [RunSeesDone; RunDeferred; StopCalled; StopStep 1])
         (start_hub true) = Some s ∧ panicked s = false.
Proof.
  assert (∃ s, fires 30 60 (silent_agent ++ [RunSeesDone; RunDeferred; StopCalled; StopStep 1])
    (start_hub true) = Some s) as [s Hs] by (eexists; vm_compute; reflexivity).
  exists s. split; [exact Hs|].
  destruct (goroutines_never_panic true 30 60 _ s Hs) as [Hp _]. exact Hp.
Defined.
