(* ===== verification/Main.v ===== *)
(** * [main] of the server (main.go)

    From the command line to the first request, and from the signal to the end.
    The configuration decides the [Env] the handlers run in; the start is run on
    the two views of the database the other files have, its tables (Schema) and its
    rows (Store).  What PostgreSQL does with its schema, the third-party
    constructors and the file system are parameters.  Log lines are left out. *)

From S2P Require Import Prelude GoLib Path FixedWindow RateLimit Tiers Sql Queue Hub Store World.
From S2P Require Import Auth Routing Middleware System Push Duration Size Startup Flag Migrate Schema.
From S2P Require Metrics Profile Lifecycle.

(** ** Flags *)

Definition server_flags : list Flag.Flag :=
  [Flag.mkFlag "port" (Flag.VString "8080"); Flag.mkFlag "db-driver" (Flag.VString EmptyString);
   Flag.mkFlag "db" (Flag.VString EmptyString); Flag.mkFlag "version" (Flag.VBool false)].

Definition string_flag (name : string) (fs : list Flag.Flag) : string :=
  match Flag.value <$> Flag.find_flag name fs with Some (Flag.VString s) => s | _ => EmptyString end.

Definition bool_flag (name : string) (fs : list Flag.Flag) : bool :=
  match Flag.value <$> Flag.find_flag name fs with Some (Flag.VBool b) => b | _ => false end.

Definition int_flag (name : string) (fs : list Flag.Flag) : Z :=
  match Flag.value <$> Flag.find_flag name fs with Some (Flag.VInt z) => z | _ => 0 end.

(** ** Routes *)

(** The patterns registered on the default mux before [main] runs, by the blank
    import of net/http/pprof. *)
Definition pprof_patterns : list string :=
  (λ p, "GET /debug/pprof/" +:+ p) <$> [EmptyString; "cmdline"; "profile"; "symbol"; "trace"].

(** [HandleFunc] panics on a pattern that is taken. *)
Definition HandleFunc (pattern : string) (mux : list string) : option (list string) :=
  if decide (pattern ∈ mux) then None else Some (mux ++ [pattern]).

Fixpoint register_all (ps mux : list string) : option (list string) :=
  match ps with
  | [] => Some mux
  | p :: ps => mux ← HandleFunc p mux; register_all ps mux
  end.

Section main.
Variable Getenv : string → string.

(** The third-party code and what the operating system answers. *)
Variable int64_overflow : SpecFloat.spec_float → Z.
Variables (Open : string → string → Result unit) (Ping : Result unit).
Variables (Stat : string → bool) (Abs : string → Result string).
Variable push_world : PushWorld.
Variables (NewExporter : Exporter → Result unit) (MergeResource : Result unit).
Variable pg_init : MM (Result unit).

(** ** The configuration *)

(** [lib] has the third-party functions, the rest is what the environment says. *)
Definition configure (lib : Env) (pool : Pool) (path : string) : Env := {|
  agentSecret := getAgentSecret Getenv;
  adminSecret := getAdminSecret Getenv;
  corsAllowedOrigins := getEnvOrDefault Getenv "CORS_ALLOWED_ORIGINS" "*";
  agentPresenceEnabled := enabled (heartbeat_config Getenv);
  agentPresenceInterval := interval (heartbeat_config Getenv);
  agentPresenceTimeout := timeout (heartbeat_config Getenv);
  vapidPublicKey := Getenv "VAPID_PUBLIC_KEY";
  maxUploadSize := max_upload_size int64_overflow Getenv;
  serverDBPath := path;
  World.MaxOpenConns := Z.to_nat (MaxOpenConns pool);
  jwt_parse := @jwt_parse lib;
  jwt_sign := @jwt_sign lib;
  bcrypt_compare := @bcrypt_compare lib;
  bcrypt_generate := @bcrypt_generate lib;
  rfc3339 := @rfc3339 lib;
  rfc3339nano := @rfc3339nano lib;
  sqlite_time := @sqlite_time lib;
  ordering := @ordering lib;
  local_year_month := @local_year_month lib;
  detect_content_type := @detect_content_type lib;
  extensions_by_type := @extensions_by_type lib;
  sha256_hex := @sha256_hex lib;
  driver_error := @driver_error lib
|}.

(** The data directory and the upload directory, on SQLite; what fails is only
    warned of. *)
Definition data_directories (driver path : string) : list string :=
  if decide (driver = DriverSQLite) then
    (let dir := Path.Dir path in
     if str_empty dir || bool_decide (dir = ".") then [] else [dir]) ++
    [Path.Join [Path.Dir path; "uploads"]]
  else [].

(** The directory of the web client: the one configured, or the default one next to
    the value of the flag [-db] when it is there. *)
Definition webchat_directory (db_flag : string) : option string :=
  let dir := Getenv "WEBCHAT_DIR" in
  let on := bool_decide (Getenv "WEBCHAT_ENABLED" = "true") in
  if on && negb (str_empty dir) then Some dir
  else if on then
    match Abs (Path.Join [Path.Dir db_flag; ".."; "webchat"; "build"]) with
    | Ok abs => if Stat abs then Some abs else None
    | Err _ => None
    end
  else None.

(** The patterns [main] registers, in its order; the last one only with the web
    client. *)
Definition server_patterns (routes : list string) (webchat : option string) : list string :=
  ["/agent/connect"; "/client/connect"; "/health"; "/metrics"] ++ routes ++ ["/admin/profile"] ++
  (if webchat then ["/chat/"] else []).

(** ** The start *)

(** A server that listens. *)
Record Server := mkServer {
  addr : string;
  driver : string;
  pool : Pool;
  env : Env;
  level : LogLevel;
  warnings : list string;
  directories : list string;
  mux : list string;
  push : PushNotificationConfig;
  webchat : option string;
  tracing : Tracing
}.

Inductive Ending :=
  | Exited (status : Z)
  | Panicked
  | Serving (s : Server).

(** The database is created or brought up to date; the rest of [initSchema] loads
    the tiers. *)
Definition init_schema (driver : string) : MM (Result unit) :=
  if decide (driver = DriverPostgreSQL) then pg_init else initSchema.

(** Everything after the schema. *)
Definition finish_start (lib : Env) (fs : list Flag.Flag) (driver path : string) (p : Pool)
    (w : World) : Ending * World :=
  let e := configure lib p path in
  let '(_, w) := loadTiersFromDB w in
  let '(_, w) := @loadQueueFromDB e w in
  let web := webchat_directory (string_flag "db" fs) in
  match register_all (server_patterns ((@routes e).*1) web) pprof_patterns with
  | None => (Panicked, w)
  | Some mux =>
      let '(_, tr) := InitTracing Getenv NewExporter MergeResource no_tracing in
      (Serving (mkServer (":" +:+ string_flag "port" fs) driver p e (log_level Getenv)
         (secret_warnings Getenv) (data_directories driver path) mux
         (initPushNotifications Getenv push_world) web tr), w)
  end.

Definition main (lib : Env) (args : list string) (s : MigrationDB) (w : World)
    : Ending * MigrationDB * World :=
  match Flag.parse server_flags args with
  | Flag.Exits status => (Exited status, s, w)
  | Flag.Done fs _ =>
      let driver := resolve_driver Getenv (string_flag "db-driver" fs) in
      let path := resolve_db_path Getenv (string_flag "db" fs) in
      if bool_flag "version" fs then (Exited 0, s, w) else
      match openDatabase Getenv Open Ping driver path with
      | Err _ => (Exited 1, s, w)
      | Ok p =>
          let '(_, w) := initAuthRateLimit (Getenv "AUTH_RATE_LIMIT") w in
          match init_schema driver s with
          | (Err _, s) => (Exited 1, s, w)
          | (Ok _, s) =>
              let '(_, s) := initQueueDB s in
              let '(r, w) := finish_start lib fs driver path p w in (r, s, w)
          end
      end
  end.

(** ** The end *)

(** The steps after the signal, and the deferred calls.  [Stop] of the hub may not
    return (Lifecycle). *)
Inductive Closing := StopProfile | StopHub | ShutdownServer | ShutdownTracing | CloseDatabase.

Definition closing (stop_returns : bool) : list Closing :=
  [StopProfile; StopHub] ++
  (if stop_returns then [ShutdownServer; ShutdownTracing; CloseDatabase] else []).

(** [ListenAndServe] that fails ends the process at once with [log.Fatalf]: nothing
    is closed. *)
Definition server_end (listens stop_returns : bool) : Z * list Closing :=
  if listens then (0, closing stop_returns) else (1, []).
End main.
