(* ===== verification/Commands.v ===== *)
(** * The command lines of the two tools (cmd/am-migrate, cmd/am-admin)

    Each reads its flags and hands over to the commands of Migrate and Admin. *)

From S2P Require Import Prelude GoLib FixedWindow RateLimit Tiers Sql Queue Hub Store World.
From S2P Require Import Size SizeProps Flag Ddl Migrate Admin Main.

(** ** am-migrate *)

Definition default_db : string := "./data/agent-messenger.db".

Definition migrate_flags : list Flag.Flag :=
  [Flag.mkFlag "db" (Flag.VString default_db); Flag.mkFlag "action" (Flag.VString EmptyString);
   Flag.mkFlag "target" (Flag.VInt (-1)); Flag.mkFlag "name" (Flag.VString EmptyString)].

(** An empty action prints the usage and exits with 1, like one that is unknown. *)
Definition am_migrate_main (entries : list (string * bool)) (args : list string)
    : MM (Z * list string) :=
  match Flag.parse migrate_flags args with
  | Flag.Exits status => mret (status, [])
  | Flag.Done fs _ =>
      am_migrate (string_flag "db" fs) (string_flag "action" fs) (int_flag "target" fs)
        (string_flag "name" fs) entries
  end.

(** ** am-admin *)

Definition admin_flags : list Flag.Flag := [Flag.mkFlag "db" (Flag.VString default_db)].

Definition dquote : string := String (Ascii.ascii_of_nat 34) EmptyString.

(** The text [printUsage] prints. *)
Definition usage_text : string :=
  String.concat newline
  ["Agent Messenger Admin CLI";
   EmptyString;
   "Usage: am-admin [flags] <command> [args]";
   EmptyString;
   "Commands:";
   "  create-agent    Register a new agent (pre-seed metadata)";
   "  create-user     Register a new user";
   "  list-agents     List all registered agents";
   "  list-users      List all registered users";
   "  delete-agent    Remove an agent from the database";
   EmptyString;
   "Agents authenticate with AGENT_SECRET (shared env var), not per-agent keys.";
   "Use create-agent to pre-seed metadata (name, model, etc.) before first connect.";
   "Agents can also self-register on connect without pre-seeding.";
   EmptyString;
   "Flags:";
   "  -db string    SQLite database path (default " +:+ dquote +:+ default_db +:+ dquote +:+ ")";
   EmptyString;
   "Examples:";
   "  am-admin -db ./data/agent-messenger.db create-agent";
   "  am-admin -db ./data/agent-messenger.db list-agents";
   "  am-admin -db ./data/agent-messenger.db delete-agent"].

Section admin.
Context `{Env}.

Definition am_admin_main (args : list string) : AM unit :=
  match Flag.parse admin_flags args with
  | Flag.Exits status => λ s, (Exit status, s)
  | Flag.Done _ rest => am_admin usage_text rest
  end.
End admin.

(** ** What is typed is what is run *)

Ltac solve_flag_ok :=
  split; [apply (bool_decide_unpack _); vm_compute; exact I
         |split; [eexists _, _; split; [reflexivity|discriminate]|done]].

(** Every action, target and name can be given: written as flags they reach the
    tool unchanged. *)
Lemma am_migrate_args entries db action target name :
  int64_range target →
  am_migrate_main entries
    (Flag.print_flag <$> [Flag.mkFlag "db" (Flag.VString db); Flag.mkFlag "action" (Flag.VString action);
       Flag.mkFlag "target" (Flag.VInt target); Flag.mkFlag "name" (Flag.VString name)]) =
  am_migrate db action target name entries.
Proof.
  intros Ht. unfold am_migrate_main. rewrite <- (app_nil_r (Flag.print_flag <$> _)).
  rewrite (Flag.parse_print migrate_flags); [done| | | |done].
  - apply (bool_decide_unpack _). vm_compute. exact I.
  - repeat constructor.
  - repeat apply List.Forall_cons; try apply List.Forall_nil; solve_flag_ok.
Qed.

(** A command of am-admin, behind the flag or without it. *)
Lemma am_admin_args `{Env} db cmd rest :
  Flag.classify cmd = Flag.NotFlag →
  am_admin_main (Flag.print_flag (Flag.mkFlag "db" (Flag.VString db)) :: cmd :: rest) =
    am_admin usage_text (cmd :: rest) ∧
  am_admin_main (cmd :: rest) = am_admin usage_text (cmd :: rest).
Proof.
  intros Hc. unfold am_admin_main. split; [|cbn [Flag.parse]; by rewrite Hc].
  change (?a :: cmd :: rest) with ([a] ++ cmd :: rest).
  rewrite (Flag.parse_print admin_flags [Flag.mkFlag "db" (Flag.VString db)]); [done|..].
  - apply (bool_decide_unpack _). vm_compute. exact I.
  - repeat constructor.
  - apply List.Forall_cons; [solve_flag_ok|apply List.Forall_nil].
  - by intros s [= <-].
Qed.
