(* ===== verification/Tracing.v ===== *)
(** * Spans (tracing.go)

    What the server hands to the OpenTelemetry library.  The library is a record of
    its functions; an operation returns its result with the calls it made, in
    order, so that "nothing happens" can be said.  Whether tracing is on is decided
    by [InitTracing] (Startup). *)

From S2P Require Import Prelude GoLib Duration Size Startup.
From Stdlib Require Import SpecFloat.

Module Tracing.

(** ** Names of spans and attributes *)

Definition spanRouteMessage : string := "route_message".
Definition spanRouteChatMessage : string := "route_chat_message".
Definition spanStoreMessage : string := "store_message".
Definition spanDeliverMessage : string := "deliver_message".
Definition spanOfflineEnqueue : string := "offline_enqueue".
Definition spanPushNotify : string := "push_notify".
Definition spanAgentConnect : string := "ws.agent_connect".
Definition spanClientConnect : string := "ws.client_connect".

Definition attrConnType : string := "messenger.conn_type".
Definition attrConnID : string := "messenger.conn_id".
Definition attrDeviceID : string := "messenger.device_id".
Definition attrConversationID : string := "messenger.conversation_id".
Definition attrSenderType : string := "messenger.sender_type".
Definition attrSenderID : string := "messenger.sender_id".
Definition attrRecipientID : string := "messenger.recipient_id".
Definition attrRecipientType : string := "messenger.recipient_type".
Definition attrDelivered : string := "messenger.delivered".
Definition attrPushSent : string := "messenger.push_sent".

(** ** The library *)

Inductive AttrValue := AString (s : string) | ABool (b : bool).
Definition Attribute : Type := string * AttrValue.

(** Contexts and spans are opaque; [Start] opens a span under the one of the
    context, [Extract] reads the headers of a request into a context. *)
Class Library := {
  Context_ : Type;
  Span : Type;
  Background : Context_;
  SpanFromContext : Context_ → Span;
  Start : Context_ → string → list Attribute → Context_ * Span;
  Extract : Context_ → gmap string string → Context_
}.

Section tracing.
Context `{Library}.

Inductive Code := CodeOk | CodeError.

(** A span may be the interface value [nil]. *)
Inductive Call :=
  | CallStart (ctx : Context_) (name : string) (attrs : list Attribute)
  | CallRecordError (s : Span) (e : error)
  | CallSetStatus (s : Span) (c : Code) (description : string)
  | CallShutdown.

Definition Traced (A : Type) : Type := A * list Call.

Variable errtext : error → string.
Variable t : Startup.Tracing.

(** ** Whether tracing is on *)

Definition IsTracingEnabled : bool := tracingEnabled t.

(** [tracingEnabled && tracer != nil]; the tracer is made with the provider. *)
Definition tracing_on : bool := tracingEnabled t && bool_decide (is_Some (exporter t)).

(** The share of traces that are kept, 10% unless OTEL_SAMPLING_RATE is a number. *)
Definition sampling_rate (Getenv : string → string) : spec_float :=
  let sr := Getenv "OTEL_SAMPLING_RATE" in
  let tenth := f64_div (f64 1) (f64 10) in
  if str_empty sr then tenth else match ParseFloat sr with Ok x => x | Err _ => tenth end.

(** The provider is flushed and shut down; an error is only logged. *)
Definition ShutdownTracing : Traced unit :=
  match exporter t with Some _ => (tt, [CallShutdown]) | None => (tt, []) end.

(** ** Spans *)

Definition start (ctx : Context_) (name : string) (attrs : list Attribute)
    : Traced (Context_ * Span) := (Start ctx name attrs, [CallStart ctx name attrs]).

Definition StartSpan (ctx : Context_) (name : string) (attrs : list Attribute)
    : Traced (Context_ * Span) :=
  if negb tracing_on then ((ctx, SpanFromContext ctx), []) else start ctx name attrs.

Definition StartSpanFromRequest (ctx : Context_) (headers : gmap string string) (name : string)
    (attrs : list Attribute) : Traced (Context_ * Span) :=
  if negb tracing_on then ((ctx, SpanFromContext ctx), [])
  else start (Extract ctx headers) name attrs.

Definition SpanError (span : option Span) (e : error) : Traced unit :=
  match span with
  | Some s =>
      if negb IsTracingEnabled then (tt, [])
      else (tt, [CallRecordError s e; CallSetStatus s CodeError (errtext e)])
  | None => (tt, [])
  end.

Definition SpanOK (span : option Span) : Traced unit :=
  match span with
  | Some s => if negb IsTracingEnabled then (tt, []) else (tt, [CallSetStatus s CodeOk EmptyString])
  | None => (tt, [])
  end.

(** A span without a parent, of which only the span is returned. *)
Definition root_span (name : string) (attrs : list Attribute) : Traced Span :=
  if negb tracing_on then (SpanFromContext Background, [])
  else let '((_, s), calls) := start Background name attrs in (s, calls).

(** ** The spans of the server *)

Definition TraceRouteMessage (connType connID : string) : Traced Span :=
  root_span spanRouteMessage
    [(attrConnType, AString connType); (attrConnID, AString connID)].

Definition TraceChatMessage (ctx : Context_) (senderType senderID conversationID recipientID : string)
    : Traced (Context_ * Span) :=
  StartSpan ctx spanRouteChatMessage
    [(attrSenderType, AString senderType); (attrSenderID, AString senderID);
     (attrConversationID, AString conversationID);
     (attrRecipientID, AString recipientID)].

Definition TraceStoreMessage (ctx : Context_) (conversationID senderID : string)
    : Traced (Context_ * Span) :=
  StartSpan ctx spanStoreMessage
    [(attrConversationID, AString conversationID); (attrSenderID, AString senderID)].

Definition TraceDeliverMessage (ctx : Context_) (recipientID recipientType : string) (delivered : bool)
    : Traced (Context_ * Span) :=
  StartSpan ctx spanDeliverMessage
    [(attrRecipientID, AString recipientID);
     (attrRecipientType, AString recipientType); (attrDelivered, ABool delivered)].

Definition TraceOfflineEnqueue (recipientID : string) : Traced Span :=
  root_span spanOfflineEnqueue [(attrRecipientID, AString recipientID)].

Definition TracePushNotify (userID conversationID : string) (success : bool) : Traced Span :=
  root_span spanPushNotify
    [("messenger.user_id", AString userID); (attrConversationID, AString conversationID);
     (attrPushSent, ABool success)].

Definition TraceAgentConnect (agentID : string) : Traced Span :=
  root_span spanAgentConnect
    [(attrConnType, AString "agent"); (attrConnID, AString agentID)].

Definition TraceClientConnect (userID deviceID : string) : Traced Span :=
  root_span spanClientConnect
    [(attrConnType, AString "client"); (attrConnID, AString userID);
     (attrDeviceID, AString deviceID)].

(** ** Off and on *)

(** Every call the server can make. *)
Inductive Use :=
  | URoute (a b : string) | UChat (ctx : Context_) (a b c d : string)
  | UStore (ctx : Context_) (a b : string) | UDeliver (ctx : Context_) (a b : string) (x : bool)
  | UOffline (a : string) | UPush (a b : string) (x : bool) | UAgent (a : string)
  | UClient (a b : string) | UError (s : option Span) (e : error) | UOk (s : option Span)
  | URequest (ctx : Context_) (headers : gmap string string) (name : string) (attrs : list Attribute).

Definition calls_of (u : Use) : list Call :=
  match u with
  | URoute a b => (TraceRouteMessage a b).2
  | UChat ctx a b c d => (TraceChatMessage ctx a b c d).2
  | UStore ctx a b => (TraceStoreMessage ctx a b).2
  | UDeliver ctx a b x => (TraceDeliverMessage ctx a b x).2
  | UOffline a => (TraceOfflineEnqueue a).2
  | UPush a b x => (TracePushNotify a b x).2
  | UAgent a => (TraceAgentConnect a).2
  | UClient a b => (TraceClientConnect a b).2
  | UError s e => (SpanError s e).2
  | UOk s => (SpanOK s).2
  | URequest ctx headers name attrs => (StartSpanFromRequest ctx headers name attrs).2
  end.

(** With tracing off nothing reaches the library. *)
Lemma off_silent us : tracingEnabled t = false → us ≫= calls_of = [].
Proof.
  intros Hoff. assert (tracing_on = false) as Hon by (unfold tracing_on; by rewrite Hoff).
  induction us as [|u us IH]; [done|]. rewrite bind_cons, IH, app_nil_r.
  destruct u; simpl; unfold TraceRouteMessage, TraceChatMessage, TraceStoreMessage,
    TraceDeliverMessage, TraceOfflineEnqueue, TracePushNotify, TraceAgentConnect,
    TraceClientConnect, StartSpanFromRequest, StartSpan, root_span, SpanError, SpanOK,
    IsTracingEnabled; rewrite ?Hon; try done; destruct s; by rewrite ?Hoff.
Qed.
End tracing.

(** Tracing that was set up is on, and flushed at the end; without a collector it is
    off whatever else is configured. *)
Lemma on_iff_exporter Getenv New Merge :
  let t := (InitTracing Getenv New Merge no_tracing).2 in
  (tracingEnabled t = true ↔ is_Some (exporter t)) ∧
  (tracingEnabled t = true ↔ Getenv "OTEL_ENABLED" = "true" ∧ trace_endpoint Getenv ≠ EmptyString ∧
     (∃ u, New (trace_exporter Getenv) = Ok u) ∧ ∃ u, Merge = Ok u).
Proof.
  unfold InitTracing. simpl.
  assert (∀ P : Prop, ¬ P → (false = true ↔ is_Some (@None Exporter)) ∧ (false = true ↔ P)) as Hoff.
  { intros P HP. split; split; [done|by intros [? ?]|done|tauto]. }
  case_bool_decide as He; simpl; [|apply Hoff; tauto].
  destruct (str_empty (trace_endpoint Getenv)) eqn:Hp; simpl.
  { apply str_empty_true in Hp. apply Hoff. tauto. }
  apply str_empty_false in Hp.
  destruct (New _) as [u|e]; simpl; [|apply Hoff; by intros (_ & _ & [x Hx] & _)].
  destruct Merge as [u'|e]; simpl; [|apply Hoff; by intros (_ & _ & _ & [x Hx])].
  split; [by split; eauto|]. split; [|done]. intros _. eauto 6.
Qed.
End Tracing.
