(* ===== verification/Pumps.v ===== *)
(** * The two goroutines of a connection (hub.go)

    [writePump] takes frames from the send channel and writes them, and a ping at
    every tick; [readPump] reads frames until the peer is silent for too long.  A
    state has the connection the hub knows, the socket and the position of both
    goroutines; an event is one round of one of them, something the peer does, or
    an operation of the hub on the connection.  Times are those at which the event
    happens.  Whether a write succeeds is the socket's choice; on a closed socket
    nothing succeeds.  [writeMu] is held within a round only, so rounds do not
    overlap. *)

From S2P Require Import Prelude GoLib Hub.

Definition pongWait : Z := 60 * Second.
Definition pingPeriod : Z := Z.quot (pongWait * 9) 10.
Definition writeWait : Z := 10 * Second.

(** ** States *)

Inductive Frame := TextMessage (d : json) | PingMessage | CloseMessage.

Record Socket := mkSocket {
  written : list Frame;
  sock_closed : bool;
  readLimit : Z;
  readDeadline : Z;
  writeDeadline : Z
}.

(** [Reading] is in its loop, [Leaving] in the deferred send to [unregister]. *)
Inductive read_pc := Reading | Leaving | ReadDone.

Record Pump := mkPump {
  conn : Connection;
  sock : Socket;
  writing : bool;
  rpc : read_pc;
  routed : list json;
  MessagesIn : Z;
  MessagesOut : Z
}.

Definition set_conn (c : Connection) (p : Pump) : Pump :=
  mkPump c (sock p) (writing p) (rpc p) (routed p) (MessagesIn p) (MessagesOut p).
Definition set_sock (f : Socket → Socket) (p : Pump) : Pump :=
  mkPump (conn p) (f (sock p)) (writing p) (rpc p) (routed p) (MessagesIn p) (MessagesOut p).
Definition set_writing (b : bool) (p : Pump) : Pump :=
  mkPump (conn p) (sock p) b (rpc p) (routed p) (MessagesIn p) (MessagesOut p).
Definition set_rpc (pc : read_pc) (p : Pump) : Pump :=
  mkPump (conn p) (sock p) (writing p) pc (routed p) (MessagesIn p) (MessagesOut p).
Definition count_out (p : Pump) : Pump :=
  mkPump (conn p) (sock p) (writing p) (rpc p) (routed p) (MessagesIn p) (MessagesOut p + 1).
Definition route (d : json) (p : Pump) : Pump :=
  mkPump (conn p) (sock p) (writing p) (rpc p) (routed p ++ [d]) (MessagesIn p + 1) (MessagesOut p).

(** [conn.Close()], [SetReadDeadline], [SetWriteDeadline], a frame written. *)
Definition close_sock (s : Socket) : Socket :=
  mkSocket (written s) true (readLimit s) (readDeadline s) (writeDeadline s).
Definition set_read_deadline (t : Z) (s : Socket) : Socket :=
  mkSocket (written s) (sock_closed s) (readLimit s) t (writeDeadline s).
Definition set_write_deadline (t : Z) (s : Socket) : Socket :=
  mkSocket (written s) (sock_closed s) (readLimit s) (readDeadline s) t.
Definition put_frame (f : Frame) (s : Socket) : Socket :=
  mkSocket (written s ++ [f]) (sock_closed s) (readLimit s) (readDeadline s) (writeDeadline s).

(** The connection as the connect handler makes it, with [readPump] at the start of
    its loop. *)
Definition start_pumps (c : Connection) (limit now : Z) : Pump :=
  mkPump c (mkSocket [] false limit (now + pongWait) 0) true Reading [] 0 0.

(** ** Steps *)

Inductive event :=
  | HubSends (d : json)
  | HubCloses
  | WriteRound (t : Z) (ok : bool)
  | PingRound (t : Z) (ok : bool)
  | PeerFrame (t : Z) (size : Z) (d : json)
  | PeerPong (t : Z)
  | ReadFails (t : Z)
  | Unregistered.

(** The deferred calls of [writePump]. *)
Definition write_exit (p : Pump) : Pump := set_writing false (set_sock close_sock p).

(** [WriteMessage] after [SetWriteDeadline]; on failure the pump returns. *)
Definition write_frame (t : Z) (ok : bool) (f : Frame) (p : Pump) : Pump :=
  let p := set_sock (set_write_deadline (t + writeWait)) p in
  if ok then set_sock (put_frame f) p else write_exit p.

(** The receive from the channel: a frame, or that the hub closed it. *)
Definition write_round (t : Z) (ok : bool) (p : Pump) : option Pump :=
  match send (conn p) with
  | d :: l =>
      Some (write_frame t ok (TextMessage d) (count_out (set_conn (set_send l (conn p)) p)))
  | [] =>
      if send_closed (conn p) then
        let p := set_sock (set_write_deadline (t + writeWait)) p in
        Some (write_exit (if ok then set_sock (put_frame CloseMessage) p else p))
      else None
  end.

(** A frame is read up to the deadline and the limit; beyond them the read fails. *)
Definition pump_step (e : event) (p : Pump) : option Pump :=
  match e with
  | HubSends d => Some (set_conn (SafeSend d (conn p)).2 p)
  | HubCloses => c ← close_send (MarkClosed (conn p)); Some (set_conn c p)
  | WriteRound t ok =>
      if writing p && (negb ok || negb (sock_closed (sock p))) then write_round t ok p else None
  | PingRound t ok =>
      if writing p && (negb ok || negb (sock_closed (sock p)))
      then Some (write_frame t ok PingMessage p) else None
  | PeerFrame t size d =>
      match rpc p with
      | Reading =>
          if negb (sock_closed (sock p)) && bool_decide (t ≤ readDeadline (sock p)) &&
             bool_decide (size ≤ readLimit (sock p))
          then Some (route d p) else None
      | _ => None
      end
  | PeerPong t =>
      match rpc p with
      | Reading =>
          if negb (sock_closed (sock p)) && bool_decide (t ≤ readDeadline (sock p))
          then Some (set_sock (set_read_deadline (t + pongWait)) p) else None
      | _ => None
      end
  | ReadFails t => match rpc p with Reading => Some (set_rpc Leaving p) | _ => None end
  | Unregistered =>
      match rpc p with Leaving => Some (set_rpc ReadDone (set_sock close_sock p)) | _ => None end
  end.

Fixpoint pump_run (es : list event) (p : Pump) : option Pump :=
  match es with
  | [] => Some p
  | e :: es => p ← pump_step e p; pump_run es p
  end.

(** ** Nothing accepted is lost or reordered *)

Definition text_of (f : Frame) : option json := match f with TextMessage d => Some d | _ => None end.
Definition texts (fs : list Frame) : list json := omap text_of fs.

(** The frames the channel has taken, and whether a write has failed. *)
Fixpoint accepted (es : list event) (p : Pump) : list json :=
  match es with
  | [] => []
  | e :: es =>
      match e with HubSends d => if (SafeSend d (conn p)).1 then [d] else [] | _ => [] end ++
      match pump_step e p with Some p' => accepted es p' | None => [] end
  end.

Definition write_failed (e : event) : Prop :=
  match e with WriteRound _ false | PingRound _ false => True | _ => False end.

Record pump_inv (failed : Prop) (acc : list json) (p : Pump) : Prop := {
  inv_frames : ∃ lost, acc = texts (written (sock p)) ++ lost ++ send (conn p) ∧
    MessagesOut p = Z.of_nat (length (texts (written (sock p)) ++ lost)) ∧
    (lost = [] ∨ (∃ d, lost = [d]) ∧ writing p = false ∧ failed) ∧
    (writing p = false → failed ∨
       lost = [] ∧ send (conn p) = [] ∧ send_closed (conn p) = true ∧
       last (written (sock p)) = Some CloseMessage);
  inv_room : (length (send (conn p)) ≤ send_capacity)%nat;
  inv_open : writing p = true → CloseMessage ∉ written (sock p)
}.

Lemma texts_snoc fs f : texts (fs ++ [f]) = texts fs ++ texts [f].
Proof. unfold texts. apply omap_app. Qed.

Definition accepts (e : event) (p : Pump) : list json :=
  match e with HubSends d => if (SafeSend d (conn p)).1 then [d] else [] | _ => [] end.

(** A step that touches neither the channel nor the written frames. *)
Lemma inv_same F F' acc p p' :
  pump_inv F acc p → (F → F') → send (conn p') = send (conn p) →
  send_closed (conn p') = send_closed (conn p) → written (sock p') = written (sock p) →
  writing p' = writing p → MessagesOut p' = MessagesOut p → pump_inv F' acc p'.
Proof.
  intros [(lost & H1 & H2 & H3 & H4) Hr Ho] HF E1 E2 E3 E4 E5.
  constructor; [|by rewrite E1|by rewrite E3, E4].
  exists lost. rewrite E1, E2, E3, E4, E5. split_and!; [done..|tauto|tauto].
Qed.

Lemma write_frame_inv F acc t ok f p d :
  pump_inv F acc p → writing p = true → f ≠ CloseMessage → text_of f = d →
  ∀ q, (d = None → q = p) →
    (∀ x, d = Some x → ∃ l, send (conn p) = x :: l ∧ q = count_out (set_conn (set_send l (conn p)) p)) →
  pump_inv (F ∨ ok = false) acc (write_frame t ok f q).
Proof.
  intros [(lost & H1 & H2 & H3 & H4) Hr Ho] Hw Hf Hd q Hnone Hsome.
  destruct H3 as [->|(_ & H3 & _)]; [|congruence]. specialize (Ho Hw). simpl in H1.
  assert (sock q = sock p ∧ writing q = writing p) as [Hs Hw'].
  { destruct d as [x|]; [|by rewrite Hnone]. by destruct (Hsome x eq_refl) as (l & _ & ->). }
  assert (acc = texts (written (sock p)) ++ texts [f] ++ send (conn q) ∧
    MessagesOut q = Z.of_nat (length (texts (written (sock p)) ++ texts [f])) ∧
    (length (send (conn q)) ≤ send_capacity)%nat) as (A1 & A2 & A3).
  { unfold texts at 2 4. simpl. rewrite Hd. destruct d as [x|].
    - destruct (Hsome x eq_refl) as (l & Hl & ->). rewrite Hl in *. simpl in *.
      rewrite H1, H2, !length_app. simpl. split_and!; [done|lia|lia].
    - rewrite (Hnone eq_refl). simpl. by rewrite app_nil_r in *. }
  unfold write_frame. destruct ok; constructor; simpl; rewrite ?Hs; try done.
  - exists []. rewrite texts_snoc, Hw', <- app_assoc, app_nil_r. split_and!; [done|done|by left|congruence].
  - intros _. rewrite elem_of_app, list_elem_of_singleton. intros [?|?]; [done|by subst f].
  - exists (texts [f]). split_and!; [done..| |by left; right].
    unfold texts. simpl. rewrite Hd. destruct d as [x|]; [right; eauto 6|by left].
Qed.

Lemma inv_closes F acc p ok t :
  pump_inv F acc p → writing p = true → send (conn p) = [] → send_closed (conn p) = true →
  let q := set_sock (set_write_deadline t) p in
  pump_inv (F ∨ ok = false) acc (write_exit (if ok : bool then set_sock (put_frame CloseMessage) q else q)).
Proof.
  intros [(lost & H1 & H2 & H3 & H4) Hr Ho] Hw Hs Hc q.
  destruct H3 as [->|(_ & H3 & _)]; [|congruence]. rewrite Hs in H1. simpl in H1. rewrite app_nil_r in *.
  destruct ok; constructor; simpl; rewrite ?Hs; try (simpl; lia); try done.
  - exists []. rewrite texts_snoc, !app_nil_r. split_and!; [done|done|by left|]. intros _. right.
    rewrite last_snoc. done.
  - exists []. rewrite !app_nil_r. split_and!; [done|done|by left|]. intros _. left. by right.
Qed.

Lemma pump_step_inv F acc e p p' :
  pump_inv F acc p → pump_step e p = Some p' →
  pump_inv (F ∨ write_failed e) (acc ++ accepts e p) p'.
Proof.
  intros Hi He. pose proof Hi as [(lost & H1 & H2 & H3 & H4) Hr Ho].
  destruct e as [d| |t ok|t ok|t size d|t|t|]; simpl in He; simpl accepts; rewrite ?app_nil_r.
  - injection He as <-. unfold SafeSend. destruct (IsClosed (conn p)) eqn:Hcl.
    { rewrite app_nil_r. eapply inv_same; [exact Hi|tauto|done..]. }
    destruct (send_closed (conn p)) eqn:Hsc.
    { rewrite app_nil_r. eapply inv_same; [exact Hi|tauto|done..]. }
    case_decide as Hlen; simpl; [|rewrite app_nil_r; eapply inv_same; [exact Hi|tauto|done..]].
    constructor; simpl; [|rewrite length_app; simpl; lia|done]. exists lost.
    rewrite H1, <- !app_assoc. split_and!; [done|done|tauto|]. intros Hw.
    destruct (H4 Hw) as [?|(_ & _ & ? & _)]; [by left; left|congruence].
  - destruct (close_send _) as [c|] eqn:Hc; [|done]. injection He as <-.
    unfold close_send in Hc. simpl in Hc. destruct (send_closed (conn p)) eqn:Hsc; [done|].
    injection Hc as <-. constructor; simpl; [|done|done]. exists lost.
    split_and!; [done..|tauto|]. intros Hw. destruct (H4 Hw) as [?|(_ & _ & ? & _)]; [tauto|congruence].
  - destruct (writing p) eqn:Hw; [|done]. destruct (negb ok || _); [|done]. simpl in He.
    assert (∀ q, pump_inv (F ∨ ok = false) acc q → pump_inv (F ∨ write_failed (WriteRound t ok)) acc q) as Hmono.
    { intros q Hq. eapply inv_same; [exact Hq| |done..]. destruct ok; simpl; [|tauto]. intros [?|?]; [by left|done]. }
    apply Hmono. unfold write_round in He. destruct (send (conn p)) as [|d l] eqn:Hs.
    + destruct (send_closed (conn p)) eqn:Hsc; [|done]. injection He as <-.
      by apply (inv_closes F acc p ok (t + writeWait)).
    + injection He as <-. apply (write_frame_inv F acc t ok (TextMessage d) p (Some d)); try done.
      intros x [= <-]. by exists l.
  - destruct (writing p) eqn:Hw; [|done]. destruct (negb ok || _); [|done]. injection He as <-.
    eapply inv_same; [apply (write_frame_inv F acc t ok PingMessage p None); try done| |done..].
    destruct ok; simpl; [|tauto]. intros [?|?]; [by left|done].
  - destruct (rpc p); try done. destruct (_ && _); [|done]. injection He as <-.
    eapply inv_same; [exact Hi|tauto|done..].
  - destruct (rpc p); try done. destruct (_ && _); [|done]. injection He as <-.
    eapply inv_same; [exact Hi|tauto|done..].
  - destruct (rpc p); try done. injection He as <-. eapply inv_same; [exact Hi|tauto|done..].
  - destruct (rpc p); try done. injection He as <-. eapply inv_same; [exact Hi|tauto|done..].
Qed.

Lemma pump_run_inv es F acc p p' :
  pump_inv F acc p → pump_run es p = Some p' →
  pump_inv (F ∨ Exists write_failed es) (acc ++ accepted es p) p'.
Proof.
  revert F acc p. induction es as [|e es IH]; intros F acc p Hi; simpl.
  - intros [= <-]. rewrite app_nil_r. eapply inv_same; [exact Hi|tauto|done..].
  - intros (q & Hq & Hrun)%bind_Some. rewrite Hq, app_assoc.
    pose proof (pump_step_inv F acc e p q Hi Hq) as Hi'.
    eapply inv_same; [apply (IH _ _ _ Hi' Hrun)| |done..]. rewrite Exists_cons. tauto.
Qed.

(** C11: What the send channel of a connection has accepted is written to
    the socket as text frames, in that order and once: what is written and what is
    in the channel are together what was accepted, but for at most one frame, the
    one whose write failed and ended the pump.  When the pump ends and no write
    has failed, everything accepted was written and the close frame is last. *)
Theorem pumps_deliver es c limit now p :
  send c = [] → pump_run es (start_pumps c limit now) = Some p →
  let acc := accepted es (start_pumps c limit now) in
  (∃ lost, acc = texts (written (sock p)) ++ lost ++ send (conn p) ∧ (length lost ≤ 1)%nat ∧
     (lost ≠ [] → writing p = false ∧ Exists write_failed es)) ∧
  (writing p = false → ¬ Exists write_failed es →
     acc = texts (written (sock p)) ∧ last (written (sock p)) = Some CloseMessage) ∧
  (length (send (conn p)) ≤ send_capacity)%nat.
Proof.
  intros Hc Hrun acc.
  assert (pump_inv False [] (start_pumps c limit now)) as H0.
  { constructor; simpl; rewrite ?Hc; [|simpl; lia|intros _; apply not_elem_of_nil].
    exists []. simpl. split_and!; [done|done|by left|done]. }
  destruct (pump_run_inv es _ _ _ _ H0 Hrun) as [(lost & H1 & H2 & H3 & H4) Hr _].
  fold acc in H1. simpl in H1. split; [|split; [|exact Hr]].
  - exists lost. split; [done|]. destruct H3 as [->|([d ->] & Hw & [[]|Hf])]; simpl; [split; [lia|done]|].
    split; [lia|done].
  - intros Hw Hf. destruct (H4 Hw) as [[[]|?]|(-> & Hs & _ & Hl)]; [done|]. rewrite Hs in H1.
    by rewrite !app_nil_r in H1.
Qed.

(** The channel side of a round is the hub's [take_send]. *)
Lemma write_round_take t ok r h p p' :
  heap h !! r = Some (conn p) → write_round t ok p = Some p' →
  heap (take_send r h).2 !! r = Some (conn p').
Proof.
  intros Hr. unfold write_round, take_send. rewrite Hr. destruct (send (conn p)) as [|d l].
  - destruct (send_closed (conn p)); [|done]. intros [= <-]. simpl. rewrite Hr. by destruct ok.
  - intros [= <-]. simpl. rewrite lookup_insert_eq. by destruct ok.
Qed.

(** ** Keeping the connection alive *)

Definition pongs (es : list event) : list Z :=
  omap (λ e, match e with PeerPong t => Some t | _ => None end) es.

Lemma deadline_step e p p' :
  pump_step e p = Some p' →
  readDeadline (sock p') =
    match e with PeerPong t => t + pongWait | _ => readDeadline (sock p) end.
Proof.
  destruct e as [d| |t ok|t ok|t size d|t|t|]; simpl; intros He.
  - by injection He as <-.
  - by destruct (close_send _); simplify_eq/=.
  - destruct (_ && _); [|done]. unfold write_round in He. destruct (send (conn p)).
    + destruct (send_closed _); [|done]. injection He as <-. by destruct ok.
    + injection He as <-. by destruct ok.
  - destruct (_ && _); [|done]. injection He as <-. by destruct ok.
  - destruct (rpc p); try done. destruct (_ && _); [|done]. by injection He as <-.
  - destruct (rpc p); try done. destruct (_ && _); [|done]. by injection He as <-.
  - destruct (rpc p); try done. by injection He as <-.
  - destruct (rpc p); try done. by injection He as <-.
Qed.

Lemma deadline_run es p p' :
  pump_run es p = Some p' →
  readDeadline (sock p') =
    match last (pongs es) with Some t => t + pongWait | None => readDeadline (sock p) end.
Proof.
  revert p. induction es as [|e es IH]; intros p; simpl; [by intros [= ->]|].
  intros (q & Hq & Hrun)%bind_Some. rewrite (IH _ Hrun), (deadline_step _ _ _ Hq).
  unfold pongs. simpl. destruct e; try done. rewrite last_cons. by destruct (last _).
Qed.

(** The [k]th ping of a write pump that started at [s], and the time a peer may take
    for its answer. *)
Definition ping_time (s : Z) (k : nat) : Z := s + (Z.of_nat k + 1) * pingPeriod.
Definition slack : Z := pongWait - pingPeriod.


(** ** A connection in action *)

Definition demo_pump : Pump := start_pumps (newConnection Client "u1" "phone" 0 "v1") 65536 0.

Definition demo_life : list event :=
  [HubSends (JStr "a"); HubSends (JStr "b"); WriteRound 1 true; PeerFrame 2 100 (JStr "x");
   PingRound (54 * Second) true; PeerPong (55 * Second); HubCloses; HubSends (JStr "c");
   WriteRound (56 * Second) true; WriteRound (57 * Second) true; ReadFails (57 * Second); Unregistered].

Example demo_wire :
  (λ p, (written (sock p), routed p, writing p, rpc p)) <$> pump_run demo_life demo_pump =
  Some ([TextMessage (JStr "a"); PingMessage; TextMessage (JStr "b"); CloseMessage], [JStr "x"],
        false, ReadDone).
Proof. vm_compute. reflexivity. Qed.

Lemma pumps_deliver_witness :
  ∃ p, pump_run demo_life demo_pump = Some p ∧
  let acc := accepted demo_life demo_pump in
  acc = [JStr "a"; JStr "b"] ∧
  (∃ lost, acc = texts (written (sock p)) ++ lost ++ send (conn p) ∧ (length lost ≤ 1)%nat ∧
     (lost ≠ [] → writing p = false ∧ Exists write_failed demo_life)) ∧
  (writing p = false → ¬ Exists write_failed demo_life →
     acc = texts (written (sock p)) ∧ last (written (sock p)) = Some CloseMessage) ∧
  (length (send (conn p)) ≤ send_capacity)%nat.
Proof.
  destruct (pump_run demo_life demo_pump) as [p|] eqn:Hrun; [|vm_compute in Hrun; discriminate].
  exists p. split; [reflexivity|]. split; [vm_compute; reflexivity|].
  exact (pumps_deliver demo_life (newConnection Client "u1" "phone" 0 "v1") 65536 0 p eq_refl Hrun).
Defined.

